(* ===== verification/_CoqProject ===== *)
-Q . S2P
Prelude.v
GoTime.v
Env.v
Store.v
Sql.v
Sqlite.v
AesGcm.v
Crypto.v
Encrypted.v
History.v
Stack.v
DataProps.v
GoLib.v
Net.v
Filepath.v
Json.v
Strconv.v
FS.v
Auth.v
Api.v
ApiLaws.v
ApiProps.v
AuthProps.v
UserStore.v
Config.v
Keys.v
Migrations.v
Open.v
RateLimit.v
Float.v
FloatUp.v
FloatNear.v
RateProps.v
RateBound.v
RateLate.v
JsonEnc.v
Http.v
Server.v
ServerLaws.v
ServerProps.v
Lifecycle.v
Cli.v
CliProps.v
UserProps.v
EndToEnd.v
Startup.v
StartupProps.v
Admin.v
AdminProps.v
