(* ===== verification/Prelude.v ===== *)
(** Verification of tabby-sync: guide to the development, and its prelude.

    * The program

    tabby-sync is a small HTTP server that stores the configurations of the
    Tabby terminal, encrypted, per user.  Its parts, and how they interact:

    - [internal/store] declares the records and two interfaces: [Store], rows
      with ciphertext, and [EncryptedStore], rows with plaintext.
    - [internal/store/sqlite] implements [Store] with SQL statements on one
      pooled connection; its migrations create the schema.
    - [internal/crypto] seals content with AES-256-GCM under a key derived
      from the master key and the user, bound to (user, configuration).
    - [internal/store/encrypted] implements [EncryptedStore] over a [Store]
      and the envelope; updates are a read-compare-write loop.
    - [internal/api] has the six HTTP handlers over [EncryptedStore].
    - [internal/auth] loads users.yml and authenticates bearer tokens.
    - [internal/ratelimit] has the token buckets.
    - [internal/server] and its middleware compose all of that into the
      handler of the process; [internal/config] and [internal/keys] supply
      settings and the master key; [internal/cli] starts the server and
      manages users.yml.

    * Files, and what they model

    Foundations:
    - Prelude: errors, results, the effect monad [M], tactics, shared lemmas.
    - GoTime: instants, calendar, RFC 3339 text.  Env: clock, randomness and
      request context as a script; [World] threads it with the database.
    - GoLib: strings, hex, SHA-256, integers as text.  Strconv: quoting, as %q
      prints it.  AesGcm: AES-GCM (with the
      standard's vectors).  Json, JsonEnc: encoding/json's decoder and
      encoder.  Net: addresses and CIDR blocks.  Filepath: Clean, Dir, Base
      and Join.  FS: files and directories with their modes, every call on
      which may fail.
      Float, FloatUp, FloatNear: how far binary64 rounding can go down, up and,
      on data of either sign, either way.
    Data layer:
    - Store: store.go; [StoreSpec] and [EncryptedStoreSpec] are its documented
      contracts as type classes, one law per method, under interference of
      other goroutines; [lost] are the rows that exist and cannot be read.
    - Sql: the statements the store issues; [SqlEngine] is the engine as a
      class with laws (transactions, isolation, ErrNoRows, failures, results
      that cannot be reported, listings that break off), and [Table] an
      instance.  Sqlite: sqlite.go, method by method; [Section ids]
      is the AUTOINCREMENT argument.
    - Crypto: crypto.go; HKDF (golang.org/x/crypto) is a class.
    - Encrypted: encrypted.go over any [Store]; [enc_spec] is the refinement.
      Keys are slices into the buffers of the process, which New copies and
      Close wipes.
    - History: requests in sequence and interleaved, against the interface.
      Stack: the encrypting store over SQLite as cli.go assembles it.
    - Migrations: migrations.go and the embedded schema.  Open: sqlite.Open,
      the pragmas, the file modes; [SqlDriver] is the driver as a class, and a
      [Host] the machine (files, database, open handles).
    Server:
    - Api: handlers.go, dto.go.  ApiLaws: their laws against the interface.
    - Auth: users.go, store.go, the decision of middleware.go.  UserStore: the
      store behind its atomic pointer, as goroutines share it, and the store
      in which every call happens at one instant.
    - RateLimit: ratelimit.go with IEEE binary64 arithmetic.
    - Http: the response writer with its stack of status recorders, and every
      middleware.  Server: routing, response bytes, buildHandler, New.
      ServerLaws: what reaches the store, which headers are sent, what the
      recorders count.  EndToEnd: the chain as one function of a request with
      credentials.
    - Config, Keys: config.go; keys.go and the two providers.
    - Lifecycle: server.Run as a step relation of its two goroutines, the
      connections and the shutdown deadline.
    - Cli: usercmd.go's user commands and bootstrap, cli.go's scrubbing.
      Startup: runServe, with its log lines.  Admin: init, doctor, the
      dispatch of cli.Run, version.go and main.
    The theorems are in DataProps, ApiProps, AuthProps, ServerProps, RateProps,
    RateBound, RateLate, CliProps, UserProps, EndToEnd, StartupProps, AdminProps
    and at the end of UserStore, Config, Keys, Migrations, Open, RateLimit and
    Lifecycle.

    * What the theorems show

    - Isolation: no request, whatever it is and however it interleaves with
      others, changes rows of a user whose token it does not carry
      ([ServerProps.server_isolation], down to the SQL statements).
    - Refinement: the SQLite store implements [StoreSpec] and the stack
      implements [EncryptedStoreSpec], on every branch, for every engine
      fault, clock, randomness and interleaving, rows that cannot be read
      included.
    - End to end: a request with credentials is answered by exactly the API
      handler of its path, run as the user of its token, behind the body limit
      and one decision of the limiter ([request_answered]); after a bootstrap the first request
      with the new token is answered with the new user ([first_login]).
    - The envelope: round trip, rejection of everything else, no replay under
      another identity, stored rows stay decryptable.
    - Updates: exact patch semantics, termination of the retry loop under
      contention, idempotence; creation is atomic, identifiers are not reused.
    - HTTP: the answers of the API, endpoint by endpoint ([api_answers]), one
      uniform answer to failed authentication, nine headers on every response,
      of the server's mux and of any handler that does not overwrite them
      ([security_headers_everywhere]), a truthful access log, what becomes of
      panics ([panic_contained]), JSON with the documented members.
    - Authentication, key file, migrations, user commands: exact behaviour and
      atomicity under failing calls.
    - Credentials: each user command changes whom the server accepts in one
      intended way: a new user and token ([added_user_can_log_in]), a new
      token in place of the old one ([rotated_token_only]), one user less
      ([removed_user_locked_out]), a first user ([bootstrap_first_user]).
    - Reloading users: concurrent lookups and reloads are linearizable
      ([user_store_linearizable]), none waits for another ([wait_free]), and a
      Reload that has returned is in force ([reload_visible]).
    - The limiter: keys do not affect each other, eviction cannot be observed
      ([sweeper_invisible_late]), at most 60 requests and one more per second
      get through in any span of time ([rate_bound_late]), also when calls get
      the lock in another order than that in which they read the clock; with
      times in order, the same without a bound on the number of calls
      ([sweeper_invisible], [rate_bound]), and a request after an idle second
      is always served ([idle_second_served]).
    - Startup: serve starts only the handler of [server_isolation], on a
      database that Open has verified, and leaves neither handle nor listener
      nor key bytes behind; what it logs before that does not have the
      configured strings in it.  Once told to stop, Run returns, whatever
      clients do ([run_returns]), with what happened ([run_result]).
    - init keeps every file there is but the database's and leaves a complete
      installation; what doctor reports is so, and it makes no directory but
      the data directory.
    - Findings: [concurrent_patches_mix], [quota_race], [removed_id_reused],
      [trailing_data_accepted], [duplicate_hash_panics], [data_dir_leaked],
      [torn_key_accepted], [doctor_blind_spots], [minute_burst],
      [flush_unrecorded] and [add_breaks_file] state behaviour that the code
      does not seem to intend.

    * Bounds and fuel

    - The update loop takes the number of rounds as an argument and reports
      [None] when it has not returned; [patch_terminates] bounds the rounds by
      the moments at which other goroutines move the row's timestamp.
    - The JSON parser has fuel 2 * length + 1; [Json.parse_fuel] shows that
      more changes nothing.  Trimming, escaping and replacing have the length
      of their input, and their lemmas show that it is enough; so has the
      walk of MkdirAll up to the root, which shortens the path at each step.
    - RateLate allows a call to take effect 20 seconds after it read the clock
      and 2 ^ 40 calls in all: up to 30 seconds an evicted bucket would be full
      again, and so many rounding errors stay below a quarter of a token.
    - int64 values keep their range where it matters (identities in the
      envelope, IDs of new users, path IDs, durations).

    * What is not modelled

    The listener's and the connections' I/O: [net_Listen] is a parameter of
    serve, and Lifecycle has connections only as idle or busy.  Panics of the
    program's own handlers: in the model they return, and the middleware is
    proved for any handler that may panic.  The umask,
    permissions and owners of files (a mode is what was asked for).  Quoting of
    text that is not ASCII depends on Unicode's table of printable characters,
    which is left out.  Log output other than the records
    of startup, the API, the access log, panics and authentication.  The SQL
    engine, the SQLite driver, HKDF, the YAML codec, Unicode case folding and
    the text of net/http's redirects are parameters, the first three as classes
    with laws and an instance each. *)

From stdpp Require Export base tactics list gmap strings sorting pretty.
From Stdlib Require Export ZArith Lia Ascii.
From Stdlib Require Strings.Byte.

#[global] Open Scope Z_scope.
#[global] Set Default Proof Using "Type".
#[global] Unset Printing Records.

(** ** Bytes and machine integers

    A Go [[]byte] is a [list Byte.byte]; a Go [string] is Rocq's [string],
    whose characters are bytes.  An [int64] is a [Z] in [int64_range]. *)

Abbreviation byte := Byte.byte.
Abbreviation bytes := (list Byte.byte).

#[global] Instance byte_eq_dec : EqDecision Byte.byte.
Proof. intros a b. exact (Byte.byte_eq_dec a b). Defined.

Definition min_int64 : Z := - 2 ^ 63.
Definition max_int64 : Z := 2 ^ 63 - 1.
Definition int64_range (z : Z) : Prop := min_int64 ≤ z ≤ max_int64.

(** Conversion [int64 -> uint64]: the two's-complement bit pattern. *)
Definition uint64_of (z : Z) : Z := z mod 2 ^ 64.

(** Go's wrapping [int64] arithmetic. *)
Definition wrap64 (z : Z) : Z := (z + 2 ^ 63) mod 2 ^ 64 - 2 ^ 63.

(** [[]byte(s)] and [string(b)]. *)
Definition bytes_of_string (s : string) : bytes := String.list_byte_of_string s.
Definition string_of_bytes (b : bytes) : string := String.string_of_list_byte b.

(** ** Errors

    A Go error value is a sentinel (a package-level [errors.New] variable
    that the code compares with [errors.Is]), a one-off [errors.New] or
    [fmt.Errorf] without [%w], a [fmt.Errorf] that wraps another error with
    [%w], or an error that the driver, the operating system or another
    library made: such an error carries no sentinel of this repository. *)

Inductive sentinel :=
  | ErrConfigNotFound | ErrInvalidPatch | ErrConfigChanged   (* store *)
  | ErrDecrypt                                               (* crypto *)
  | ErrNoRows                                                (* database/sql *)
  | ErrUnauthorized                                          (* auth *)
  | ErrInvalidLength | ErrMissing                            (* keys *)
  | ErrNotExist                                              (* io/fs *)
  | Canceled | DeadlineExceeded.                             (* context *)

#[global] Instance sentinel_eq_dec : EqDecision sentinel.
Proof. solve_decision. Defined.

Inductive error :=
  | ErrSentinel (s : sentinel)
  | ErrNew (msg : string)
  | ErrWrap (pre : string) (inner : error) (post : string)
  | ErrExternal (msg : string).

#[global] Instance error_eq_dec : EqDecision error.
Proof. solve_decision. Defined.

(** [errors.Is(err, target)] for a sentinel target. *)
Fixpoint errors_is (e : error) (target : sentinel) : bool :=
  match e with
  | ErrSentinel s => bool_decide (s = target)
  | ErrNew _ | ErrExternal _ => false
  | ErrWrap _ e' _ => errors_is e' target
  end.

(** An error from outside the repository: nothing in its chain but, possibly,
    the request context's own errors, which [database/sql] hands through. *)
Definition no_sentinel (e : error) : Prop :=
  ∀ s, errors_is e s = true → s = Canceled ∨ s = DeadlineExceeded.

(** ** Results and the effect monad

    A fallible call returns [result A]; an effectful one is a function of
    the world, [M W A].  A failing call still returns the world it left. *)

Inductive result (A : Type) : Type :=
  | Ok (a : A)
  | Err (e : error).
Arguments Ok {A} a.
Arguments Err {A} e.

Definition is_ok {A} (r : result A) : bool :=
  match r with Ok _ => true | Err _ => false end.

Definition M (W A : Type) : Type := W → result A * W.

Definition ret {W A} (a : A) : M W A := λ w, (Ok a, w).
Definition fail {W A} (e : error) : M W A := λ w, (Err e, w).
Definition lift {W A} (r : result A) : M W A := λ w, (r, w).

Definition bind {W A B} (m : M W A) (k : A → M W B) : M W B :=
  λ w, match m w with
       | (Ok a, w') => k a w'
       | (Err e, w') => (Err e, w')
       end.

(** [attempt m] hands the error of [m] to the caller as a value, for code
    that inspects it: [if err != nil { ... }]. *)
Definition attempt {W A} (m : M W A) : M W (result A) :=
  λ w, let '(r, w') := m w in (Ok r, w').

(** [if err := m; err != nil { return fmt.Errorf("pre: %w", err) }]. *)
Definition wrapf {W A} (pre : string) (m : M W A) : M W A :=
  λ w, match m w with
       | (Ok a, w') => (Ok a, w')
       | (Err e, w') => (Err (ErrWrap pre e ""), w')
       end.

(** A computation that reads the world and cannot fail. *)
Definition reads {W A} (f : W → A * W) : M W A :=
  λ w, let '(a, w') := f w in (Ok a, w').

Declare Scope go_scope.
Delimit Scope go_scope with go.
Notation "'let!' x ':=' m 'in' k" := (bind m (λ x, k))
  (at level 10, x name, m at level 100, k at level 200,
   format "'[v' 'let!'  x  ':='  m  'in' '/' k ']'") : go_scope.
Notation "'let!' ' p ':=' m 'in' k" := (bind m (λ x, match x with p => k end))
  (at level 10, p pattern, m at level 100, k at level 200) : go_scope.
Notation "m ';;;' k" := (bind m (λ _, k))
  (at level 199, right associativity) : go_scope.
#[global] Open Scope go_scope.

(** ** Tactics *)

Lemma bind_run {W A B} (m : M W A) (k : A → M W B) w :
  bind m k w = match m w with (Ok a, w') => k a w' | (Err e, w') => (Err e, w') end.
Proof. reflexivity. Qed.

Lemma attempt_run {W A} (m : M W A) w :
  attempt m w = (Ok (m w).1, (m w).2).
Proof. unfold attempt. by destruct (m w). Qed.

Lemma wrapf_run {W A} pre (m : M W A) w :
  wrapf pre m w = match m w with
                  | (Ok a, w') => (Ok a, w')
                  | (Err e, w') => (Err (ErrWrap pre e ""), w')
                  end.
Proof. reflexivity. Qed.

(** [mrun] runs the monadic steps of a hypothesis [prog w = (r, w')]: it
    splits each effect into its outcomes and names its equation. *)
Ltac innermost x :=
  lazymatch x with
  | match ?y with _ => _ end => innermost y
  | _ => x
  end.
Ltac split_effect H x :=
  lazymatch x with
  | bind _ _ _ => rewrite bind_run in H
  | wrapf _ _ _ => rewrite wrapf_run in H
  | attempt _ _ => rewrite attempt_run in H; cbn [fst snd] in H
  | ret _ _ => unfold ret at 1 in H
  | fail _ _ => unfold fail at 1 in H
  | lift _ _ => unfold lift at 1 in H
  | reads _ _ => unfold reads at 1 in H
  | _ => destruct x as [[?|?] ?] eqn:?
  end.
Ltac mstep :=
  match goal with
  | H : match ?x with _ => _ end = (_, _) |- _ =>
      let y := innermost x in split_effect H y; cbn beta iota in H
  | H : ?x = (_, _) |- _ =>
      lazymatch x with
      | bind _ _ _ => rewrite bind_run in H
      | wrapf _ _ _ => rewrite wrapf_run in H
      | ret _ _ => unfold ret in H
      | fail _ _ => unfold fail in H
      | lift _ _ => unfold lift in H
      | reads _ _ => unfold reads in H
      end
  end.
Ltac mrun := simplify_eq/=; repeat (progress (mstep; simplify_eq/=)).

(** Splits the conditional at the head of a hypothesis or of the goal. *)
Ltac case_cond :=
  match goal with
  | H : context [if decide ?P then _ else _] |- _ => destruct (decide P)
  | |- context [if decide ?P then _ else _] => destruct (decide P)
  | H : context [if bool_decide ?P then _ else _] |- _ =>
      destruct (bool_decide_reflect P)
  | |- context [if bool_decide ?P then _ else _] => destruct (bool_decide_reflect P)
  | H : context [if ?b then _ else _] |- _ => destruct b eqn:?
  | |- context [if ?b then _ else _] => destruct b eqn:?
  end.

Create HintDb tabby discriminated.
Create Rewrite HintDb tabby.
Create Rewrite HintDb str.

(** ** Shared lemmas *)

Lemma no_sentinel_external msg : no_sentinel (ErrExternal msg).
Proof. intros s. discriminate. Qed.

Lemma no_sentinel_new msg : no_sentinel (ErrNew msg).
Proof. intros s. discriminate. Qed.

Lemma no_sentinel_wrap pre e post : no_sentinel e → no_sentinel (ErrWrap pre e post).
Proof. intros H s. apply H. Qed.

Lemma no_sentinel_canceled : no_sentinel (ErrSentinel Canceled).
Proof. intros s H. left. by apply bool_decide_eq_true in H. Qed.

Lemma no_sentinel_deadline : no_sentinel (ErrSentinel DeadlineExceeded).
Proof. intros s H. right. by apply bool_decide_eq_true in H. Qed.

#[export] Hint Resolve no_sentinel_external no_sentinel_new no_sentinel_wrap
  no_sentinel_canceled no_sentinel_deadline : tabby.

Lemma no_sentinel_is e s :
  no_sentinel e → s ≠ Canceled → s ≠ DeadlineExceeded → errors_is e s = false.
Proof. intros H ??. destruct (errors_is e s) eqn:E; [|done]. by destruct (H _ E). Qed.

Lemma bytes_of_string_inj s t : bytes_of_string s = bytes_of_string t → s = t.
Proof.
  intros H. rewrite <- (String.string_of_list_byte_of_string s),
    <- (String.string_of_list_byte_of_string t).
  unfold bytes_of_string in H. by rewrite H.
Qed.

Lemma string_bytes_roundtrip s : string_of_bytes (bytes_of_string s) = s.
Proof. apply String.string_of_list_byte_of_string. Qed.

Lemma bytes_string_roundtrip b : bytes_of_string (string_of_bytes b) = b.
Proof. apply String.list_byte_of_string_of_list_byte. Qed.

#[export] Hint Rewrite string_bytes_roundtrip bytes_string_roundtrip : tabby.

(** stdpp keeps [String.append] from reducing; these equations drive it. *)
Lemma str_app_cons c s r : String c s +:+ r = String c (s +:+ r).
Proof. reflexivity. Qed.
Lemma str_app_nil r : "" +:+ r = r.
Proof. reflexivity. Qed.
Lemma str_app_assoc s t r : (s +:+ t) +:+ r = s +:+ (t +:+ r).
Proof. induction s as [|c s IH]; [done|]. rewrite !str_app_cons. by rewrite IH. Qed.
Lemma str_app_nil_r s : s +:+ "" = s.
Proof. induction s as [|c s IH]; [done|]. rewrite str_app_cons. by rewrite IH. Qed.

#[export] Hint Rewrite str_app_cons str_app_nil str_app_assoc str_app_nil_r : str.

(** Runs an operation for its result only. *)
Lemma run_fst {A B} (x : A * B) a : x.1 = a → x = (a, x.2).
Proof. intros <-. apply surjective_pairing. Qed.

(** ** Lists related element by element *)

Lemma Forall2_elem_l {A B} (P : A → B → Prop) l k x :
  Forall2 P l k → x ∈ l → ∃ y, P x y ∧ y ∈ k.
Proof.
  intros HF Hx. induction HF as [|a b l k HP HF IH]; [by apply not_elem_of_nil in Hx|].
  apply elem_of_cons in Hx as [->|Hx].
  - exists b. split; [done|]. by apply list_elem_of_here.
  - destruct (IH Hx) as (y & ? & ?). exists y. split; [done|]. by apply list_elem_of_further.
Qed.

Lemma Forall2_elem_r {A B} (P : A → B → Prop) l k y :
  Forall2 P l k → y ∈ k → ∃ x, P x y ∧ x ∈ l.
Proof. intros HF. apply (Forall2_elem_l (flip P)). by apply Forall2_flip. Qed.
