(* ===== verification/GoTime.v ===== *)
(** Go's [time] package, as far as tabby-sync uses it.

    An instant ([time.Time]) is the number of nanoseconds since the Unix
    epoch.  The zone a [Time] carries is not kept: every timestamp the
    program writes is formatted in UTC, and every comparison ([After],
    [Equal], [Before]) is on instants.

    [Format] and [Parse] are [Time.Format] and [time.Parse] for the layout
    [time.RFC3339Nano], "2006-01-02T15:04:05.999999999Z07:00", on the
    proleptic Gregorian calendar.  The main result is [Parse_Format]: a
    timestamp of the years 0 to 9999 survives the trip through its text. *)

From S2P Require Import Prelude.

Abbreviation Time := Z (only parsing).

Definition Nanosecond : Z := 1.
Definition Millisecond : Z := 1000000.
Definition Second : Z := 1000000000.
Definition day_seconds : Z := 86400.

Definition After (t u : Time) : bool := u <? t.
Definition Before (t u : Time) : bool := t <? u.
Definition Equal (t u : Time) : bool := t =? u.
Definition Add (t : Time) (d : Z) : Time := t + d.

(** ** The calendar *)

Record civil := mk_civil { c_year : Z; c_month : Z; c_day : Z }.

(** Days since 1970-01-01, by 400-year eras that start on 1 March. *)
Definition civil_of_days (n : Z) : civil :=
  let z := n + 719468 in
  let era := z / 146097 in
  let doe := z mod 146097 in
  let yoe := (doe - doe / 1460 + doe / 36524 - doe / 146096) / 365 in
  let doy := doe - (365 * yoe + yoe / 4 - yoe / 100) in
  let mp := (5 * doy + 2) / 153 in
  let d := doy - (153 * mp + 2) / 5 + 1 in
  let m := if mp <? 10 then mp + 3 else mp - 9 in
  mk_civil (if m <=? 2 then yoe + era * 400 + 1 else yoe + era * 400) m d.

Definition days_of_civil (c : civil) : Z :=
  let y := if c_month c <=? 2 then c_year c - 1 else c_year c in
  let era := y / 400 in
  let yoe := y mod 400 in
  let mp := if c_month c <=? 2 then c_month c + 9 else c_month c - 3 in
  let doy := (153 * mp + 2) / 5 + c_day c - 1 in
  era * 146097 + (yoe * 365 + yoe / 4 - yoe / 100 + doy) - 719468.

Definition is_leap (y : Z) : bool :=
  (y mod 4 =? 0) && (negb (y mod 100 =? 0) || (y mod 400 =? 0)).

Definition days_in (m y : Z) : Z :=
  if m =? 2 then if is_leap y then 29 else 28
  else if (m =? 4) || (m =? 6) || (m =? 9) || (m =? 11) then 30
  else 31.

(** ** Formatting *)

Definition digit (d : Z) : Ascii.ascii := Ascii.ascii_of_N (Z.to_N (48 + d)).

(** The [k] low decimal digits of [n], most significant first. *)
Fixpoint digits (k : nat) (n : Z) : string :=
  match k with
  | O => ""
  | S k' => String (digit (n / 10 ^ Z.of_nat k' mod 10)) (digits k' n)
  end.

Fixpoint strip_zeros (s : string) : string :=
  match s with
  | "" => ""
  | String c s' =>
      match strip_zeros s' with
      | "" => if decide (c = "0"%char) then "" else String c ""
      | r => String c r
      end
  end.

(** [appendInt(b, year, 4)]. *)
Definition fmt_year (y : Z) : string :=
  let pos n := if n <? 10000 then digits 4 n else pretty (Z.to_N n) in
  if y <? 0 then "-" +:+ pos (- y) else pos y.

Definition fmt_frac (ns : Z) : string :=
  match strip_zeros (digits 9 ns) with
  | "" => ""
  | s => "." +:+ s
  end.

(** [t.UTC().Format(time.RFC3339Nano)]. *)
Definition Format (t : Time) : string :=
  let secs := t / Second in
  let ns := t mod Second in
  let c := civil_of_days (secs / day_seconds) in
  let sod := secs mod day_seconds in
  fmt_year (c_year c) +:+ "-" +:+ digits 2 (c_month c) +:+ "-" +:+ digits 2 (c_day c) +:+ "T"
  +:+ digits 2 (sod / 3600) +:+ ":" +:+ digits 2 (sod / 60 mod 60) +:+ ":"
  +:+ digits 2 (sod mod 60) +:+ fmt_frac ns +:+ "Z".

(** ** Parsing *)

Definition digit_val (c : Ascii.ascii) : option Z :=
  let n := Z.of_N (Ascii.N_of_ascii c) in
  if (48 <=? n) && (n <=? 57) then Some (n - 48) else None.

(** Exactly [k] decimal digits, added to the accumulator. *)
Fixpoint num (k : nat) (acc : Z) (s : string) : option (Z * string) :=
  match k with
  | O => Some (acc, s)
  | S k' =>
      match s with
      | "" => None
      | String c s' =>
          match digit_val c with
          | Some d => num k' (acc * 10 + d) s'
          | None => None
          end
      end
  end.

(** [getnum(value, false)]: one or two digits. *)
Definition num12 (s : string) : option (Z * string) :=
  match num 2 0 s with Some r => Some r | None => num 1 0 s end.

Definition lit (c : Ascii.ascii) (s : string) : option string :=
  match s with
  | "" => None
  | String c' s' => if decide (c' = c) then Some s' else None
  end.

(** The longest prefix of digits, and the rest. *)
Fixpoint span_digits (s : string) : list Z * string :=
  match s with
  | "" => ([], "")
  | String c s' =>
      match digit_val c with
      | Some d => let '(ds, r) := span_digits s' in (d :: ds, r)
      | None => ([], s)
      end
  end.

(** [parseNanoseconds]: the first nine digits, scaled to nanoseconds. *)
Fixpoint frac_value (k : nat) (ds : list Z) : Z :=
  match k, ds with
  | S k', d :: ds' => d * 10 ^ Z.of_nat k' + frac_value k' ds'
  | _, _ => 0
  end.

Definition parse_frac (s : string) : Z * string :=
  match s with
  | String c s' =>
      if decide (c = "."%char ∨ c = ","%char) then
        match span_digits s' with
        | ([], _) => (0, s)
        | (ds, r) => (frac_value 9 ds, r)
        end
      else (0, s)
  | "" => (0, s)
  end.

(** The zone: [Z], or a numeric offset in seconds east of UTC. *)
Definition parse_zone (s : string) : option (Z * string) :=
  match s with
  | "" => None
  | String c s' =>
      if decide (c = "Z"%char) then Some (0, s')
      else
        '(hh, s1) ← num 2 0 s';
        s2 ← lit ":" s1;
        '(mm, s3) ← num 2 0 s2;
        if (24 <? hh) || (60 <? mm) then None
        else if decide (c = "+"%char) then Some ((hh * 60 + mm) * 60, s3)
        else if decide (c = "-"%char) then Some (- ((hh * 60 + mm) * 60), s3)
        else None
  end.

(** [time.Parse(time.RFC3339Nano, s)]. *)
Definition Parse (s : string) : option Time :=
  '(y, s1) ← num 4 0 s;
  s2 ← lit "-" s1;
  '(m, s3) ← num 2 0 s2;
  s4 ← lit "-" s3;
  '(d, s5) ← num 2 0 s4;
  s6 ← lit "T" s5;
  '(h, s7) ← num12 s6;
  s8 ← lit ":" s7;
  '(mi, s9) ← num 2 0 s8;
  s10 ← lit ":" s9;
  '(sec, s11) ← num 2 0 s10;
  let '(ns, s12) := parse_frac s11 in
  '(off, s13) ← parse_zone s12;
  if decide (s13 = "") then
    if (1 <=? m) && (m <=? 12) && (1 <=? d) && (d <=? days_in m y)
       && (h <? 24) && (mi <? 60) && (sec <? 60)
    then Some ((days_of_civil (mk_civil y m d) * day_seconds
                + h * 3600 + mi * 60 + sec - off) * Second + ns)
    else None
  else None.

(** The instants whose UTC year is between 0 and 9999. *)
Definition ts_ok (t : Time) : Prop :=
  -62167219200 * Second ≤ t < 253402300800 * Second.

#[global] Instance ts_ok_dec t : Decision (ts_ok t).
Proof. unfold ts_ok. apply _. Defined.

Example Format_ex : Format 1767323045123456789 = "2026-01-02T03:04:05.123456789Z".
Proof. vm_compute. reflexivity. Qed.
Example Format_ex0 : Format (-62167219200000000000) = "0000-01-01T00:00:00Z".
Proof. vm_compute. reflexivity. Qed.
Example Parse_ex : Parse "2026-01-02T03:04:05.123456789Z" = Some 1767323045123456789.
Proof. vm_compute. reflexivity. Qed.
Example Parse_off : Parse "1970-01-01T01:00:00,5+01:00" = Some 500000000.
Proof. vm_compute. reflexivity. Qed.

(** ** The calendar is a bijection between days and dates *)

Ltac dm := Z.div_mod_to_equations; lia.

Section era.
(** The day [doe] of a 400-year era, its year [yoe] and its day [doy]. *)
Variables doe yoe doy : Z.
Hypothesis Hdoe : 0 ≤ doe < 146097.
Hypothesis Hyoe : yoe = (doe - doe / 1460 + doe / 36524 - doe / 146096) / 365.
Hypothesis Hdoy : doy = doe - (365 * yoe + yoe / 4 - yoe / 100).

Lemma yoe_range : 0 ≤ yoe < 400.
Proof using Hdoe Hyoe. dm. Qed.

Lemma doy_range : 0 ≤ doy ≤ 365.
Proof using Hdoe Hyoe Hdoy. dm. Qed.

(** A year that starts on 1 March has 366 days when the next calendar
    year is a leap year. *)
Lemma doy_leap : doy = 365 → (yoe + 1) mod 4 = 0 ∧ ((yoe + 1) mod 100 = 0 → (yoe + 1) mod 400 = 0).
Proof using Hdoe Hyoe Hdoy. intros. split; dm. Qed.
End era.

Lemma mod_add_400 y e k : k ≠ 0 → 400 mod k = 0 → (y + e * 400) mod k = y mod k.
Proof.
  intros Hk H4. apply Z.mod_divide in H4 as [q Hq]; [|done].
  rewrite Hq, Z.mul_assoc. by apply Z.mod_add.
Qed.

Lemma is_leap_era y e : is_leap (y + e * 400) = is_leap y.
Proof. unfold is_leap. by rewrite !mod_add_400 by done. Qed.

Lemma days_of_civil_of_days n : days_of_civil (civil_of_days n) = n.
Proof.
  unfold civil_of_days. cbv zeta.
  set (z := n + 719468). set (doe := z mod 146097).
  set (yoe := (doe - doe / 1460 + doe / 36524 - doe / 146096) / 365).
  set (doy := doe - (365 * yoe + yoe / 4 - yoe / 100)).
  set (mp := (5 * doy + 2) / 153).
  assert (Hdoe : 0 ≤ doe < 146097) by (apply Z.mod_pos_bound; lia).
  pose proof (yoe_range doe yoe Hdoe eq_refl) as Hy.
  pose proof (doy_range doe yoe doy Hdoe eq_refl eq_refl) as Hd.
  assert (Hmp : 0 ≤ mp ≤ 11) by (subst mp; dm).
  assert (Hz : z = 146097 * (z / 146097) + doe) by (apply Z.div_mod; lia).
  unfold days_of_civil; simpl.
  set (era := z / 146097) in *.
  assert (Hera : (yoe + era * 400) / 400 = era ∧ (yoe + era * 400) mod 400 = yoe).
  { rewrite Z.div_add, Z.mod_add by lia.
    rewrite Z.div_small, Z.mod_small by lia. lia. }
  assert (Hrec : ∀ m, (m = if mp <? 10 then mp + 3 else mp - 9) →
            (if m <=? 2 then m + 9 else m - 3) = mp).
  { intros m ->. destruct (Z.ltb_spec mp 10).
    - destruct (Z.leb_spec (mp + 3) 2); lia.
    - destruct (Z.leb_spec (mp - 9) 2); lia. }
  rewrite (Hrec _ eq_refl).
  set (m := if mp <? 10 then mp + 3 else mp - 9).
  replace (if m <=? 2 then (if m <=? 2 then yoe + era * 400 + 1 else yoe + era * 400) - 1
           else if m <=? 2 then yoe + era * 400 + 1 else yoe + era * 400)
    with (yoe + era * 400) by (destruct (m <=? 2); lia).
  destruct Hera as [-> ->]. subst doy. lia.
Qed.

(** The date of a day is a valid date. *)
Lemma civil_of_days_valid n :
  let c := civil_of_days n in
  1 ≤ c_month c ≤ 12 ∧ 1 ≤ c_day c ≤ days_in (c_month c) (c_year c).
Proof.
  unfold civil_of_days. cbv zeta.
  set (z := n + 719468). set (doe := z mod 146097).
  set (yoe := (doe - doe / 1460 + doe / 36524 - doe / 146096) / 365).
  set (doy := doe - (365 * yoe + yoe / 4 - yoe / 100)).
  set (mp := (5 * doy + 2) / 153).
  assert (Hdoe : 0 ≤ doe < 146097) by (apply Z.mod_pos_bound; lia).
  pose proof (doy_range doe yoe doy Hdoe eq_refl eq_refl) as Hd.
  pose proof (doy_leap doe yoe doy Hdoe eq_refl eq_refl) as Hl.
  set (era := z / 146097).
  assert (Hmp : 0 ≤ mp ≤ 11) by (subst mp; dm).
  simpl. split; [destruct (Z.ltb_spec mp 10); lia|].
  assert (Hday : 0 ≤ doy - (153 * mp + 2) / 5) by (subst mp; dm).
  assert (Hcases : mp = 0 ∨ mp = 1 ∨ mp = 2 ∨ mp = 3 ∨ mp = 4 ∨ mp = 5 ∨ mp = 6 ∨ mp = 7
     ∨ mp = 8 ∨ mp = 9 ∨ mp = 10 ∨ mp = 11) by lia.
  assert (Hup : doy * 5 + 2 < 153 * mp + 153) by (subst mp; dm).
  clearbody doy mp yoe era.
  assert (Hfeb : doy = 365 → is_leap (yoe + era * 400 + 1) = true).
  { intros H365. replace (yoe + era * 400 + 1) with (yoe + 1 + era * 400) by lia.
    rewrite is_leap_era. destruct (Hl H365) as [H4 H100].
    unfold is_leap. rewrite H4. simpl.
    destruct (Z.eqb_spec ((yoe + 1) mod 100) 0) as [E|E]; [|done].
    by rewrite (H100 E). }
  unfold days_in.
  destruct_or! Hcases; subst mp;
    repeat match goal with
    | |- context [?a =? ?b] => first [change (a =? b) with true | change (a =? b) with false]
    | |- context [?a <=? ?b] => first [change (a <=? b) with true | change (a <=? b) with false]
    | |- context [?a <? ?b] => first [change (a <? b) with true | change (a <? b) with false]
    end; cbn [orb]; cbv iota; try dm.
  (* February: day 29 only in a leap year *)
  destruct (decide (doy = 365)) as [E|E]; [rewrite (Hfeb E); dm|].
  destruct (is_leap _); dm.
Qed.

(** Years of the instants in [ts_ok] are between 0 and 9999. *)
Lemma civil_of_days_year n :
  -719528 ≤ n < 2932897 → 0 ≤ c_year (civil_of_days n) ≤ 9999.
Proof.
  intros Hn. pose proof (civil_of_days_valid n) as [Hm Hd].
  pose proof (days_of_civil_of_days n) as Hr.
  destruct (civil_of_days n) as [y m d]; simpl in *. unfold days_of_civil in Hr; simpl in Hr.
  assert (Hd31 : days_in m y ≤ 31).
  { unfold days_in. repeat case_match; lia. }
  destruct (Z.leb_spec m 2); dm.
Qed.

(** ** Digits *)

Lemma digit_val_digit d : 0 ≤ d < 10 → digit_val (digit d) = Some d.
Proof.
  intros Hd. unfold digit_val, digit. rewrite Ascii.N_ascii_embedding by lia.
  rewrite Z2N.id by lia.
  replace (48 <=? 48 + d) with true by lia. replace (48 + d <=? 57) with true by lia.
  simpl. f_equal. lia.
Qed.

Lemma low_digit n k : 0 ≤ n / 10 ^ k mod 10 < 10.
Proof. apply Z.mod_pos_bound. lia. Qed.

Lemma mod_pow_S n k : 0 ≤ k →
  n mod 10 ^ (k + 1) = (n / 10 ^ k mod 10) * 10 ^ k + n mod 10 ^ k.
Proof.
  intros Hk. rewrite Z.pow_add_r, Z.pow_1_r by lia.
  assert (10 ^ k > 0) by (apply Z.lt_gt, Z.pow_pos_nonneg; lia).
  rewrite (Z.rem_mul_r n (10 ^ k) 10) by lia. lia.
Qed.

Lemma num_digits k acc n r :
  num k acc (digits k n +:+ r) = Some (acc * 10 ^ Z.of_nat k + n mod 10 ^ Z.of_nat k, r).
Proof.
  revert acc. induction k as [|k IH]; intros acc.
  - simpl. f_equal. f_equal. rewrite Z.mod_1_r. lia.
  - cbn [digits num]. rewrite str_app_cons.
    rewrite digit_val_digit by apply low_digit. rewrite IH. f_equal. f_equal.
    rewrite Nat2Z.inj_succ, <- Z.add_1_r, mod_pow_S by lia.
    rewrite Z.pow_add_r by lia. lia.
Qed.

Lemma num_digits_small k n r :
  0 ≤ n < 10 ^ Z.of_nat k → num k 0 (digits k n +:+ r) = Some (n, r).
Proof. intros Hn. rewrite num_digits, Z.mod_small by lia. done. Qed.

Lemma num12_digits n r : 0 ≤ n < 100 → num12 (digits 2 n +:+ r) = Some (n, r).
Proof. intros Hn. unfold num12. rewrite num_digits_small by (simpl; lia). done. Qed.

Lemma lit_cons c s : lit c (String c s) = Some s.
Proof. simpl. by rewrite decide_True. Qed.

(** [strip_zeros] drops zeros that the scaling puts back. *)
Lemma span_strip k n r :
  (∀ c s, r = String c s → digit_val c = None) →
  ∃ ds, span_digits (strip_zeros (digits k n) +:+ r) = (ds, r)
        ∧ frac_value k ds = n mod 10 ^ Z.of_nat k
        ∧ (ds = [] → strip_zeros (digits k n) = "").
Proof.
  intros Hr. assert (Hr0 : span_digits r = ([], r)).
  { destruct r as [|c s]; [done|]. simpl. by rewrite (Hr c s eq_refl). }
  induction k as [|k (ds & IH1 & IH2 & IH3)].
  - exists []. simpl. by rewrite str_app_nil, Hr0, Z.mod_1_r.
  - cbn [digits strip_zeros].
    pose proof (low_digit n (Z.of_nat k)) as Hlow.
    set (d := n / 10 ^ Z.of_nat k mod 10) in *.
    assert (Hpow : n mod 10 ^ Z.of_nat (S k) = d * 10 ^ Z.of_nat k + n mod 10 ^ Z.of_nat k).
    { rewrite Nat2Z.inj_succ, <- Z.add_1_r. apply mod_pow_S. lia. }
    destruct (strip_zeros (digits k n)) as [|c' s'] eqn:E.
    + rewrite str_app_nil, Hr0 in IH1. simplify_eq.
      destruct (decide (digit d = "0"%char)) as [Hz|Hz].
      * exists []. rewrite str_app_nil, Hr0. split_and!; [done| |done].
        assert (d = 0) as ->.
        { apply (f_equal digit_val) in Hz. rewrite digit_val_digit in Hz by done.
          vm_compute in Hz. by simplify_eq. }
        rewrite Hpow. destruct k; simpl in *; lia.
      * exists [d]. rewrite ?str_app_cons, ?str_app_nil. cbn [span_digits].
        rewrite digit_val_digit, Hr0 by done. split_and!; [done| |done].
        cbn [frac_value]. rewrite Hpow. by rewrite <- IH2.
    + exists (d :: ds). rewrite (str_app_cons (digit d)).
      remember (String c' s' +:+ r) as tl. cbn [span_digits].
      rewrite digit_val_digit by done. rewrite IH1. split_and!; [done| |done].
      cbn [frac_value]. by rewrite Hpow, IH2.
Qed.

Lemma parse_frac_fmt ns : 0 ≤ ns < Second → parse_frac (fmt_frac ns +:+ "Z") = (ns, "Z").
Proof.
  intros Hns. unfold fmt_frac.
  destruct (span_strip 9 ns "Z") as (ds & H1 & H2 & H3).
  { intros c s [= <- <-]. done. }
  rewrite Z.mod_small in H2 by (unfold Second in Hns; simpl; lia).
  destruct (strip_zeros (digits 9 ns)) as [|c s] eqn:E.
  - rewrite str_app_nil in H1. simpl in H1. by simplify_eq/=.
  - rewrite !(str_app_cons "."), !str_app_nil. unfold parse_frac.
    rewrite decide_True by tauto. rewrite H1.
    destruct ds as [|d ds]; [by specialize (H3 eq_refl)|]. by rewrite H2.
Qed.

Lemma parse_zone_Z : parse_zone "Z" = Some (0, "").
Proof. reflexivity. Qed.

(** ** The round trip *)

Lemma fmt_year_digits y : 0 ≤ y ≤ 9999 → fmt_year y = digits 4 y.
Proof.
  intros Hy. unfold fmt_year.
  replace (y <? 0) with false by lia. by replace (y <? 10000) with true by lia.
Qed.

Lemma ts_ok_days t : ts_ok t → -719528 ≤ t / Second / day_seconds < 2932897.
Proof. unfold ts_ok, Second, day_seconds. intros. dm. Qed.

(** Past a number and the separator that follows it. *)
Ltac next_field :=
  cbn [mbind option_bind]; rewrite str_app_cons, lit_cons; cbn [mbind option_bind];
  rewrite str_app_nil.

Lemma Parse_Format t : ts_ok t → Parse (Format t) = Some t.
Proof.
  intros Hok. pose proof (ts_ok_days t Hok) as Hdays.
  pose proof (civil_of_days_year _ Hdays) as Hy.
  pose proof (civil_of_days_valid (t / Second / day_seconds)) as [Hm Hd].
  pose proof (days_of_civil_of_days (t / Second / day_seconds)) as Hrt.
  unfold Format.
  set (n := t / Second / day_seconds) in *.
  destruct (civil_of_days n) as [y m d]; cbn [c_year c_month c_day] in *.
  set (sod := (t / Second) mod day_seconds).
  assert (Hsod : 0 ≤ sod < 86400) by (apply Z.mod_pos_bound; done).
  assert (Hns : 0 ≤ t mod Second < Second) by (apply Z.mod_pos_bound; done).
  assert (Hdi : days_in m y ≤ 31) by (unfold days_in; repeat case_match; lia).
  assert (Hh : 0 ≤ sod / 3600 < 24) by dm.
  assert (Hmi : 0 ≤ sod / 60 mod 60 < 60) by (apply Z.mod_pos_bound; lia).
  assert (Hs : 0 ≤ sod mod 60 < 60) by (apply Z.mod_pos_bound; lia).
  rewrite fmt_year_digits by lia. unfold Parse.
  rewrite num_digits_small by (simpl; lia). next_field.
  rewrite num_digits_small by (simpl; lia). next_field.
  rewrite num_digits_small by (simpl; lia). next_field.
  rewrite num12_digits by lia. next_field.
  rewrite num_digits_small by (simpl; lia). next_field.
  rewrite num_digits_small by (simpl; lia). cbn [mbind option_bind].
  rewrite parse_frac_fmt by done. rewrite parse_zone_Z. cbn [mbind option_bind].
  rewrite decide_True by done.
  replace ((1 <=? m) && (m <=? 12) && (1 <=? d) && (d <=? days_in m y)
           && (sod / 3600 <? 24) && (sod / 60 mod 60 <? 60) && (sod mod 60 <? 60)) with true by lia.
  f_equal. rewrite Hrt.
  pose proof (Z.div_mod t Second ltac:(done)) as E1.
  pose proof (Z.div_mod (t / Second) day_seconds ltac:(done)) as E2.
  fold n in E2. fold sod in E2.
  assert (sod / 3600 * 3600 + (sod / 60) mod 60 * 60 + sod mod 60 = sod) by dm.
  rewrite E1 at 2. unfold day_seconds in *. nia.
Qed.

(** [Format] is injective on timestamps that round-trip. *)
Lemma Format_inj t u : ts_ok t → ts_ok u → Format t = Format u → t = u.
Proof.
  intros Ht Hu E. apply (f_equal Parse) in E. rewrite !Parse_Format in E by done. by simplify_eq.
Qed.

#[export] Hint Rewrite Parse_Format using done : tabby.

(** ** Timestamps outside the years 0 to 9999 do not parse back *)

Definition is_digit (c : ascii) : Prop := is_Some (digit_val c).

Fixpoint all_digits (s : string) : Prop :=
  match s with "" => True | String c s' => is_digit c ∧ all_digits s' end.

Lemma pretty_N_char_digit x : (x < 10)%N → is_digit (pretty_N_char x).
Proof.
  intros Hx. assert (x = 0 ∨ x = 1 ∨ x = 2 ∨ x = 3 ∨ x = 4 ∨ x = 5 ∨ x = 6 ∨ x = 7 ∨ x = 8 ∨ x = 9)%N
    as Hc by lia. unfold is_digit.
  destruct_or! Hc; subst x; vm_compute; eauto.
Qed.

Lemma pretty_N_go_digits x s : all_digits s → all_digits (pretty_N_go x s).
Proof.
  revert s. induction (N.lt_wf_0 x) as [x _ IH]; intros s Hs.
  destruct (decide (0 < x)%N) as [Hx|Hx].
  - rewrite pretty_N_go_step by done. apply IH; [apply N.div_lt; lia|].
    split; [|done]. apply pretty_N_char_digit. apply N.mod_lt. lia.
  - replace x with 0%N by lia. by rewrite pretty_N_go_0.
Qed.

Lemma pretty_N_go_length x s : (String.length s ≤ String.length (pretty_N_go x s))%nat.
Proof.
  revert s. induction (N.lt_wf_0 x) as [x _ IH]; intros s.
  destruct (decide (0 < x)%N) as [Hx|Hx].
  - rewrite pretty_N_go_step by done.
    etransitivity; [|apply IH; apply N.div_lt; lia]. simpl. lia.
  - replace x with 0%N by lia. by rewrite pretty_N_go_0.
Qed.

Lemma pretty_big n : (10000 ≤ n)%N →
  all_digits (pretty n) ∧ (5 ≤ String.length (pretty n))%nat.
Proof.
  intros Hn. unfold pretty, pretty_N. rewrite decide_False by lia.
  split; [by apply pretty_N_go_digits|].
  assert (1000 ≤ n / 10 ∧ 100 ≤ n / 10 / 10 ∧ 10 ≤ n / 10 / 10 / 10 ∧ 1 ≤ n / 10 / 10 / 10 / 10)%N
    as (?&?&?&?) by (repeat split; zify; dm).
  rewrite 5!pretty_N_go_step by lia.
  etransitivity; [|apply pretty_N_go_length]. simpl. lia.
Qed.

(** Five digits in front: the year field leaves a digit where a dash must be. *)
Lemma num4_no_dash s r : all_digits s → (5 ≤ String.length s)%nat →
  (num 4 0 (s +:+ r) ≫= λ '(_, s1), lit "-" s1) = None.
Proof.
  intros Hs Hl.
  destruct s as [|c1 [|c2 [|c3 [|c4 [|c5 s]]]]]; simpl in Hl; try lia.
  destruct Hs as ([d1 H1]&[d2 H2]&[d3 H3]&[d4 H4]&[d5 H5]&_).
  rewrite !str_app_cons. cbn [num]. rewrite H1, H2, H3, H4. cbn [mbind option_bind lit].
  rewrite decide_False; [done|]. intros ->. by vm_compute in H5.
Qed.

Lemma year_ts_ok t : 0 ≤ c_year (civil_of_days (t / Second / day_seconds)) ≤ 9999 → ts_ok t.
Proof.
  intros Hy. set (n := t / Second / day_seconds) in *.
  assert (Hn : -719528 ≤ n < 2932897).
  { pose proof (civil_of_days_valid n) as [Hm Hd].
    pose proof (days_of_civil_of_days n) as Hr.
    destruct (civil_of_days n) as [y m d]; simpl in *. unfold days_of_civil in Hr; simpl in Hr.
    assert (days_in m y ≤ 31) by (unfold days_in; repeat case_match; lia).
    destruct (Z.leb_spec m 2); dm. }
  unfold ts_ok, Second, day_seconds in *. subst n. dm.
Qed.

Lemma Parse_Format_out t : ¬ ts_ok t → Parse (Format t) = None.
Proof.
  intros Hno. unfold Format.
  set (c := civil_of_days (t / Second / day_seconds)).
  assert (Hy : ¬ (0 ≤ c_year c ≤ 9999)) by (intros H; apply Hno; by apply year_ts_ok).
  unfold fmt_year. destruct (Z.ltb_spec (c_year c) 0) as [H0|H0].
  - unfold Parse. rewrite str_app_assoc, str_app_cons. cbn [num]. done.
  - replace (c_year c <? 10000) with false by lia.
    destruct (pretty_big (Z.to_N (c_year c))) as [Hd Hl]; [lia|].
    unfold Parse.
    match goal with |- num 4 0 (_ +:+ ?r) ≫= _ = _ =>
      pose proof (num4_no_dash (pretty (Z.to_N (c_year c))) r Hd Hl) as Hn end.
    match goal with |- num 4 0 ?s ≫= _ = _ => destruct (num 4 0 s) as [[v s1]|]; [|done] end.
    cbn [mbind option_bind] in *. by rewrite Hn.
Qed.

(** Reading back a written timestamp gives that timestamp or fails. *)
Lemma Parse_Format_Some t u : Parse (Format t) = Some u → u = t ∧ ts_ok t.
Proof.
  intros H. assert (Hok : ts_ok t).
  { destruct (decide (ts_ok t)) as [?|Hno]; [done|]. by rewrite Parse_Format_out in H. }
  rewrite Parse_Format in H by done. by simplify_eq.
Qed.
