(* ===== verification/Env.v ===== *)
(** What the program reads from its surroundings: the clock, the system's
    randomness and the request context.

    [HasEnv] is the interface the components use.  [World] is the state a
    running server threads through its operations: a handle on the store
    below ([DB]) and a script of what the surroundings answer, consulted
    once per read. *)

From S2P Require Import Prelude GoTime.

Class HasEnv (W : Type) := {
  now : W → Time * W;                 (* nowFn() *)
  rand_read : nat → M W bytes;        (* io.ReadFull(rand.Reader, buf) *)
  ctx_Err : W → option error * W;     (* ctx.Err() *)
}.

(** ** Worlds *)

Inductive ctx_state := CtxLive | CtxCanceled | CtxExpired.

Record Env := mk_Env {
  env_now : nat → Time;
  env_rand : nat → option (nat → byte);   (* a read fails, or supplies bytes *)
  env_ctx : nat → ctx_state;
}.

Record World (DB : Type) := mk_World {
  w_env : Env;
  w_step : nat;       (* how many times the surroundings were consulted *)
  w_db : DB;
}.
Arguments mk_World {DB}.
Arguments w_env {DB}.
Arguments w_step {DB}.
Arguments w_db {DB}.

Section env.
Context {DB : Type}.
Implicit Types w : World DB.

Definition tick w : World DB := mk_World (w_env w) (S (w_step w)) (w_db w).
Definition set_db w (d : DB) : World DB := mk_World (w_env w) (w_step w) d.

Definition world_now w : Time * World DB := (env_now (w_env w) (w_step w), tick w).

Definition world_rand (n : nat) : M (World DB) bytes := λ w,
  match env_rand (w_env w) (w_step w) with
  | Some stream => (Ok (stream <$> seq 0 n), tick w)
  | None => (Err (ErrExternal "entropy source failed"), tick w)
  end.

Definition world_ctx w : option error * World DB :=
  (match env_ctx (w_env w) (w_step w) with
   | CtxLive => None
   | CtxCanceled => Some (ErrSentinel Canceled)
   | CtxExpired => Some (ErrSentinel DeadlineExceeded)
   end, tick w).

#[global] Instance world_env : HasEnv (World DB) :=
  {| now := world_now; rand_read := world_rand; ctx_Err := world_ctx |}.
End env.

