(* ===== verification/Store.v ===== *)
(** The persistence contract (src/internal/store/store.go).

    The records are the Go structs; a Go pointer field that may be nil is an
    [option].  [Store] and [EncryptedStore] are the two Go interfaces as
    type classes over the world [W] that the operations run in.

    [StoreSpec] is the contract that [Store]'s documentation states, over
    the logical content of the store: the [rows] that can be read, and the
    owners of the [lost] rows, whose timestamps cannot.  Other goroutines may run
    whenever an operation waits for the database connection; what they may
    do to the rows is the relation [rely].  A single-client setting is
    [Sequential]: nothing happens in between. *)

From S2P Require Import Prelude GoTime Env.

(** ** Data *)

Record Config := mk_Config {
  cfg_ID : Z;
  cfg_UserID : Z;
  cfg_Name : string;
  cfg_ContentCiphertext : bytes;
  cfg_ContentNonce : bytes;
  cfg_LastUsedWithVersion : string;
  cfg_CreatedAt : Time;
  cfg_ModifiedAt : Time;
}.

Record CreateConfigInput := mk_CreateConfigInput {
  in_Name : string;
  in_ContentCiphertext : bytes;
  in_ContentNonce : bytes;
  in_LastUsedWithVersion : string;
}.

(** A byte slice in a patch is "do not change" when nil or empty. *)
Record UpdateConfigPatch := mk_UpdateConfigPatch {
  up_Name : option string;
  up_ContentCiphertext : bytes;
  up_ContentNonce : bytes;
  up_LastUsedWithVersion : option string;
  up_PreserveModifiedAt : bool;
  up_ExpectedModifiedAt : option Time;
}.

Record CreateConfigPlaintextInput := mk_CreateConfigPlaintextInput {
  pin_Name : string;
  pin_Content : bytes;
  pin_LastUsedWithVersion : string;
}.

Record UpdateConfigPlaintextPatch := mk_UpdateConfigPlaintextPatch {
  pp_Name : option string;
  pp_Content : option bytes;
  pp_LastUsedWithVersion : option string;
}.

Record ConfigWithPlaintext := mk_ConfigWithPlaintext {
  pt_ID : Z;
  pt_UserID : Z;
  pt_Name : string;
  pt_Content : bytes;
  pt_LastUsedWithVersion : string;
  pt_CreatedAt : Time;
  pt_ModifiedAt : Time;
}.

#[global] Instance Config_eq_dec : EqDecision Config.
Proof. solve_decision. Defined.
#[global] Instance ConfigWithPlaintext_eq_dec : EqDecision ConfigWithPlaintext.
Proof. solve_decision. Defined.

(** [CreateConfigInputBuilder]: a callback; it may read randomness. *)
Definition CreateConfigInputBuilder (W : Type) : Type := Z → M W CreateConfigInput.

(** ** The interfaces *)

Class Store (W : Type) := {
  CreateConfig : Z → CreateConfigInput → M W Config;
  CreateConfigWithID : Z → option (CreateConfigInputBuilder W) → M W Config;
  GetConfig : Z → Z → M W Config;
  ListConfigsByUser : Z → M W (list Config);
  UpdateConfig : Z → Z → UpdateConfigPatch → M W Config;
  DeleteConfig : Z → Z → M W unit;
  CountConfigsByUser : Z → M W Z;
  CloseStore : M W unit;
}.

Class EncryptedStore (W : Type) := {
  CreateConfigPlaintext : Z → CreateConfigPlaintextInput → M W ConfigWithPlaintext;
  GetConfigPlaintext : Z → Z → M W ConfigWithPlaintext;
  ListConfigsByUserPlaintext : Z → M W (list ConfigWithPlaintext);
  (* The first argument bounds the retries of the update; [None] says that
     it has not returned after that many rounds. *)
  UpdateConfigPlaintext : nat → Z → Z → UpdateConfigPlaintextPatch →
                          W → option (result ConfigWithPlaintext) * W;
  DeleteConfigEnc : Z → Z → M W unit;
  CountConfigsByUserEnc : Z → M W Z;
}.

(** ** The contract of [Store] *)

Section contract.
Implicit Types (m : gmap Z Config) (u c : Z) (e : error).

(** The rows a user owns, and the rows of everybody else. *)
Definition own_rows u m : gmap Z Config := filter (λ kv, cfg_UserID kv.2 = u) m.
Definition foreign_rows u m : gmap Z Config := filter (λ kv, cfg_UserID kv.2 ≠ u) m.

Definition owned m u c : Prop := ∃ cfg, m !! c = Some cfg ∧ cfg_UserID cfg = u.

(** The rows of [u], each once, in ascending ID order. *)
Definition is_listing u m (l : list Config) : Prop :=
  StronglySorted (λ a b, cfg_ID a < cfg_ID b) l
  ∧ ∀ cfg, cfg ∈ l ↔ m !! cfg_ID cfg = Some cfg ∧ cfg_UserID cfg = u.

(** The row that [CreateConfigInput] describes. *)
Definition created u (i : CreateConfigInput) (cfg : Config) : Prop :=
  cfg_UserID cfg = u
  ∧ cfg_Name cfg = in_Name i
  ∧ cfg_ContentCiphertext cfg = in_ContentCiphertext i
  ∧ cfg_ContentNonce cfg = in_ContentNonce i
  ∧ cfg_LastUsedWithVersion cfg = in_LastUsedWithVersion i
  ∧ in_ContentCiphertext i ≠ [] ∧ in_ContentNonce i ≠ [].

(** The consistency rule of [UpdateConfigPatch]: ciphertext and nonce come
    together, and a timestamp-preserving patch is metadata-only and
    conditional. *)
Definition patch_ok (p : UpdateConfigPatch) : Prop :=
  (up_ContentCiphertext p = [] ↔ up_ContentNonce p = [])
  ∧ (if up_PreserveModifiedAt p
     then is_Some (up_ExpectedModifiedAt p) ∧ up_Name p = None ∧ up_ContentCiphertext p = []
     else up_ExpectedModifiedAt p = None).

(** [new] is [old] with the fields of the patch; the sync clock moves
    strictly forward unless the patch preserves it. *)
Definition patched (p : UpdateConfigPatch) (old new : Config) : Prop :=
  cfg_ID new = cfg_ID old
  ∧ cfg_UserID new = cfg_UserID old
  ∧ cfg_Name new = default (cfg_Name old) (up_Name p)
  ∧ cfg_ContentCiphertext new =
      match up_ContentCiphertext p with [] => cfg_ContentCiphertext old | ct => ct end
  ∧ cfg_ContentNonce new =
      match up_ContentCiphertext p with [] => cfg_ContentNonce old | _ => up_ContentNonce p end
  ∧ cfg_LastUsedWithVersion new =
      default (cfg_LastUsedWithVersion old) (up_LastUsedWithVersion p)
  ∧ cfg_CreatedAt new = cfg_CreatedAt old
  ∧ (if up_PreserveModifiedAt p
     then cfg_ModifiedAt new = cfg_ModifiedAt old
     else cfg_ModifiedAt old < cfg_ModifiedAt new).

(** The compare-and-set condition of a timestamp-preserving patch. *)
Definition expected_ok (p : UpdateConfigPatch) (old : Config) : Prop :=
  up_PreserveModifiedAt p = true → up_ExpectedModifiedAt p = Some (cfg_ModifiedAt old).

(** The atomic effect of an update.  A row whose new timestamp lies
    beyond year 9999 is written but can no longer be read.  (In
    [update_spec] a row that was already unreadable is not in [m].) *)
Definition update_commits p u c m m' : Prop :=
  patch_ok p ∧
  ∃ old new, m !! c = Some old ∧ cfg_ID old = c ∧ cfg_UserID old = u ∧ expected_ok p old ∧ patched p old new
    ∧ (m' = <[c := new]> m ∨ (¬ ts_ok (cfg_ModifiedAt new) ∧ m' = delete c m)).

(** The atomic effect of a delete: row [c] is gone, and it was [u]'s. *)
Definition deletes u c m m' : Prop :=
  (∀ cfg, m !! c = Some cfg → cfg_UserID cfg = u) ∧ m' = delete c m.

(** Why an update failed: [m] is the state at its transaction, [m'] the
    state it left, [mf] the state when it returned. *)
Inductive update_fails p u c m : gmap Z Config → gmap Z Config → error → Prop :=
  | fails_absent :
      ¬ owned m u c → update_fails p u c m m m (ErrSentinel ErrConfigNotFound)
  | fails_stale :
      up_PreserveModifiedAt p = true →
      (∀ old, m !! c = Some old →
         cfg_UserID old = u ∧ up_ExpectedModifiedAt p ≠ Some (cfg_ModifiedAt old)) →
      update_fails p u c m m m (ErrSentinel ErrConfigChanged)
  | fails_invalid e :
      ¬ patch_ok p → (∀ s, errors_is e s = bool_decide (s = ErrInvalidPatch)) →
      update_fails p u c m m m e
  | fails_reload m' mf :
      ¬ owned mf u c → update_fails p u c m m' mf (ErrSentinel ErrConfigNotFound)
  | fails_system m' mf e :
      no_sentinel e → update_fails p u c m m' mf e.
End contract.

(** The lost rows of [u], among the owners [l] of the rows that cannot be read. *)
Definition lost_rows (u : Z) (l : gmap Z Z) : gmap Z Z := filter (λ kv, kv.2 = u) l.

(** Two errors that [errors.Is] cannot tell apart. *)
Definition same_chain (e e' : error) : Prop := ∀ s, errors_is e s = errors_is e' s.

(** The outcome of an ID-bound create: exactly one new row, built for the
    ID it is stored under, or no row at all. *)
Definition create_outcome {W} (u : Z) (build : CreateConfigInputBuilder W)
    (m : gmap Z Config) (r : result Config) (m' : gmap Z Config) : Prop :=
  match r with
  | Ok cfg =>
      ∃ inp w1 w2, build (cfg_ID cfg) w1 = (Ok inp, w2) ∧ created u inp cfg
        ∧ cfg_CreatedAt cfg < cfg_ModifiedAt cfg
        ∧ 0 < cfg_ID cfg ≤ max_int64
        ∧ m !! cfg_ID cfg = None ∧ m' = <[cfg_ID cfg := cfg]> m
  | Err e =>
      m' = m
      ∧ (no_sentinel e
         ∨ (∃ id w1 inp w2, build id w1 = (Ok inp, w2)
              ∧ (in_ContentCiphertext inp = [] ∨ in_ContentNonce inp = [])
              ∧ ∀ s, errors_is e s = bool_decide (s = ErrInvalidPatch))
         ∨ ∃ id w1 e' w2, build id w1 = (Err e', w2) ∧ same_chain e e')
  end.

(** The atomic effect of a plain create: one new row, both timestamps the
    same; beyond year 9999 it is written but cannot be read. *)
Definition inserts (u : Z) (i : CreateConfigInput) (m : gmap Z Config) (id : Z) (m' : gmap Z Config) : Prop :=
  (in_ContentCiphertext i ≠ [] ∧ in_ContentNonce i ≠ [])
  ∧ 0 < id ≤ max_int64 ∧ m !! id = None
  ∧ ∃ t, m' = <[id := mk_Config id u (in_Name i) (in_ContentCiphertext i) (in_ContentNonce i)
                        (in_LastUsedWithVersion i) t t]> m
         ∨ (¬ ts_ok t ∧ m' = m).

(** [m] is the state at the insert, [m'] the state after it and [mf] the state
    when the row was read back. *)
Definition plain_create_outcome u i m m' (r : result Config) (mf : gmap Z Config) : Prop :=
  match r with
  | Ok cfg => inserts u i m (cfg_ID cfg) m' ∧ mf !! cfg_ID cfg = Some cfg ∧ cfg_UserID cfg = u
  | Err e =>
      (m' = m ∧ (((in_ContentCiphertext i = [] ∨ in_ContentNonce i = [])
                  ∧ ∀ s, errors_is e s = bool_decide (s = ErrInvalidPatch))
                 ∨ no_sentinel e))
      ∨ ∃ id, inserts u i m id m'
              ∧ ((e = ErrSentinel ErrConfigNotFound ∧ ¬ owned mf u id) ∨ no_sentinel e)
  end.

Class StoreSpec (W : Type) `{!HasEnv W, !Store W} := {
  rows : W → gmap Z Config;
  lost : W → gmap Z Z;
  rely : relation (gmap Z Config);
  same_store : relation W;

  rely_preorder : PreOrder rely;
  same_store_preorder : PreOrder same_store;
  same_store_rows w w' : same_store w w' → rows w' = rows w;
  same_store_lost w w' : same_store w w' → lost w' = lost w;
  rows_id w k cfg : rows w !! k = Some cfg → cfg_ID cfg = k;
  rows_lost w k : is_Some (lost w !! k) → rows w !! k = None;

  now_frame w t w' : now w = (t, w') → same_store w w';
  rand_frame n w r w' :
    rand_read n w = (r, w') →
    same_store w w' ∧ match r with Ok b => length b = n | Err e => no_sentinel e end;
  ctx_frame w o w' :
    ctx_Err w = (o, w') →
    same_store w w' ∧ (∀ e, o = Some e → e = ErrSentinel Canceled ∨ e = ErrSentinel DeadlineExceeded);

  get_spec w u c r w' :
    GetConfig u c w = (r, w') →
    rely (rows w) (rows w') ∧
    match r with
    | Ok cfg => rows w' !! c = Some cfg ∧ cfg_UserID cfg = u
    | Err e => (e = ErrSentinel ErrConfigNotFound ∧ ¬ owned (rows w') u c ∧ lost w' !! c ≠ Some u)
               ∨ no_sentinel e
    end;

  list_spec w u r w' :
    ListConfigsByUser u w = (r, w') →
    rely (rows w) (rows w') ∧
    match r with
    | Ok l => is_listing u (rows w') l ∧ lost_rows u (lost w') = ∅
    | Err e => no_sentinel e
    end;

  count_spec w u r w' :
    CountConfigsByUser u w = (r, w') →
    rely (rows w) (rows w') ∧
    match r with
    | Ok n => n = Z.of_nat (size (own_rows u (rows w')) + size (lost_rows u (lost w')))
    | Err e => no_sentinel e
    end;

  delete_spec w u c r w' :
    DeleteConfig u c w = (r, w') →
    ∃ m, rely (rows w) m ∧
    match r with
    | Ok _ => deletes u c m (rows w')
    | Err e =>
        (e = ErrSentinel ErrConfigNotFound ∧ rows w' = m ∧ ¬ owned m u c ∧ lost w' !! c ≠ Some u)
        ∨ (no_sentinel e ∧ (rows w' = m ∨ deletes u c m (rows w')))
    end;

  create_spec w u i r w' :
    CreateConfig u i w = (r, w') →
    ∃ m m', rely (rows w) m ∧ rely m' (rows w') ∧ plain_create_outcome u i m m' r (rows w');

  nil_builder_spec w u r w' :
    CreateConfigWithID u None w = (r, w') →
    rows w' = rows w ∧ ∃ e, r = Err e ∧ ∀ s, errors_is e s = bool_decide (s = ErrInvalidPatch);

  close_spec w r w' : CloseStore w = (r, w') → rows w' = rows w;

  create_with_id_spec w u build r w' :
    (∀ id w1 r1 w2, build id w1 = (r1, w2) → same_store w1 w2) →
    CreateConfigWithID u (Some build) w = (r, w') →
    ∃ m, rely (rows w) m ∧
    create_outcome u build m r (rows w');

  update_spec w u c p r w' :
    UpdateConfig u c p w = (r, w') →
    ∃ m, rely (rows w) m ∧
    match r with
    | Ok cfg => ∃ m', (update_commits p u c m m' ∨ (m !! c = None ∧ m' = m))
                      ∧ rely m' (rows w') ∧ rows w' !! c = Some cfg ∧ cfg_UserID cfg = u
    | Err e => ∃ m', (m' = m ∨ update_commits p u c m m') ∧ rely m' (rows w')
                     ∧ update_fails p u c m m' (rows w') e
                     ∧ (e = ErrSentinel ErrConfigNotFound → lost w' !! c ≠ Some u)
    end;
}.
#[global] Existing Instances rely_preorder same_store_preorder.

(** Nothing else runs between the store's database calls. *)
Definition Sequential (W : Type) `{StoreSpec W} : Prop := ∀ m m', rely m m' → m' = m.

(** ** The contract of [EncryptedStore] *)

(** A stored row as the layer above sees it; the content is [None] when the
    row's ciphertext does not open. *)
Record PRow := mk_PRow {
  pr_UserID : Z;
  pr_Name : string;
  pr_Content : option bytes;
  pr_LastUsedWithVersion : string;
  pr_CreatedAt : Time;
  pr_ModifiedAt : Time;
}.

Section plaintext_contract.
Implicit Types (m : gmap Z PRow) (u c : Z) (cfg seen : ConfigWithPlaintext) (r old new : PRow).

Definition shown cfg : PRow :=
  mk_PRow (pt_UserID cfg) (pt_Name cfg) (Some (pt_Content cfg)) (pt_LastUsedWithVersion cfg)
    (pt_CreatedAt cfg) (pt_ModifiedAt cfg).

(** Row [c] of user [u] is [cfg]. *)
Definition pt_row m u c cfg : Prop :=
  m !! c = Some (shown cfg) ∧ pt_ID cfg = c ∧ pt_UserID cfg = u.

Definition pt_owned m u c : Prop := ∃ r, m !! c = Some r ∧ pr_UserID r = u.
Definition pt_damaged m u c : Prop :=
  ∃ r, m !! c = Some r ∧ pr_UserID r = u ∧ pr_Content r = None.

Definition pt_own u m : gmap Z PRow := filter (λ kv, pr_UserID kv.2 = u) m.
Definition pt_foreign u m : gmap Z PRow := filter (λ kv, pr_UserID kv.2 ≠ u) m.

(** All rows of [u], every one of them open, in ascending ID order. *)
Definition pt_listing u m (l : list ConfigWithPlaintext) : Prop :=
  StronglySorted (λ a b, pt_ID a < pt_ID b) l
  ∧ (∀ cfg, cfg ∈ l → pt_row m u (pt_ID cfg) cfg)
  ∧ (∀ c, pt_owned m u c → ∃ cfg, cfg ∈ l ∧ pt_ID cfg = c).

(** A field of a patch that is there and differs from the current value. *)
Definition differs {A} `{EqDecision A} (o : option A) (x : A) : bool :=
  match o with Some y => bool_decide (y ≠ x) | None => false end.

(** Row [old] becomes [new] under patch [p], which was compared with the
    row as [seen] earlier.  Only a field that differed is written, the sync
    clock moves only with the name or the content, and a patch that changes
    neither needs the clock to be where it was. *)
Definition pt_patched (p : UpdateConfigPlaintextPatch) seen old new : Prop :=
  let renamed := differs (pp_Name p) (pt_Name seen) in
  let rewritten := differs (pp_Content p) (pt_Content seen) in
  let real := renamed || rewritten in
  pr_UserID new = pr_UserID old
  ∧ pr_Name new = (if renamed then default "" (pp_Name p) else pr_Name old)
  ∧ pr_Content new = (if rewritten then pp_Content p else pr_Content old)
  ∧ pr_LastUsedWithVersion new =
      match pp_LastUsedWithVersion p with
      | Some v => if real || differs (Some v) (pt_LastUsedWithVersion seen)
                  then v else pr_LastUsedWithVersion old
      | None => pr_LastUsedWithVersion old
      end
  ∧ pr_CreatedAt new = pr_CreatedAt old
  ∧ (if real then pr_ModifiedAt old < pr_ModifiedAt new
     else pr_ModifiedAt new = pr_ModifiedAt old ∧ pr_ModifiedAt old = pt_ModifiedAt seen).

Definition pt_commits p seen u c m m' : Prop :=
  ∃ old new, m !! c = Some old ∧ pr_UserID old = u ∧ pt_patched p seen old new
    ∧ (m' = <[c := new]> m ∨ (¬ ts_ok (pr_ModifiedAt new) ∧ m' = delete c m)).

Definition pt_deletes u c m m' : Prop :=
  (∀ x, m !! c = Some x → pr_UserID x = u) ∧ m' = delete c m.
End plaintext_contract.

Class EncryptedStoreSpec (W : Type) `{!EncryptedStore W} := {
  prows : W → gmap Z PRow;
  plost : W → gmap Z Z;
  prely : relation (gmap Z PRow);
  prely_preorder : PreOrder prely;

  get_pt_spec w u c r w' :
    GetConfigPlaintext u c w = (r, w') →
    prely (prows w) (prows w') ∧
    match r with
    | Ok cfg => pt_row (prows w') u c cfg
    | Err e => (e = ErrSentinel ErrConfigNotFound ∧ ¬ pt_owned (prows w') u c ∧ plost w' !! c ≠ Some u)
               ∨ (e = ErrSentinel ErrDecrypt ∧ pt_damaged (prows w') u c)
               ∨ no_sentinel e
    end;

  list_pt_spec w u r w' :
    ListConfigsByUserPlaintext u w = (r, w') →
    prely (prows w) (prows w') ∧
    match r with
    | Ok l => pt_listing u (prows w') l ∧ lost_rows u (plost w') = ∅
    | Err e => (e = ErrSentinel ErrDecrypt ∧ ∃ c, pt_damaged (prows w') u c) ∨ no_sentinel e
    end;

  count_pt_spec w u r w' :
    CountConfigsByUserEnc u w = (r, w') →
    prely (prows w) (prows w') ∧
    match r with
    | Ok n => n = Z.of_nat (size (pt_own u (prows w')) + size (lost_rows u (plost w')))
    | Err e => no_sentinel e
    end;

  delete_pt_spec w u c r w' :
    DeleteConfigEnc u c w = (r, w') →
    ∃ m, prely (prows w) m ∧
    match r with
    | Ok _ => pt_deletes u c m (prows w')
    | Err e =>
        (e = ErrSentinel ErrConfigNotFound ∧ prows w' = m ∧ ¬ pt_owned m u c ∧ plost w' !! c ≠ Some u)
        ∨ (no_sentinel e ∧ (prows w' = m ∨ pt_deletes u c m (prows w')))
    end;

  create_pt_spec w u i r w' :
    CreateConfigPlaintext u i w = (r, w') →
    ∃ m, prely (prows w) m ∧
    match r with
    | Ok cfg => pt_UserID cfg = u ∧ pt_Name cfg = pin_Name i ∧ pt_Content cfg = pin_Content i
                ∧ pt_LastUsedWithVersion cfg = pin_LastUsedWithVersion i
                ∧ pt_CreatedAt cfg < pt_ModifiedAt cfg ∧ 0 < pt_ID cfg ≤ max_int64
                ∧ m !! pt_ID cfg = None ∧ prows w' = <[pt_ID cfg := shown cfg]> m
    | Err e => prows w' = m ∧ no_sentinel e
    end;

  update_pt_spec n w u c p o w' :
    UpdateConfigPlaintext n u c p w = (o, w') →
    match o with
    | None => prely (prows w) (prows w')
    | Some (Ok cfg) =>
        ∃ m0 seen m m', prely (prows w) m0 ∧ pt_row m0 u c seen ∧ prely m0 m
          ∧ (pt_commits p seen u c m m' ∨ (m !! c = None ∧ m' = m))
          ∧ prely m' (prows w') ∧ pt_row (prows w') u c cfg
    | Some (Err e) =>
        (∃ m0 m m', prely (prows w) m0 ∧ prely m0 m
           ∧ (m' = m ∨ ∃ seen, pt_row m0 u c seen ∧ pt_commits p seen u c m m')
           ∧ prely m' (prows w'))
        ∧ ((e = ErrSentinel ErrConfigNotFound ∧ ¬ pt_owned (prows w') u c ∧ plost w' !! c ≠ Some u)
           ∨ (e = ErrSentinel ErrDecrypt ∧ pt_damaged (prows w') u c)
           ∨ no_sentinel e)
    end;
}.
#[global] Existing Instance prely_preorder.

(** No other request runs in between. *)
Definition PtSequential (W : Type) `{EncryptedStoreSpec W} : Prop := ∀ m m', prely m m' → m' = m.
