(* ===== verification/Sql.v ===== *)
(** The SQL that the SQLite store issues, and the database it issues it to.

    The statements and queries of src/internal/store/sqlite/sqlite.go are
    the constructors of [stmt] and [sql_query]; their meaning on the [configs]
    table (src/internal/store/sqlite/migrations/001_init.sql) is [exec_stmt]
    and [run_query].

    The engine itself (modernc.org/sqlite behind database/sql) is not part
    of the repository.  It is the class [SqlEngine], whose laws are what
    SQLite documents: a call either does what its statement means or fails
    and changes nothing, a transaction is invisible until it commits and is
    undone when it does not, and the results of a statement report its row
    count and ID, or fail to, although the statement was executed.  A listing
    may break off after some of its rows.
    [Table.engine] is an instance that keeps the
    tables in memory and fails where a fault script says so, which shows
    that the laws can be met. *)

From S2P Require Import Prelude GoTime.

(** ** Tables *)

(** A row of [configs]; its [id] is the key it is stored under. *)
Record row := mk_row {
  r_user_id : Z;
  r_name : string;
  r_content_ciphertext : bytes;
  r_content_nonce : bytes;
  r_last_used_with_version : option string;    (* nullable *)
  r_created_at : string;
  r_modified_at : string;
}.

(** [t_seq] is the table's entry in sqlite_sequence: the largest rowid the
    AUTOINCREMENT column has ever had. *)
Record tables := mk_tables {
  t_configs : gmap Z row;
  t_seq : Z;
}.

Definition empty_tables : tables := mk_tables ∅ 0.

(** ** Statements *)

(** One assignment of [UPDATE configs SET ...]. *)
Inductive set_clause :=
  | SetModifiedAt (v : string)
  | SetName (v : string)
  | SetCiphertext (v : bytes)
  | SetNonce (v : bytes)
  | SetLastUsed (v : option string).

Definition apply_set (r : row) (s : set_clause) : row :=
  match s with
  | SetModifiedAt v =>
      mk_row (r_user_id r) (r_name r) (r_content_ciphertext r) (r_content_nonce r)
        (r_last_used_with_version r) (r_created_at r) v
  | SetName v =>
      mk_row (r_user_id r) v (r_content_ciphertext r) (r_content_nonce r)
        (r_last_used_with_version r) (r_created_at r) (r_modified_at r)
  | SetCiphertext v =>
      mk_row (r_user_id r) (r_name r) v (r_content_nonce r)
        (r_last_used_with_version r) (r_created_at r) (r_modified_at r)
  | SetNonce v =>
      mk_row (r_user_id r) (r_name r) (r_content_ciphertext r) v
        (r_last_used_with_version r) (r_created_at r) (r_modified_at r)
  | SetLastUsed v =>
      mk_row (r_user_id r) (r_name r) (r_content_ciphertext r) (r_content_nonce r)
        v (r_created_at r) (r_modified_at r)
  end.

Inductive stmt :=
  | InsertConfig (r : row)                               (* INSERT INTO configs (...) VALUES (...) *)
  | UpdateConfigs (sets : list set_clause) (id uid : Z)  (* UPDATE configs SET ... WHERE id = ? AND user_id = ? *)
  | DeleteConfigs (id uid : Z).                          (* DELETE FROM configs WHERE id = ? AND user_id = ? *)

(** [sql.Result]: its two reports may fail.  The ID is of interest after an
    INSERT only. *)
Record sql_result := mk_sql_result { LastInsertId : result Z; RowsAffected : result Z }.

(** What a statement did: the row ID and the number of rows.  Each report is
    that value or a failure. *)
Record stmt_done := mk_done { done_id : Z; done_rows : Z }.
Definition reports (v : Z) (r : result Z) : Prop :=
  match r with Ok x => x = v | Err e => no_sentinel e end.
Definition reported (x : stmt_done) (res : sql_result) : Prop :=
  reports (done_id x) (LastInsertId res) ∧ reports (done_rows x) (RowsAffected res).

(** [sql.Rows]: the rows that Next delivers, and what Err says then. *)
Definition sql_rows : Type := list (Z * row) * option error.

(** [WHERE id = ? AND user_id = ?]. *)
Definition find_row (t : tables) (id uid : Z) : option row :=
  match t_configs t !! id with
  | Some r => if decide (r_user_id r = uid) then Some r else None
  | None => None
  end.

(** INTEGER PRIMARY KEY AUTOINCREMENT: one more than the largest rowid that
    ever existed in the table, and 1 for the first row. *)
Definition next_rowid (t : tables) : Z :=
  1 + foldr Z.max (Z.max 0 (t_seq t)) (map_to_list (t_configs t)).*1.

(** [None] is SQLITE_FULL: the largest possible rowid is in use. *)
Definition exec_stmt (s : stmt) (t : tables) : option (stmt_done * tables) :=
  match s with
  | InsertConfig r =>
      let id := next_rowid t in
      if decide (id ≤ max_int64)
      then Some (mk_done id 1, mk_tables (<[id := r]> (t_configs t)) id)
      else None
  | UpdateConfigs sets id uid =>
      match find_row t id uid with
      | Some r => Some (mk_done 0 1,
                        mk_tables (<[id := foldl apply_set r sets]> (t_configs t)) (t_seq t))
      | None => Some (mk_done 0 0, t)
      end
  | DeleteConfigs id uid =>
      match find_row t id uid with
      | Some _ => Some (mk_done 0 1, mk_tables (delete id (t_configs t)) (t_seq t))
      | None => Some (mk_done 0 0, t)
      end
  end.

(** ** Queries *)

Inductive sql_query : Type → Type :=
  | QConfig (id uid : Z) : sql_query (option (Z * row))      (* SELECT ... WHERE id = ? AND user_id = ? *)
  | QModifiedAt (id uid : Z) : sql_query (option string)     (* SELECT modified_at ... *)
  | QConfigsByUser (uid : Z) : sql_query (list (Z * row))    (* SELECT ... WHERE user_id = ? ORDER BY id ASC *)
  | QCount (uid : Z) : sql_query Z.                          (* SELECT COUNT( * ) ... WHERE user_id = ? *)

Definition id_le (a b : Z * row) : Prop := a.1 ≤ b.1.
#[global] Instance id_le_dec a b : Decision (id_le a b).
Proof. unfold id_le. apply _. Defined.

Definition rows_of (uid : Z) (t : tables) : gmap Z row :=
  filter (λ kv, r_user_id kv.2 = uid) (t_configs t).

Definition run_query {A} (q : sql_query A) (t : tables) : A :=
  match q with
  | QConfig id uid => pair id <$> find_row t id uid
  | QModifiedAt id uid => r_modified_at <$> find_row t id uid
  | QConfigsByUser uid => merge_sort id_le (map_to_list (rows_of uid t))
  | QCount uid => Z.of_nat (size (rows_of uid t))
  end.

(** ** The engine *)

Class SqlEngine (DB : Type) := {
  committed : DB → tables;       (* what every connection sees *)
  in_tx : DB → tables;           (* what the open transaction sees *)

  db_exec : stmt → M DB sql_result;
  db_query : ∀ {A}, sql_query A → M DB A;
  db_rows : sql_query (list (Z * row)) → M DB sql_rows;
  begin_tx : M DB unit;
  tx_exec : stmt → M DB sql_result;
  tx_query : ∀ {A}, sql_query A → M DB A;
  tx_commit : M DB unit;
  tx_rollback : DB → DB;
  db_close : M DB unit;

  db_exec_law s d r d' :
    db_exec s d = (r, d') →
    match r with
    | Ok res => ∃ x, reported x res ∧ exec_stmt s (committed d) = Some (x, committed d')
    | Err e => committed d' = committed d ∧ no_sentinel e
    end;
  db_query_law A (q : sql_query A) d r d' :
    db_query q d = (r, d') →
    committed d' = committed d ∧
    match r with Ok x => x = run_query q (committed d) | Err e => no_sentinel e end;
  db_rows_law q d r d' :
    db_rows q d = (r, d') →
    committed d' = committed d ∧
    match r with
    | Ok (rs, None) => rs = run_query q (committed d)
    | Ok (rs, Some e) => rs `prefix_of` run_query q (committed d) ∧ no_sentinel e
    | Err e => no_sentinel e
    end;
  begin_tx_law d r d' :
    begin_tx d = (r, d') →
    committed d' = committed d ∧
    match r with Ok _ => in_tx d' = committed d | Err e => no_sentinel e end;
  tx_exec_law s d r d' :
    tx_exec s d = (r, d') →
    committed d' = committed d ∧
    match r with
    | Ok res => ∃ x, reported x res ∧ exec_stmt s (in_tx d) = Some (x, in_tx d')
    | Err e => no_sentinel e
    end;
  tx_query_law A (q : sql_query A) d r d' :
    tx_query q d = (r, d') →
    committed d' = committed d ∧ in_tx d' = in_tx d ∧
    match r with Ok x => x = run_query q (in_tx d) | Err e => no_sentinel e end;
  tx_commit_law d r d' :
    tx_commit d = (r, d') →
    match r with
    | Ok _ => committed d' = in_tx d
    | Err e => committed d' = committed d ∧ no_sentinel e
    end;
  tx_rollback_law d : committed (tx_rollback d) = committed d;
  db_close_law d r d' : db_close d = (r, d') → committed d' = committed d;
}.

(** ** An engine over in-memory tables

    The [n]-th call fails when [d_fault n] gives a message, and the reports of
    its result fail when [d_report n] gives one; listing is two calls, the
    second of which breaks off after the first row. *)
Module Table.

Record db := mk_db {
  d_committed : tables;
  d_working : tables;
  d_calls : nat;
  d_fault : nat → option string;
  d_report : nat → option string;
}.

Definition guarded {A} (f : db → result A * db) : M db A := λ d,
  let d1 := mk_db (d_committed d) (d_working d) (S (d_calls d)) (d_fault d) (d_report d) in
  match d_fault d (d_calls d) with
  | Some msg => (Err (ErrExternal msg), d1)
  | None => f d1
  end.

(** The result of the call that has just been counted. *)
Definition result_of (d : db) (x : stmt_done) : sql_result :=
  match d_report d (pred (d_calls d)) with
  | Some msg => mk_sql_result (Err (ErrExternal msg)) (Err (ErrExternal msg))
  | None => mk_sql_result (Ok (done_id x)) (Ok (done_rows x))
  end.

Definition exec : stmt → M db sql_result := λ s, guarded (λ d,
  match exec_stmt s (d_committed d) with
  | Some (x, t) => (Ok (result_of d x), mk_db t t (d_calls d) (d_fault d) (d_report d))
  | None => (Err (ErrExternal "database or disk is full (13)"), d)
  end).

Definition query {A} (q : sql_query A) : M db A :=
  guarded (λ d, (Ok (run_query q (d_committed d)), d)).

Definition rows (q : sql_query (list (Z * row))) : M db sql_rows := λ d,
  match query q d with
  | (Err e, d1) => (Err e, d1)
  | (Ok rs, d1) =>
      match guarded (λ d, (Ok tt, d)) d1 with
      | (Err e, d2) => (Ok (take 1 rs, Some e), d2)
      | (Ok _, d2) => (Ok (rs, None), d2)
      end
  end.

Definition begin : M db unit :=
  guarded (λ d, (Ok tt, mk_db (d_committed d) (d_committed d) (d_calls d) (d_fault d) (d_report d))).

Definition texec : stmt → M db sql_result := λ s, guarded (λ d,
  match exec_stmt s (d_working d) with
  | Some (x, t) => (Ok (result_of d x), mk_db (d_committed d) t (d_calls d) (d_fault d) (d_report d))
  | None => (Err (ErrExternal "database or disk is full (13)"), d)
  end).

Definition tquery {A} (q : sql_query A) : M db A :=
  guarded (λ d, (Ok (run_query q (d_working d)), d)).

Definition commit : M db unit :=
  guarded (λ d, (Ok tt, mk_db (d_working d) (d_working d) (d_calls d) (d_fault d) (d_report d))).

Definition rollback (d : db) : db :=
  mk_db (d_committed d) (d_committed d) (d_calls d) (d_fault d) (d_report d).

Definition close : M db unit :=
  guarded (λ d, (Ok tt, mk_db (d_committed d) (d_committed d) (d_calls d)
                          (λ _, Some "sql: database is closed") (d_report d))).

Definition init (fault : nat → option string) : db :=
  mk_db empty_tables empty_tables 0 fault (λ _, None).

Lemma result_of_reported d x : reported x (result_of d x).
Proof. unfold reported, result_of. destruct (d_report d _); simpl; auto with tabby. Qed.
#[local] Hint Resolve result_of_reported : tabby.

Ltac solve_law :=
  unfold exec, rows, query, begin, texec, tquery, commit, close, guarded in *;
  repeat (case_match; simplify_eq/=); eauto with tabby.

#[global] Program Instance engine : SqlEngine db := {|
  committed := d_committed; in_tx := d_working;
  db_exec := exec; db_query := @query; db_rows := rows; begin_tx := begin; tx_exec := texec;
  tx_query := @tquery; tx_commit := commit; tx_rollback := rollback; db_close := close;
|}.
Next Obligation. intros. solve_law. Qed.
Next Obligation. intros. solve_law. Qed.
Next Obligation.
  intros. solve_law. split; [done|]. split; [|auto with tabby].
  eexists. symmetry. apply take_drop.
Qed.
Next Obligation. intros. solve_law. Qed.
Next Obligation. intros. solve_law. Qed.
Next Obligation. intros. solve_law. Qed.
Next Obligation. intros. solve_law. Qed.
Next Obligation. done. Qed.
Next Obligation. intros. solve_law. Qed.

End Table.

(** ** What the statements do *)

Lemma foldr_max_le (l : list Z) (z k : Z) : k ∈ l ∨ k ≤ z → k ≤ foldr Z.max z l.
Proof.
  induction l as [|x l IH]; simpl; intros [H|H].
  - by apply not_elem_of_nil in H.
  - lia.
  - apply elem_of_cons in H as [->|H]; [lia|]. specialize (IH (or_introl H)). lia.
  - specialize (IH (or_intror H)). lia.
Qed.

Lemma next_rowid_gt t k r : t_configs t !! k = Some r → k < next_rowid t.
Proof.
  intros H. unfold next_rowid.
  assert (k ≤ foldr Z.max (Z.max 0 (t_seq t)) (map_to_list (t_configs t)).*1); [|lia].
  apply foldr_max_le. left. apply list_elem_of_fmap. exists (k, r). split; [done|].
  by apply elem_of_map_to_list.
Qed.

Lemma next_rowid_seq t : t_seq t < next_rowid t.
Proof.
  unfold next_rowid.
  pose proof (foldr_max_le (map_to_list (t_configs t)).*1 (Z.max 0 (t_seq t)) (t_seq t)). lia.
Qed.

Lemma next_rowid_pos t : 0 < next_rowid t.
Proof.
  unfold next_rowid.
  pose proof (foldr_max_le (map_to_list (t_configs t)).*1 (Z.max 0 (t_seq t)) 0). lia.
Qed.

Lemma next_rowid_fresh t : t_configs t !! next_rowid t = None.
Proof. destruct (_ !! _) eqn:E; [|done]. apply next_rowid_gt in E. lia. Qed.

Lemma find_row_Some t id uid r :
  find_row t id uid = Some r ↔ t_configs t !! id = Some r ∧ r_user_id r = uid.
Proof.
  unfold find_row. split.
  - intros H. repeat case_match; simplify_eq/=. done.
  - intros [-> <-]. by rewrite decide_True.
Qed.

Lemma find_row_None t id uid :
  find_row t id uid = None ↔ ∀ r, t_configs t !! id = Some r → r_user_id r ≠ uid.
Proof.
  unfold find_row. destruct (t_configs t !! id) as [r|] eqn:E; [case_decide|]; naive_solver.
Qed.

(** The sequence never falls, so an id is never handed out twice. *)
Lemma exec_stmt_seq s t x t' : exec_stmt s t = Some (x, t') → t_seq t ≤ t_seq t'.
Proof.
  intros H. pose proof (next_rowid_seq t). destruct s; simpl in H; repeat case_match; simplify_eq/=; lia.
Qed.
