(* ===== verification/Sqlite.v ===== *)
(** The SQLite store (src/internal/store/sqlite/sqlite.go).

    Each method of [sqlite.Store] is a computation in a [World] over the
    database handle.  The pool holds one connection
    (SetMaxOpenConns(1)), so a call that needs it may wait while other
    goroutines use it; what they do to the database meanwhile is [others],
    applied whenever a method takes the connection ([acquire]).

    [sqlite_spec] shows that the methods meet the contract [StoreSpec] for
    every engine that meets [SqlEngine]'s laws, every fault it raises and
    every clock. *)

From S2P Require Import Prelude GoTime Env Store Sql.

(** ** Pure helpers *)

Definition nullIfEmpty (s : string) : option string :=
  if decide (s = "") then None else Some s.

Definition validateCreateInput (i : CreateConfigInput) : result unit :=
  if decide (in_ContentCiphertext i = [] ∨ in_ContentNonce i = [])
  then Err (ErrWrap "" (ErrSentinel ErrInvalidPatch) ": ciphertext and nonce are required")
  else Ok tt.

(** [rs.Scan] reports [sql.ErrNoRows] when the query had no row. *)
Definition scanConfig (rs : option (Z * row)) : result Config :=
  match rs with
  | None => Err (ErrSentinel ErrNoRows)
  | Some (id, r) =>
      let lastUsed := default "" (r_last_used_with_version r) in
      match Parse (r_created_at r) with
      | None => Err (ErrWrap "sqlite: parse created_at: " (ErrExternal "parsing time") "")
      | Some createdAt =>
          match Parse (r_modified_at r) with
          | None => Err (ErrWrap "sqlite: parse modified_at: " (ErrExternal "parsing time") "")
          | Some modifiedAt =>
              Ok (mk_Config id (r_user_id r) (r_name r) (r_content_ciphertext r)
                    (r_content_nonce r) lastUsed createdAt modifiedAt)
          end
      end
  end.

Fixpoint scanAll (rs : list (Z * row)) : result (list Config) :=
  match rs with
  | [] => Ok []
  | r :: rs' =>
      match scanConfig (Some r) with
      | Err e => Err e
      | Ok cfg => match scanAll rs' with Err e => Err e | Ok out => Ok (cfg :: out) end
      end
  end.

(** ** The methods *)

Section methods.
Context {DB : Type} {E : SqlEngine DB}.
Variable others : nat → DB → DB.

Abbreviation W := (World DB).

(** Waiting for the pool's connection lets the other goroutines run. *)
Definition acquire (w : W) : W :=
  tick (set_db w (others (w_step w) (w_db w))).

Definition on_db {A} (f : M DB A) : M W A := λ w,
  let '(r, d) := f (w_db w) in (r, set_db w d).

Definition pooled {A} (f : M DB A) : M W A := λ w, on_db f (acquire w).

(** [defer func() { _ = tx.Rollback() }()]: undoes a transaction that did
    not commit and does nothing after a commit. *)
Definition defer_rollback {A} (body : M W A) : M W A := λ w,
  match body w with
  | (Ok a, w') => (Ok a, w')
  | (Err e, w') => (Err e, set_db w' (tx_rollback (w_db w')))
  end.

Definition nowRFC3339Nano : M W string := λ w,
  let '(t, w') := now w in (Ok (Format t), w').

Definition nextModifiedAt (old : Time) : M W Time := λ w,
  let '(candidate, w') := now w in
  (Ok (if negb (After candidate old) then Add old Millisecond else candidate), w').

Definition sqlite_GetConfig (userID configID : Z) : M W Config :=
  let! r := attempt (let! row := pooled (db_query (QConfig configID userID)) in
                     lift (scanConfig row)) in
  match r with
  | Err e => if errors_is e ErrNoRows then fail (ErrSentinel ErrConfigNotFound) else fail e
  | Ok cfg => ret cfg
  end.

Definition sqlite_CreateConfig (userID : Z) (i : CreateConfigInput) : M W Config :=
  lift (validateCreateInput i) ;;;
  let! now := nowRFC3339Nano in
  let! res := wrapf "sqlite: insert config: " (pooled (db_exec (InsertConfig
                (mk_row userID (in_Name i) (in_ContentCiphertext i) (in_ContentNonce i)
                   (nullIfEmpty (in_LastUsedWithVersion i)) now now)))) in
  let! id := wrapf "sqlite: last insert id: " (lift (LastInsertId res)) in
  sqlite_GetConfig userID id.

(** The body of the create transaction: reserve the row's ID with
    sentinel blobs, build the input for that ID, finalise, read back,
    commit. *)
Definition create_tx (userID : Z) (build : CreateConfigInputBuilder W) : M W Config :=
  let! createdAt := reads now in
  let createdAtText := Format createdAt in
  let! res := wrapf "sqlite: reserve config id: " (on_db (tx_exec (InsertConfig
                (mk_row userID "" [Byte.x00] [Byte.x00] None createdAtText createdAtText)))) in
  let! id := wrapf "sqlite: reserved config id: " (lift (LastInsertId res)) in
  let! inp := wrapf "sqlite: build config: " (build id) in
  lift (validateCreateInput inp) ;;;
  let! modifiedAt := nextModifiedAt createdAt in
  let! result := wrapf "sqlite: finalise config: " (on_db (tx_exec (UpdateConfigs
                   [SetName (in_Name inp); SetCiphertext (in_ContentCiphertext inp);
                    SetNonce (in_ContentNonce inp);
                    SetLastUsed (nullIfEmpty (in_LastUsedWithVersion inp));
                    SetModifiedAt (Format modifiedAt)] id userID))) in
  let! affected := wrapf "sqlite: finalise rows affected: " (lift (RowsAffected result)) in
  if negb (affected =? 1)
  then fail (ErrNew "sqlite: finalise config: expected one reserved row")
  else
    let! row := wrapf "sqlite: read finalised config: "
                  (let! rs := on_db (tx_query (QConfig id userID)) in
                   lift (scanConfig rs)) in
    wrapf "sqlite: commit create: " (on_db tx_commit) ;;;
    ret row.

Definition sqlite_CreateConfigWithID (userID : Z) (build : option (CreateConfigInputBuilder W))
    : M W Config :=
  match build with
  | None => fail (ErrWrap "" (ErrSentinel ErrInvalidPatch) ": create builder is required")
  | Some build =>
      wrapf "sqlite: begin create tx: " (pooled begin_tx) ;;;
      defer_rollback (create_tx userID build)
  end.

Definition sqlite_ListConfigsByUser (userID : Z) : M W (list Config) :=
  let! rows := wrapf "sqlite: list configs: " (pooled (db_rows (QConfigsByUser userID))) in
  let! out := lift (scanAll rows.1) in
  match rows.2 with
  | Some err => fail (ErrWrap "sqlite: list configs: " err "")
  | None => ret out
  end.

(** The guards of [UpdateConfig] that run before any lock is taken. *)
Definition check_patch (p : UpdateConfigPatch) : result unit :=
  let hasCipher := bool_decide (up_ContentCiphertext p ≠ []) in
  let hasNonce := bool_decide (up_ContentNonce p ≠ []) in
  if negb (Bool.eqb hasCipher hasNonce)
  then Err (ErrWrap "" (ErrSentinel ErrInvalidPatch) ": ciphertext and nonce must be set together")
  else if up_PreserveModifiedAt p then
    if bool_decide (up_ExpectedModifiedAt p = None) || bool_decide (up_Name p ≠ None) || hasCipher
    then Err (ErrWrap "" (ErrSentinel ErrInvalidPatch)
                ": preserve-modified-at requires expected timestamp and metadata-only patch")
    else Ok tt
  else if bool_decide (up_ExpectedModifiedAt p ≠ None)
  then Err (ErrWrap "" (ErrSentinel ErrInvalidPatch)
              ": expected timestamp requires preserve-modified-at")
  else Ok tt.

(** The SET list after the timestamp: only the fields the patch has. *)
Definition patch_clauses (p : UpdateConfigPatch) : list set_clause :=
  match up_Name p with Some n => [SetName n] | None => [] end
  ++ (if bool_decide (up_ContentCiphertext p ≠ [])
      then [SetCiphertext (up_ContentCiphertext p); SetNonce (up_ContentNonce p)] else [])
  ++ match up_LastUsedWithVersion p with Some v => [SetLastUsed (nullIfEmpty v)] | None => [] end.

(** The body of the update transaction. *)
Definition update_tx (userID configID : Z) (p : UpdateConfigPatch) : M W unit :=
  let! q := wrapf "sqlite: read modified_at: " (on_db (tx_query (QModifiedAt configID userID))) in
  match q with
  | None => fail (ErrSentinel ErrConfigNotFound)
  | Some oldModifiedAt =>
      match Parse oldModifiedAt with
      | None => fail (ErrWrap "sqlite: parse old modified_at: " (ErrExternal "parsing time") "")
      | Some old =>
          if up_PreserveModifiedAt p &&
             negb (match up_ExpectedModifiedAt p with
                   | Some t => Equal old t
                   | None => false
                   end)
          then fail (ErrSentinel ErrConfigChanged)
          else
            let! stamp := (if negb (up_PreserveModifiedAt p)
                           then let! candidate := nextModifiedAt old in
                                ret [SetModifiedAt (Format candidate)]
                           else ret []) in
            let setClauses := stamp ++ patch_clauses p in
            (if bool_decide (setClauses ≠ [])
             then wrapf "sqlite: update config: "
                    (on_db (tx_exec (UpdateConfigs setClauses configID userID))) ;;;
                  ret tt
             else ret tt) ;;;
            wrapf "sqlite: commit update: " (on_db tx_commit)
      end
  end.

Definition sqlite_UpdateConfig (userID configID : Z) (p : UpdateConfigPatch) : M W Config :=
  lift (check_patch p) ;;;
  wrapf "sqlite: begin update tx: " (pooled begin_tx) ;;;
  defer_rollback (update_tx userID configID p) ;;;
  sqlite_GetConfig userID configID.

Definition sqlite_DeleteConfig (userID configID : Z) : M W unit :=
  let! res := wrapf "sqlite: delete config: " (pooled (db_exec (DeleteConfigs configID userID))) in
  let! affected := wrapf "sqlite: rows affected: " (lift (RowsAffected res)) in
  if affected =? 0 then fail (ErrSentinel ErrConfigNotFound) else ret tt.

Definition sqlite_CountConfigsByUser (userID : Z) : M W Z :=
  wrapf "sqlite: count configs: " (pooled (db_query (QCount userID))).

Definition sqlite_Close : M W unit := on_db db_close.

Definition sqlite_store : Store W := {|
  CreateConfig := sqlite_CreateConfig;
  CreateConfigWithID := sqlite_CreateConfigWithID;
  GetConfig := sqlite_GetConfig;
  ListConfigsByUser := sqlite_ListConfigsByUser;
  UpdateConfig := sqlite_UpdateConfig;
  DeleteConfig := sqlite_DeleteConfig;
  CountConfigsByUser := sqlite_CountConfigsByUser;
  CloseStore := sqlite_Close;
|}.
End methods.

(** ** The logical content of the database *)

(** A stored row that can be read, as the Go struct. *)
Definition readable_row (id : Z) (r : row) : option Config :=
  match scanConfig (Some (id, r)) with Ok cfg => Some cfg | Err _ => None end.

Definition view (t : tables) : gmap Z Config := map_imap readable_row (t_configs t).

(** The owners of the rows that cannot be read. *)
Definition unreadable (t : tables) : gmap Z Z :=
  map_imap (λ id r, match readable_row id r with Some _ => None | None => Some (r_user_id r) end) (t_configs t).

Lemma unreadable_Some t id u :
  unreadable t !! id = Some u ↔ ∃ r, t_configs t !! id = Some r ∧ readable_row id r = None ∧ r_user_id r = u.
Proof.
  unfold unreadable. rewrite map_lookup_imap. destruct (t_configs t !! id) as [r|]; simpl; [|naive_solver].
  destruct (readable_row id r) eqn:Hr; naive_solver.
Qed.

Lemma view_lookup t id : view t !! id = t_configs t !! id ≫= readable_row id.
Proof. apply map_lookup_imap. Qed.

Lemma readable_row_Some id r cfg :
  readable_row id r = Some cfg ↔
  ∃ tc tm, Parse (r_created_at r) = Some tc ∧ Parse (r_modified_at r) = Some tm
    ∧ cfg = mk_Config id (r_user_id r) (r_name r) (r_content_ciphertext r) (r_content_nonce r)
              (default "" (r_last_used_with_version r)) tc tm.
Proof.
  unfold readable_row. simpl. split.
  - intros H. repeat case_match; simplify_eq/=. eauto 10.
  - intros (tc & tm & -> & -> & ->). done.
Qed.

(** What [scanConfig] returns for a row. *)
Lemma scanConfig_run id r :
  match scanConfig (Some (id, r)) with
  | Ok cfg => readable_row id r = Some cfg
  | Err e => readable_row id r = None ∧ no_sentinel e
  end.
Proof.
  unfold readable_row. destruct (scanConfig (Some (id, r))) as [cfg|e] eqn:H; [done|].
  split; [done|]. simpl in H. repeat case_match; simplify_eq/=; auto with tabby.
Qed.

#[global] Arguments scanConfig : simpl never.
#[global] Arguments Format : simpl never.
#[global] Arguments Parse : simpl never.

Lemma nullIfEmpty_default s : default "" (nullIfEmpty s) = s.
Proof. unfold nullIfEmpty. by case_decide; subst. Qed.
#[export] Hint Rewrite nullIfEmpty_default : tabby.

Lemma view_id t k cfg : view t !! k = Some cfg → cfg_ID cfg = k.
Proof.
  rewrite view_lookup. intros H. destruct (t_configs t !! k) as [r|]; [|done]; simpl in H.
  apply readable_row_Some in H as (?&?&_&_&->). done.
Qed.

(** A readable row is owned by the user in its column. *)
Lemma view_owner t k r cfg :
  t_configs t !! k = Some r → view t !! k = Some cfg → cfg_UserID cfg = r_user_id r.
Proof.
  rewrite view_lookup. intros -> H; simpl in H. apply readable_row_Some in H as (?&?&_&_&->). done.
Qed.

Lemma not_owned_view t u c : find_row t c u = None → ¬ owned (view t) u c.
Proof.
  rewrite find_row_None. intros H (cfg & Hv & Hu). pose proof Hv as Hv'.
  rewrite view_lookup in Hv. destruct (t_configs t !! c) as [r|] eqn:E; [|done].
  apply (H r); [done|]. by rewrite <- (view_owner _ _ _ _ E Hv').
Qed.

Lemma not_found_unreadable t u c : find_row t c u = None → unreadable t !! c ≠ Some u.
Proof. rewrite find_row_None. intros H (r & Hr & _ & Hu)%unreadable_Some. by apply (H r). Qed.

Lemma view_unreadable t k : is_Some (unreadable t !! k) → view t !! k = None.
Proof. intros [u (r & Hr & Hn & _)%unreadable_Some]. by rewrite view_lookup, Hr. Qed.

Lemma view_insert t k r s :
  view (mk_tables (<[k := r]> (t_configs t)) s) =
  match readable_row k r with
  | Some cfg => <[k := cfg]> (view t)
  | None => delete k (view t)
  end.
Proof.
  apply map_eq. intros i. rewrite view_lookup; simpl.
  destruct (decide (i = k)) as [->|Hne].
  - rewrite lookup_insert_eq; simpl. destruct (readable_row k r); by simplify_map_eq.
  - rewrite lookup_insert_ne by done. rewrite <- view_lookup.
    destruct (readable_row k r); by simplify_map_eq.
Qed.

Lemma view_delete t k s : view (mk_tables (delete k (t_configs t)) s) = delete k (view t).
Proof.
  apply map_eq. intros i. rewrite view_lookup; simpl.
  destruct (decide (i = k)) as [->|Hne]; simplify_map_eq; [done|]. by rewrite <- view_lookup.
Qed.

Lemma no_sentinel_not_rows e : no_sentinel e → errors_is e ErrNoRows = false.
Proof. intros H. by apply no_sentinel_is. Qed.

(** ** Listings *)

#[global] Instance id_le_trans : Transitive id_le.
Proof. unfold id_le. intros a b c ??. lia. Qed.
#[global] Instance id_le_total : Total id_le.
Proof. unfold id_le. intros a b. lia. Qed.

Lemma scanAll_run rs :
  match scanAll rs with
  | Ok l => Forall2 (λ kv cfg, readable_row kv.1 kv.2 = Some cfg) rs l
  | Err e => no_sentinel e
  end.
Proof.
  induction rs as [|[id r] rs IH]; simpl; [constructor|].
  pose proof (scanConfig_run id r) as Hs. destruct (scanConfig _) as [cfg|e]; [|by destruct Hs].
  destruct (scanAll rs); [by constructor|done].
Qed.

Lemma StronglySorted_ids rs l :
  StronglySorted id_le rs → NoDup rs.*1 →
  Forall2 (λ kv cfg, readable_row kv.1 kv.2 = Some cfg) rs l →
  StronglySorted (λ a b, cfg_ID a < cfg_ID b) l.
Proof.
  intros Hs Hnd HF. induction HF as [|[k r] cfg rs l Hr HF IH]; [constructor|].
  apply StronglySorted_cons in Hs as [Hall Hs]. simpl in Hnd. apply NoDup_cons in Hnd as [Hk Hnd].
  constructor; [by apply IH|]. apply Forall_forall. intros cfg' Hin.

  destruct (Forall2_elem_r _ _ _ _ HF Hin) as ([k' r'] & Hr' & Hin').
  simpl in Hr, Hr'. apply readable_row_Some in Hr as (?&?&_&_&->).
  apply readable_row_Some in Hr' as (?&?&_&_&->). simpl.
  rewrite Forall_forall in Hall. specialize (Hall _ Hin'). unfold id_le in Hall; simpl in Hall.
  assert (k ≠ k'); [|lia]. intros ->. apply Hk. apply list_elem_of_fmap. by exists (k', r').
Qed.

Lemma listing_of_query uid t l :
  Forall2 (λ kv cfg, readable_row kv.1 kv.2 = Some cfg) (run_query (QConfigsByUser uid) t) l →
  is_listing uid (view t) l.
Proof.
  simpl. intros HF.
  pose proof (merge_sort_Permutation id_le (map_to_list (rows_of uid t))) as HP.
  split.
  - eapply StronglySorted_ids; [| |done].
    + apply StronglySorted_merge_sort; apply _.
    + rewrite HP. apply NoDup_fst_map_to_list.
  - intros cfg. split.
    + intros Hin. destruct (Forall2_elem_r _ _ _ _ HF Hin) as ([k r] & Hr & Hin').
      rewrite HP in Hin'. apply elem_of_map_to_list, map_lookup_filter_Some in Hin' as [Hk Hu].
      simpl in *. pose proof Hr as Hr2. apply readable_row_Some in Hr as (?&?&_&_&Heq).
      rewrite Heq at 1; simpl. split; [by rewrite view_lookup, Hk|by rewrite Heq].
    + intros [Hv Hu]. pose proof Hv as Hv'. rewrite view_lookup in Hv.
      destruct (t_configs t !! cfg_ID cfg) as [r|] eqn:Ek; [|done]. simpl in Hv.
      assert (Hin : (cfg_ID cfg, r) ∈ merge_sort id_le (map_to_list (rows_of uid t))).
      { rewrite HP. apply elem_of_map_to_list, map_lookup_filter_Some. split; [done|].
        simpl. by rewrite <- (view_owner _ _ _ _ Ek Hv'). }
      destruct (Forall2_elem_l _ _ _ _ HF Hin) as (cfg' & Hr' & Hin'). simpl in Hr'.
      rewrite Hv in Hr'. by simplify_eq.
Qed.

(** Every row of a user is read or lost. *)
Lemma rows_of_split uid t k :
  k ∈ dom (rows_of uid t) ↔ k ∈ dom (own_rows uid (view t)) ∨ k ∈ dom (lost_rows uid (unreadable t)).
Proof.
  rewrite !elem_of_dom. unfold is_Some, own_rows, lost_rows, rows_of.
  setoid_rewrite map_lookup_filter_Some. cbn [snd]. setoid_rewrite unreadable_Some. setoid_rewrite view_lookup. split.
  - intros (r & Hr & Hu). rewrite Hr. simpl. destruct (readable_row k r) as [cfg|] eqn:Hc; [left|right].
    + exists cfg. split; [done|]. apply readable_row_Some in Hc as (?&?&_&_&->). done.
    + exists uid. split; [|done]. by exists r.
  - intros [(cfg & Hc & Hu)|(u & (r & Hr & _ & Hu) & Hu')]; [|exists r; split; [done|congruence]].
    destruct (t_configs t !! k) as [r|]; [|done]. exists r. split; [done|]. simpl in Hc.
    apply readable_row_Some in Hc as (?&?&_&_&->). done.
Qed.

Lemma rows_of_size uid t :
  size (rows_of uid t) = (size (own_rows uid (view t)) + size (lost_rows uid (unreadable t)))%nat.
Proof.
  rewrite <- !size_dom. rewrite <- size_union.
  - apply set_size_proper. intros k. rewrite elem_of_union. apply rows_of_split.
  - intros k [cfg Hc]%elem_of_dom [u Hu]%elem_of_dom.
    apply map_lookup_filter_Some in Hc as [Hc _], Hu as [Hu _].
    rewrite view_unreadable in Hc; [done|by exists u].
Qed.

(** A listing whose rows were all read has lost none. *)
Lemma listing_complete uid t l :
  Forall2 (λ kv cfg, readable_row kv.1 kv.2 = Some cfg) (run_query (QConfigsByUser uid) t) l →
  lost_rows uid (unreadable t) = ∅.
Proof.
  simpl. intros HF. apply map_eq. intros k. rewrite lookup_empty. apply eq_None_not_Some.
  intros [u [(r & Hr & Hn & Hu)%unreadable_Some Hu']%map_lookup_filter_Some]. cbn [snd] in Hu'.
  assert (Hin : (k, r) ∈ merge_sort id_le (map_to_list (rows_of uid t))).
  { rewrite merge_sort_Permutation. apply elem_of_map_to_list, map_lookup_filter_Some. split; [done|]. simpl. congruence. }
  destruct (Forall2_elem_l _ _ _ _ HF Hin) as (cfg & Hc & _). simpl in Hc. congruence.
Qed.

(** ** The methods meet the contract *)

Section spec.
Context {DB : Type} {E : SqlEngine DB}.
Variable others : nat → DB → DB.

(** What other goroutines may do to the readable rows. *)
Variable R : relation (gmap Z Config).
Context {HR : PreOrder R}.
Hypothesis others_R : ∀ i d, R (view (committed d)) (view (committed (others i d))).

Abbreviation W := (World DB).
Implicit Types w : W.

Definition tabs w : tables := committed (w_db w).
Definition sqlite_rows w : gmap Z Config := view (tabs w).
Definition sqlite_lost w : gmap Z Z := unreadable (tabs w).
Definition same_db w w' : Prop := w_db w' = w_db w.

Lemma pooled_query {A} (q : sql_query A) w r w' :
  pooled others (db_query q) w = (r, w') →
  R (sqlite_rows w) (sqlite_rows w') ∧
  match r with Ok x => x = run_query q (tabs w') | Err e => no_sentinel e end.
Proof using others_R.
  unfold pooled, on_db, acquire, sqlite_rows, tabs. simpl.
  destruct (db_query q _) as [r1 d] eqn:H. intros [= <- <-]. simpl.
  apply db_query_law in H as [-> H]. split; [apply others_R|done].
Qed.

Lemma pooled_rows q w r w' :
  pooled others (db_rows q) w = (r, w') →
  R (sqlite_rows w) (sqlite_rows w') ∧
  match r with
  | Ok (rs, None) => rs = run_query q (tabs w')
  | Ok (_, Some e) | Err e => no_sentinel e
  end.
Proof using others_R.
  unfold pooled, on_db, acquire, sqlite_rows, tabs. simpl.
  destruct (db_rows q _) as [r1 d] eqn:H. intros [= <- <-]. simpl.
  apply db_rows_law in H as [-> H]. split; [apply others_R|]. by destruct r1 as [[rs [e|]]|]; [destruct H|..].
Qed.

Lemma pooled_exec s w r w' :
  pooled others (db_exec s) w = (r, w') →
  ∃ t, R (sqlite_rows w) (view t) ∧
  match r with
  | Ok res => ∃ x, reported x res ∧ exec_stmt s t = Some (x, tabs w')
  | Err e => tabs w' = t ∧ no_sentinel e
  end.
Proof using others_R.
  unfold pooled, on_db, acquire, sqlite_rows, tabs. simpl.
  destruct (db_exec s _) as [r1 d] eqn:H. intros [= <- <-]. simpl.
  apply db_exec_law in H. eexists. split; [apply others_R|done].
Qed.

Lemma pooled_begin w r w' :
  pooled others begin_tx w = (r, w') →
  R (sqlite_rows w) (sqlite_rows w') ∧
  match r with Ok _ => in_tx (w_db w') = tabs w' | Err e => no_sentinel e end.
Proof using others_R.
  unfold pooled, on_db, acquire, sqlite_rows, tabs. simpl.
  destruct (begin_tx _) as [r1 d] eqn:H. intros [= <- <-]. simpl.
  apply begin_tx_law in H as [-> H]. split; [apply others_R|done].
Qed.

Lemma sqlite_get_spec w u c r w' :
  sqlite_GetConfig others u c w = (r, w') →
  R (sqlite_rows w) (sqlite_rows w') ∧
  match r with
  | Ok cfg => sqlite_rows w' !! c = Some cfg ∧ cfg_UserID cfg = u
  | Err e => (e = ErrSentinel ErrConfigNotFound ∧ ¬ owned (sqlite_rows w') u c ∧ sqlite_lost w' !! c ≠ Some u)
             ∨ no_sentinel e
  end.
Proof using others_R.
  unfold sqlite_GetConfig. rewrite bind_run, attempt_run, bind_run.
  destruct (pooled others (db_query (QConfig c u)) w) as [[q|e] w1] eqn:Hq;
    apply pooled_query in Hq as [HR' Hq]; simpl.
  - subst q. simpl. unfold lift. destruct (find_row (tabs w1) c u) as [row|] eqn:Hf; simpl.
    + pose proof (scanConfig_run c row) as Hs. destruct (scanConfig _) as [cfg|e] eqn:Hscan.
      * intros [= <- <-]. split; [done|]. apply find_row_Some in Hf as [Hf Hu].
        assert (Hv : view (tabs w1) !! c = Some cfg) by (by rewrite view_lookup, Hf).
        split; [done|]. by rewrite (view_owner _ _ _ _ Hf Hv).
      * destruct Hs as [_ Hs]. rewrite (no_sentinel_not_rows _ Hs).
        intros [= <- <-]. auto.
    + intros [= <- <-]. split; [done|]. left. split; [done|].
      split; [by apply not_owned_view|by apply not_found_unreadable].
  - rewrite (no_sentinel_not_rows _ Hq). intros [= <- <-]. auto.
Qed.

Lemma sqlite_list_spec w u r w' :
  sqlite_ListConfigsByUser others u w = (r, w') →
  R (sqlite_rows w) (sqlite_rows w') ∧
  match r with
  | Ok l => is_listing u (sqlite_rows w') l ∧ lost_rows u (sqlite_lost w') = ∅
  | Err e => no_sentinel e
  end.
Proof using others_R.
  unfold sqlite_ListConfigsByUser. rewrite bind_run, wrapf_run.
  destruct (pooled others _ w) as [[[rs err]|e] w1] eqn:Hq; apply pooled_rows in Hq as [HR' Hq];
    [|intros [= <- <-]; auto with tabby].
  rewrite bind_run. unfold lift. cbn [fst snd]. pose proof (scanAll_run rs) as Hs.
  destruct (scanAll rs) as [l|e]; [|by intros [= <- <-]].
  destruct err as [e|]; intros [= <- <-]; (split; [done|]); [auto with tabby|]. subst rs.
  split; [by apply listing_of_query|by eapply listing_complete].
Qed.

Lemma sqlite_count_spec w u r w' :
  sqlite_CountConfigsByUser others u w = (r, w') →
  R (sqlite_rows w) (sqlite_rows w') ∧
  match r with
  | Ok n => n = Z.of_nat (size (own_rows u (sqlite_rows w')) + size (lost_rows u (sqlite_lost w')))
  | Err e => no_sentinel e
  end.
Proof using others_R.
  unfold sqlite_CountConfigsByUser. intros H.
  mrun; match goal with H : pooled _ _ _ = _ |- _ => apply pooled_query in H as [? ?] end;
    (split; [done|]); auto with tabby.
  subst. simpl. by rewrite rows_of_size.
Qed.

Lemma delete_stmt_run t u c x t' :
  exec_stmt (DeleteConfigs c u) t = Some (x, t') →
  (done_rows x = 1 ∧ deletes u c (view t) (view t'))
  ∨ (done_rows x = 0 ∧ t' = t ∧ find_row t c u = None).
Proof using.
  simpl. destruct (find_row t c u) as [row|] eqn:Hf; intros ?; simplify_eq/=; [left|by right].
  split; [done|]. split; [|apply view_delete].
  apply find_row_Some in Hf as [Hf Hu]. intros cfg Hv. by rewrite (view_owner _ _ _ _ Hf Hv).
Qed.

Lemma sqlite_delete_spec w u c r w' :
  sqlite_DeleteConfig others u c w = (r, w') →
  ∃ m, R (sqlite_rows w) m ∧
  match r with
  | Ok _ => deletes u c m (sqlite_rows w')
  | Err e =>
      (e = ErrSentinel ErrConfigNotFound ∧ sqlite_rows w' = m ∧ ¬ owned m u c ∧ sqlite_lost w' !! c ≠ Some u)
      ∨ (no_sentinel e ∧ (sqlite_rows w' = m ∨ deletes u c m (sqlite_rows w')))
  end.
Proof using others_R.
  unfold sqlite_DeleteConfig. rewrite bind_run, wrapf_run.
  destruct (pooled others _ w) as [[res|e] w1] eqn:Hx; apply pooled_exec in Hx as (t & HR' & Hx).
  2: { destruct Hx as [<- Hx]. intros [= <- <-]. eexists. split; [done|]. right. auto with tabby. }
  destruct Hx as (x & [_ Hrep] & Hx%delete_stmt_run). unfold reports in Hrep.
  rewrite bind_run, wrapf_run. unfold lift at 1. intros H. exists (view t). split; [done|]. unfold sqlite_rows, sqlite_lost.
  destruct (RowsAffected res) as [n|e]; [subst n|].
  - destruct Hx as [[Hone Hd]|(Hzero & Ht & Hf)].
    + rewrite Hone in H. injection H as <- <-. done.
    + rewrite Hzero in H. injection H as <- <-. left. rewrite Ht. split; [done|]. split; [done|].
      split; [by apply not_owned_view|by apply not_found_unreadable].
  - injection H as <- <-. right. split; [auto with tabby|].
    destruct Hx as [[_ Hd]|(_ & -> & _)]; auto.
Qed.

Definition wtx w : tables := in_tx (w_db w).

Lemma on_tx_exec s w r w' :
  on_db (tx_exec s) w = (r, w') →
  tabs w' = tabs w ∧
  match r with
  | Ok res => ∃ x, reported x res ∧ exec_stmt s (wtx w) = Some (x, wtx w')
  | Err e => no_sentinel e
  end.
Proof using.
  unfold on_db. destruct (tx_exec s _) as [r1 d] eqn:H. intros [= <- <-].
  by apply tx_exec_law in H.
Qed.

Lemma on_tx_query {A} (q : sql_query A) w r w' :
  on_db (tx_query q) w = (r, w') →
  tabs w' = tabs w ∧ wtx w' = wtx w ∧
  match r with Ok x => x = run_query q (wtx w) | Err e => no_sentinel e end.
Proof using.
  unfold on_db. destruct (tx_query q _) as [r1 d] eqn:H. intros [= <- <-].
  by apply tx_query_law in H.
Qed.

Lemma on_tx_commit w r w' :
  on_db tx_commit w = (r, w') →
  match r with Ok _ => tabs w' = wtx w | Err e => tabs w' = tabs w ∧ no_sentinel e end.
Proof using.
  unfold on_db. destruct (tx_commit _) as [r1 d] eqn:H. intros [= <- <-].
  by apply tx_commit_law in H.
Qed.

Lemma defer_rollback_run {A} (body : M W A) w r w' :
  defer_rollback body w = (r, w') →
  ∃ w1, body w = (r, w1) ∧ tabs w' = tabs w1.
Proof using.
  unfold defer_rollback. destruct (body w) as [[a|e] w1]; intros [= <- <-]; [by eauto|].
  exists w1. split; [done|]. apply tx_rollback_law.
Qed.

Lemma nextModifiedAt_run old w r w' :
  nextModifiedAt old w = (r, w') → same_db w w' ∧ ∃ t, r = Ok t ∧ old < t.
Proof using.
  unfold nextModifiedAt, now, world_env, world_now, After, Add, Millisecond.
  intros [= <- <-]. split; [done|]. eexists. split; [done|].
  destruct (Z.ltb_spec old (env_now (w_env w) (w_step w))); simpl; lia.
Qed.

Lemma same_db_tabs w w' : same_db w w' → tabs w' = tabs w ∧ wtx w' = wtx w.
Proof using. unfold same_db, tabs, wtx. by intros ->. Qed.

(** [validateCreateInput] accepts exactly the inputs with both blobs. *)
Lemma validateCreateInput_run i :
  match validateCreateInput i with
  | Ok _ => in_ContentCiphertext i ≠ [] ∧ in_ContentNonce i ≠ []
  | Err e => (in_ContentCiphertext i = [] ∨ in_ContentNonce i = [])
             ∧ ∀ s, errors_is e s = bool_decide (s = ErrInvalidPatch)
  end.
Proof using.
  unfold validateCreateInput. case_decide as Hd; [|tauto].
  split; [done|]. intros s. simpl. apply bool_decide_ext. naive_solver.
Qed.

(** The row that a create reserves, and the row it finalises. *)
Definition reserved_row (u : Z) (tc : Time) : row :=
  mk_row u "" [Byte.x00] [Byte.x00] None (Format tc) (Format tc).
Definition final_row (u : Z) (inp : CreateConfigInput) (tc tm : Time) : row :=
  foldl apply_set (reserved_row u tc)
    [SetName (in_Name inp); SetCiphertext (in_ContentCiphertext inp);
     SetNonce (in_ContentNonce inp); SetLastUsed (nullIfEmpty (in_LastUsedWithVersion inp));
     SetModifiedAt (Format tm)].

Lemma final_row_scan u id inp t0 tc tm r :
  scanConfig (run_query (QConfig id u) (mk_tables (<[id := final_row u inp tc tm]> t0) id)) = r →
  match r with
  | Ok cfg => readable_row id (final_row u inp tc tm) = Some cfg
              ∧ cfg = mk_Config id u (in_Name inp) (in_ContentCiphertext inp)
                        (in_ContentNonce inp) (in_LastUsedWithVersion inp) tc tm
  | Err e => no_sentinel e
  end.
Proof using.
  simpl. unfold find_row; simpl. rewrite lookup_insert_eq, decide_True by done. simpl.
  intros <-. pose proof (scanConfig_run id (final_row u inp tc tm)) as Hs.
  destruct (scanConfig _) as [cfg|e]; [|by destruct Hs]. split; [done|].
  apply readable_row_Some in Hs as (tc' & tm' & Hc & Hm & ->). simpl in *.
  apply Parse_Format_Some in Hc as [-> _]. apply Parse_Format_Some in Hm as [-> _].
  by rewrite nullIfEmpty_default.
Qed.

Lemma insert_stmt_run r t x t' :
  exec_stmt (InsertConfig r) t = Some (x, t') →
  done_id x = next_rowid t ∧ next_rowid t ≤ max_int64
  ∧ t' = mk_tables (<[next_rowid t := r]> (t_configs t)) (next_rowid t).
Proof using. simpl. case_decide; intros ?; by simplify_eq. Qed.

(** The committed tables have not changed. *)
Ltac same_rows := unfold sqlite_rows; f_equal; congruence.

(** The row that the create transaction finalises, in the table. *)
Lemma finalise_stmt_run u id r0 sets t s x t' :
  r_user_id r0 = u →
  exec_stmt (UpdateConfigs sets id u) (mk_tables (<[id := r0]> t) s) = Some (x, t') →
  done_rows x = 1 ∧ t' = mk_tables (<[id := foldl apply_set r0 sets]> t) s.
Proof using.
  intros Hu. simpl. unfold find_row; simpl. rewrite lookup_insert_eq, decide_True by done.
  intros ?; simplify_eq/=. by rewrite insert_insert_eq.
Qed.

Lemma create_tx_spec u build w r w' :
  (∀ id w1 r1 w2, build id w1 = (r1, w2) → same_db w1 w2) →
  wtx w = tabs w →
  create_tx u build w = (r, w') →
  create_outcome u build (sqlite_rows w) r (sqlite_rows w')
  ∧ match r with
    | Ok cfg => cfg_ID cfg = next_rowid (tabs w) ∧ t_seq (tabs w') = cfg_ID cfg
    | Err _ => tabs w' = tabs w
    end.
Proof using.
  intros Hbuild Htx H. unfold create_tx in H. unfold create_outcome.
  rewrite bind_run in H. unfold reads at 1 in H. simpl in H.
  set (tc := env_now (w_env w) (w_step w)) in *.
  fold (reserved_row u tc) in H.
  rewrite bind_run, wrapf_run in H.
  destruct (on_db _ (tick w)) as [[res|e] w1] eqn:Hi; apply on_tx_exec in Hi as [Ht1 Hi];
    change (tabs (tick w)) with (tabs w) in Ht1; change (wtx (tick w)) with (wtx w) in Hi.
  2: { mrun. split; [split; [same_rows|]|congruence]. auto with tabby. }
  destruct Hi as (x & [Hrep _] & Hi). apply insert_stmt_run in Hi as (Hid & Hmax & Hi). rewrite Htx in *.
  rewrite Hid in Hrep. set (id := next_rowid (tabs w)) in *.
  rewrite bind_run, wrapf_run in H. unfold lift at 1 in H. unfold reports in Hrep.
  destruct (LastInsertId res) as [id'|e]; [subst id'|].
  2: { mrun. split; [split; [same_rows|]|congruence]. auto with tabby. }
  rewrite bind_run, wrapf_run in H.
  destruct (build id w1) as [[inp|e] w2] eqn:Hb; pose proof (Hbuild _ _ _ _ Hb) as [Ht2 Hx2]%same_db_tabs.
  2: { mrun. split; [split; [same_rows|]|congruence]. right; right. by exists (next_rowid (tabs w)), w1, e, w'. }
  rewrite bind_run in H. unfold lift at 1 in H. pose proof (validateCreateInput_run inp) as Hv.
  destruct (validateCreateInput inp) as [[]|e].
  2: { mrun. split; [split; [same_rows|]|congruence]. right; left. by eexists _, _, _, _. }
  rewrite bind_run in H.
  destruct (nextModifiedAt tc w2) as [rm w3] eqn:Hm.
  apply nextModifiedAt_run in Hm as [[Ht3 Hx3]%same_db_tabs (tm & -> & Hlt)].
  rewrite bind_run, wrapf_run in H.
  destruct (on_db _ w3) as [[res2|e] w4] eqn:Hf; apply on_tx_exec in Hf as [Ht4 Hf].
  2: { mrun. split; [split; [same_rows|]|congruence]. auto with tabby. }
  destruct Hf as (x2 & [_ Hrep2] & Hf).
  rewrite Hx3, Hx2, Hi in Hf. apply finalise_stmt_run in Hf as [Hone Hf]; [|done].
  fold (final_row u inp tc tm) in Hf. rewrite Hone in Hrep2. rewrite bind_run, wrapf_run in H.
  unfold lift at 1 in H. unfold reports in Hrep2. destruct (RowsAffected res2) as [n|e]; [subst n|].
  2: { mrun. split; [split; [same_rows|]|congruence]. auto with tabby. }
  change (negb (1 =? 1)) with false in H. cbv iota in H.
  rewrite bind_run, wrapf_run, bind_run in H.
  destruct (on_db (tx_query _) w4) as [[q|e] w5] eqn:Hq; apply on_tx_query in Hq as (Ht5 & Hx5 & Hq).
  2: { mrun. split; [split; [same_rows|]|congruence]. auto with tabby. }
  subst q. rewrite Hf in H. unfold lift at 1 in H. cbv beta in H.
  match type of H with context [scanConfig ?x] => destruct (scanConfig x) as [cfg|e] eqn:Hs end;
    apply final_row_scan in Hs.
  2: { mrun. split; [split; [same_rows|]|congruence]. auto with tabby. }
  rewrite bind_run, wrapf_run in H.
  destruct (on_db tx_commit w5) as [[[]|e] w6] eqn:Hc; apply on_tx_commit in Hc.
  2: { mrun. destruct Hc. split; [split; [same_rows|]|congruence]. auto with tabby. }
  destruct Hs as [Hs ->]. cbn in H. injection H as <- <-. split; [|subst id; cbn [cfg_ID]; split; [done|]; rewrite Hc, Hx5, Hf; done]. exists inp, w1, w2. split; [done|].
  split; [repeat split; by try apply Hv|]. split; [done|].
  split; [split; [apply next_rowid_pos|done]|].
  cbn [cfg_ID]. split; [unfold sqlite_rows; rewrite view_lookup; subst id; by rewrite next_rowid_fresh|].
  assert (Hcom : tabs w6 = mk_tables (<[id := final_row u inp tc tm]> (t_configs (tabs w))) id)
    by congruence.
  unfold sqlite_rows. by rewrite Hcom, view_insert, Hs.
Qed.

(** ** Updates *)

Lemma check_patch_run p :
  match check_patch p with
  | Ok _ => patch_ok p
  | Err e => ¬ patch_ok p ∧ ∀ s, errors_is e s = bool_decide (s = ErrInvalidPatch)
  end.
Proof using.
  assert (Hs : ∀ s, bool_decide (ErrInvalidPatch = s) = bool_decide (s = ErrInvalidPatch)).
  { intros s. by apply bool_decide_ext. }
  unfold check_patch, patch_ok.
  destruct (up_ContentCiphertext p) as [|x ct], (up_ContentNonce p) as [|y no],
    (up_PreserveModifiedAt p), (up_ExpectedModifiedAt p), (up_Name p); simpl;
    split; try done;
    first [ exact Hs | by repeat split; eauto
          | intros [[Ha Hb] Hc]; first [discriminate (Ha eq_refl) | discriminate (Hb eq_refl)
              | discriminate Hc | destruct Hc as ([? ?] & ? & ?); discriminate] ].
Qed.

(** The row after the SET list of a patch. *)
Lemma patch_clauses_row p r :
  foldl apply_set r (patch_clauses p) =
  mk_row (r_user_id r) (default (r_name r) (up_Name p))
    (match up_ContentCiphertext p with [] => r_content_ciphertext r | ct => ct end)
    (match up_ContentCiphertext p with [] => r_content_nonce r | _ => up_ContentNonce p end)
    (match up_LastUsedWithVersion p with
     | Some v => nullIfEmpty v
     | None => r_last_used_with_version r
     end)
    (r_created_at r) (r_modified_at r).
Proof using.
  destruct r. unfold patch_clauses.
  destruct (up_Name p), (up_ContentCiphertext p), (up_LastUsedWithVersion p); reflexivity.
Qed.

(** The timestamp assignment of an update of a row last modified at [old]. *)
Definition stamped (p : UpdateConfigPatch) (old : Time) (stamp : list set_clause) : Prop :=
  if up_PreserveModifiedAt p then stamp = []
  else ∃ tm, stamp = [SetModifiedAt (Format tm)] ∧ old < tm.

Lemma update_view p u c t row old stamp s :
  find_row t c u = Some row → readable_row c row = Some old →
  patch_ok p → expected_ok p old → stamped p (cfg_ModifiedAt old) stamp →
  update_commits p u c (view t)
    (view (mk_tables (<[c := foldl apply_set row (stamp ++ patch_clauses p)]> (t_configs t)) s)).
Proof using.
  intros [Hf Hu]%find_row_Some Hr Hp Hexp Hst. split; [done|].
  assert (Hv : view t !! c = Some old) by (by rewrite view_lookup, Hf).
  pose proof (proj1 (readable_row_Some _ _ _) Hr) as (tc & tm0 & Hc & Hm & Hold).
  pose (new tm := mk_Config c u (default (cfg_Name old) (up_Name p))
    (match up_ContentCiphertext p with [] => cfg_ContentCiphertext old | ct => ct end)
    (match up_ContentCiphertext p with [] => cfg_ContentNonce old | _ => up_ContentNonce p end)
    (default (cfg_LastUsedWithVersion old) (up_LastUsedWithVersion p)) (cfg_CreatedAt old) tm).
  assert (Hpat : ∀ tm, (if up_PreserveModifiedAt p then tm = tm0 else tm0 < tm) → patched p old (new tm)).
  { intros tm Htm. subst old. repeat split; simpl; done. }
  rewrite foldl_app, patch_clauses_row, view_insert. unfold stamped in Hst.
  destruct (up_PreserveModifiedAt p) eqn:Epre.
  - subst stamp; simpl. exists old, (new tm0). split_and!; [done|by subst|by subst|done|by apply Hpat|].
    left. replace (readable_row c _) with (Some (new tm0)); [done|]. symmetry.
    apply readable_row_Some. exists tc, tm0. split_and!; [done..|]. subst old. unfold new; simpl.
    f_equal; [done|]. destruct (up_LastUsedWithVersion p); simpl; [by rewrite nullIfEmpty_default|done].
  - destruct Hst as (tm & -> & Hlt). simpl. exists old, (new tm).
    split_and!; [done|by subst|by subst|done|apply Hpat; by subst old|].
    destruct (decide (ts_ok tm)) as [Hok|Hno].
    + left. replace (readable_row c _) with (Some (new tm)); [done|]. symmetry.
      apply readable_row_Some. exists tc, tm. split_and!; [done|by apply Parse_Format|].
      subst old. unfold new; simpl. f_equal; [done|].
      destruct (up_LastUsedWithVersion p); simpl; [by rewrite nullIfEmpty_default|done].
    + right. split; [done|]. unfold readable_row, scanConfig; simpl.
      rewrite (Parse_Format_out tm) by done. by destruct (Parse (r_created_at row)).
Qed.

(** A row whose creation timestamp cannot be read stays unreadable. *)
Lemma unreadable_stays p c row old stamp :
  Parse (r_modified_at row) = Some old → readable_row c row = None → stamped p old stamp →
  readable_row c (foldl apply_set row (stamp ++ patch_clauses p)) = None.
Proof using.
  intros Hm Hr Hst. assert (Hc : Parse (r_created_at row) = None).
  { unfold readable_row, scanConfig in Hr. rewrite Hm in Hr. by destruct (Parse (r_created_at row)). }
  rewrite foldl_app, patch_clauses_row. unfold readable_row, scanConfig; simpl.
  replace (r_created_at (foldl apply_set row stamp)) with (r_created_at row); [by rewrite Hc|].
  unfold stamped in Hst. destruct (up_PreserveModifiedAt p); [by subst|].
  by destruct Hst as (tm & -> & _).
Qed.

(** The stamp of an update, and the statement that writes the clauses. *)
Lemma stamp_run p old w r w' :
  (if negb (up_PreserveModifiedAt p)
   then let! candidate := nextModifiedAt old in ret [SetModifiedAt (Format candidate)]
   else ret []) w = (r, w') →
  ∃ stamp, r = Ok stamp ∧ stamped p old stamp ∧ same_db w w'.
Proof using.
  unfold stamped. destruct (up_PreserveModifiedAt p); simpl.
  - unfold ret. intros [= <- <-]. by exists [].
  - rewrite bind_run. destruct (nextModifiedAt old w) as [rm w3] eqn:Hn.
    apply nextModifiedAt_run in Hn as [? (tm & -> & ?)]. unfold ret. intros [= <- <-]. eauto 10.
Qed.

Lemma write_clauses_run u c row clauses w r w' :
  find_row (wtx w) c u = Some row →
  (if bool_decide (clauses ≠ [])
   then wrapf "sqlite: update config: " (on_db (tx_exec (UpdateConfigs clauses c u))) ;;; ret tt
   else ret tt) w = (r, w') →
  tabs w' = tabs w ∧
  match r with
  | Ok _ => wtx w' = mk_tables (<[c := foldl apply_set row clauses]> (t_configs (wtx w))) (t_seq (wtx w))
  | Err e => no_sentinel e
  end.
Proof using.
  intros Hf. case_bool_decide as Hne.
  - rewrite bind_run, wrapf_run. destruct (on_db _ w) as [[x|e] w1] eqn:He; apply on_tx_exec in He as [Ht He].
    + unfold ret. intros [= <- <-]. split; [done|]. destruct He as (y & _ & He). simpl in He.
      rewrite Hf in He. by simplify_eq.
    + intros [= <- <-]. split; [done|]. auto with tabby.
  - unfold ret. intros [= <- <-]. split; [done|]. subst clauses. simpl.
    apply find_row_Some in Hf as [Hf _]. rewrite insert_id by done. by destruct (wtx w).
Qed.

(** A stale update fails on a readable row because its timestamp moved. *)
Lemma stale_update p u c t row old :
  find_row t c u = Some row → Parse (r_modified_at row) = Some old →
  up_PreserveModifiedAt p && negb (match up_ExpectedModifiedAt p with Some e => Equal old e | None => false end) = true →
  update_fails p u c (view t) (view t) (view t) (ErrSentinel ErrConfigChanged).
Proof using.
  intros Hf Hold [Hpre Hne]%andb_true_iff. apply find_row_Some in Hf as [Hf Hu].
  apply fails_stale; [done|]. intros cfg Hc. rewrite view_lookup, Hf in Hc. simpl in Hc.
  apply readable_row_Some in Hc as (tc & tm & _ & Hm & ->). simpl. split; [done|]. intros Heq. rewrite Heq in Hne.
  replace old with tm in Hne by congruence. unfold Equal in Hne. by rewrite Z.eqb_refl in Hne.
Qed.

(** What an update transaction does to the readable rows. *)
Lemma update_tx_spec u c p w r w' :
  patch_ok p → wtx w = tabs w → update_tx u c p w = (r, w') →
  t_seq (tabs w') = t_seq (tabs w) ∧
  match r with
  | Ok _ => update_commits p u c (sqlite_rows w) (sqlite_rows w')
            ∨ (sqlite_rows w !! c = None ∧ sqlite_rows w' = sqlite_rows w)
  | Err e => sqlite_rows w' = sqlite_rows w
             ∧ update_fails p u c (sqlite_rows w) (sqlite_rows w) (sqlite_rows w) e
  end.
Proof using.
  intros Hp Htx H. unfold update_tx in H. rewrite bind_run, wrapf_run in H.
  destruct (on_db _ w) as [[q|e] w1] eqn:Hq; apply on_tx_query in Hq as (Ht1 & Hx1 & Hq).
  2: { mrun. split; [congruence|]; split; [same_rows|]. apply fails_system. auto with tabby. }
  subst q. rewrite Htx in *. simpl in H.
  destruct (find_row (tabs w) c u) as [row|] eqn:Hf; simpl in H.
  2: { mrun. split; [congruence|]; split; [same_rows|]. apply fails_absent. by apply not_owned_view. }
  destruct (Parse (r_modified_at row)) as [old|] eqn:Hold.
  2: { mrun. split; [congruence|]; split; [same_rows|]. apply fails_system. auto with tabby. }
  destruct (up_PreserveModifiedAt p && _) eqn:Hcas.
  { mrun. split; [congruence|]; split; [same_rows|]. by apply (stale_update _ _ _ _ row old). }
  rewrite bind_run in H.
  match type of H with match ?x with _ => _ end = _ => destruct x as [rs w2] eqn:Hstamp end.
  apply stamp_run in Hstamp as (stamp & -> & Hst & Hsame).
  apply same_db_tabs in Hsame as [Ht2 Hx2]. cbv iota beta zeta in H. rewrite bind_run in H.
  match type of H with match ?x with _ => _ end = _ => destruct x as [r3 w3] eqn:Hex end.
  apply (write_clauses_run _ _ row) in Hex as [Ht3 Hx3]; [|by rewrite Hx2, Hx1].
  destruct r3 as [[]|e]; [|mrun; split; [congruence|]; split; [same_rows|]; by apply fails_system].
  rewrite Hx2, Hx1 in Hx3.
  rewrite wrapf_run in H.
  destruct (on_db tx_commit w3) as [[[]|e] w4] eqn:Hc; apply on_tx_commit in Hc.
  2: { destruct Hc. mrun. split; [congruence|]; split; [same_rows|]. apply fails_system. auto with tabby. }
  mrun. split; [by rewrite Hc, Hx3|]. unfold sqlite_rows. rewrite Hc, Hx3.
  assert (Hmod : ∀ cfg, readable_row c row = Some cfg → cfg_ModifiedAt cfg = old)
    by (intros cfg (?&?&_&?&->)%readable_row_Some; simpl; congruence).
  assert (Hlook : view (tabs w) !! c = readable_row c row)
    by (apply find_row_Some in Hf as [Hf _]; by rewrite view_lookup, Hf).
  destruct (readable_row c row) as [cfg|] eqn:Hr.
  - left. apply (update_view _ _ _ _ _ cfg); try done.
    + intros Hpre. rewrite Hpre in Hcas. simpl in Hcas. apply negb_false_iff in Hcas.
      destruct (up_ExpectedModifiedAt p) as [t|]; [|done]. rewrite (Hmod _ eq_refl).
      f_equal. symmetry. by apply Z.eqb_eq.
    + by rewrite (Hmod _ eq_refl).
  - right. split; [done|]. rewrite view_insert.
    by rewrite (unreadable_stays p c row old stamp), delete_id by done.
Qed.

(** An update transaction that finds no row leaves the tables alone, and there
    was none. *)
Lemma update_tx_not_found u c p w w' :
  wtx w = tabs w → update_tx u c p w = (Err (ErrSentinel ErrConfigNotFound), w') →
  tabs w' = tabs w ∧ find_row (tabs w) c u = None.
Proof using.
  intros Htx H. unfold update_tx in H. rewrite bind_run, wrapf_run in H.
  destruct (on_db _ w) as [[q|e] w1] eqn:Hq; apply on_tx_query in Hq as (Ht1 & Hx1 & Hq); [|done].
  subst q. rewrite Htx in *. simpl in H.
  destruct (find_row (tabs w) c u) as [row|] eqn:Hf; simpl in H; [exfalso|by injection H as <-].
  destruct (Parse (r_modified_at row)) as [old|]; [|done].
  destruct (up_PreserveModifiedAt p && _); [done|]. rewrite bind_run in H.
  match type of H with match ?x with _ => _ end = _ => destruct x as [rs w2] eqn:Hstamp end.
  apply stamp_run in Hstamp as (stamp & -> & _ & [Ht2 Hx2]%same_db_tabs). cbv iota beta zeta in H. rewrite bind_run in H.
  match type of H with match ?x with _ => _ end = _ => destruct x as [r3 w3] eqn:Hex end.
  apply (write_clauses_run _ _ row) in Hex as [Ht3 Hx3]; [|by rewrite Hx2, Hx1].
  destruct r3 as [[]|e]; [|injection H as -> _; by destruct (Hx3 ErrConfigNotFound eq_refl)].
  rewrite wrapf_run in H. by destruct (on_db tx_commit w3) as [[]].
Qed.

Lemma sqlite_update_spec w u c p r w' :
  sqlite_UpdateConfig others u c p w = (r, w') →
  ∃ m, R (sqlite_rows w) m ∧
  match r with
  | Ok cfg => ∃ m', (update_commits p u c m m' ∨ (m !! c = None ∧ m' = m))
                    ∧ R m' (sqlite_rows w')
                    ∧ sqlite_rows w' !! c = Some cfg ∧ cfg_UserID cfg = u
  | Err e => ∃ m', (m' = m ∨ update_commits p u c m m') ∧ R m' (sqlite_rows w')
                   ∧ update_fails p u c m m' (sqlite_rows w') e
                   ∧ (e = ErrSentinel ErrConfigNotFound → sqlite_lost w' !! c ≠ Some u)
  end.
Proof using others_R HR.
  unfold sqlite_UpdateConfig. rewrite bind_run. unfold lift at 1.
  pose proof (check_patch_run p) as Hp. destruct (check_patch p) as [[]|e].
  2: { intros [= <- <-]. exists (sqlite_rows w). split; [done|]. exists (sqlite_rows w).
       split; [by left|]. split; [done|]. destruct Hp as [Hp He]. split; [by apply fails_invalid|].
       intros ->. by specialize (He ErrConfigNotFound). }
  rewrite bind_run, wrapf_run.
  destruct (pooled others begin_tx w) as [[[]|e] w1] eqn:Hb; apply pooled_begin in Hb as [HR1 Hb].
  2: { intros [= <- <-]. exists (sqlite_rows w1). split; [done|]. exists (sqlite_rows w1).
       split; [by left|]. split; [done|]. split; [apply fails_system; auto with tabby|done]. }
  rewrite bind_run. destruct (defer_rollback (update_tx u c p) w1) as [rt w2] eqn:Hd.
  apply defer_rollback_run in Hd as (w3 & Ht & Htab).
  assert (Hrows : sqlite_rows w2 = sqlite_rows w3) by same_rows.
  pose proof Ht as Htx. apply update_tx_spec in Ht as [_ Ht]; [|done..]. intros Hg. exists (sqlite_rows w1). split; [done|].
  destruct rt as [[]|e].
  2: { destruct Ht as [Heq Hfail]. simplify_eq/=. exists (sqlite_rows w1).
       rewrite Hrows, Heq. split; [by left|]. split; [done|]. split; [done|]. intros ->.
       apply update_tx_not_found in Htx as [Ht3 Hf]; [|done]. unfold sqlite_lost. rewrite Htab, Ht3.
       by apply not_found_unreadable. }
  apply sqlite_get_spec in Hg as [HR2 Hg]. rewrite Hrows in HR2.
  destruct r as [cfg|e].
  - exists (sqlite_rows w3). split; [tauto|]. by split.
  - exists (sqlite_rows w3). split; [tauto|]. split; [done|].
    destruct Hg as [(-> & Hno & Hl)|Hs]; [split; [by apply fails_reload|done]|].
    split; [by apply fails_system|]. intros ->. by destruct (Hs ErrConfigNotFound eq_refl).
Qed.

Lemma sqlite_create_spec w u build r w' :
  (∀ id w1 r1 w2, build id w1 = (r1, w2) → same_db w1 w2) →
  sqlite_CreateConfigWithID others u (Some build) w = (r, w') →
  ∃ m, R (sqlite_rows w) m ∧ create_outcome u build m r (sqlite_rows w').
Proof using others_R.
  intros Hbuild. unfold sqlite_CreateConfigWithID. rewrite bind_run, wrapf_run.
  destruct (pooled others begin_tx w) as [[[]|e] w1] eqn:Hb; apply pooled_begin in Hb as [HR1 Hb].
  2: { intros [= <- <-]. exists (sqlite_rows w1). split; [done|]. split; [done|]. auto with tabby. }
  intros (w2 & Ht & Htab)%defer_rollback_run. exists (sqlite_rows w1). split; [done|].
  apply create_tx_spec in Ht as [Ht _]; [|done..].
  by replace (sqlite_rows w') with (sqlite_rows w2) by same_rows.
Qed.

(** A nil builder is refused before the database is touched. *)
Lemma sqlite_nil_builder_spec w u r w' :
  sqlite_CreateConfigWithID others u None w = (r, w') →
  w' = w ∧ ∃ e, r = Err e ∧ ∀ s, errors_is e s = bool_decide (s = ErrInvalidPatch).
Proof using.
  intros [= <- <-]. split; [done|]. eexists. split; [done|]. intros s. simpl. apply bool_decide_ext. naive_solver.
Qed.

Lemma sqlite_close_spec w r w' : sqlite_Close w = (r, w') → sqlite_rows w' = sqlite_rows w.
Proof using.
  unfold sqlite_Close, on_db, sqlite_rows, tabs. destruct (db_close _) as [r1 d] eqn:H. intros [= <- <-].
  simpl. by rewrite (db_close_law _ _ _ H).
Qed.

(** The row that a plain create inserts. *)
Definition plain_row (u : Z) (i : CreateConfigInput) (t : Time) : row :=
  mk_row u (in_Name i) (in_ContentCiphertext i) (in_ContentNonce i) (nullIfEmpty (in_LastUsedWithVersion i))
    (Format t) (Format t).

Lemma plain_row_view u i t tb s :
  let id := next_rowid tb in
  in_ContentCiphertext i ≠ [] ∧ in_ContentNonce i ≠ [] → id ≤ max_int64 →
  inserts u i (view tb) id (view (mk_tables (<[id := plain_row u i t]> (t_configs tb)) s)).
Proof using.
  intros id Hi Hmax. split; [done|]. split; [split; [apply next_rowid_pos|done]|].
  split; [unfold id; by rewrite view_lookup, next_rowid_fresh|]. exists t. rewrite view_insert.
  destruct (decide (ts_ok t)) as [Hok|Hno]; [left|right; split; [done|]].
  - unfold readable_row, scanConfig. simpl. rewrite !Parse_Format by done. by rewrite nullIfEmpty_default.
  - unfold readable_row, scanConfig. simpl. rewrite Parse_Format_out by done.
    apply delete_id. unfold id. by rewrite view_lookup, next_rowid_fresh.
Qed.

Lemma sqlite_plain_create_spec w u i r w' :
  sqlite_CreateConfig others u i w = (r, w') →
  ∃ m m', R (sqlite_rows w) m ∧ R m' (sqlite_rows w') ∧ plain_create_outcome u i m m' r (sqlite_rows w').
Proof using others_R HR.
  unfold sqlite_CreateConfig. rewrite bind_run. unfold lift at 1.
  pose proof (validateCreateInput_run i) as Hv. destruct (validateCreateInput i) as [[]|e].
  2: { intros [= <- <-]. exists (sqlite_rows w), (sqlite_rows w). split_and!; [done..|]. left. split; [done|].
       by left. }
  rewrite bind_run. unfold nowRFC3339Nano. destruct (now w) as [t' w1] eqn:Hn.
  assert (Hw1 : sqlite_rows w1 = sqlite_rows w) by (unfold now, world_env, world_now in Hn; by injection Hn as _ <-).
  rewrite bind_run, wrapf_run. fold (plain_row u i t').
  destruct (pooled others _ w1) as [[x|e] w2] eqn:Hx; apply pooled_exec in Hx as (tb & HR1 & Hx); rewrite Hw1 in HR1.
  2: { intros [= <- <-]. exists (view tb), (view tb). destruct Hx as [Ht He]. unfold sqlite_rows at 2 3. rewrite Ht.
       split_and!; [done..|]. left. split; [done|]. right. auto with tabby. }
  destruct Hx as (y & [Hrep _] & Hx). apply insert_stmt_run in Hx as (Hid & Hmax & Htb).
  assert (Hins : inserts u i (view tb) (next_rowid tb) (sqlite_rows w2))
    by (unfold sqlite_rows; rewrite Htb; by apply plain_row_view).
  rewrite bind_run, wrapf_run. unfold lift at 1. rewrite Hid in Hrep. unfold reports in Hrep.
  destruct (LastInsertId x) as [id|e]; [subst id|].
  2: { intros [= <- <-]. exists (view tb), (sqlite_rows w2). split_and!; [done..|]. right. exists (next_rowid tb).
       split; [done|]. right. auto with tabby. }
  intros [HR2 Hg]%sqlite_get_spec. exists (view tb), (sqlite_rows w2). split_and!; [done..|].
  destruct r as [cfg|e].
  - assert (Heq : cfg_ID cfg = next_rowid tb) by (destruct Hg as [Hg _]; exact (view_id _ _ _ Hg)).
    unfold plain_create_outcome. by rewrite Heq.
  - right. exists (next_rowid tb). split; [done|]. tauto.
Qed.

(** The environment reads leave the database alone. *)
Lemma world_rand_run n w r w' :
  world_rand n w = (r, w') →
  same_db w w' ∧ match r with Ok b => length b = n | Err e => no_sentinel e end.
Proof using.
  unfold world_rand. destruct (env_rand _ _); intros [= <- <-]; (split; [done|]).
  - by rewrite length_fmap, length_seq.
  - auto with tabby.
Qed.

Lemma world_ctx_run w o w' :
  world_ctx w = (o, w') →
  same_db w w' ∧ ∀ e, o = Some e → e = ErrSentinel Canceled ∨ e = ErrSentinel DeadlineExceeded.
Proof using.
  unfold world_ctx. intros [= <- <-]. split; [done|]. intros e. destruct (env_ctx _ _); naive_solver.
Qed.

#[local] Instance sqlite_store_inst : Store W := sqlite_store others.

#[local] Instance same_db_preorder : PreOrder same_db.
Proof. split; unfold same_db; [done|]. intros x y z ??. congruence. Qed.

Definition sqlite_spec : StoreSpec W := {|
  rows := sqlite_rows; lost := sqlite_lost; rely := R; same_store := same_db;
  rely_preorder := HR; same_store_preorder := same_db_preorder;
  same_store_rows w w' H := f_equal (λ d, view (committed d)) H;
  same_store_lost w w' H := f_equal (λ d, unreadable (committed d)) H;
  rows_id w := view_id (tabs w);
  rows_lost w := view_unreadable (tabs w);
  now_frame w t w' H := f_equal (λ p, w_db p.2) (eq_sym H);
  rand_frame := world_rand_run;
  ctx_frame := world_ctx_run;
  get_spec := sqlite_get_spec;
  list_spec := sqlite_list_spec;
  count_spec := sqlite_count_spec;
  delete_spec := sqlite_delete_spec;
  create_spec := sqlite_plain_create_spec;
  create_with_id_spec := sqlite_create_spec;
  nil_builder_spec w u r w' H := let '(conj Hw He) := sqlite_nil_builder_spec w u r w' H in
                                 conj (f_equal sqlite_rows Hw) He;
  close_spec := sqlite_close_spec;
  update_spec := sqlite_update_spec;
|}.
End spec.

(** ** Row IDs are never reused

    The AUTOINCREMENT counter of the table never falls, whatever the methods
    and the other goroutines do, and every create takes an ID above it. *)

Section ids.
Context {DB : Type} {E : SqlEngine DB}.
Variable others : nat → DB → DB.
Hypothesis others_seq : ∀ i d, t_seq (committed d) ≤ t_seq (committed (others i d)).

Abbreviation W := (World DB).
Implicit Types w : W.

Definition last_id w : Z := t_seq (tabs w).

Lemma acquire_seq w : last_id w ≤ last_id (acquire others w).
Proof using others_seq. apply others_seq. Qed.

Lemma pooled_query_seq {A} (q : sql_query A) w r w' :
  pooled others (db_query q) w = (r, w') → last_id w ≤ last_id w'.
Proof using others_seq.
  unfold pooled, on_db. destruct (db_query q _) as [r1 d] eqn:H. intros [= <- <-].
  apply db_query_law in H as [H _]. unfold last_id at 2, tabs. simpl. rewrite H. apply others_seq.
Qed.

Lemma pooled_rows_seq q w r w' :
  pooled others (db_rows q) w = (r, w') → last_id w ≤ last_id w'.
Proof using others_seq.
  unfold pooled, on_db. destruct (db_rows q _) as [r1 d] eqn:H. intros [= <- <-].
  apply db_rows_law in H as [H _]. unfold last_id at 2, tabs. simpl. rewrite H. apply others_seq.
Qed.

Lemma pooled_exec_seq s w r w' :
  pooled others (db_exec s) w = (r, w') → last_id w ≤ last_id w'.
Proof using others_seq.
  unfold pooled, on_db. destruct (db_exec s _) as [r1 d] eqn:H. intros [= <- <-].
  apply db_exec_law in H. pose proof (acquire_seq w) as Ha. unfold last_id, tabs in *. simpl in *.
  destruct r1; [destruct H as (x & _ & H); apply exec_stmt_seq in H; lia|]. destruct H as [-> _]. done.
Qed.

Lemma pooled_begin_seq w r w' :
  pooled others begin_tx w = (r, w') →
  last_id w ≤ last_id w' ∧ match r with Ok _ => wtx w' = tabs w' | Err _ => True end.
Proof using others_seq.
  unfold pooled, on_db. destruct (begin_tx _) as [r1 d] eqn:H. intros [= <- <-].
  apply begin_tx_law in H as [H H']. unfold last_id, tabs, wtx. simpl. rewrite H.
  split; [apply others_seq|]. by destruct r1.
Qed.

Lemma sqlite_get_seq u c w r w' :
  sqlite_GetConfig others u c w = (r, w') → last_id w ≤ last_id w'.
Proof using others_seq.
  unfold sqlite_GetConfig. rewrite bind_run, attempt_run, bind_run. cbv iota beta.
  destruct (pooled others (db_query (QConfig c u)) w) as [q w1] eqn:Hq.
  apply pooled_query_seq in Hq. unfold lift, ret, fail.
  destruct q as [q|e]; simpl; repeat case_match; intros; by simplify_eq.
Qed.

Lemma sqlite_list_seq u w r w' :
  sqlite_ListConfigsByUser others u w = (r, w') → last_id w ≤ last_id w'.
Proof using others_seq.
  unfold sqlite_ListConfigsByUser. rewrite bind_run, wrapf_run.
  destruct (pooled others _ w) as [[x|e] w1] eqn:H; apply pooled_rows_seq in H;
    rewrite ?bind_run; unfold lift, ret, fail; repeat case_match; intros; by simplify_eq.
Qed.

Lemma sqlite_count_seq u w r w' :
  sqlite_CountConfigsByUser others u w = (r, w') → last_id w ≤ last_id w'.
Proof using others_seq.
  unfold sqlite_CountConfigsByUser. intros H.
  mrun; by match goal with H : pooled _ _ _ = _ |- _ => apply pooled_query_seq in H end.
Qed.

Lemma sqlite_delete_seq u c w r w' :
  sqlite_DeleteConfig others u c w = (r, w') → last_id w ≤ last_id w'.
Proof using others_seq.
  unfold sqlite_DeleteConfig. rewrite bind_run, wrapf_run.
  destruct (pooled others _ w) as [[x|e] w1] eqn:H; apply pooled_exec_seq in H;
    rewrite ?bind_run, ?wrapf_run; unfold lift, ret, fail; repeat case_match; intros; by simplify_eq.
Qed.

Lemma sqlite_update_seq u c p w r w' :
  sqlite_UpdateConfig others u c p w = (r, w') → last_id w ≤ last_id w'.
Proof using others_seq.
  unfold sqlite_UpdateConfig. rewrite bind_run. unfold lift at 1.
  pose proof (check_patch_run p) as Hp. destruct (check_patch p) as [[]|e]; [|by intros [= <- <-]].
  rewrite bind_run, wrapf_run. destruct (pooled others begin_tx w) as [[[]|e] w1] eqn:Hb;
    apply pooled_begin_seq in Hb as [Hb Htx]; [|by intros [= <- <-]].
  rewrite bind_run. destruct (defer_rollback (update_tx u c p) w1) as [rt w2] eqn:Hd.
  apply defer_rollback_run in Hd as (w3 & Ht & Htab).
  apply update_tx_spec in Ht as [Ht _]; [|done..].
  assert (last_id w1 = last_id w2) by (unfold last_id; congruence).
  destruct rt as [[]|e]; [|intros [= <- <-]; lia]. intros Hg%sqlite_get_seq. lia.
Qed.

Lemma sqlite_create_seq u build w r w' :
  (∀ id w1 r1 w2, build id w1 = (r1, w2) → same_db w1 w2) →
  sqlite_CreateConfigWithID others u (Some build) w = (r, w') →
  last_id w ≤ last_id w' ∧
  match r with Ok cfg => last_id w < cfg_ID cfg ∧ cfg_ID cfg = last_id w' | Err _ => True end.
Proof using others_seq.
  intros Hbuild. unfold sqlite_CreateConfigWithID. rewrite bind_run, wrapf_run.
  destruct (pooled others begin_tx w) as [[[]|e] w1] eqn:Hb;
    apply pooled_begin_seq in Hb as [Hb Htx]; [|by intros [= <- <-]].
  intros (w2 & Ht & Htab)%defer_rollback_run.
  apply create_tx_spec in Ht as [_ Ht]; [|done..].
  assert (last_id w' = last_id w2) by (unfold last_id; congruence).
  destruct r as [cfg|e].
  - destruct Ht as [Hid Hseq]. pose proof (next_rowid_seq (tabs w1)) as Hnext.
    unfold last_id in *. split; [lia|]. split; lia.
  - split; [|done]. unfold last_id in *. rewrite Htab, Ht. done.
Qed.
End ids.
