(* ===== verification/AesGcm.v ===== *)
(** AES-GCM as crypto/aes and crypto/cipher of Go's standard library compute
    it, for the 12-byte nonces and 16-byte tags of [cipher.NewGCM].

    The block cipher is FIPS 197 on lists of [N] bytes, GHASH and the counter
    mode are NIST SP 800-38D.  Everything is executable: the examples at the
    end evaluate the published test vectors.

    [Open_Seal] and [Open_Some] say that opening inverts sealing and that
    nothing but a sealed message opens; [Open_other_aad] says when a sealed
    message opens under a header it was not sealed with. *)

From S2P Require Import Prelude.

(** ** Bytes *)

Definition byte_xor (a b : byte) : byte :=
  let '(a0, (a1, (a2, (a3, (a4, (a5, (a6, a7))))))) := Byte.to_bits a in
  let '(b0, (b1, (b2, (b3, (b4, (b5, (b6, b7))))))) := Byte.to_bits b in
  Byte.of_bits (xorb a0 b0, (xorb a1 b1, (xorb a2 b2, (xorb a3 b3,
               (xorb a4 b4, (xorb a5 b5, (xorb a6 b6, xorb a7 b7))))))).

Definition xor_bytes : bytes → bytes → bytes := zip_with byte_xor.

Definition byte_of_N (n : N) : byte := default Byte.x00 (Byte.of_N (n mod 256)).

(** The [k] big-endian bytes of [z mod 2 ^ (8 k)]: binary.BigEndian.PutUint*. *)
Definition be_bytes (k : nat) (z : Z) : bytes :=
  (λ i, byte_of_N (Z.to_N (z / 2 ^ (8 * Z.of_nat (k - 1 - i)) mod 256))) <$> seq 0 k.

(** The value of a big-endian byte string. *)
Definition be_value (b : bytes) : N :=
  foldl (λ acc x, (acc * 256 + Byte.to_N x)%N) 0%N b.

Fixpoint chunks_fuel (fuel : nat) (k : nat) (b : bytes) : list bytes :=
  match fuel, b with
  | O, _ | _, [] => []
  | S f, _ => take k b :: chunks_fuel f k (drop k b)
  end.
Definition chunks16 (b : bytes) : list bytes := chunks_fuel (length b) 16 b.

(** ** AES (FIPS 197) *)

Definition xtime (a : N) : N :=
  let d := N.double a in if N.testbit a 7 then N.lxor (N.land d 255) 0x1b else d.

Fixpoint gf_mul_bits (fuel : nat) (a b : N) : N :=
  match fuel with
  | O => 0%N
  | S f => N.lxor (if N.odd b then a else 0%N) (gf_mul_bits f (xtime a) (N.div2 b))
  end.
Definition gf_mul : N → N → N := gf_mul_bits 8.

(** The inverse in GF(2^8) is the 254th power. *)
Definition gf_inv (a : N) : N :=
  let a2 := gf_mul a a in let a4 := gf_mul a2 a2 in let a8 := gf_mul a4 a4 in
  let a16 := gf_mul a8 a8 in let a32 := gf_mul a16 a16 in
  let a64 := gf_mul a32 a32 in let a128 := gf_mul a64 a64 in
  gf_mul a128 (gf_mul a64 (gf_mul a32 (gf_mul a16 (gf_mul a8 (gf_mul a4 a2))))).

Definition rotl8 (a : N) (k : N) : N :=
  N.land (N.lor (N.shiftl a k) (N.shiftr a (8 - k))) 255.

Definition sbox_table : list N := Eval vm_compute in
  (λ i, let v := gf_inv (N.of_nat i) in
        N.lxor 0x63 (N.lxor v (N.lxor (rotl8 v 1) (N.lxor (rotl8 v 2)
          (N.lxor (rotl8 v 3) (rotl8 v 4)))))) <$> seq 0 256.

Definition sub_byte (a : N) : N := nth (N.to_nat a) sbox_table 0%N.

Definition at_ (s : list N) (i : nat) : N := nth i s 0%N.

(** The key schedule: words of four bytes, [nk] of them from the key. *)
Definition xor_words (a b : list N) : list N := zip_with N.lxor a b.

Fixpoint rcon (i : nat) : N := match i with O => 1%N | S j => xtime (rcon j) end.

Definition next_word (nk i : nat) (ws : list (list N)) : list N :=
  (* [ws] holds words [i-1], [i-2], ..., 0 *)
  let prev := nth 0 ws [] in
  let t :=
    if (i mod nk =? 0)%nat then
      let r := sub_byte <$> [at_ prev 1; at_ prev 2; at_ prev 3; at_ prev 0] in
      xor_words r [rcon (i / nk - 1); 0%N; 0%N; 0%N]
    else if ((6 <? nk) && (i mod nk =? 4))%nat%bool then sub_byte <$> prev
    else prev in
  xor_words (nth (nk - 1) ws []) t.

Fixpoint expand (fuel nk i : nat) (ws : list (list N)) : list (list N) :=
  match fuel with
  | O => rev ws
  | S f => expand f nk (S i) (next_word nk i ws :: ws)
  end.

Definition key_schedule (key : bytes) : list (list N) :=
  let k := Byte.to_N <$> key in
  let nk := (length key / 4)%nat in
  let words := (λ i, take 4 (drop (4 * i) k)) <$> seq 0 nk in
  expand (4 * (nk + 7) - nk) nk nk (rev words).

Definition round_key (ks : list (list N)) (r : nat) : list N :=
  concat (take 4 (drop (4 * r) ks)).

Definition add_round_key (s k : list N) : list N :=
  (λ i, N.lxor (at_ s i) (at_ k i)) <$> seq 0 16.
Definition sub_shift (s : list N) : list N :=
  (λ i, sub_byte (at_ s ((i + 4 * (i mod 4)) mod 16))) <$> seq 0 16.
Definition mix_columns (s : list N) : list N :=
  (λ i, let c := (4 * (i / 4))%nat in
        let a j := at_ s (c + (i + j) mod 4) in
        N.lxor (xtime (a 0%nat)) (N.lxor (N.lxor (xtime (a 1%nat)) (a 1%nat))
          (N.lxor (a 2%nat) (a 3%nat)))) <$> seq 0 16.

Fixpoint rounds (ks : list (list N)) (r n : nat) (s : list N) : list N :=
  match n with
  | O => s
  | S m => rounds ks (S r) m (add_round_key (mix_columns (sub_shift s)) (round_key ks r))
  end.

(** [cipher.Block.Encrypt] with an expanded key; the number of rounds is
    six more than the key's words. *)
Definition aes_block (nr : nat) (ks : list (list N)) (block : bytes) : bytes :=
  let s := add_round_key (Byte.to_N <$> block) (round_key ks 0) in
  let s := rounds ks 1 (nr - 1) s in
  byte_of_N <$> add_round_key (sub_shift s) (round_key ks nr).

Record Block := mk_Block { blk_rounds : nat; blk_keys : list (list N) }.

Definition Encrypt_block (b : Block) : bytes → bytes := aes_block (blk_rounds b) (blk_keys b).

(** aes.NewCipher: [None] is KeySizeError. *)
Definition NewCipher (key : bytes) : option Block :=
  if bool_decide (length key = 16%nat ∨ length key = 24%nat ∨ length key = 32%nat)
  then Some (mk_Block (length key / 4 + 6) (key_schedule key))
  else None.

(** ** GCM (SP 800-38D) *)

Section gcm.
(** The block cipher under a fixed key. *)
Variable E : bytes → bytes.

Fixpoint gf128_mul_bits (n : nat) (x z v : N) : N :=
  match n with
  | O => z
  | S m =>
      let z' := if N.testbit x (N.of_nat m) then N.lxor z v else z in
      let v' := if N.odd v
                then N.lxor (N.div2 v) 0xe1000000000000000000000000000000
                else N.div2 v in
      gf128_mul_bits m x z' v'
  end.
Definition gf128_mul (x y : N) : N := gf128_mul_bits 128 x 0 y.

Definition pad16 (b : bytes) : bytes :=
  b ++ replicate ((16 - length b mod 16) mod 16) Byte.x00.

Definition ghash (h : N) (b : bytes) : N :=
  foldl (λ y x, gf128_mul (N.lxor y (be_value x)) h) 0%N (chunks16 b).

Definition hash_input (aad ct : bytes) : bytes :=
  pad16 aad ++ pad16 ct
  ++ be_bytes 8 (8 * Z.of_nat (length aad)) ++ be_bytes 8 (8 * Z.of_nat (length ct)).

Definition hash_key : N := be_value (E (replicate 16 Byte.x00)).

(** The tag: GHASH masked with the encrypted first counter block. *)
Definition auth_hash (aad ct : bytes) : bytes :=
  be_bytes 16 (Z.of_N (ghash hash_key (hash_input aad ct))).
Definition tag_mask (nonce : bytes) : bytes := E (nonce ++ be_bytes 4 1).
Definition auth_tag (nonce aad ct : bytes) : bytes :=
  xor_bytes (auth_hash aad ct) (tag_mask nonce).

(** Counter mode from counter 2 on. *)
Definition keystream (nonce : bytes) (n : nat) : bytes :=
  take n (concat ((λ i, E (nonce ++ be_bytes 4 (2 + Z.of_nat i))) <$> seq 0 (S (n / 16)))).
Definition ctr (nonce b : bytes) : bytes := xor_bytes b (keystream nonce (length b)).

Definition tagSize : nat := 16.

(** gcm.Seal(nil, nonce, plaintext, aad). *)
Definition Seal (nonce plaintext aad : bytes) : bytes :=
  let ct := ctr nonce plaintext in ct ++ auth_tag nonce aad ct.

(** gcm.Open(nil, nonce, ciphertext, aad); [None] is errOpen. *)
Definition Open (nonce ciphertext aad : bytes) : option bytes :=
  if (length ciphertext <? tagSize)%nat then None
  else
    let n := (length ciphertext - tagSize)%nat in
    let body := take n ciphertext in
    if bool_decide (drop n ciphertext = auth_tag nonce aad body)
    then Some (ctr nonce body)
    else None.
End gcm.

(** cipher.NewGCM on an AES block: the block's encryption. *)
Definition NewGCM (b : Block) : bytes → bytes := Encrypt_block b.

#[global] Arguments Seal : simpl never.
#[global] Arguments Open : simpl never.
#[global] Arguments NewCipher : simpl never.

(** ** Lengths and the laws of XOR *)

Lemma xorb_xorb x y : xorb (xorb x y) y = x.
Proof. by destruct x, y. Qed.

Lemma byte_xor_involutive a b : byte_xor (byte_xor a b) b = a.
Proof.
  unfold byte_xor. rewrite <- (Byte.of_bits_to_bits a) at 2.
  destruct (Byte.to_bits a) as (a0 & a1 & a2 & a3 & a4 & a5 & a6 & a7).
  destruct (Byte.to_bits b) as (b0 & b1 & b2 & b3 & b4 & b5 & b6 & b7).
  rewrite Byte.to_bits_of_bits. cbv iota beta. by rewrite !xorb_xorb.
Qed.

Lemma byte_xor_inj_l a a' b : byte_xor a b = byte_xor a' b → a = a'.
Proof. intros H. rewrite <- (byte_xor_involutive a b), H. apply byte_xor_involutive. Qed.

Lemma xor_bytes_length a b : length (xor_bytes a b) = (length a `min` length b)%nat.
Proof. apply length_zip_with. Qed.

Lemma xor_bytes_involutive a b : (length a ≤ length b)%nat → xor_bytes (xor_bytes a b) b = a.
Proof.
  revert b. induction a as [|x a IH]; intros [|y b] H; simpl in *; try done; [lia|].
  unfold xor_bytes in *. simpl. rewrite byte_xor_involutive. f_equal. apply IH. lia.
Qed.

Lemma xor_bytes_inj_l a a' b :
  length a = length b → length a' = length b → xor_bytes a b = xor_bytes a' b → a = a'.
Proof.
  intros Ha Ha' H. rewrite <- (xor_bytes_involutive a b), H by lia.
  by rewrite xor_bytes_involutive by lia.
Qed.

Lemma be_bytes_length k z : length (be_bytes k z) = k.
Proof. unfold be_bytes. by rewrite length_fmap, length_seq. Qed.

Lemma aes_block_length nr ks b : length (aes_block nr ks b) = 16%nat.
Proof. unfold aes_block, add_round_key. by rewrite !length_fmap, length_seq. Qed.

Section gcm_laws.
Variable E : bytes → bytes.
Hypothesis E_length : ∀ b, length (E b) = 16%nat.

Lemma keystream_length nonce n : length (keystream E nonce n) = n.
Proof using E_length.
  unfold keystream. rewrite length_take.
  assert (∀ l : list nat, length (concat ((λ i, E (nonce ++ be_bytes 4 (2 + Z.of_nat i))) <$> l))
                          = (16 * length l)%nat) as ->.
  { induction l as [|i l IH]; [done|]. rewrite fmap_cons. cbn [concat].
    rewrite length_app, IH, E_length. cbn [length]. lia. }
  rewrite length_seq. pose proof (Nat.div_mod_eq n 16).
  pose proof (Nat.mod_upper_bound n 16). lia.
Qed.

Lemma ctr_length nonce b : length (ctr E nonce b) = length b.
Proof using E_length. unfold ctr. rewrite xor_bytes_length, keystream_length. lia. Qed.

(** Counter mode is its own inverse. *)
Lemma ctr_involutive nonce b : ctr E nonce (ctr E nonce b) = b.
Proof using E_length.
  unfold ctr at 1. rewrite ctr_length. apply xor_bytes_involutive. by rewrite keystream_length.
Qed.

Lemma auth_tag_length nonce aad ct : length (auth_tag E nonce aad ct) = tagSize.
Proof using E_length.
  unfold auth_tag, auth_hash, tag_mask, tagSize.
  by rewrite xor_bytes_length, be_bytes_length, E_length.
Qed.

Lemma Seal_length nonce p aad : length (Seal E nonce p aad) = (length p + tagSize)%nat.
Proof using E_length. unfold Seal. by rewrite length_app, ctr_length, auth_tag_length. Qed.

Lemma Open_Seal nonce p aad : Open E nonce (Seal E nonce p aad) aad = Some p.
Proof using E_length.
  unfold Open. rewrite Seal_length.
  replace (length p + tagSize <? tagSize)%nat with false by (symmetry; apply Nat.ltb_ge; lia).
  replace (length p + tagSize - tagSize)%nat with (length (ctr E nonce p)) by (rewrite ctr_length; lia).
  unfold Seal. rewrite take_app_length, drop_app_length.
  rewrite bool_decide_true by done. by rewrite ctr_involutive.
Qed.

(** Only a sealed message opens. *)
Lemma Open_Some nonce ct aad p : Open E nonce ct aad = Some p → ct = Seal E nonce p aad.
Proof using E_length.
  unfold Open. destruct (Nat.ltb_spec (length ct) tagSize); [done|].
  case_bool_decide as Ht; [|done]. intros [= <-]. unfold Seal. rewrite ctr_involutive, <- Ht.
  by rewrite take_drop.
Qed.

(** A sealed message opens under another header exactly when the two
    headers collide under GHASH. *)
Lemma Open_other_aad nonce p aad aad' :
  Open E nonce (Seal E nonce p aad) aad' =
  if decide (auth_hash E aad' (ctr E nonce p) = auth_hash E aad (ctr E nonce p))
  then Some p else None.
Proof using E_length.
  unfold Open. rewrite Seal_length.
  replace (length p + tagSize <? tagSize)%nat with false by (symmetry; apply Nat.ltb_ge; lia).
  replace (length p + tagSize - tagSize)%nat with (length (ctr E nonce p)) by (rewrite ctr_length; lia).
  unfold Seal. rewrite take_app_length, drop_app_length, ctr_involutive.
  unfold auth_tag. case_decide as Hh.
  - by rewrite bool_decide_true by (by rewrite Hh).
  - rewrite bool_decide_false; [done|]. intros Ht. apply Hh. symmetry.
    apply (xor_bytes_inj_l _ _ (tag_mask E nonce)); [..|done];
      unfold auth_hash, tag_mask; by rewrite be_bytes_length, E_length.
Qed.
End gcm_laws.

#[global] Opaque aes_block key_schedule ghash.

(** ** Published test vectors *)

Definition hex_digit (n : N) : string :=
  String (Ascii.ascii_of_N (if (n <? 10)%N then 48 + n else 87 + n)) EmptyString.
Fixpoint hex (b : bytes) : string :=
  match b with
  | [] => ""
  | x :: r => hex_digit (Byte.to_N x / 16) +:+ hex_digit (Byte.to_N x mod 16) +:+ hex r
  end.

(** FIPS 197, appendix C.3. *)
Example aes256_fips197 :
  let key := (λ i, byte_of_N (N.of_nat i)) <$> seq 0 32 in
  let pt := (λ i, byte_of_N (N.of_nat (17 * i))) <$> seq 0 16 in
  (λ b, hex (Encrypt_block b pt)) <$> NewCipher key = Some "8ea2b7ca516745bfeafc49904b496089".
Proof. vm_compute. reflexivity. Qed.

(** The GCM specification's test cases 13 and 14. *)
Example gcm_case_13 :
  (λ b, hex (Seal (NewGCM b) (replicate 12 Byte.x00) [] [])) <$> NewCipher (replicate 32 Byte.x00)
  = Some "530f8afbc74536b9a963b4f1c4cb738b".
Proof. vm_compute. reflexivity. Qed.

Example gcm_case_14 :
  (λ b, hex (Seal (NewGCM b) (replicate 12 Byte.x00) (replicate 16 Byte.x00) []))
    <$> NewCipher (replicate 32 Byte.x00)
  = Some "cea7403d4d606b6e074ec5d3baf39d18d0d1c8a799996bf0265b98b5d48ab919".
Proof. vm_compute. reflexivity. Qed.
