(* ===== verification/Crypto.v ===== *)
(** The envelope that encrypts configuration content at rest
    (src/internal/crypto/crypto.go).

    AES-256-GCM is the concrete [AesGcm]; HKDF-SHA256 comes from
    golang.org/x/crypto and is the class [HKDF] with the one documented fact
    the code relies on.  [Encrypt] draws its nonce from the world's
    randomness; everything else is pure. *)

From S2P Require Import Prelude GoTime Env AesGcm.

(** golang.org/x/crypto/hkdf: [hkdf_read ikm salt info n] is the first [n]
    bytes of hkdf.New(sha256.New, ikm, salt, info); the reader supplies at
    most 255 hash lengths. *)
Class HKDF := {
  hkdf_read : bytes → bytes → bytes → nat → option bytes;
  hkdf_read_law ikm salt info n :
    Z.of_nat n ≤ 255 * 32 → ∃ k, hkdf_read ikm salt info n = Some k ∧ length k = n;
}.

Definition CryptoVersion : Z := 1.
Definition NonceSize : nat := 12.
Definition KeySize : nat := 32.
Definition AADSize : nat := 1 + 8 + 8.

Definition hkdfInfo (userID : Z) : string := "tabby-sync/v1/user/" +:+ pretty userID.

Definition BuildAAD (userID configID : Z) : bytes :=
  byte_of_N (Z.to_N CryptoVersion)
  :: be_bytes 8 (uint64_of userID) ++ be_bytes 8 (uint64_of configID).

(** Overwrites a slice with zero bytes. *)
Definition zero (b : bytes) : bytes := (λ _, Byte.x00) <$> b.

Section envelope.
Context {W : Type} {HE : HasEnv W} {HK : HKDF}.

Definition DeriveSubkey (masterKey : bytes) (userID : Z) : result bytes :=
  if negb (length masterKey =? KeySize)%nat
  then Err (ErrNew "crypto: master key has wrong length")
  else
    match hkdf_read masterKey [] (bytes_of_string (hkdfInfo userID)) KeySize with
    | None => Err (ErrWrap "crypto: derive subkey: " (ErrExternal "hkdf: entropy limit reached") "")
    | Some subkey => Ok subkey
    end.

Definition Encrypt (masterKey : bytes) (userID configID : Z) (plaintext : bytes)
    : M W (bytes * bytes) :=
  let! subkey := lift (DeriveSubkey masterKey userID) in
  match NewCipher subkey with
  | None => fail (ErrWrap "crypto: new cipher: " (ErrExternal "crypto/aes: invalid key size") "")
  | Some block =>
      let gcm := NewGCM block in
      let! nonce := wrapf "crypto: random nonce: " (rand_read NonceSize) in
      let aad := BuildAAD userID configID in
      ret (Seal gcm nonce plaintext aad, nonce)
  end.

Definition Decrypt (masterKey : bytes) (userID configID : Z) (ciphertext nonce : bytes)
    : result bytes :=
  if negb (length nonce =? NonceSize)%nat then Err (ErrSentinel ErrDecrypt)
  else
    match DeriveSubkey masterKey userID with
    | Err _ => Err (ErrSentinel ErrDecrypt)
    | Ok subkey =>
        match NewCipher subkey with
        | None => Err (ErrSentinel ErrDecrypt)
        | Some block =>
            let gcm := NewGCM block in
            let aad := BuildAAD userID configID in
            match Open gcm nonce ciphertext aad with
            | None => Err (ErrSentinel ErrDecrypt)
            | Some plaintext => Ok plaintext
            end
        end
    end.
End envelope.

(** ** The key schedule never fails on a well-formed master key *)

Section laws.
Context {W : Type} {HE : HasEnv W} {HK : HKDF}.
Implicit Types (mk ct nonce p : bytes) (u c : Z).

(** The AEAD keyed for a user: the block cipher under the subkey. *)
Definition user_cipher mk u : option (bytes → bytes) :=
  match DeriveSubkey mk u with
  | Ok k => NewGCM <$> NewCipher k
  | Err _ => None
  end.

Lemma DeriveSubkey_ok mk u :
  length mk = KeySize → ∃ k, DeriveSubkey mk u = Ok k ∧ length k = KeySize.
Proof.
  intros Hl. unfold DeriveSubkey. rewrite Hl. simpl.
  destruct (hkdf_read_law mk [] (bytes_of_string (hkdfInfo u)) KeySize) as (k & -> & ?);
    [done|]. by exists k.
Qed.

Lemma DeriveSubkey_bad mk u :
  length mk ≠ KeySize → DeriveSubkey mk u = Err (ErrNew "crypto: master key has wrong length").
Proof. intros Hl. unfold DeriveSubkey. by rewrite (proj2 (Nat.eqb_neq _ _) Hl). Qed.

Lemma NewCipher_length k b : NewCipher k = Some b → ∀ x, length (NewGCM b x) = 16%nat.
Proof.
  unfold NewCipher. case_bool_decide; [|done]. intros Hb x. injection Hb as <-.
  unfold NewGCM, Encrypt_block. exact (aes_block_length _ _ _).
Qed.

Lemma NewCipher_32 k : length k = KeySize → ∃ b, NewCipher k = Some b.
Proof. intros Hl. unfold NewCipher. rewrite bool_decide_true; [by eexists|]. by right; right. Qed.

Lemma user_cipher_ok mk u : length mk = KeySize → is_Some (user_cipher mk u).
Proof.
  intros Hl. unfold user_cipher. destruct (DeriveSubkey_ok mk u Hl) as (k & -> & Hk).
  destruct (NewCipher_32 k Hk) as [b ->]. by eexists.
Qed.

Lemma user_cipher_length mk u E : user_cipher mk u = Some E → ∀ x, length (E x) = 16%nat.
Proof.
  unfold user_cipher. destruct (DeriveSubkey mk u) as [k|]; [|done].
  destruct (NewCipher k) as [b|] eqn:Hb; intros [= <-]. by apply (NewCipher_length k).
Qed.

(** [Encrypt] and [Decrypt] in terms of the user's cipher. *)
Lemma Encrypt_run mk u c p w r w' :
  length mk = KeySize → Encrypt mk u c p w = (r, w') →
  match rand_read NonceSize w with
  | (Ok nonce, w1) => w' = w1 ∧ ∃ E, user_cipher mk u = Some E
                        ∧ r = Ok (Seal E nonce p (BuildAAD u c), nonce)
  | (Err e, w1) => w' = w1 ∧ r = Err (ErrWrap "crypto: random nonce: " e "")
  end.
Proof.
  intros Hl. unfold Encrypt, user_cipher. rewrite bind_run. unfold lift.
  destruct (DeriveSubkey_ok mk u Hl) as (k & -> & Hk). destruct (NewCipher_32 k Hk) as [b ->].
  rewrite bind_run, wrapf_run. destruct (rand_read NonceSize w) as [[nonce|e] w1];
    intros [= <- <-]; [|done]. split; [done|]. by eexists.
Qed.

Lemma Decrypt_run mk u c ct nonce :
  Decrypt mk u c ct nonce =
  match (if (length nonce =? NonceSize)%nat then user_cipher mk u else None) with
  | Some E => match Open E nonce ct (BuildAAD u c) with
              | Some p => Ok p
              | None => Err (ErrSentinel ErrDecrypt)
              end
  | None => Err (ErrSentinel ErrDecrypt)
  end.
Proof.
  unfold Decrypt, user_cipher. destruct (length nonce =? NonceSize)%nat; [|done]. simpl.
  destruct (DeriveSubkey mk u) as [k|]; [|done]. by destruct (NewCipher k).
Qed.

(** What [Encrypt] returned, [Decrypt] opens. *)
Lemma Decrypt_Seal mk u c nonce p E :
  length nonce = NonceSize → user_cipher mk u = Some E →
  Decrypt mk u c (Seal E nonce p (BuildAAD u c)) nonce = Ok p.
Proof.
  intros Hn HE'. rewrite Decrypt_run, Hn, HE'. simpl.
  by rewrite Open_Seal by (by apply (user_cipher_length mk u)).
Qed.

Lemma Decrypt_Ok mk u c ct nonce p :
  Decrypt mk u c ct nonce = Ok p ↔
  length nonce = NonceSize
  ∧ ∃ E, user_cipher mk u = Some E ∧ ct = Seal E nonce p (BuildAAD u c).
Proof.
  split.
  - rewrite Decrypt_run. destruct (Nat.eqb_spec (length nonce) NonceSize); [|done].
    destruct (user_cipher mk u) as [E|] eqn:HE'; [|done].
    destruct (Open E nonce ct (BuildAAD u c)) as [p'|] eqn:Ho; [|done]. intros [= ->].
    split; [done|]. exists E. split; [done|].
    apply (Open_Some E); [by apply (user_cipher_length mk u)|done].
  - intros (Hn & E & HE' & ->). by apply Decrypt_Seal.
Qed.

Lemma Decrypt_Err mk u c ct nonce e :
  Decrypt mk u c ct nonce = Err e → e = ErrSentinel ErrDecrypt.
Proof. rewrite Decrypt_run. repeat case_match; congruence. Qed.

(** A failing [Encrypt] changes nothing but the randomness it read, and its
    error is not the sentinel of a tampered ciphertext. *)
Lemma Encrypt_bad_key mk u c p w :
  length mk ≠ KeySize →
  Encrypt mk u c p w = (Err (ErrNew "crypto: master key has wrong length"), w).
Proof. intros Hl. unfold Encrypt. by rewrite bind_run, DeriveSubkey_bad. Qed.
End laws.

(** ** The header *)

Lemma byte_of_N_inj a b : (a < 256)%N → (b < 256)%N → byte_of_N a = byte_of_N b → a = b.
Proof.
  intros Ha Hb. unfold byte_of_N. rewrite !N.mod_small by done.
  destruct (Byte.of_N a) as [x|] eqn:Hx, (Byte.of_N b) as [y|] eqn:Hy; simpl.
  - intros ->. apply Byte.to_of_N in Hx, Hy. congruence.
  - apply Byte.of_N_None_iff in Hy. lia.
  - apply Byte.of_N_None_iff in Hx. lia.
  - apply Byte.of_N_None_iff in Hx. lia.
Qed.

Lemma be_bytes_S k z :
  be_bytes (S k) z = byte_of_N (Z.to_N (z / 2 ^ (8 * Z.of_nat k) mod 256)) :: be_bytes k z.
Proof.
  unfold be_bytes. cbn [seq]. rewrite fmap_cons.
  replace (S k - 1 - 0)%nat with k by lia. f_equal.
  rewrite <- fmap_S_seq, <- list_fmap_compose. apply list_fmap_ext. intros i x _. unfold compose.
  by replace (S k - 1 - S x)%nat with (k - 1 - x)%nat by lia.
Qed.

Lemma be_bytes_inj k z z' :
  be_bytes k z = be_bytes k z' → z mod 2 ^ (8 * Z.of_nat k) = z' mod 2 ^ (8 * Z.of_nat k).
Proof.
  induction k as [|k IH]; [by rewrite !Z.mod_1_r|]. rewrite !be_bytes_S. intros [= Hb Hr].
  apply IH in Hr. apply byte_of_N_inj in Hb;
    [|pose proof (Z.mod_pos_bound (z / 2 ^ (8 * Z.of_nat k)) 256);
      pose proof (Z.mod_pos_bound (z' / 2 ^ (8 * Z.of_nat k)) 256); lia..].
  replace (8 * Z.of_nat (S k)) with (8 * Z.of_nat k + 8) by lia.
  rewrite Z.pow_add_r by lia. change (2 ^ 8) with 256.
  rewrite !Z.rem_mul_r by (apply Z.pow_nonzero || lia; lia). rewrite Hr.
  pose proof (Z.mod_pos_bound (z / 2 ^ (8 * Z.of_nat k)) 256).
  pose proof (Z.mod_pos_bound (z' / 2 ^ (8 * Z.of_nat k)) 256). f_equal. f_equal. lia.
Qed.

Lemma uint64_of_inj a b : int64_range a → int64_range b → uint64_of a = uint64_of b → a = b.
Proof. unfold int64_range, uint64_of, min_int64, max_int64. intros ?? H. Z.div_mod_to_equations. lia. Qed.

Lemma BuildAAD_length u c : length (BuildAAD u c) = AADSize.
Proof. unfold BuildAAD. cbn [length]. by rewrite length_app, !be_bytes_length. Qed.

Lemma BuildAAD_inj u c u' c' :
  int64_range u → int64_range c → int64_range u' → int64_range c' →
  BuildAAD u c = BuildAAD u' c' → u = u' ∧ c = c'.
Proof.
  intros Hu Hc Hu' Hc'. unfold BuildAAD. intros [_ H]%(inj2 cons). apply app_inj_1 in H as [H1 H2]; [|by rewrite !be_bytes_length].
  apply be_bytes_inj in H1, H2.
  split; apply uint64_of_inj; try done; unfold uint64_of in *; change (8 * Z.of_nat 8) with 64 in *;
    by rewrite !Z.mod_mod in * by done.
Qed.
