(* ===== verification/Encrypted.v ===== *)
(** The encrypting store (src/internal/store/encrypted/encrypted.go).

    [EncStore] wraps any [Store]; its operations encrypt before they write
    and decrypt after they read.  [enc_spec] shows that over a store that
    meets [StoreSpec] they meet [EncryptedStoreSpec], whatever other
    requests do meanwhile; the retry loop of the update is bounded by
    explicit fuel, and [update_loop_returns] says how much is enough. *)

From S2P Require Import Prelude GoTime Env Store AesGcm Crypto.

Record EncStore (W : Type) := mk_EncStore {
  enc_inner : Store W;
  enc_masterKey : bytes;
}.
Arguments mk_EncStore {W}.
Arguments enc_inner {W}.
Arguments enc_masterKey {W}.

Definition toPlaintext (row : Config) (pt : bytes) : ConfigWithPlaintext :=
  mk_ConfigWithPlaintext (cfg_ID row) (cfg_UserID row) (cfg_Name row) pt
    (cfg_LastUsedWithVersion row) (cfg_CreatedAt row) (cfg_ModifiedAt row).

(** Whether a patch has a name, or a content, other than the current one. *)
Definition nameChanged (p : UpdateConfigPlaintextPatch) (current : ConfigWithPlaintext) : bool :=
  match pp_Name p with Some name => negb (bool_decide (name = pt_Name current)) | None => false end.
Definition contentChanged (p : UpdateConfigPlaintextPatch) (current : ConfigWithPlaintext) : bool :=
  match pp_Content p with Some content => negb (bool_decide (content = pt_Content current)) | None => false end.

(** ** Key buffers *)

Definition buffer (bufs : list bytes) (k : nat) : bytes := default [] (bufs !! k).
(** [for i := range key { key[i] = 0 }]. *)
Definition wipe (k : nat) (bufs : list bytes) : list bytes := alter zero k bufs.

Lemma zero_zero b : zero (zero b) = zero b.
Proof. unfold zero. rewrite <- list_fmap_compose. by apply list_fmap_ext. Qed.

Lemma wipe_same k bufs b : bufs !! k = Some b → wipe k bufs !! k = Some (zero b).
Proof. intros H. unfold wipe. by rewrite list_lookup_alter_eq, H. Qed.

Lemma wipe_other k k' bufs : k ≠ k' → wipe k bufs !! k' = bufs !! k'.
Proof. intros H. unfold wipe. by rewrite list_lookup_alter_ne. Qed.

Lemma length_wipe k bufs : length (wipe k bufs) = length bufs.
Proof. apply length_alter. Qed.

Section methods.
Context {W : Type} {HE : HasEnv W} {HK : HKDF}.
Implicit Types s : EncStore W.

(** *encrypted.Store: its key is a slice, an index into the key buffers of the
    process.  Slices with the same index share their bytes. *)
Record StorePtr := mk_StorePtr { ptr_inner : Store W; ptr_masterKey : nat }.

(** The store behind the pointer, as long as nobody writes to its key. *)
Definition at_buffers (s : StorePtr) (bufs : list bytes) : EncStore W :=
  mk_EncStore (ptr_inner s) (buffer bufs (ptr_masterKey s)).

(** New copies the caller's key into a buffer of its own. *)
Definition New (inner : option (Store W)) (masterKey : nat) (bufs : list bytes)
    : result StorePtr * list bytes :=
  match inner with
  | None => (Err (ErrNew "encrypted: nil inner store"), bufs)
  | Some inner =>
      if negb (length (buffer bufs masterKey) =? KeySize)%nat
      then (Err (ErrNew "encrypted: master key has wrong length"), bufs)
      else let cp := length bufs in
           (Ok (mk_StorePtr inner cp), bufs ++ [buffer bufs masterKey])
  end.

(** The key is wiped in place, then the inner store is closed; [None] is a
    nil receiver.  [New] refuses a nil inner store, so the guard against one
    never applies. *)
Definition Close (s : option StorePtr) (bufs : list bytes) (w : W) : (result unit * list bytes) * W :=
  match s with
  | None => ((Ok tt, bufs), w)
  | Some s =>
      let '(r, w') := @CloseStore W (ptr_inner s) w in ((r, wipe (ptr_masterKey s) bufs), w')
  end.

(** The callback that encrypts for the row's final ID. *)
Definition create_builder s (userID : Z) (i : CreateConfigPlaintextInput)
    : CreateConfigInputBuilder W := λ configID,
  let! '(ct, nonce) := wrapf "encrypted: encrypt create: "
                         (Encrypt (enc_masterKey s) userID configID (pin_Content i)) in
  ret (mk_CreateConfigInput (pin_Name i) ct nonce (pin_LastUsedWithVersion i)).

Definition enc_CreateConfigPlaintext s (userID : Z) (i : CreateConfigPlaintextInput)
    : M W ConfigWithPlaintext :=
  let! row := @CreateConfigWithID W (enc_inner s) userID (Some (create_builder s userID i)) in
  ret (mk_ConfigWithPlaintext (cfg_ID row) (cfg_UserID row) (cfg_Name row) (pin_Content i)
         (cfg_LastUsedWithVersion row) (cfg_CreatedAt row) (cfg_ModifiedAt row)).

Definition enc_GetConfigPlaintext s (userID configID : Z) : M W ConfigWithPlaintext :=
  let! row := @GetConfig W (enc_inner s) userID configID in
  match Decrypt (enc_masterKey s) userID configID
          (cfg_ContentCiphertext row) (cfg_ContentNonce row) with
  | Err _ => fail (ErrSentinel ErrDecrypt)
  | Ok pt => ret (toPlaintext row pt)
  end.

(** The decrypting loop of the listing. *)
Fixpoint decrypt_rows (masterKey : bytes) (userID : Z) (rows : list Config)
    : result (list ConfigWithPlaintext) :=
  match rows with
  | [] => Ok []
  | row :: rest =>
      match Decrypt masterKey userID (cfg_ID row)
              (cfg_ContentCiphertext row) (cfg_ContentNonce row) with
      | Err _ => Err (ErrSentinel ErrDecrypt)
      | Ok pt =>
          match decrypt_rows masterKey userID rest with
          | Err e => Err e
          | Ok out => Ok (toPlaintext row pt :: out)
          end
      end
  end.

Definition enc_ListConfigsByUserPlaintext s (userID : Z) : M W (list ConfigWithPlaintext) :=
  let! rows := @ListConfigsByUser W (enc_inner s) userID in
  lift (decrypt_rows (enc_masterKey s) userID rows).

(** The patch that a real change sends down: only what differs from
    [current], the content freshly encrypted. *)
Definition real_patch s (userID configID : Z) (p : UpdateConfigPlaintextPatch)
    (current : ConfigWithPlaintext) : M W UpdateConfigPatch :=
  let name := if nameChanged p current then pp_Name p else None in
  let! '(ct, nonce) :=
    (if contentChanged p current
     then wrapf "encrypted: encrypt update: "
            (Encrypt (enc_masterKey s) userID configID (default [] (pp_Content p)))
     else ret ([], [])) in
  ret (mk_UpdateConfigPatch name ct nonce (pp_LastUsedWithVersion p) false None).

(** The conditional patch of a request that changes neither name nor
    content. *)
Definition noop_patch (p : UpdateConfigPlaintextPatch) (current : ConfigWithPlaintext)
    : UpdateConfigPatch :=
  mk_UpdateConfigPatch None [] []
    (match pp_LastUsedWithVersion p with
     | Some v => if bool_decide (v ≠ pt_LastUsedWithVersion current) then Some v else None
     | None => None
     end) true (Some (pt_ModifiedAt current)).

(** One round of the loop: [None] is [continue]. *)
Definition update_round s (userID configID : Z) (p : UpdateConfigPlaintextPatch)
    : M W (option ConfigWithPlaintext) :=
  let! stop := reads ctx_Err in
  match stop with
  | Some e => fail e
  | None =>
      let! current := enc_GetConfigPlaintext s userID configID in
      if nameChanged p current || contentChanged p current then
        let! innerPatch := real_patch s userID configID p current in
        @UpdateConfig W (enc_inner s) userID configID innerPatch ;;;
        let! out := enc_GetConfigPlaintext s userID configID in
        ret (Some out)
      else
        let! r := attempt (@UpdateConfig W (enc_inner s) userID configID (noop_patch p current)) in
        match r with
        | Err e => if errors_is e ErrConfigChanged then ret None else fail e
        | Ok _ => let! out := enc_GetConfigPlaintext s userID configID in ret (Some out)
        end
  end.

Fixpoint update_loop (fuel : nat) s (userID configID : Z) (p : UpdateConfigPlaintextPatch) (w : W)
    : option (result ConfigWithPlaintext) * W :=
  match fuel with
  | O => (None, w)
  | S n =>
      match update_round s userID configID p w with
      | (Err e, w') => (Some (Err e), w')
      | (Ok (Some cfg), w') => (Some (Ok cfg), w')
      | (Ok None, w') => update_loop n s userID configID p w'
      end
  end.

Definition enc_DeleteConfig s (userID configID : Z) : M W unit :=
  @DeleteConfig W (enc_inner s) userID configID.

Definition enc_CountConfigsByUser s (userID : Z) : M W Z :=
  @CountConfigsByUser W (enc_inner s) userID.

Definition encrypted_store s : EncryptedStore W := {|
  CreateConfigPlaintext := enc_CreateConfigPlaintext s;
  GetConfigPlaintext := enc_GetConfigPlaintext s;
  ListConfigsByUserPlaintext := enc_ListConfigsByUserPlaintext s;
  UpdateConfigPlaintext n := update_loop n s;
  DeleteConfigEnc := enc_DeleteConfig s;
  CountConfigsByUserEnc := enc_CountConfigsByUser s;
|}.
End methods.

(** The tests of the code are those of the contract. *)
Lemma nameChanged_differs p seen : nameChanged p seen = differs (pp_Name p) (pt_Name seen).
Proof. unfold nameChanged, differs. destruct (pp_Name p); [|done]. by rewrite bool_decide_not. Qed.
Lemma contentChanged_differs p seen : contentChanged p seen = differs (pp_Content p) (pt_Content seen).
Proof. unfold contentChanged, differs. destruct (pp_Content p); [|done]. by rewrite bool_decide_not. Qed.

(** ** Rows as the layer above sees them *)

Section view.
Context {HK : HKDF}.
Implicit Types (k : bytes) (cfg : Config).

Definition content k cfg : option bytes :=
  match Decrypt k (cfg_UserID cfg) (cfg_ID cfg) (cfg_ContentCiphertext cfg) (cfg_ContentNonce cfg) with
  | Ok p => Some p
  | Err _ => None
  end.

Definition opened k cfg : PRow :=
  mk_PRow (cfg_UserID cfg) (cfg_Name cfg) (content k cfg) (cfg_LastUsedWithVersion cfg)
    (cfg_CreatedAt cfg) (cfg_ModifiedAt cfg).

Lemma opened_shown k cfg p :
  content k cfg = Some p → opened k cfg = shown (toPlaintext cfg p).
Proof. unfold opened, shown. intros ->. done. Qed.

Lemma pt_owned_opened k m u c : pt_owned (opened k <$> m) u c ↔ owned m u c.
Proof.
  unfold pt_owned, owned. setoid_rewrite lookup_fmap_Some. split.
  - intros (r & (cfg & <- & H) & Hu). eauto.
  - intros (cfg & H & Hu). exists (opened k cfg). eauto.
Qed.

Lemma pt_own_opened k m u : pt_own u (opened k <$> m) = opened k <$> own_rows u m.
Proof. unfold pt_own, own_rows. by rewrite map_filter_fmap. Qed.
End view.

(** ** The operations meet the contract *)

Section spec.
Context {W : Type} {HE : HasEnv W} {HS : Store W} {Sp : StoreSpec W} {HK : HKDF}.
Variable key : bytes.
Variable P : relation (gmap Z PRow).
Context {HP : PreOrder P}.
Hypothesis rely_P : ∀ m m', rely m m' → P (opened key <$> m) (opened key <$> m').

Implicit Types w : W.
Definition enc : EncStore W := mk_EncStore HS key.
Definition enc_rows w : gmap Z PRow := opened key <$> rows w.

Definition enc_lost w : gmap Z Z := lost w.

Lemma same_store_enc w w' : same_store w w' → enc_rows w' = enc_rows w.
Proof using. intros H. unfold enc_rows. by rewrite (same_store_rows _ _ H). Qed.

(** [Encrypt] only draws a nonce; what it returns opens. *)
Lemma Encrypt_frame u c p w r w' :
  Encrypt key u c p w = (r, w') →
  same_store w w' ∧
  match r with
  | Ok (ct, nonce) => Decrypt key u c ct nonce = Ok p ∧ ct ≠ [] ∧ nonce ≠ []
  | Err e => no_sentinel e
  end.
Proof using.
  intros H. destruct (decide (length key = KeySize)) as [Hk|Hk].
  2: { rewrite Encrypt_bad_key in H by done. simplify_eq. split; [done|]. auto with tabby. }
  apply Encrypt_run in H; [|done].
  destruct (rand_read NonceSize w) as [[nonce|e] w1] eqn:Hr;
    apply rand_frame in Hr as [Hs Hn]; destruct H as [-> H].
  - destruct H as (E & HE' & ->). split; [done|]. split; [by apply Decrypt_Seal|].
    split; [|by destruct nonce]. intros Hnil. apply (f_equal length) in Hnil.
    rewrite Seal_length in Hnil by (by apply (user_cipher_length key u)).
    unfold tagSize in Hnil. simpl in Hnil. lia.
  - subst r. split; [done|]. auto with tabby.
Qed.

Lemma get_row w u c cfg :
  rows w !! c = Some cfg → cfg_UserID cfg = u →
  match Decrypt key u c (cfg_ContentCiphertext cfg) (cfg_ContentNonce cfg) with
  | Ok p => content key cfg = Some p ∧ pt_row (enc_rows w) u c (toPlaintext cfg p)
  | Err _ => pt_damaged (enc_rows w) u c
  end.
Proof using.
  intros Hc Hu. pose proof (rows_id _ _ _ Hc) as Hid. unfold pt_row, pt_damaged, enc_rows, content.
  rewrite lookup_fmap, Hc, Hu, Hid.
  destruct (Decrypt _ _ _ _ _) as [p|e] eqn:Hd; simpl.
  - split; [done|]. split; [|done]. f_equal. apply opened_shown. unfold content.
    by rewrite Hu, Hid, Hd.
  - eexists. split; [done|]. split; [done|]. unfold opened, content; simpl. by rewrite Hu, Hid, Hd.
Qed.

Lemma enc_get_spec w u c r w' :
  enc_GetConfigPlaintext enc u c w = (r, w') →
  P (enc_rows w) (enc_rows w') ∧
  match r with
  | Ok cfg => pt_row (enc_rows w') u c cfg
  | Err e => (e = ErrSentinel ErrConfigNotFound ∧ ¬ pt_owned (enc_rows w') u c ∧ enc_lost w' !! c ≠ Some u)
             ∨ (e = ErrSentinel ErrDecrypt ∧ pt_damaged (enc_rows w') u c)
             ∨ no_sentinel e
  end.
Proof using rely_P.
  unfold enc_GetConfigPlaintext. rewrite bind_run. simpl.
  destruct (GetConfig u c w) as [[row|e] w1] eqn:Hg; apply get_spec in Hg as [Hr Hg].
  - destruct Hg as [Hc Hu]. pose proof (get_row w1 u c row Hc Hu) as Hrow.
    destruct (Decrypt _ _ _ _ _); intros [= <- <-]; (split; [by apply rely_P|]); tauto.
  - intros [= <- <-]. split; [by apply rely_P|].
    destruct Hg as [(-> & Hno & Hl)|Hno]; [left|by auto]. split; [done|]. unfold enc_rows.
    by rewrite pt_owned_opened.
Qed.

Lemma decrypt_rows_run u l r :
  decrypt_rows key u l = r → (∀ cfg, cfg ∈ l → cfg_UserID cfg = u) →
  match r with
  | Ok out => Forall2 (λ cfg x, ∃ p, content key cfg = Some p ∧ x = toPlaintext cfg p) l out
  | Err e => e = ErrSentinel ErrDecrypt ∧ ∃ cfg, cfg ∈ l ∧ content key cfg = None
  end.
Proof using.
  intros <- Hu. induction l as [|cfg l IH]; simpl; [constructor|].
  pose proof (Hu cfg (list_elem_of_here _ _)) as Hcu.
  assert (IH' := IH (λ x Hx, Hu x (list_elem_of_further _ _ _ Hx))). clear IH.
  destruct (Decrypt _ _ _ _ _) as [p|e] eqn:Hd.
  - assert (content key cfg = Some p) by (unfold content; by rewrite Hcu, Hd).
    destruct (decrypt_rows key u l) as [out|e].
    + constructor; eauto.
    + destruct IH' as (-> & cfg' & Hin & Hn). split; [done|]. exists cfg'. split; [|done].
      by apply list_elem_of_further.
  - split; [done|]. exists cfg. split; [by apply list_elem_of_here|].
    unfold content. by rewrite Hcu, Hd.
Qed.

Lemma toPlaintext_sorted l out :
  StronglySorted (λ a b, cfg_ID a < cfg_ID b) l →
  Forall2 (λ cfg x, ∃ p, content key cfg = Some p ∧ x = toPlaintext cfg p) l out →
  StronglySorted (λ a b, pt_ID a < pt_ID b) out.
Proof using.
  intros Hs HF. induction HF as [|cfg x l out (p & _ & ->) HF IH]; [constructor|].
  apply StronglySorted_cons in Hs as [Hall Hs]. constructor; [by apply IH|].
  apply Forall_forall. intros y Hy. destruct (Forall2_elem_r _ _ _ _ HF Hy) as (cfg' & (q & _ & ->) & Hin).
  rewrite Forall_forall in Hall. by apply (Hall cfg').
Qed.

Lemma enc_list_spec w u r w' :
  enc_ListConfigsByUserPlaintext enc u w = (r, w') →
  P (enc_rows w) (enc_rows w') ∧
  match r with
  | Ok l => pt_listing u (enc_rows w') l ∧ lost_rows u (enc_lost w') = ∅
  | Err e => (e = ErrSentinel ErrDecrypt ∧ ∃ c, pt_damaged (enc_rows w') u c) ∨ no_sentinel e
  end.
Proof using rely_P.
  unfold enc_ListConfigsByUserPlaintext. rewrite bind_run. simpl.
  destruct (ListConfigsByUser u w) as [[l|e] w1] eqn:Hl; apply list_spec in Hl as [Hr Hl].
  2: { intros [= <- <-]. split; [by apply rely_P|by right]. }
  unfold lift. intros [= <- <-]. split; [by apply rely_P|]. destruct Hl as [[Hsort Hmem] Hnone].
  pose proof (decrypt_rows_run u l _ eq_refl (λ x Hx, proj2 (proj1 (Hmem x) Hx))) as Hd.
  destruct (decrypt_rows key u l) as [out|e].
  - split; [|exact Hnone]. split; [by eapply toPlaintext_sorted|]. split.
    + intros x Hx. destruct (Forall2_elem_r _ _ _ _ Hd Hx) as (cfg & (p & Hp & ->) & Hin).
      apply Hmem in Hin as [Hc Hu]. split; [|done]. unfold enc_rows. rewrite lookup_fmap.
      unfold toPlaintext at 1. cbn [pt_ID]. rewrite Hc. simpl. f_equal. by apply opened_shown.
    + intros c [cfg [Hc Hu]]%(proj1 (pt_owned_opened _ _ _ _)).
      pose proof (rows_id _ _ _ Hc) as Hid. subst c.
      destruct (Forall2_elem_l _ _ _ _ Hd (proj2 (Hmem cfg) (conj Hc Hu))) as (x & (p & _ & ->) & Hin).
      eauto.
  - left. destruct Hd as (-> & cfg & Hin & Hn). split; [done|]. apply Hmem in Hin as [Hc Hu].
    exists (cfg_ID cfg), (opened key cfg). unfold enc_rows. by rewrite lookup_fmap, Hc.
Qed.

Lemma enc_count_spec w u r w' :
  enc_CountConfigsByUser enc u w = (r, w') →
  P (enc_rows w) (enc_rows w') ∧
  match r with
  | Ok n => n = Z.of_nat (size (pt_own u (enc_rows w')) + size (lost_rows u (enc_lost w')))
  | Err e => no_sentinel e
  end.
Proof using rely_P.
  unfold enc_CountConfigsByUser; simpl. intros [Hr H]%count_spec. split; [by apply rely_P|]. destruct r; [|done].
  unfold enc_rows. by rewrite pt_own_opened, map_size_fmap.
Qed.

Lemma enc_delete_spec w u c r w' :
  enc_DeleteConfig enc u c w = (r, w') →
  ∃ m, P (enc_rows w) m ∧
  match r with
  | Ok _ => pt_deletes u c m (enc_rows w')
  | Err e =>
      (e = ErrSentinel ErrConfigNotFound ∧ enc_rows w' = m ∧ ¬ pt_owned m u c ∧ enc_lost w' !! c ≠ Some u)
      ∨ (no_sentinel e ∧ (enc_rows w' = m ∨ pt_deletes u c m (enc_rows w')))
  end.
Proof using rely_P.
  unfold enc_DeleteConfig; simpl. intros (m & Hr & H)%delete_spec. exists (opened key <$> m). split; [by apply rely_P|].
  assert (Hd : deletes u c m (rows w') → pt_deletes u c (opened key <$> m) (enc_rows w')).
  { intros [Hu Hm]. unfold enc_rows. rewrite Hm, fmap_delete. split; [|done].
    intros x (cfg & <- & Hc)%lookup_fmap_Some. by apply Hu. }
  destruct r as [|e]; [by apply Hd|].
  destruct H as [(-> & Hrows & Ho & Hl)|[He [Hrows|H]]]; [left|right|right]; unfold enc_rows in *.
  - rewrite Hrows, pt_owned_opened. done.
  - rewrite Hrows. auto.
  - auto.
Qed.

Lemma create_builder_run u i id w r w' :
  create_builder enc u i id w = (r, w') →
  same_store w w' ∧
  match r with
  | Ok inp => in_Name inp = pin_Name i ∧ in_LastUsedWithVersion inp = pin_LastUsedWithVersion i
              ∧ in_ContentCiphertext inp ≠ [] ∧ in_ContentNonce inp ≠ []
              ∧ Decrypt key u id (in_ContentCiphertext inp) (in_ContentNonce inp) = Ok (pin_Content i)
  | Err e => no_sentinel e
  end.
Proof using.
  unfold create_builder. rewrite bind_run, wrapf_run. simpl.
  destruct (Encrypt key u id (pin_Content i) w) as [[[ct nonce]|e] w1] eqn:He;
    apply Encrypt_frame in He as [Hs He]; intros [= <- <-]; (split; [done|]); [|by auto with tabby].
  simpl. tauto.
Qed.

Lemma enc_create_spec w u i r w' :
  enc_CreateConfigPlaintext enc u i w = (r, w') →
  ∃ m, P (enc_rows w) m ∧
  match r with
  | Ok cfg => pt_UserID cfg = u ∧ pt_Name cfg = pin_Name i ∧ pt_Content cfg = pin_Content i
              ∧ pt_LastUsedWithVersion cfg = pin_LastUsedWithVersion i
              ∧ pt_CreatedAt cfg < pt_ModifiedAt cfg ∧ 0 < pt_ID cfg ≤ max_int64
              ∧ m !! pt_ID cfg = None ∧ enc_rows w' = <[pt_ID cfg := shown cfg]> m
  | Err e => enc_rows w' = m ∧ no_sentinel e
  end.
Proof using rely_P.
  unfold enc_CreateConfigPlaintext. rewrite bind_run. simpl.
  destruct (CreateConfigWithID u _ w) as [rr w1] eqn:Hc.
  apply create_with_id_spec in Hc as (m & Hr & Hc).
  2: { intros id w0 r0 w2 H. by apply create_builder_run in H as [? _]. }
  intros H. exists (opened key <$> m). split; [by apply rely_P|].
  destruct rr as [cfg|e]; simpl in Hc.
  - unfold ret in H. simplify_eq. simpl.
    destruct Hc as (inp & w2 & w3 & [_ Hb]%create_builder_run & Hcr & Hlt & Hid & Hno & Hrows).
    destruct Hcr as (Hu & Hn & Hct & Hnn & Hv & _ & _), Hb as (Hbn & Hbv & _ & _ & Hd).
    split_and!; [done|congruence|done|congruence|done|lia|lia| |].
    + by rewrite lookup_fmap, Hno.
    + unfold enc_rows. rewrite Hrows, fmap_insert. f_equal.
      apply (opened_shown key cfg (pin_Content i)). unfold content. by rewrite Hu, Hct, Hnn, Hd.
  - simplify_eq. destruct Hc as [Hrows Hc]. split; [unfold enc_rows; by rewrite Hrows|].
    destruct Hc as [?|[(id & w1 & inp & w2 & Hb & He & _)|(id & w1 & e' & w2 & Hb & He)]]; [done|..];
      apply create_builder_run in Hb as [_ Hb].
    + destruct Hb as (_ & _ & ? & ? & _). by destruct He.
    + intros x Hx. rewrite He in Hx. by apply Hb.
Qed.

(** *** The update *)

Lemma real_patch_run u c p seen w r w' :
  real_patch enc u c p seen w = (r, w') →
  same_store w w' ∧
  match r with
  | Ok q => patch_ok q ∧ up_PreserveModifiedAt q = false
      ∧ up_Name q = (if nameChanged p seen then pp_Name p else None)
      ∧ up_LastUsedWithVersion q = pp_LastUsedWithVersion p
      ∧ (if contentChanged p seen
         then up_ContentCiphertext q ≠ []
              ∧ Decrypt key u c (up_ContentCiphertext q) (up_ContentNonce q)
                = Ok (default [] (pp_Content p))
         else up_ContentCiphertext q = [])
  | Err e => no_sentinel e
  end.
Proof using.
  unfold real_patch. rewrite bind_run. simpl. destruct (contentChanged p seen) eqn:Hch.
  - rewrite wrapf_run. destruct (Encrypt key u c _ w) as [[[ct nonce]|e] w1] eqn:He;
      apply Encrypt_frame in He as [Hs He]; intros [= <- <-]; (split; [done|]); [|by auto with tabby].
    destruct He as (Hd & Hct & Hno). unfold patch_ok. simpl. by repeat split.
  - intros [= <- <-]. by repeat split.
Qed.

(** A committed update of the rows below, as the layer above sees it. *)
Lemma commits_opened p q seen u c m m' :
  (∀ old new, cfg_ID old = c → cfg_UserID old = u → expected_ok q old → patched q old new →
     pt_patched p seen (opened key old) (opened key new)) →
  update_commits q u c m m' → pt_commits p seen u c (opened key <$> m) (opened key <$> m').
Proof using.
  intros Hpt (_ & old & new & Ho & Hid & Hu & Hexp & Hpat & Hm').
  exists (opened key old), (opened key new). rewrite lookup_fmap, Ho.
  split_and!; [done|done|by apply Hpt|].
  destruct Hm' as [->|[Hts ->]]; [left; by rewrite fmap_insert|right].
  by rewrite fmap_delete.
Qed.

Lemma content_kept q old new :
  patched q old new → up_ContentCiphertext q = [] → content key new = content key old.
Proof using.
  intros (Hi & Hu & _ & Hc & Hn & _) Hq. rewrite Hq in *. unfold content. by rewrite Hi, Hu, Hc, Hn.
Qed.

Lemma content_set q old new u c b :
  patched q old new → cfg_ID old = c → cfg_UserID old = u → up_ContentCiphertext q ≠ [] →
  Decrypt key u c (up_ContentCiphertext q) (up_ContentNonce q) = Ok b → content key new = Some b.
Proof using.
  intros (Hi & Hu & _ & Hc & Hn & _) Hid Hown Hne Hd. unfold content.
  rewrite Hi, Hu, Hid, Hown, Hc, Hn. destruct (up_ContentCiphertext q); [done|]. by rewrite Hd.
Qed.

Lemma real_patched p q seen u c old new :
  nameChanged p seen || contentChanged p seen = true →
  up_PreserveModifiedAt q = false →
  up_Name q = (if nameChanged p seen then pp_Name p else None) →
  up_LastUsedWithVersion q = pp_LastUsedWithVersion p →
  (if contentChanged p seen
   then up_ContentCiphertext q ≠ []
        ∧ Decrypt key u c (up_ContentCiphertext q) (up_ContentNonce q) = Ok (default [] (pp_Content p))
   else up_ContentCiphertext q = []) →
  cfg_ID old = c → cfg_UserID old = u → patched q old new →
  pt_patched p seen (opened key old) (opened key new).
Proof using.
  intros Hreal Hpre Hname Hver Hcont Hid Hu Hpat. unfold pt_patched.
  rewrite <- nameChanged_differs, <- contentChanged_differs, Hreal. simpl.
  pose proof Hpat as (_ & Hu' & Hn & _ & _ & Hv & Hc & Hm). rewrite Hpre in Hm.
  split_and!; [done| | | |done|done].
  - rewrite Hn, Hname. unfold nameChanged. destruct (pp_Name p); simpl; [|done]. by case_bool_decide.
  - unfold contentChanged in *. destruct (pp_Content p) as [b|]; simpl in Hcont.
    + case_bool_decide; simpl in *; [by eapply content_kept|].
      destruct Hcont. by eapply content_set.
    + by eapply content_kept.
  - rewrite Hv, Hver. by destruct (pp_LastUsedWithVersion p).
Qed.

Lemma noop_patched p seen old new :
  nameChanged p seen || contentChanged p seen = false →
  expected_ok (noop_patch p seen) old → patched (noop_patch p seen) old new →
  pt_patched p seen (opened key old) (opened key new).
Proof using.
  intros Hno Hexp Hpat. unfold pt_patched. rewrite <- nameChanged_differs, <- contentChanged_differs, Hno.
  apply orb_false_iff in Hno as [-> ->].
  pose proof Hpat as (_ & Hu' & Hn & _ & _ & Hv & Hc & Hm). simpl in *.
  specialize (Hexp eq_refl). simpl in Hexp. injection Hexp as Hexp.
  split_and!; try done; [by eapply content_kept|].
  rewrite Hv. destruct (pp_LastUsedWithVersion p); [|done]. by case_bool_decide.
Qed.

(** What the update of the store below, sent with a patch that means [p],
    does to the rows as seen from above; its error when it fails. *)
Lemma inner_update_spec p q seen w u c r w' :
  patch_ok q →
  (∀ old new, cfg_ID old = c → cfg_UserID old = u → expected_ok q old → patched q old new →
     pt_patched p seen (opened key old) (opened key new)) →
  UpdateConfig u c q w = (r, w') →
  ∃ m m', P (enc_rows w) m ∧ P m' (enc_rows w') ∧
  match r with
  | Ok _ => pt_commits p seen u c m m' ∨ (m !! c = None ∧ m' = m)
  | Err e =>
      (m' = m ∨ pt_commits p seen u c m m')
      ∧ ((e = ErrSentinel ErrConfigNotFound ∧ ¬ pt_owned (enc_rows w') u c ∧ enc_lost w' !! c ≠ Some u)
         ∨ (e = ErrSentinel ErrConfigChanged ∧ up_PreserveModifiedAt q = true
            ∧ enc_rows w' = m ∧ (pr_ModifiedAt <$> m !! c) ≠ up_ExpectedModifiedAt q)
         ∨ no_sentinel e)
  end.
Proof using rely_P.
  intros Hok Hpt (m & Hr & H)%update_spec. exists (opened key <$> m).
  assert (Hcom := λ m', commits_opened p q seen u c m m' Hpt). destruct r as [cfg|e].
  - destruct H as (m' & Hc & Hr' & _). exists (opened key <$> m').
    split; [by apply rely_P|]. split; [by apply rely_P|].
    destruct Hc as [Hc|[Hn ->]]; [left; by apply Hcom|right]. by rewrite lookup_fmap, Hn.
  - destruct H as (m' & Hc & Hr' & Hf & Hnf). exists (opened key <$> m').
    split; [by apply rely_P|]. split; [by apply rely_P|].
    split; [destruct Hc as [->|Hc]; [by left|right; by apply Hcom]|].
    unfold enc_rows. rewrite pt_owned_opened.
    inversion Hf as [Hno|Hpre Hst|e' Hbad|m1 mf Hno|m1 mf e' Hns]; subst; [by auto| |done|by auto|by auto].
    right; left. split_and!; [done|done|congruence|]. rewrite lookup_fmap.
    destruct Hok as [_ Hok]. rewrite Hpre in Hok. destruct Hok as ([t Ht] & _).
    destruct (rows w' !! c) as [old|] eqn:Ho; simpl; [|by rewrite Ht].
    destruct (Hst old eq_refl) as [_ Hne]. done.
Qed.

(** What a finished update did, seen from the rows [m1] it started in. *)
Definition update_ended p u c (m1 : gmap Z PRow) (r : result ConfigWithPlaintext) w' : Prop :=
  match r with
  | Ok cfg =>
      ∃ m0 seen m m', P m1 m0 ∧ pt_row m0 u c seen ∧ P m0 m
        ∧ (pt_commits p seen u c m m' ∨ (m !! c = None ∧ m' = m))
        ∧ P m' (enc_rows w') ∧ pt_row (enc_rows w') u c cfg
  | Err e =>
      (∃ m0 m m', P m1 m0 ∧ P m0 m
         ∧ (m' = m ∨ ∃ seen, pt_row m0 u c seen ∧ pt_commits p seen u c m m')
         ∧ P m' (enc_rows w'))
      ∧ ((e = ErrSentinel ErrConfigNotFound ∧ ¬ pt_owned (enc_rows w') u c ∧ enc_lost w' !! c ≠ Some u)
         ∨ (e = ErrSentinel ErrDecrypt ∧ pt_damaged (enc_rows w') u c)
         ∨ no_sentinel e)
  end.

(** A round that has to be repeated saw the row at one timestamp and lost
    the race against an update that left another one. *)
Definition update_raced u c (m1 m2 : gmap Z PRow) : Prop :=
  ∃ m0 seen, P m1 m0 ∧ pt_row m0 u c seen ∧ P m0 m2
    ∧ (pr_ModifiedAt <$> m2 !! c) ≠ Some (pt_ModifiedAt seen).

Lemma update_ended_error p u c m1 m2 e w' :
  P m1 m2 → P m2 (enc_rows w') →
  (e = ErrSentinel ErrConfigNotFound ∧ ¬ pt_owned (enc_rows w') u c ∧ enc_lost w' !! c ≠ Some u)
  ∨ (e = ErrSentinel ErrDecrypt ∧ pt_damaged (enc_rows w') u c)
  ∨ no_sentinel e →
  update_ended p u c m1 (Err e) w'.
Proof using HP. intros H1 H2 He. split; [|done]. exists m2, m2, m2. split_and!; [done|reflexivity|by left|done]. Qed.

(** After the store below took the update, the row is read back. *)
Lemma reload_ended p seen u c m1 m0 m m' w r w' :
  P m1 m0 → pt_row m0 u c seen → P m0 m → P m' (enc_rows w) →
  pt_commits p seen u c m m' ∨ (m !! c = None ∧ m' = m) →
  enc_GetConfigPlaintext enc u c w = (r, w') →
  update_ended p u c m1 r w'.
Proof using rely_P HP.
  intros H1 Hs H2 H3 Hc [Hr Hg]%enc_get_spec. assert (P m' (enc_rows w')) by (by etrans).
  destruct r as [cfg|e]; [by exists m0, seen, m, m'|]. split; [|done].
  exists m0, m, m'. split_and!; [done|done| |done]. destruct Hc as [Hc|[_ ->]]; eauto.
Qed.

Lemma update_round_spec u c p w r w' :
  update_round enc u c p w = (r, w') →
  match r with
  | Ok None => update_raced u c (enc_rows w) (enc_rows w')
  | Ok (Some cfg) => update_ended p u c (enc_rows w) (Ok cfg) w'
  | Err e => update_ended p u c (enc_rows w) (Err e) w'
  end.
Proof using rely_P HP.
  unfold update_round. rewrite bind_run. unfold reads at 1.
  destruct (ctx_Err w) as [o w1] eqn:Hctx. apply ctx_frame in Hctx as [Hs1 Hctx].
  apply same_store_enc in Hs1. rewrite <- Hs1. destruct o as [e|].
  { intros [= <- <-]. apply (update_ended_error _ _ _ _ (enc_rows w1)); [done..|].
    right; right. destruct (Hctx e eq_refl) as [->| ->]; auto with tabby. }
  rewrite bind_run. destruct (enc_GetConfigPlaintext enc u c w1) as [[seen|e] w2] eqn:Hg;
    apply enc_get_spec in Hg as [Hr1 Hg].
  2: { intros [= <- <-]. by apply (update_ended_error _ _ _ _ (enc_rows w1)). }
  destruct (nameChanged p seen || contentChanged p seen) eqn:Hreal.
  - rewrite bind_run. destruct (real_patch enc u c p seen w2) as [[q|e] w3] eqn:Hq;
      apply real_patch_run in Hq as [Hs3%same_store_enc Hq].
    2: { intros [= <- <-]. apply (update_ended_error _ _ _ _ (enc_rows w2)); [done| |by auto].
         by rewrite Hs3. }
    destruct Hq as (Hok & Hpre & Hn & Hv & Hc). rewrite bind_run.
    destruct (@UpdateConfig W (enc_inner enc) u c q w3) as [ru w4] eqn:Hu.
    apply (inner_update_spec p q seen) in Hu as (m & m' & H1 & H2 & Hu); [|done|].
    2: { intros old new Hid Hown _. by eapply (real_patched p q seen u c). }
    rewrite Hs3 in H1. destruct ru as [row|e].
    + rewrite bind_run. destruct (enc_GetConfigPlaintext enc u c w4) as [rg w5] eqn:Hg2.
      apply (reload_ended p seen u c (enc_rows w1) (enc_rows w2) m m') in Hg2; [|done..].
      destruct rg; by intros [= <- <-].
    + intros [= <- <-]. destruct Hu as [Hm He]. split.
      * exists (enc_rows w2), m, m'. split_and!; [done|done| |done]. destruct Hm; eauto.
      * destruct He as [?|[(_ & Hp & _)|?]]; [by auto|congruence|by auto].
  - rewrite bind_run, attempt_run. cbv iota beta.
    destruct (@UpdateConfig W (enc_inner enc) u c (noop_patch p seen) w2) as [ru w4] eqn:Hu.
    apply (inner_update_spec p _ seen) in Hu as (m & m' & H1 & H2 & Hu).
    2: { unfold patch_ok. simpl. by split; [|split; [eauto|]]. }
    2: { intros old new _ _. by apply noop_patched. }
    cbn [fst snd]. destruct ru as [row|e].
    + rewrite bind_run. destruct (enc_GetConfigPlaintext enc u c w4) as [rg w5] eqn:Hg2.
      apply (reload_ended p seen u c (enc_rows w1) (enc_rows w2) m m') in Hg2; [|done..].
      destruct rg; by intros [= <- <-].
    + destruct Hu as [Hm He]. destruct (errors_is e ErrConfigChanged) eqn:Hch; intros [= <- <-].
      * destruct He as [[-> _]|[(_ & _ & Hm1 & Hne)|He]]; [done| |].
        -- exists (enc_rows w2), seen. rewrite Hm1. by split_and!.
        -- by destruct (He _ Hch).
      * split.
        -- exists (enc_rows w2), m, m'. split_and!; [done|done| |done]. destruct Hm; eauto.
        -- destruct He as [?|[(-> & _)|?]]; [by auto|done|by auto].
Qed.

Lemma update_raced_P u c m1 m2 : update_raced u c m1 m2 → P m1 m2.
Proof using HP. intros (m0 & seen & H1 & _ & H2 & _). by etrans. Qed.

Lemma update_ended_trans p u c m1 m2 r w' :
  P m1 m2 → update_ended p u c m2 r w' → update_ended p u c m1 r w'.
Proof using HP.
  intros H1. destruct r as [cfg|e].
  - intros (m0 & seen & m & m' & H2 & H). exists m0, seen, m, m'. split; [by etrans|done].
  - intros [(m0 & m & m' & H2 & H) He]. split; [|done]. exists m0, m, m'. split; [by etrans|done].
Qed.

Lemma update_loop_spec n w u c p o w' :
  update_loop n enc u c p w = (o, w') →
  match o with
  | None => P (enc_rows w) (enc_rows w')
  | Some r => update_ended p u c (enc_rows w) r w'
  end.
Proof using rely_P HP.
  revert w. induction n as [|n IH]; intros w; simpl; [by intros [= <- <-]|].
  destruct (update_round enc u c p w) as [[[cfg|]|e] w1] eqn:Hr; apply update_round_spec in Hr.
  - by intros [= <- <-].
  - apply update_raced_P in Hr. intros H%IH. destruct o as [r|]; [|by etrans].
    by apply (update_ended_trans _ _ _ _ (enc_rows w1)).
  - by intros [= <- <-].
Qed.

#[local] Instance enc_store_inst : EncryptedStore W := encrypted_store enc.

Program Definition enc_spec : EncryptedStoreSpec W := {|
  prows := enc_rows; plost := enc_lost; prely := P; prely_preorder := HP;
  get_pt_spec := enc_get_spec;
  list_pt_spec := enc_list_spec;
  count_pt_spec := enc_count_spec;
  delete_pt_spec := enc_delete_spec;
  create_pt_spec := enc_create_spec;
|}.
Next Obligation. intros n w u c p o w' H. apply update_loop_spec in H. by destruct o as [[]|]. Qed.
End spec.
