(* ===== verification/History.v ===== *)
(** Histories of requests over the encrypted store's contract.

    Everything here is proved against the interface [EncryptedStoreSpec], so
    it holds of any implementation: what one user's operation may do to the
    rows ([own_step]), that it never reaches another user's rows, that rows
    stay decryptable, and what the operations return when nothing else runs
    in between. *)

From stdpp Require Import relations.
From S2P Require Import Prelude GoTime Env Store.

Section history.
Context {W : Type} {ES : EncryptedStore W} {Sp : EncryptedStoreSpec W}.
Implicit Types (w : W) (m : gmap Z PRow) (u v c : Z).

(** ** One operation *)

Inductive op :=
  | OpCreate (u : Z) (i : CreateConfigPlaintextInput)
  | OpGet (u c : Z)
  | OpList (u : Z)
  | OpUpdate (rounds : nat) (u c : Z) (p : UpdateConfigPlaintextPatch)
  | OpDelete (u c : Z)
  | OpCount (u : Z).

Definition op_user (o : op) : Z :=
  match o with
  | OpCreate u _ | OpGet u _ | OpList u | OpUpdate _ u _ _ | OpDelete u _ | OpCount u => u
  end.

Definition exec_op (o : op) w : W :=
  match o with
  | OpCreate u i => (CreateConfigPlaintext u i w).2
  | OpGet u c => (GetConfigPlaintext u c w).2
  | OpList u => (ListConfigsByUserPlaintext u w).2
  | OpUpdate n u c p => (UpdateConfigPlaintext n u c p w).2
  | OpDelete u c => (DeleteConfigEnc u c w).2
  | OpCount u => (CountConfigsByUserEnc u w).2
  end.

Definition exec_ops (os : list op) w : W := foldl (λ w o, exec_op o w) w os.

(** ** What an operation of user [u] does to the rows *)

Inductive own_step u : relation (gmap Z PRow) :=
  | step_create m cfg :
      m !! pt_ID cfg = None → pt_UserID cfg = u → own_step u m (<[pt_ID cfg := shown cfg]> m)
  | step_update m m' p seen c : pt_commits p seen u c m m' → own_step u m m'
  | step_delete m c :
      (∀ x, m !! c = Some x → pr_UserID x = u) → own_step u m (delete c m).

Definition effect u : relation (gmap Z PRow) := rtc (λ m m', prely m m' ∨ own_step u m m').

Lemma effect_rely u m m' : prely m m' → effect u m m'.
Proof using. intros H. apply rtc_once. by left. Qed.
Lemma effect_own u m m' : own_step u m m' → effect u m m'.
Proof using. intros H. apply rtc_once. by right. Qed.
Lemma effect_trans u m1 m2 m3 : effect u m1 m2 → effect u m2 m3 → effect u m1 m3.
Proof using. intros ??. by etrans. Qed.

Lemma create_effect u i w r w' :
  CreateConfigPlaintext u i w = (r, w') → effect u (prows w) (prows w').
Proof using.
  intros (m & Hr & H)%create_pt_spec. apply (effect_trans _ _ m); [by apply effect_rely|].
  destruct r as [cfg|e].
  - destruct H as (Hu & _ & _ & _ & _ & _ & Hno & ->). apply effect_own. by constructor.
  - destruct H as [-> _]. apply rtc_refl.
Qed.

Lemma update_effect n u c p w o w' :
  UpdateConfigPlaintext n u c p w = (o, w') → effect u (prows w) (prows w').
Proof using.
  intros H%update_pt_spec. destruct o as [[cfg|e]|]; [| |by apply effect_rely].
  - destruct H as (m0 & seen & m & m' & H1 & _ & H2 & H3 & H4 & _).
    apply (effect_trans _ _ m0); [by apply effect_rely|].
    apply (effect_trans _ _ m); [by apply effect_rely|].
    apply (effect_trans _ _ m'); [|by apply effect_rely].
    destruct H3 as [H3|[_ ->]]; [|apply rtc_refl]. apply effect_own. by eapply step_update.
  - destruct H as [(m0 & m & m' & H1 & H2 & H3 & H4) _].
    apply (effect_trans _ _ m0); [by apply effect_rely|].
    apply (effect_trans _ _ m); [by apply effect_rely|].
    apply (effect_trans _ _ m'); [|by apply effect_rely].
    destruct H3 as [->|(seen & _ & H3)]; [apply rtc_refl|]. apply effect_own. by eapply step_update.
Qed.

Lemma delete_effect u c w r w' :
  DeleteConfigEnc u c w = (r, w') → effect u (prows w) (prows w').
Proof using.
  intros (m & Hr & H)%delete_pt_spec. apply (effect_trans _ _ m); [by apply effect_rely|].
  assert (Hd : pt_deletes u c m (prows w') → effect u m (prows w')).
  { intros [Hu ->]. by apply effect_own, step_delete. }
  destruct r as [|e]; [by apply Hd|]. destruct H as [(_ & -> & _)|[_ [->|H]]]; [apply rtc_refl..|by apply Hd].
Qed.

Lemma op_effect o w : effect (op_user o) (prows w) (prows (exec_op o w)).
Proof using.
  destruct o as [u i|u c|u|n u c p|u c|u]; simpl.
  - destruct (CreateConfigPlaintext u i w) eqn:H. by apply create_effect in H.
  - destruct (GetConfigPlaintext u c w) eqn:H. by apply get_pt_spec in H as [?%(effect_rely u) _].
  - destruct (ListConfigsByUserPlaintext u w) eqn:H.
    by apply list_pt_spec in H as [?%(effect_rely u) _].
  - destruct (UpdateConfigPlaintext n u c p w) eqn:H. by apply update_effect in H.
  - destruct (DeleteConfigEnc u c w) eqn:H. by apply delete_effect in H.
  - destruct (CountConfigsByUserEnc u w) eqn:H. by apply count_pt_spec in H as [?%(effect_rely u) _].
Qed.

(** ** Isolation *)

Lemma pt_own_foreign u v m m' :
  u ≠ v → pt_foreign u m' = pt_foreign u m → pt_own v m' = pt_own v m.
Proof using.
  intros Hne H. apply map_eq. intros k. unfold pt_own, pt_foreign in *.
  assert (Hk := f_equal (λ f : gmap Z PRow, f !! k) H). simpl in Hk.
  rewrite !map_lookup_filter in *.
  destruct (m !! k) as [x|], (m' !! k) as [y|]; simpl in *; repeat case_guard; simpl in *;
    congruence.
Qed.

Lemma foreign_insert u c x m :
  pr_UserID x = u → (∀ y, m !! c = Some y → pr_UserID y = u) →
  pt_foreign u (<[c := x]> m) = pt_foreign u m.
Proof using.
  intros Hx Hm. apply map_filter_insert_not'; simpl; [by intros []|]. intros y Hy. rewrite (Hm y Hy).
  by intros [].
Qed.

Lemma foreign_delete u c m :
  (∀ y, m !! c = Some y → pr_UserID y = u) → pt_foreign u (delete c m) = pt_foreign u m.
Proof using.
  intros Hm. apply map_filter_delete_not. intros y Hy. simpl. rewrite (Hm y Hy). by intros [].
Qed.

Lemma own_step_foreign u m m' : own_step u m m' → pt_foreign u m' = pt_foreign u m.
Proof using.
  intros [m1 cfg Hno Hu|m1 m2 p seen c (old & new & Ho & Hu & Hp & Hm)|m1 c Hm].
  - apply foreign_insert; [done|]. intros y Hy. congruence.
  - assert (Hc : ∀ y, m1 !! c = Some y → pr_UserID y = u) by (intros y Hy; congruence).
    destruct Hp as (Hown & _).
    destruct Hm as [->|[_ ->]]; [apply foreign_insert; [congruence|done]|by apply foreign_delete].
  - by apply foreign_delete.
Qed.

(** A property of [v]'s rows that the other requests keep is kept by an
    operation of [u]. *)
Lemma op_own_rows o v w (Q : gmap Z PRow → Prop) :
  op_user o ≠ v →
  (∀ m m', prely m m' → Q (pt_own v m) → Q (pt_own v m')) →
  Q (pt_own v (prows w)) → Q (pt_own v (prows (exec_op o w))).
Proof using.
  intros Hne Hrely. pose proof (op_effect o w) as He.
  induction He as [m|m1 m2 m3 Hs _ IH]; [done|]. intros HQ. apply IH.
  destruct Hs as [Hs|Hs]; [by eapply Hrely|].
  by rewrite (pt_own_foreign (op_user o) v m1 m2 Hne (own_step_foreign _ _ _ Hs)).
Qed.

(** ** Every row opens *)

Definition intact m : Prop := map_Forall (λ _ r, is_Some (pr_Content r)) m.

Lemma own_step_intact u m m' : own_step u m m' → intact m → intact m'.
Proof using.
  intros [m1 cfg Hno Hu|m1 m2 p seen c (old & new & Ho & Hu & Hp & Hm)|m1 c Hm] Hi.
  - apply map_Forall_insert_2; [by eexists|done].
  - destruct Hm as [->|[_ ->]]; [|by apply map_Forall_delete].
    apply map_Forall_insert_2; [|done]. destruct Hp as (_ & _ & -> & _).
    unfold differs. destruct (pp_Content p) as [b|]; [|by apply (Hi c)].
    case_bool_decide; [by eexists|by apply (Hi c)].
  - by apply map_Forall_delete.
Qed.

Lemma op_intact o w :
  (∀ m m', prely m m' → intact m → intact m') →
  intact (prows w) → intact (prows (exec_op o w)).
Proof using.
  intros Hrely. pose proof (op_effect o w) as He.
  induction He as [m|m1 m2 m3 Hs _ IH]; [done|]. intros Hi. apply IH.
  destruct Hs as [Hs|Hs]; [by eapply Hrely|by eapply own_step_intact].
Qed.

Lemma ops_intact os w :
  (∀ m m', prely m m' → intact m → intact m') →
  intact (prows w) → intact (prows (exec_ops os w)).
Proof using.
  intros Hrely. revert w. induction os as [|o os IH]; intros w Hi; [done|].
  apply IH. by apply op_intact.
Qed.

(** ** Without interference *)

Section sequential.
Hypothesis alone : PtSequential W.

Lemma create_alone u i w cfg w' :
  CreateConfigPlaintext u i w = (Ok cfg, w') →
  pt_UserID cfg = u ∧ pt_Name cfg = pin_Name i ∧ pt_Content cfg = pin_Content i
  ∧ pt_LastUsedWithVersion cfg = pin_LastUsedWithVersion i
  ∧ pt_CreatedAt cfg < pt_ModifiedAt cfg
  ∧ prows w !! pt_ID cfg = None ∧ prows w' = <[pt_ID cfg := shown cfg]> (prows w)
  ∧ pt_row (prows w') u (pt_ID cfg) cfg.
Proof using alone.
  intros (m & ->%alone & Hu & Hn & Hc & Hv & Ht & _ & Hno & Hrows)%create_pt_spec.
  split_and!; try done. unfold pt_row. by rewrite Hrows, lookup_insert_eq.
Qed.

Lemma create_fails_alone u i w e w' :
  CreateConfigPlaintext u i w = (Err e, w') → prows w' = prows w ∧ no_sentinel e.
Proof using alone. by intros (m & ->%alone & H)%create_pt_spec. Qed.

Lemma get_alone u c w r w' :
  GetConfigPlaintext u c w = (r, w') →
  prows w' = prows w ∧
  match r with
  | Ok cfg => pt_row (prows w) u c cfg
  | Err e => (e = ErrSentinel ErrConfigNotFound ∧ ¬ pt_owned (prows w) u c)
             ∨ (e = ErrSentinel ErrDecrypt ∧ pt_damaged (prows w) u c)
             ∨ no_sentinel e
  end.
Proof using alone. intros [->%alone H]%get_pt_spec. split; [done|]. destruct r; [done|]. tauto. Qed.

Lemma pt_row_inj m u u' c x y : pt_row m u c x → pt_row m u' c y → x = y.
Proof using.
  intros (Hx & Hi & _) (Hy & Hj & _). rewrite Hx in Hy. destruct x, y.
  unfold shown in Hy. simpl in *. congruence.
Qed.

(** A listing has as many rows as the user. *)
Lemma pt_listing_length u m l : pt_listing u m l → length l = size (pt_own u m).
Proof using.
  intros (Hs & Hin & Hall). rewrite <- (length_fmap pt_ID), <- size_dom.
  assert (Hnd : NoDup (pt_ID <$> l)).
  { clear Hin Hall. induction Hs as [|a l _ IH Hf]; [constructor|]. simpl. apply NoDup_cons. split; [|done].
    intros (b & Hb & Hin)%list_elem_of_fmap. rewrite Forall_forall in Hf. specialize (Hf b Hin). lia. }
  rewrite <- (size_list_to_set (C := gset Z) _ Hnd). apply set_size_proper. intros k.
  rewrite elem_of_list_to_set, list_elem_of_fmap, elem_of_dom. split.
  - intros (cfg & -> & Hc). destruct (Hin _ Hc) as (Hrow & _ & Hu). exists (shown cfg).
    by apply map_lookup_filter_Some.
  - intros [x [Hk Hu]%map_lookup_filter_Some]. destruct (Hall k) as (cfg & Hc & Hid); [by exists x|]. by exists cfg.
Qed.

(** The row that an update leaves: the patch over what it saw. *)
Definition patched_row (p : UpdateConfigPlaintextPatch) (seen cfg : ConfigWithPlaintext) : Prop :=
  pt_ID cfg = pt_ID seen ∧ pt_UserID cfg = pt_UserID seen
  ∧ pt_Name cfg = default (pt_Name seen) (pp_Name p)
  ∧ pt_Content cfg = default (pt_Content seen) (pp_Content p)
  ∧ pt_LastUsedWithVersion cfg = default (pt_LastUsedWithVersion seen) (pp_LastUsedWithVersion p)
  ∧ pt_CreatedAt cfg = pt_CreatedAt seen
  ∧ (if decide (pt_Name cfg = pt_Name seen ∧ pt_Content cfg = pt_Content seen)
     then pt_ModifiedAt cfg = pt_ModifiedAt seen
     else pt_ModifiedAt seen < pt_ModifiedAt cfg).

Lemma pt_patched_shown p seen cfg :
  pt_ID cfg = pt_ID seen → pt_patched p seen (shown seen) (shown cfg) → patched_row p seen cfg.
Proof using.
  intros Hid (Hu & Hn & Hc & Hv & Ht & Hm). simpl in *.
  assert (Hname : pt_Name cfg = default (pt_Name seen) (pp_Name p)
                  ∧ (differs (pp_Name p) (pt_Name seen) = bool_decide (pt_Name cfg ≠ pt_Name seen))).
  { rewrite Hn. unfold differs. destruct (pp_Name p) as [n|]; simpl;
      [case_bool_decide as Hd|]; split; try done.
    - by rewrite bool_decide_true.
    - by rewrite bool_decide_false by tauto.
    - by rewrite bool_decide_false by tauto. }
  assert (Hcont : pt_Content cfg = default (pt_Content seen) (pp_Content p)
                  ∧ (differs (pp_Content p) (pt_Content seen) = bool_decide (pt_Content cfg ≠ pt_Content seen))).
  { unfold differs in Hc |- *. destruct (pp_Content p) as [b|]; simpl in *;
      [destruct (bool_decide_reflect (b ≠ pt_Content seen)) as [Hd|Hd%dec_stable]|];
      injection Hc as Hc; rewrite Hc; split; try done.
    - by rewrite bool_decide_true.
    - by rewrite bool_decide_false by tauto.
    - by rewrite bool_decide_false by tauto. }
  destruct Hname as [Hname Hnb], Hcont as [Hcont Hcb]. rewrite Hnb, Hcb in *.
  split_and!; try done.
  - rewrite Hv. destruct (pp_LastUsedWithVersion p) as [v|]; simpl; [|done].
    destruct (decide (v = pt_LastUsedWithVersion seen)) as [->|Hd]; [by repeat case_match|].
    unfold differs. rewrite (bool_decide_true (v ≠ _)) by done. by rewrite orb_true_r.
  - destruct (decide (_ ∧ _)) as [[Hd1 Hd2]|Hd].
    + rewrite !bool_decide_false in Hm by tauto. by destruct Hm.
    + destruct (bool_decide_reflect (pt_Name cfg ≠ pt_Name seen)); simpl in Hm; [done|].
      destruct (bool_decide_reflect (pt_Content cfg ≠ pt_Content seen)); simpl in Hm; [done|].
      exfalso. apply Hd. split; by apply dec_stable.
Qed.

Lemma update_alone n u c p w o w' :
  UpdateConfigPlaintext n u c p w = (o, w') →
  match o with
  | None => prows w' = prows w
  | Some (Ok cfg) => ∃ seen, pt_row (prows w) u c seen ∧ patched_row p seen cfg
                       ∧ prows w' = <[c := shown cfg]> (prows w)
  | Some (Err e) =>
      (e = ErrSentinel ErrConfigNotFound ∧ ¬ pt_owned (prows w') u c)
      ∨ (e = ErrSentinel ErrDecrypt ∧ pt_damaged (prows w') u c)
      ∨ no_sentinel e
  end.
Proof using alone.
  intros H%update_pt_spec. destruct o as [[cfg|e]|]; [|destruct H; tauto|by apply alone].
  destruct H as (m0 & seen & m & m' & ->%alone & Hs & ->%alone & Hc & Hr%alone & Hrow).
  exists seen. split; [done|]. subst m'. destruct Hs as (Hs & Hid & Hu).
  destruct Hc as [(old & new & Ho & _ & Hp & Hm)|[Hno _]]; [|congruence].
  rewrite Hs in Ho. injection Ho as <-. destruct Hrow as (Hrow & Hid' & _).
  destruct Hm as [Hm|[_ Hm]]; rewrite Hm in Hrow; simplify_map_eq.
  split; [apply pt_patched_shown; [congruence|done]|by rewrite Hm].
Qed.
End sequential.
End history.
