(* ===== verification/Stack.v ===== *)
(** The data layer as the server assembles it: the encrypting store over the
    SQLite store (src/internal/cli/cli.go opens one and wraps it in the
    other).

    [stack_spec] is the contract of the whole, with nothing assumed but the
    laws of the SQL engine and of HKDF: what other goroutines do to the
    database while an operation waits for its connection is the arbitrary
    function [others].  [alone] is the case without any. *)

From stdpp Require Import relations.
From S2P Require Import Prelude GoTime Env Store Sql Sqlite AesGcm Crypto Encrypted History.

Section stack.
Context {DB : Type} {E : SqlEngine DB} {HK : HKDF}.
Variable others : nat → DB → DB.
Variable key : bytes.

Abbreviation W := (World DB).

Definition stack_store : EncStore W := mk_EncStore (sqlite_store others) key.
Definition stack : EncryptedStore W := encrypted_store stack_store.

(** The effect of the other goroutines on the rows, below and above the
    envelope. *)
Definition inner_rely : relation (gmap Z Config) :=
  rtc (λ m m', ∃ i d, m = view (committed d) ∧ m' = view (committed (others i d))).
Definition outer_rely : relation (gmap Z PRow) :=
  rtc (λ m m', ∃ i d, m = opened key <$> view (committed d)
                      ∧ m' = opened key <$> view (committed (others i d))).

Lemma others_inner i d : inner_rely (view (committed d)) (view (committed (others i d))).
Proof using. apply rtc_once. by exists i, d. Qed.

Lemma inner_outer m m' : inner_rely m m' → outer_rely (opened key <$> m) (opened key <$> m').
Proof using.
  intros H. induction H as [m|m1 m2 m3 (i & d & -> & ->) _ IH]; [apply rtc_refl|].
  eapply rtc_l; [|done]. by exists i, d.
Qed.

Definition stack_rows (w : W) : gmap Z PRow := opened key <$> sqlite_rows w.

Definition stack_inner_spec : @StoreSpec W world_env (sqlite_store others) :=
  sqlite_spec others inner_rely (HR := rtc_po) others_inner.

Definition stack_spec : @EncryptedStoreSpec W stack :=
  @enc_spec W world_env (sqlite_store others) stack_inner_spec HK key outer_rely rtc_po inner_outer.

(** A relation that every single interference satisfies. *)
Lemma outer_rely_preserves (Q : gmap Z PRow → Prop) :
  (∀ i d, Q (opened key <$> view (committed d)) → Q (opened key <$> view (committed (others i d)))) →
  ∀ m m', outer_rely m m' → Q m → Q m'.
Proof using.
  intros HQ m m' H. induction H as [m|m1 m2 m3 (i & d & -> & ->) _ IH]; [done|].
  intros H. by apply IH, HQ.
Qed.

End stack.

(** ** Steps, and what happens at which *)

(** The step counter only grows, and what a computation does depends on the
    other goroutines only at the steps it takes. *)
Section local.
Context {DB : Type} {E : SqlEngine DB} {HK : HKDF}.
Abbreviation W := (World DB).
Implicit Types (others : nat → DB → DB) (w : W).

Definition agree (lo hi : nat) others others' : Prop :=
  ∀ i d, (lo ≤ i < hi)%nat → others' i d = others i d.

Definition local {A} (f : (nat → DB → DB) → W → A * W) : Prop :=
  ∀ others w a w', f others w = (a, w') →
    (w_step w ≤ w_step w')%nat
    ∧ ∀ others', agree (w_step w) (w_step w') others others' → f others' w = (a, w').

Lemma local_ret {A} (a : A) : local (λ _, ret a).
Proof using. intros o w x w' [= <- <-]. by split. Qed.
Lemma local_fail {A} (e : error) : local (A := result A) (λ _, fail e).
Proof using. intros o w x w' [= <- <-]. by split. Qed.
Lemma local_lift {A} (r : result A) : local (λ _, lift r).
Proof using. intros o w x w' [= <- <-]. by split. Qed.

Lemma local_bind {A B} (f : (nat → DB → DB) → M W A) (g : (nat → DB → DB) → A → M W B) :
  local f → (∀ a, local (λ o, g o a)) → local (λ o, bind (f o) (g o)).
Proof using.
  intros Hf Hg o w r w'. rewrite bind_run. destruct (f o w) as [[a|e] w1] eqn:H1; apply Hf in H1 as [H1 H1'].
  - intros H2. apply Hg in H2 as [H2 H2']. split; [lia|]. intros o' Ho.
    rewrite bind_run, H1'; [|intros i d Hi; apply Ho; lia]. apply H2'. intros i d Hi. apply Ho. lia.
  - intros [= <- <-]. split; [done|]. intros o' Ho. by rewrite bind_run, H1'.
Qed.

Lemma local_wrapf {A} pre (f : (nat → DB → DB) → M W A) : local f → local (λ o, wrapf pre (f o)).
Proof using.
  intros Hf o w r w'. rewrite wrapf_run. destruct (f o w) as [[a|e] w1] eqn:H1; apply Hf in H1 as [H1 H1'];
    intros [= <- <-]; (split; [done|]); intros o' Ho; by rewrite wrapf_run, H1'.
Qed.

Lemma local_attempt {A} (f : (nat → DB → DB) → M W A) : local f → local (λ o, attempt (f o)).
Proof using.
  intros Hf o w r w'. unfold attempt. destruct (f o w) as [x w1] eqn:H1. apply Hf in H1 as [H1 H1'].
  intros [= <- <-]. split; [done|]. intros o' Ho. by rewrite H1'.
Qed.

(** What only reads the environment or uses the connection at hand. *)
Lemma local_reads {A} (f : W → A * W) :
  (∀ w, (w_step w ≤ w_step (f w).2)%nat) → local (λ _, reads f).
Proof using.
  intros Hf o w r w'. unfold reads. specialize (Hf w). destruct (f w) as [a w1]. intros [= <- <-]. by split.
Qed.
Lemma local_on_db {A} (f : M DB A) : local (λ _, on_db f).
Proof using.
  intros o w r w'. unfold on_db. destruct (f (w_db w)) as [a d]. intros [= <- <-]. by split.
Qed.
Lemma local_rand n : local (λ _, rand_read (W := W) n).
Proof using.
  intros o w r w'. simpl. unfold world_rand. destruct (env_rand _ _); intros [= <- <-]; split; simpl; (lia || done).
Qed.
Lemma local_nextModifiedAt t : local (λ _, nextModifiedAt (DB := DB) t).
Proof using. intros o w r w' [= <- <-]. split; simpl; (lia || done). Qed.

(** Waiting for the connection takes one step, at which the others run. *)
Lemma local_pooled {A} (f : M DB A) : local (λ o, pooled o f).
Proof using.
  intros o w r w'. unfold pooled, on_db, acquire. simpl. intros H. split.
  - destruct (f (o (w_step w) (w_db w))) as [a d]. injection H as <- <-. simpl. lia.
  - intros o' Ho. rewrite Ho; [done|]. destruct (f _) as [a d]. injection H as _ <-. simpl. lia.
Qed.

Lemma local_defer {A} (f : (nat → DB → DB) → M W A) : local f → local (λ o, defer_rollback (f o)).
Proof using.
  intros Hf o w r w'. unfold defer_rollback. destruct (f o w) as [[a|e] w1] eqn:H1; apply Hf in H1 as [H1 H1'];
    intros [= <- <-]; (split; [done|]); intros o' Ho; by rewrite H1'.
Qed.

Create HintDb local.
#[local] Hint Resolve local_ret local_fail local_lift local_on_db local_rand local_nextModifiedAt local_pooled : local.

(** Takes a computation apart. *)
Ltac localise :=
  repeat first
    [ progress cbv beta
    | solve [auto with local]
    | apply local_wrapf | apply local_attempt | apply local_defer
    | apply local_reads; intros; simpl; lia
    | apply local_bind; [|intros]
    | match goal with |- local (λ _, match ?x with _ => _ end) => destruct x end
    | match goal with |- local (λ _, let _ := ?x in _) => cbv zeta end ].

Lemma local_sqlite_get u c : local (λ o, sqlite_GetConfig o u c).
Proof using. unfold sqlite_GetConfig. localise. Qed.

Lemma local_update_tx u c p : local (λ _, update_tx (DB := DB) u c p).
Proof using. unfold update_tx. localise. Qed.
#[local] Hint Resolve local_sqlite_get local_update_tx : local.

Lemma local_sqlite_update u c p : local (λ o, sqlite_UpdateConfig o u c p).
Proof using. unfold sqlite_UpdateConfig. localise. Qed.

Lemma local_Encrypt key u c b : local (λ _, Encrypt (W := W) key u c b).
Proof using. unfold Encrypt. localise. Qed.
#[local] Hint Resolve local_sqlite_update local_Encrypt : local.

Lemma local_enc_get key u c : local (λ o, enc_GetConfigPlaintext (stack_store o key) u c).
Proof using. unfold enc_GetConfigPlaintext, stack_store. cbn [enc_inner enc_masterKey GetConfig sqlite_store]. localise. Qed.

Lemma local_real_patch key u c p seen : local (λ o, real_patch (stack_store o key) u c p seen).
Proof using. unfold real_patch, stack_store. cbn [enc_masterKey]. localise. Qed.
#[local] Hint Resolve local_enc_get local_real_patch : local.

Lemma local_inner_update key u c q : local (λ o, @UpdateConfig W (enc_inner (stack_store o key)) u c q).
Proof using. exact (local_sqlite_update u c q). Qed.
#[local] Hint Resolve local_inner_update : local.

Lemma local_update_round key u c p : local (λ o, update_round (stack_store o key) u c p).
Proof using. unfold update_round. localise. Qed.
End local.

(** ** How often an update is repeated *)

Section rounds.
Context {DB : Type} {E : SqlEngine DB} {HK : HKDF}.
Variable others : nat → DB → DB.
Variable key : bytes.
Abbreviation W := (World DB).
Implicit Types w : W.

(** The sync timestamp of row [c]. *)
Definition stamp (c : Z) (d : DB) : option Time := cfg_ModifiedAt <$> view (committed d) !! c.

(** The others move the timestamp of row [c] at the steps in [racing] at most. *)
Definition races_at (c : Z) (racing : gset nat) : Prop :=
  ∀ i d, i ∉ racing → stamp c (others i d) = stamp c d.

Lemma stamp_outer c others' m m' :
  (∀ i d, stamp c (others' i d) = stamp c d) → outer_rely others' key m m' →
  pr_ModifiedAt <$> m' !! c = pr_ModifiedAt <$> m !! c.
Proof using.
  intros Hs H. induction H as [m|m1 m2 m3 (i & d & -> & ->) _ IH]; [done|]. rewrite IH, !lookup_fmap.
  specialize (Hs i d). unfold stamp in Hs.
  destruct (view (committed (others' i d)) !! c), (view (committed d) !! c); simpl in *; congruence.
Qed.

(** A round that has to be repeated lost a race at one of its own steps. *)
Lemma raced_round c racing u p w w' :
  races_at c racing → update_round (stack_store others key) u c p w = (Ok None, w') →
  (w_step w ≤ w_step w')%nat ∧ ∃ i, i ∈ racing ∧ (w_step w ≤ i < w_step w')%nat.
Proof using.
  intros Hr H. destruct (local_update_round key u c p others w _ _ H) as [Hle Hloc]. split; [done|].
  destruct (decide (set_Exists (λ i, (w_step w ≤ i < w_step w')%nat) racing)) as [(i & Hi & Hrange)|Hno]; [by exists i|].
  set (others' := λ i d, if decide (w_step w ≤ i < w_step w')%nat then others i d else d).
  assert (Ho : agree (w_step w) (w_step w') others others').
  { intros i d Hi. unfold others'. by rewrite decide_True. }
  apply Hloc in Ho. apply (@update_round_spec W world_env (sqlite_store others') (stack_inner_spec others') HK key
    (outer_rely others' key) rtc_po (inner_outer others' key)) in Ho as (m0 & seen & _ & (Hs & _ & _) & H2 & Hne).
  exfalso. apply Hne. rewrite (stamp_outer c others' _ _) with (2 := H2); [by rewrite Hs|].
  intros i d. unfold others'. case_decide as Hi; [|done]. apply Hr. intros Hin. apply Hno. by exists i.
Qed.

(** One round more than the races that can still happen returns. *)
Lemma update_loop_returns c racing n u p w :
  races_at c racing → (size (filter (λ i, w_step w ≤ i)%nat racing) < n)%nat →
  ∃ r w', update_loop n (stack_store others key) u c p w = (Some r, w').
Proof using.
  intros Hr. revert w. induction n as [|n IH]; intros w Hn; [lia|]. simpl.
  destruct (update_round (stack_store others key) u c p w) as [[[cfg|]|e] w1] eqn:Hu; [by eauto| |by eauto].
  apply (raced_round c racing) in Hu as (Hle & i & Hi & Hrange); [|done]. apply IH.
  enough (size (filter (λ i, w_step w1 ≤ i)%nat racing) < size (filter (λ i, w_step w ≤ i)%nat racing))%nat by lia.
  apply subset_size. split; [set_solver by lia|]. intros Hsub.
  assert (i ∈ filter (λ i, (w_step w1 ≤ i)%nat) racing) as [? _]%elem_of_filter; [|lia].
  apply Hsub, elem_of_filter. split; [lia|done].
Qed.
End rounds.

Definition alone {DB} : nat → DB → DB := λ _ d, d.

Lemma alone_sequential {DB} {E : SqlEngine DB} {HK : HKDF} key m m' :
  outer_rely alone key m m' → m' = m.
Proof.
  intros H. induction H as [m|m1 m2 m3 (i & d & -> & ->) _ IH]; [done|]. by rewrite IH.
Qed.

(** ** The ID counter under the encrypted store's operations *)

Section ids.
Context {DB : Type} {E : SqlEngine DB} {HK : HKDF}.
Variable others : nat → DB → DB.
Variable key : bytes.
Hypothesis others_seq : ∀ i d, t_seq (committed d) ≤ t_seq (committed (others i d)).

Abbreviation W := (World DB).
Implicit Types w : W.
Let s := stack_store others key.
#[local] Instance spec_inst : @StoreSpec W world_env (sqlite_store others) := stack_inner_spec others.

Lemma same_db_seq w w' : same_db w w' → last_id w' = last_id w.
Proof using. unfold same_db, last_id, tabs. by intros ->. Qed.

Lemma stack_get_seq u c w r w' :
  enc_GetConfigPlaintext s u c w = (r, w') → last_id w ≤ last_id w'.
Proof using others_seq.
  unfold enc_GetConfigPlaintext. rewrite bind_run. simpl.
  destruct (sqlite_GetConfig others u c w) as [[row|e] w1] eqn:Hg;
    apply sqlite_get_seq in Hg; try done; unfold ret, fail; repeat case_match; intros; by simplify_eq.
Qed.

Lemma stack_create_seq u i w r w' :
  enc_CreateConfigPlaintext s u i w = (r, w') →
  last_id w ≤ last_id w' ∧
  match r with Ok cfg => last_id w < pt_ID cfg ≤ last_id w' | Err _ => True end.
Proof using others_seq.
  unfold enc_CreateConfigPlaintext. rewrite bind_run.
  change (@CreateConfigWithID W (enc_inner s)) with (sqlite_CreateConfigWithID others).
  destruct (sqlite_CreateConfigWithID others _ _ w) as [rr w1] eqn:Hc.
  apply sqlite_create_seq in Hc as [H1 H2]; [|done|].
  2: { intros id wa ra wb Hb.
       by apply (create_builder_run (HS := sqlite_store others) key) in Hb as [? _]. }
  destruct rr as [row|e]; intros [= <- <-]; (split; [done|]); simpl; lia || done.
Qed.

Lemma stack_round_seq u c p w r w' :
  update_round s u c p w = (r, w') → last_id w ≤ last_id w'.
Proof using others_seq.
  unfold update_round. rewrite bind_run. unfold reads at 1.
  destruct (ctx_Err w) as [o w1] eqn:Hctx. apply world_ctx_run in Hctx as [Hs1%same_db_seq _].
  destruct o as [e|]; [intros [= <- <-]; lia|].
  rewrite bind_run. destruct (enc_GetConfigPlaintext s u c w1) as [[seen|e] w2] eqn:Hg;
    apply stack_get_seq in Hg; [|intros [= <- <-]; lia].
  destruct (nameChanged p seen || contentChanged p seen).
  - rewrite bind_run. destruct (real_patch s u c p seen w2) as [[q|e] w3] eqn:Hq;
      apply (real_patch_run (HS := sqlite_store others) key) in Hq as [Hs3%same_db_seq _];
      [|intros [= <- <-]; lia].
    rewrite bind_run. simpl. destruct (sqlite_UpdateConfig others u c q w3) as [ru w4] eqn:Hu.
    apply sqlite_update_seq in Hu; [|done]. destruct ru as [row|e]; [|intros [= <- <-]; lia].
    rewrite bind_run. destruct (enc_GetConfigPlaintext s u c w4) as [[x|e] w5] eqn:Hg2;
      apply stack_get_seq in Hg2; intros [= <- <-]; lia.
  - rewrite bind_run, attempt_run. cbv iota beta. simpl.
    destruct (sqlite_UpdateConfig others u c _ w2) as [ru w4] eqn:Hu.
    apply sqlite_update_seq in Hu; [|done]. simpl.
    destruct ru as [row|e]; [|unfold ret, fail; repeat case_match; intros; simplify_eq; lia].
    rewrite bind_run. destruct (enc_GetConfigPlaintext s u c w4) as [[x|e] w5] eqn:Hg2;
      apply stack_get_seq in Hg2; intros [= <- <-]; lia.
Qed.

Lemma stack_update_seq n u c p w r w' :
  update_loop n s u c p w = (r, w') → last_id w ≤ last_id w'.
Proof using others_seq.
  revert w. induction n as [|n IH]; intros w; simpl; [by intros [= <- <-]|].
  destruct (update_round s u c p w) as [[[cfg|]|e] w1] eqn:Hr; apply stack_round_seq in Hr.
  - by intros [= <- <-].
  - intros H%IH. lia.
  - by intros [= <- <-].
Qed.

Lemma stack_op_seq o w : last_id w ≤ last_id (@exec_op W (stack others key) o w).
Proof using others_seq.
  destruct o as [u i|u c|u|n u c p|u c|u]; simpl.
  - destruct (enc_CreateConfigPlaintext _ u i w) eqn:H. by apply stack_create_seq in H as [? _].
  - destruct (enc_GetConfigPlaintext _ u c w) eqn:H. by apply stack_get_seq in H.
  - unfold enc_ListConfigsByUserPlaintext. rewrite bind_run. simpl.
    destruct (sqlite_ListConfigsByUser others u w) as [[l|e] w1] eqn:H;
      by apply sqlite_list_seq in H.
  - destruct (update_loop n _ u c p w) eqn:H. by apply stack_update_seq in H.
  - unfold enc_DeleteConfig. simpl. destruct (sqlite_DeleteConfig others u c w) eqn:H.
    by apply sqlite_delete_seq in H.
  - unfold enc_CountConfigsByUser. simpl. destruct (sqlite_CountConfigsByUser others u w) eqn:H.
    by apply sqlite_count_seq in H.
Qed.

Lemma stack_ops_seq os w : last_id w ≤ last_id (@exec_ops W (stack others key) os w).
Proof using others_seq.
  revert w. induction os as [|o os IH]; intros w; simpl; [done|].
  pose proof (stack_op_seq o w). specialize (IH (@exec_op W (stack others key) o w)). lia.
Qed.
End ids.

(** ** A concrete stack

    The in-memory engine without faults, a clock that advances by a second
    per reading, and an HKDF that repeats its inputs. *)
Module Demo.

Definition expand (ikm salt info : bytes) (n : nat) : option bytes :=
  if bool_decide (Z.of_nat n ≤ 255 * 32)
  then Some (take n (zip_with byte_xor (ikm ++ replicate n Byte.x00)
                       (info ++ replicate (length ikm + n) Byte.x36)))
  else None.

#[global] Program Instance hkdf : HKDF := {| hkdf_read := expand |}.
Next Obligation.
  intros ikm salt info n Hn. unfold expand. rewrite bool_decide_true by done. eexists. split; [done|].
  rewrite length_take, length_zip_with, !length_app, !length_replicate. lia.
Qed.

Definition key : bytes := replicate 32 Byte.x2a.

Definition env : Env := mk_Env
  (λ n, (1700000000 + Z.of_nat n) * Second)
  (λ n, Some (λ i, byte_of_N (N.of_nat (7 * n + i))))
  (λ _, CtxLive).

Definition world : World Table.db := mk_World env 0 (Table.init (λ _, None)).

Abbreviation store := (stack_store (alone (DB := Table.db)) key).

(** User 1 creates a configuration with this content. *)
Definition input : CreateConfigPlaintextInput :=
  mk_CreateConfigPlaintextInput "work" (bytes_of_string "hosts: []") "1.0.210".
Definition created_cfg : ConfigWithPlaintext :=
  mk_ConfigWithPlaintext 1 1 "work" (bytes_of_string "hosts: []") "1.0.210"
    (1700000001 * Second) (1700000003 * Second).
Definition after_create : World Table.db :=
  (enc_CreateConfigPlaintext store 1 input world).2.

End Demo.
