(* ===== verification/DataProps.v ===== *)
(** Properties of the data layer: SQLite store, envelope and encrypting
    store, separately and as the stack the server runs on.

    The statements are about the definitions of [Sqlite], [Crypto],
    [Encrypted] and [Stack]; the work is in those files' lemmas. *)

From stdpp Require Import relations.
From S2P Require Import Prelude GoTime Env Store Sql Sqlite AesGcm Crypto Encrypted History Stack.

Section data.
Context {DB : Type} {E : SqlEngine DB} {HK : HKDF}.
Abbreviation W := (World DB).
Implicit Types (w : W) (others : nat → DB → DB) (key : bytes) (u c : Z).

(** ** Contracts *)

(** C3: The SQLite methods meet the whole contract of [Store] on every
    branch, for every engine fault, clock and behaviour of other goroutines:
    reads return exactly the caller's rows, a listing has all of them or
    fails, also when one of them cannot be read, the count is exact, a create
    adds exactly one row built for its ID or nothing, an update is one atomic
    compare-and-set or strictly clock-advancing step, a delete removes only an
    owned row, and every error is classified. *)
Theorem sqlite_meets_store_contract others :
  ∃ S : @StoreSpec W world_env (sqlite_store others),
    @rows _ _ _ S = sqlite_rows ∧ @lost _ _ _ S = sqlite_lost ∧ @rely _ _ _ S = inner_rely others.
Proof using. by exists (stack_inner_spec others). Qed.


(** ** What a single client sees *)

(** C22: What a client creates it reads back: the new row carries the name,
    content and version sent, its clock starts after its creation time, no
    other row changes, and a following read returns that row or a system
    error. *)
Theorem create_get_roundtrip key u i w cfg w1 r w2 :
  enc_CreateConfigPlaintext (stack_store alone key) u i w = (Ok cfg, w1) →
  enc_GetConfigPlaintext (stack_store alone key) u (pt_ID cfg) w1 = (r, w2) →
  pt_UserID cfg = u ∧ pt_Name cfg = pin_Name i ∧ pt_Content cfg = pin_Content i
  ∧ pt_LastUsedWithVersion cfg = pin_LastUsedWithVersion i
  ∧ pt_CreatedAt cfg < pt_ModifiedAt cfg
  ∧ stack_rows key w !! pt_ID cfg = None
  ∧ stack_rows key w1 = <[pt_ID cfg := shown cfg]> (stack_rows key w)
  ∧ match r with Ok cfg' => cfg' = cfg | Err e => no_sentinel e end.
Proof using.
  intros Hc Hg.
  apply (create_alone (Sp := stack_spec alone key) (alone_sequential key))
    in Hc as (Hu & Hn & Hct & Hv & Ht & Hno & Hrows & Hrow).
  apply (get_alone (Sp := stack_spec alone key) (alone_sequential key)) in Hg as [_ Hg].
  split_and!; try done. destruct r as [cfg'|e]; [by eapply pt_row_inj|].
  destruct Hrow as (Hrow & _ & _).
  destruct Hg as [[_ Hg]|[[_ (x & Hx & _ & Hn')]|Hg]]; [| |done].
  - exfalso. apply Hg. by eexists.
  - rewrite Hrow in Hx. injection Hx as <-. done.
Qed.

(** C6: A PATCH without interference returns after one round of the retry
    loop; on success the row is the old one with exactly the patch's fields
    replaced, its sync clock is unchanged when name and content did not
    change and strictly larger otherwise, and no other row changes. *)
Theorem patch_semantics key n u c p w :
  match update_loop (S n) (stack_store alone key) u c p w with
  | (None, _) => False
  | (Some (Ok cfg), w') =>
      ∃ seen, pt_row (stack_rows key w) u c seen ∧ patched_row p seen cfg
        ∧ stack_rows key w' = <[c := shown cfg]> (stack_rows key w)
  | (Some (Err e), w') =>
      (e = ErrSentinel ErrConfigNotFound ∧ ¬ pt_owned (stack_rows key w') u c)
      ∨ (e = ErrSentinel ErrDecrypt ∧ pt_damaged (stack_rows key w') u c)
      ∨ no_sentinel e
  end.
Proof using.
  destruct (update_loop (S n) (stack_store alone key) u c p w) as [o w'] eqn:H.
  destruct (update_loop_returns alone key c ∅ (S n) u p w) as (r & w2 & Hr); [done|rewrite filter_empty_L by apply _; rewrite size_empty; lia|].
  rewrite H in Hr. injection Hr as -> <-.
  apply (update_alone (Sp := stack_spec alone key) (alone_sequential key) (S n)) in H.
  by destruct r.
Qed.

(** Sending the same PATCH again changes nothing: the second request
    returns the same row with the same sync timestamp, and the store is as
    the first request left it. *)
Theorem patch_idempotent key u c p w cfg w1 cfg' w2 :
  update_loop 1 (stack_store alone key) u c p w = (Some (Ok cfg), w1) →
  update_loop 1 (stack_store alone key) u c p w1 = (Some (Ok cfg'), w2) →
  cfg' = cfg ∧ stack_rows key w2 = stack_rows key w1.
Proof using.
  intros H1 H2.
  apply (update_alone (Sp := stack_spec alone key) (alone_sequential key) 1)
    in H1 as (seen & (Hs1 & Hid1 & Hu1) & Hp1 & Hr1).
  apply (update_alone (Sp := stack_spec alone key) (alone_sequential key) 1)
    in H2 as (seen2 & (Hs2 & Hid2 & Hu2) & Hp2 & Hr2).
  change (@prows W _ (stack_spec alone key)) with (stack_rows (E := E) key) in *.
  rewrite Hr1 in Hs2. rewrite lookup_insert_eq in Hs2.
  destruct Hp1 as (Hi1 & Hw1 & Hn1 & Hc1 & Hv1 & Ht1 & _).
  assert (seen2 = cfg) as ->.
  { apply (pt_row_inj (<[c := shown cfg]> ∅) u u c); unfold pt_row; rewrite lookup_insert_eq;
      split_and!; congruence. }
  destruct Hp2 as (Hi2 & Hw2 & Hn2 & Hc2 & Hv2 & Ht2 & Hm2).
  assert (Hn : pt_Name cfg' = pt_Name cfg) by (rewrite Hn2, Hn1; by destruct (pp_Name p)).
  assert (Hc : pt_Content cfg' = pt_Content cfg) by (rewrite Hc2, Hc1; by destruct (pp_Content p)).
  rewrite decide_True in Hm2 by done.
  assert (Hv : pt_LastUsedWithVersion cfg' = pt_LastUsedWithVersion cfg)
    by (rewrite Hv2, Hv1; by destruct (pp_LastUsedWithVersion p)).
  assert (cfg' = cfg) as -> by (destruct cfg, cfg'; simpl in *; congruence).
  split; [done|]. rewrite Hr2, Hr1. by rewrite insert_insert_eq.
Qed.

(** ** Under concurrency *)

(** Whatever one user does through the encrypted store, whether it
    succeeds, fails or is still retrying, and whatever other goroutines do
    meanwhile, a property of another user's rows that those goroutines keep
    is kept: no operation writes across users. *)
Theorem users_isolated others key (o : op) v w (Q : gmap Z PRow → Prop) :
  op_user o ≠ v →
  (∀ i d, Q (pt_own v (opened key <$> view (committed d))) →
          Q (pt_own v (opened key <$> view (committed (others i d))))) →
  Q (pt_own v (stack_rows key w)) →
  Q (pt_own v (stack_rows key (@exec_op W (stack others key) o w))).
Proof using.
  intros Hne HQ. apply (op_own_rows (Sp := stack_spec others key)); [done|].
  by apply (outer_rely_preserves others key (λ m, Q (pt_own v m))).
Qed.

(** C5: Every row stays decryptable: from rows that all open, any sequence
    of operations, interleaved with goroutines that keep this too, leads to
    rows that all open; in particular no row is ever visible under a
    placeholder or with an AAD other than its own. *)
Theorem rows_stay_decryptable others key (os : list op) w :
  (∀ i d, intact (opened key <$> view (committed d)) →
          intact (opened key <$> view (committed (others i d)))) →
  intact (stack_rows key w) →
  intact (stack_rows key (@exec_ops W (stack others key) os w)).
Proof using.
  intros Ho. apply (ops_intact (Sp := stack_spec others key)).
  by apply (outer_rely_preserves others key intact).
Qed.

(** C7: The retry loop of a PATCH terminates.  Each repetition is caused by
    another goroutine that moved the row's timestamp while the round waited
    for the connection: if that happens at no more than [size racing] of the
    moments at which the others run, one round more returns a result. *)
Theorem patch_terminates others key c (racing : gset nat) n u p w :
  (∀ i d, i ∉ racing → stamp c (others i d) = stamp c d) → (size racing < n)%nat →
  ∃ r w', update_loop n (stack_store others key) u c p w = (Some r, w').
Proof using.
  intros Hr Hn. apply (update_loop_returns others key c racing); [done|].
  eapply Nat.le_lt_trans; [|done]. apply subseteq_size. set_solver.
Qed.

(** A configuration ID is never used twice: a row created after any
    sequence of further operations, deletions included, has a larger ID than
    a row created before it, so a ciphertext of a deleted row never opens
    under a later row's AAD. *)
Theorem ids_never_reused others key u i w cfg (os : list op) u' i' cfg' w' :
  (∀ j d, t_seq (committed d) ≤ t_seq (committed (others j d))) →
  enc_CreateConfigPlaintext (stack_store others key) u i w = (Ok cfg, w') →
  (enc_CreateConfigPlaintext (stack_store others key) u' i'
     (@exec_ops W (stack others key) os w')).1 = Ok cfg' →
  pt_ID cfg < pt_ID cfg'.
Proof using.
  intros Ho H1 H2. apply stack_create_seq in H1 as [_ H1]; [|done].
  pose proof (stack_ops_seq others key Ho os w') as Hs.
  destruct (enc_CreateConfigPlaintext _ u' i' _) as [r w2] eqn:H3. simpl in H2. subst r.
  apply stack_create_seq in H3 as [_ H3]; [lia|done].
Qed.
(** A listing only reads. *)
Lemma list_reads key u w r w' :
  enc_ListConfigsByUserPlaintext (stack_store alone key) u w = (r, w') → tabs w' = tabs w.
Proof using.
  unfold enc_ListConfigsByUserPlaintext. rewrite bind_run. simpl. unfold sqlite_ListConfigsByUser.
  rewrite bind_run, wrapf_run. unfold pooled, on_db, acquire, alone. simpl.
  destruct (db_rows _ (w_db w)) as [q d] eqn:Hq. apply db_rows_law in Hq as [Hq _].
  destruct q as [[rs err]|e]; simpl; [|intros [= <- <-]; done].
  rewrite bind_run. unfold lift. destruct (scanAll rs); simpl; [|intros [= <- <-]; done].
  destruct err; intros [= <- <-]; done.
Qed.

(** C23: The listing fails closed: it returns all rows of the user, each
    decrypted, in ascending ID order, or no row at all.  A row whose
    ciphertext does not open and a row whose timestamps cannot be read make it
    fail, and it reports a decryption failure only when one of the user's own
    rows is damaged. *)
Theorem list_fails_closed key u w r w' :
  enc_ListConfigsByUserPlaintext (stack_store alone key) u w = (r, w') →
  tabs w' = tabs w
  ∧ match r with
    | Ok l => pt_listing u (stack_rows key w) l ∧ (∀ c, ¬ pt_damaged (stack_rows key w) u c)
              ∧ length l = size (rows_of u (tabs w))
    | Err e => (e = ErrSentinel ErrDecrypt ∧ ∃ c, pt_damaged (stack_rows key w) u c) ∨ no_sentinel e
    end.
Proof using.
  intros H. pose proof (list_reads _ _ _ _ _ H) as Ht. split; [done|].
  apply (list_pt_spec (EncryptedStoreSpec := stack_spec alone key)) in H as [_ H].
  change (@prows W _ (stack_spec alone key)) with (stack_rows (E := E) key) in *.
  change (@plost W _ (stack_spec alone key)) with (sqlite_lost (E := E)) in *.
  unfold stack_rows, sqlite_rows, sqlite_lost in *. rewrite Ht in H. destruct r as [l|e]; [|done].
  destruct H as [H Hlost]. split; [done|]. split.
  - intros c (x & Hx & Hu & Hn). destruct H as (_ & Hin & Hall).
    destruct (Hall c) as (cfg & Hcfg & Hid); [by exists x|].
    destruct (Hin _ Hcfg) as (Hrow & _ & _). rewrite Hid, Hx in Hrow. by simplify_eq.
  - rewrite rows_of_size, Hlost, map_size_empty, Nat.add_0_r, (pt_listing_length _ _ _ H), pt_own_opened. apply map_size_fmap.
Qed.

(** A create is atomic at every failure point: if any of its steps fails
    (reserving the ID, encrypting, validating, finalising, reading back,
    committing), the committed tables are exactly as before; if it succeeds,
    exactly one row is added. *)
Theorem create_atomic u build w r w' :
  (∀ id w1 r1 w2, build id w1 = (r1, w2) → same_db w1 w2) →
  sqlite_CreateConfigWithID alone u (Some build) w = (r, w') →
  match r with
  | Ok cfg => sqlite_rows w' = <[cfg_ID cfg := cfg]> (sqlite_rows w)
              ∧ sqlite_rows w !! cfg_ID cfg = None ∧ last_id w < cfg_ID cfg
  | Err e => tabs w' = tabs w
  end.
Proof using.
  intros Hb H. pose proof H as H'.
  apply (sqlite_create_seq alone) in H' as [_ Hid]; [|done|done].
  unfold sqlite_CreateConfigWithID in H. rewrite bind_run, wrapf_run in H.
  destruct (pooled alone begin_tx w) as [rb w1] eqn:Hbeg.
  unfold pooled, on_db, acquire, alone in Hbeg. simpl in Hbeg.
  destruct (begin_tx (w_db w)) as [rb' d] eqn:Hbt. apply begin_tx_law in Hbt as [Hcom Hbt].
  injection Hbeg as -> <-. destruct rb as [[]|e]; simplify_eq/=; [|by unfold tabs].
  apply defer_rollback_run in H as (w2 & Ht & Htab). apply create_tx_spec in Ht as [Ho Ht]; [|done|].
  2: { unfold wtx, tabs. simpl. congruence. }
  unfold sqlite_rows, tabs in *. simpl in *. rewrite Hcom in *.
  destruct r as [cfg|e]; [|congruence]. rewrite Htab.
  destruct Ho as (inp & wa & wb & _ & _ & _ & _ & Hno & Hrows). tauto.
Qed.

(** Storing and loading a row loses nothing: a row written from a
    configuration whose timestamps fall in the years 0 to 9999 scans back to
    that configuration, an empty version string included. *)
Theorem stored_row_roundtrip (cfg : Config) :
  ts_ok (cfg_CreatedAt cfg) → ts_ok (cfg_ModifiedAt cfg) →
  scanConfig (Some (cfg_ID cfg,
    mk_row (cfg_UserID cfg) (cfg_Name cfg) (cfg_ContentCiphertext cfg) (cfg_ContentNonce cfg)
      (nullIfEmpty (cfg_LastUsedWithVersion cfg))
      (Format (cfg_CreatedAt cfg)) (Format (cfg_ModifiedAt cfg)))) = Ok cfg.
Proof using.
  intros Hc Hm. unfold scanConfig; simpl. rewrite !Parse_Format by done.
  rewrite nullIfEmpty_default. by destruct cfg.
Qed.

(** The guards of an update accept exactly the consistent patches:
    ciphertext and nonce together, a timestamp-preserving patch only with an
    expected timestamp and no name or content; everything else is rejected
    with ErrInvalidPatch before the database is touched. *)
Theorem update_guards_exact others u c p w :
  match check_patch p with
  | Ok _ => patch_ok p
  | Err e => ¬ patch_ok p ∧ sqlite_UpdateConfig others u c p w = (Err e, w)
             ∧ ∀ s, errors_is e s = bool_decide (s = ErrInvalidPatch)
  end.
Proof using.
  pose proof (check_patch_run p) as Hp. unfold sqlite_UpdateConfig. rewrite bind_run. unfold lift at 1.
  destruct (check_patch p) as [[]|e]; [done|]. by destruct Hp.
Qed.
End data.

(** ** The envelope *)

Section envelope_props.
Context {DB : Type} {HK : HKDF}.
Implicit Types (w : World DB) (key ct nonce p : bytes) (u c : Z).

(** Encrypting then decrypting under the same key, user and
    configuration returns the plaintext, for every plaintext including the
    empty one; the ciphertext is sixteen bytes longer; encryption fails only
    when the system's randomness does. *)
Theorem envelope_roundtrip key u c p w :
  length key = KeySize →
  match Encrypt key u c p w with
  | (Ok (ct, nonce), w') =>
      Decrypt key u c ct nonce = Ok p ∧ length ct = (length p + 16)%nat
      ∧ length nonce = NonceSize ∧ w_db w' = w_db w
  | (Err e, w') => env_rand (w_env w) (w_step w) = None ∧ no_sentinel e ∧ w_db w' = w_db w
  end.
Proof using.
  intros Hk. destruct (Encrypt key u c p w) as [r w'] eqn:H. apply Encrypt_run in H; [|done].
  simpl in H. unfold world_rand in H. destruct (env_rand (w_env w) (w_step w)) as [f|].
  - destruct H as (-> & E & HE & ->).
    assert (Hn : length (f <$> seq 0 NonceSize) = NonceSize) by (by rewrite length_fmap, length_seq).
    split_and!; [by apply Decrypt_Seal| |done|done].
    by rewrite Seal_length by (by apply (user_cipher_length key u)).
  - destruct H as (-> & ->). auto with tabby.
Qed.

(** C24: Decryption accepts exactly the sealed messages of this key, user and
    configuration and reports every other input, whatever is wrong with it,
    with the one bare sentinel ErrDecrypt. *)
Theorem decrypt_exact key u c ct nonce :
  match Decrypt key u c ct nonce with
  | Ok p => length nonce = NonceSize
            ∧ ∃ E, user_cipher key u = Some E ∧ ct = Seal E nonce p (BuildAAD u c)
  | Err e => e = ErrSentinel ErrDecrypt
             ∧ ∀ E p, length nonce = NonceSize → user_cipher key u = Some E →
                      ct ≠ Seal E nonce p (BuildAAD u c)
  end.
Proof using.
  destruct (Decrypt key u c ct nonce) as [p|e] eqn:H; [by apply Decrypt_Ok|].
  split; [by eapply Decrypt_Err|]. intros E p Hn HE Hct.
  assert (Decrypt key u c ct nonce = Ok p) by (apply Decrypt_Ok; eauto). congruence.
Qed.

(** C25: A ciphertext is bound to its configuration: offered under another
    configuration of the same user, whose 17-byte header is a different one, it
    is rejected with ErrDecrypt, unless the two different headers happen to have
    the same GHASH under that user's secret hash key. *)
Theorem replay_rejected key u c c' ct nonce p E :
  int64_range u → int64_range c → int64_range c' → c' ≠ c →
  Decrypt key u c ct nonce = Ok p → user_cipher key u = Some E →
  BuildAAD u c' ≠ BuildAAD u c
  ∧ Decrypt key u c' ct nonce =
      if decide (auth_hash E (BuildAAD u c') (ctr E nonce p) = auth_hash E (BuildAAD u c) (ctr E nonce p))
      then Ok p else Err (ErrSentinel ErrDecrypt).
Proof using.
  intros Hu Hc Hc' Hne (Hn & E' & HE' & ->)%Decrypt_Ok HE. rewrite HE in HE'. injection HE' as <-. split.
  - intros Heq. apply BuildAAD_inj in Heq as [_ ?]; done.
  - rewrite Decrypt_run, Hn, HE. simpl.
    rewrite Open_other_aad by (by apply (user_cipher_length key u)). by case_decide.
Qed.

(** Identities are encoded without ambiguity: the header has its 17
    bytes and determines user and configuration over all of int64, negative
    values included, and the key-derivation label determines the user. *)
Theorem identity_encoding_injective u c u' c' :
  int64_range u → int64_range c → int64_range u' → int64_range c' →
  length (BuildAAD u c) = AADSize
  ∧ (BuildAAD u c = BuildAAD u' c' ↔ u = u' ∧ c = c')
  ∧ (hkdfInfo u = hkdfInfo u' ↔ u = u').
Proof using.
  intros Hu Hc Hu' Hc'. split; [apply BuildAAD_length|]. split; split.
  - by apply BuildAAD_inj.
  - by intros [-> ->].
  - unfold hkdfInfo. intros H%(inj (String.append _)). by apply (inj pretty).
  - by intros ->.
Qed.
End envelope_props.

(** ** Witnesses on the concrete stack *)

Definition demo_patch : UpdateConfigPlaintextPatch :=
  mk_UpdateConfigPlaintextPatch (Some "home") (Some (bytes_of_string "hosts: [a]")) None.

Definition demo_patched : ConfigWithPlaintext :=
  mk_ConfigWithPlaintext 1 1 "home" (bytes_of_string "hosts: [a]") "1.0.210"
    (1700000001 * Second) (1700000008 * Second).

Definition after_patch : World Table.db :=
  (update_loop 1 Demo.store 1 1 demo_patch Demo.after_create).2.

Ltac unfold_demo := unfold Demo.after_create, after_patch.

Lemma create_get_roundtrip_witness :
  stack_rows Demo.key Demo.after_create = <[1 := shown Demo.created_cfg]> (stack_rows Demo.key Demo.world)
  ∧ pt_Content Demo.created_cfg = bytes_of_string "hosts: []".
Proof.
  pose proof (create_get_roundtrip Demo.key 1 Demo.input Demo.world Demo.created_cfg Demo.after_create
    (enc_GetConfigPlaintext Demo.store 1 1 Demo.after_create).1
    (enc_GetConfigPlaintext Demo.store 1 1 Demo.after_create).2) as H.
  destruct H as (_ & _ & Hc & _ & _ & _ & Hr & _).
  - unfold_demo. apply run_fst. vm_compute. reflexivity.
  - apply surjective_pairing.
  - split; [exact Hr|exact Hc].
Defined.

Lemma patch_idempotent_witness :
  stack_rows Demo.key (update_loop 1 Demo.store 1 1 demo_patch after_patch).2
  = stack_rows Demo.key after_patch.
Proof.
  apply (patch_idempotent Demo.key 1 1 demo_patch Demo.after_create demo_patched after_patch demo_patched).
  - unfold_demo. apply run_fst. vm_compute. reflexivity.
  - unfold_demo. apply run_fst. vm_compute. reflexivity.
Defined.

Lemma users_isolated_witness :
  pt_own 2 (stack_rows Demo.key (@exec_op _ (stack alone Demo.key) (OpDelete 1 1) Demo.after_create))
  = pt_own 2 (stack_rows Demo.key Demo.after_create).
Proof.
  apply (users_isolated alone Demo.key (OpDelete 1 1) 2 Demo.after_create
           (λ m, m = pt_own 2 (stack_rows Demo.key Demo.after_create))).
  - simpl. lia.
  - intros i d H. exact H.
  - reflexivity.
Defined.

Lemma rows_stay_decryptable_witness :
  intact (stack_rows Demo.key
    (@exec_ops _ (stack alone Demo.key)
       [OpCreate 1 Demo.input; OpUpdate 1 1 1 demo_patch; OpCreate 2 Demo.input; OpDelete 1 1]
       Demo.world)).
Proof.
  apply rows_stay_decryptable.
  - intros i d H. exact H.
  - assert (Hempty : stack_rows Demo.key Demo.world = ∅) by (vm_compute; reflexivity).
    rewrite Hempty. apply map_Forall_empty.
Defined.

Lemma ids_never_reused_witness : 1 < 2.
Proof.
  apply (ids_never_reused alone Demo.key 1 Demo.input Demo.world Demo.created_cfg [OpDelete 1 1]
    1 Demo.input
    (mk_ConfigWithPlaintext 2 1 "work" (bytes_of_string "hosts: []") "1.0.210"
       (1700000006 * Second) (1700000008 * Second)) Demo.after_create).
  - intros j d. reflexivity.
  - unfold_demo. apply run_fst. vm_compute. reflexivity.
  - vm_compute. reflexivity.
Defined.

Lemma list_fails_closed_witness :
  pt_listing 1 (stack_rows Demo.key Demo.after_create) [Demo.created_cfg].
Proof.
  refine (proj1 (proj2 (list_fails_closed Demo.key 1 Demo.after_create (Ok [Demo.created_cfg]) _ _))).
  apply run_fst. vm_compute. reflexivity.
Defined.

Definition demo_row_builder : CreateConfigInputBuilder (World Table.db) := λ id,
  ret (mk_CreateConfigInput "x" [Byte.x01] [Byte.x02] "").

(** The commit of the create fails: the fifth call on the database. *)
Definition faulty_world : World Table.db :=
  mk_World Demo.env 0 (Table.init (λ n, if (n =? 4)%nat then Some "disk I/O error" else None)).

Lemma create_atomic_witness :
  tabs (sqlite_CreateConfigWithID alone 1 (Some demo_row_builder) faulty_world).2 = tabs faulty_world.
Proof.
  refine (create_atomic 1 demo_row_builder faulty_world
            (Err (ErrWrap "sqlite: commit create: " (ErrExternal "disk I/O error") "")) _ _ _).
  - intros id w1 r1 w2 H. injection H as _ <-. reflexivity.
  - apply run_fst. vm_compute. reflexivity.
Defined.

Definition demo_stored : Config :=
  mk_Config 3 1 "a" [Byte.x01] [Byte.x02] "" (1700000000 * Second + 120) (1700000000 * Second + 5).

Lemma stored_row_roundtrip_witness :
  scanConfig (Some (cfg_ID demo_stored,
      mk_row (cfg_UserID demo_stored) (cfg_Name demo_stored) (cfg_ContentCiphertext demo_stored)
        (cfg_ContentNonce demo_stored) (nullIfEmpty (cfg_LastUsedWithVersion demo_stored))
        (Format (cfg_CreatedAt demo_stored)) (Format (cfg_ModifiedAt demo_stored)))) = Ok demo_stored.
Proof. refine (stored_row_roundtrip demo_stored _ _); vm_compute; split; (discriminate || reflexivity). Defined.

(** ** Two concurrent PATCH requests *)

Definition patch_a : UpdateConfigPlaintextPatch :=
  mk_UpdateConfigPlaintextPatch (Some "work") (Some (bytes_of_string "A")) None.
Definition patch_b : UpdateConfigPlaintextPatch :=
  mk_UpdateConfigPlaintextPatch (Some "renamed") (Some (bytes_of_string "B")) None.

(** Another request runs [patch_b] from start to end while the first one
    waits for the connection at its [k]-th step. *)
Definition run_b_at (k : nat) (i : nat) (d : Table.db) : Table.db :=
  if (i =? k)%nat
  then w_db (update_loop 1 Demo.store 1 1 patch_b (mk_World Demo.env (100 + i) d)).2
  else d.

(** Two PATCH requests that each set name and content can leave a row
    that neither of them wrote: a request whose name equals the current one
    does not send it, so the other request's name survives beside its
    content. *)
Theorem concurrent_patches_mix :
  let '(r, w) := update_loop 1 (stack_store (run_b_at 7) Demo.key) 1 1 patch_a Demo.after_create in
  ∃ cfg, r = Some (Ok cfg) ∧ pt_Name cfg = "renamed" ∧ pt_Content cfg = bytes_of_string "A"
    ∧ pr_Name <$> stack_rows Demo.key w !! 1 = Some "renamed".
Proof.
  destruct (update_loop _ _ _ _ _ _) as [r w] eqn:H.
  assert (Hr : r = Some (Ok (mk_ConfigWithPlaintext 1 1 "renamed" (bytes_of_string "A") "1.0.210"
                       (1700000001 * Second) (1700000111 * Second + Millisecond)))).
  { change r with ((r, w).1). rewrite <- H. vm_compute. reflexivity. }
  eexists. split; [exact Hr|]. split; [done|]. split; [done|].
  change w with ((r, w).2). rewrite <- H. vm_compute. reflexivity.
Qed.

(** ** An update that loses a race *)

(** Only the version changes, so the write is conditional on the timestamp;
    [patch_b] runs between the read and the write. *)
Definition version_patch : UpdateConfigPlaintextPatch :=
  mk_UpdateConfigPlaintextPatch (Some "work") None (Some "1.0.211").

Lemma run_b_at_races k : ∀ i d, i ∉ ({[ k ]} : gset nat) → stamp 1 (run_b_at k i d) = stamp 1 d.
Proof.
  intros i d Hi. unfold run_b_at. destruct (Nat.eqb_spec i k) as [->|]; [|done].
  exfalso. apply Hi. by apply elem_of_singleton.
Qed.

Lemma patch_terminates_witness :
  (update_loop 1 (stack_store (run_b_at 6) Demo.key) 1 1 version_patch Demo.after_create).1 = None
  ∧ ∃ r w', update_loop 2 (stack_store (run_b_at 6) Demo.key) 1 1 version_patch Demo.after_create = (Some r, w').
Proof.
  split; [vm_compute; reflexivity|].
  apply (patch_terminates (run_b_at 6) Demo.key 1 {[ 6%nat ]}).
  - exact (run_b_at_races 6).
  - rewrite size_singleton. lia.
Defined.

(** ** Witnesses for the envelope *)

Lemma envelope_roundtrip_witness :
  match Encrypt Demo.key 1 7 (bytes_of_string "hi") Demo.world with
  | (Ok (ct, nonce), _) => Decrypt Demo.key 1 7 ct nonce = Ok (bytes_of_string "hi")
  | _ => False
  end.
Proof.
  pose proof (envelope_roundtrip Demo.key 1 7 (bytes_of_string "hi") Demo.world eq_refl) as H.
  destruct (Encrypt _ _ _ _ _) as [[[ct nonce]|e] w]; [exact (proj1 H)|]. discriminate (proj1 H).
Defined.

Lemma identity_encoding_injective_witness : BuildAAD 1 2 ≠ BuildAAD 2 1 ∧ hkdfInfo (-1) ≠ hkdfInfo 1.
Proof.
  split; intros H.
  - destruct (identity_encoding_injective 1 2 2 1) as (_ & Ha & _); [done..|].
    apply Ha in H as [? _]. discriminate.
  - destruct (identity_encoding_injective (-1) 0 1 0) as (_ & _ & Hb); [done..|].
    apply Hb in H. discriminate.
Defined.

(** A message sealed for configuration 7, offered as configuration 8. *)
Definition demo_sealed : bytes * bytes := Eval vm_compute in
  match (Encrypt Demo.key 1 7 (bytes_of_string "hi") Demo.world).1 with
  | Ok y => y
  | Err _ => ([], [])
  end.

Lemma demo_headers_differ :
  match user_cipher Demo.key 1 with
  | Some E => bool_decide (auth_hash E (BuildAAD 1 8) (ctr E demo_sealed.2 (bytes_of_string "hi"))
                           = auth_hash E (BuildAAD 1 7) (ctr E demo_sealed.2 (bytes_of_string "hi"))) = false
  | None => False
  end.
Proof. vm_compute. reflexivity. Qed.

Lemma replay_rejected_witness :
  Decrypt Demo.key 1 8 demo_sealed.1 demo_sealed.2 = Err (ErrSentinel ErrDecrypt).
Proof.
  pose proof demo_headers_differ as Hd.
  destruct (user_cipher Demo.key 1) as [E|] eqn:HE; [|destruct Hd].
  apply bool_decide_eq_false in Hd.
  destruct (replay_rejected Demo.key 1 7 8 demo_sealed.1 demo_sealed.2 (bytes_of_string "hi") E) as [_ ->].
  - done.
  - done.
  - done.
  - done.
  - vm_compute. reflexivity.
  - exact HE.
  - exact (decide_False _ _ Hd).
Defined.
