(* ===== verification/GoLib.v ===== *)
(** The parts of Go's standard library that the handlers, the
    authentication and the command line use on text: strconv.ParseInt,
    strings.TrimSpace and Split, encoding/hex, crypto/sha256, UTF-8. *)

From S2P Require Import Prelude AesGcm.

(** ** Characters *)

Definition chr (c : ascii) : byte := Ascii.byte_of_ascii c.
Definition code (b : byte) : Z := Z.of_N (Byte.to_N b).

Definition is_digit (b : byte) : bool := (48 <=? code b) && (code b <=? 57).
Definition is_lower (b : byte) : bool := (97 <=? code b) && (code b <=? 122).
Definition is_upper (b : byte) : bool := (65 <=? code b) && (code b <=? 90).

Definition byte_of_Z (z : Z) : byte := byte_of_N (Z.to_N (z mod 256)).

(** The ASCII part of unicode.ToLower. *)
Definition lower_byte (b : byte) : byte := if is_upper b then byte_of_Z (code b + 32) else b.

(** ** strconv.ParseInt(s, 10, 64) *)

Fixpoint digits_value (acc : Z) (b : bytes) : option Z :=
  match b with
  | [] => Some acc
  | c :: r => if is_digit c then digits_value (10 * acc + (code c - 48)) r else None
  end.

Definition in_int64 (z : Z) : option Z :=
  if decide (int64_range z) then Some z else None.

(** [None] is a syntax or range error. *)
Definition ParseInt (s : string) : option Z :=
  match bytes_of_string s with
  | [] => None
  | c :: r =>
      if decide (c = chr "+") then
        match r with [] => None | _ => digits_value 0 r ≫= in_int64 end
      else if decide (c = chr "-") then
        match r with [] => None | _ => digits_value 0 r ≫= λ v, in_int64 (- v) end
      else digits_value 0 (c :: r) ≫= in_int64
  end.

(** ** Splitting *)

(** [strings.Split(s, sep)] for a one-byte separator. *)
Fixpoint split_byte (sep : byte) (b : bytes) : list bytes :=
  match b with
  | [] => [[]]
  | c :: r =>
      if decide (c = sep) then [] :: split_byte sep r
      else match split_byte sep r with
           | [] => [[c]]
           | w :: ws => (c :: w) :: ws
           end
  end.

(** ** strings.TrimSpace *)

Fixpoint strip_prefix (p b : bytes) : option bytes :=
  match p, b with
  | [], _ => Some b
  | x :: p', y :: b' => if decide (x = y) then strip_prefix p' b' else None
  | _ :: _, [] => None
  end.

(** The UTF-8 encodings of the runes for which unicode.IsSpace holds. *)
Definition space_runes : list bytes :=
  map (map byte_of_Z)
  [[9]; [10]; [11]; [12]; [13]; [32]; [194; 133]; [194; 160]; [225; 154; 128];
   [226; 128; 128]; [226; 128; 129]; [226; 128; 130]; [226; 128; 131]; [226; 128; 132];
   [226; 128; 133]; [226; 128; 134]; [226; 128; 135]; [226; 128; 136]; [226; 128; 137];
   [226; 128; 138]; [226; 128; 168]; [226; 128; 169]; [226; 128; 175]; [226; 129; 159];
   [227; 128; 128]].

Fixpoint strip_any (ps : list bytes) (b : bytes) : option bytes :=
  match ps with
  | [] => None
  | p :: ps' => match strip_prefix p b with Some r => Some r | None => strip_any ps' b end
  end.

(** Drops leading patterns; the length of the input is fuel enough. *)
Fixpoint trim_fuel (fuel : nat) (ps : list bytes) (b : bytes) : bytes :=
  match fuel with
  | O => b
  | S f => match strip_any ps b with Some r => trim_fuel f ps r | None => b end
  end.
Definition trim_left (ps : list bytes) (b : bytes) : bytes := trim_fuel (length b) ps b.

Definition trim_bytes (b : bytes) : bytes :=
  rev (trim_left (@rev byte <$> space_runes) (rev (trim_left space_runes b))).

Definition TrimSpace (s : string) : string := string_of_bytes (trim_bytes (bytes_of_string s)).

(** ** Strings as bytes *)

Definition slen (s : string) : Z := Z.of_nat (length (bytes_of_string s)).

(** [strings.ToLower], exact on ASCII text. *)
Definition lower_ascii (s : string) : string :=
  string_of_bytes (lower_byte <$> bytes_of_string s).

(** [strings.EqualFold(s, t)] where [t] is ASCII without k and s, the only
    letters with a non-ASCII fold. *)
Definition equal_fold_ascii (s t : string) : bool := bool_decide (lower_ascii s = lower_ascii t).

(** [strings.ContainsAny(s, chars)] for ASCII [chars]. *)
Definition contains_any (s : string) (chars : bytes) : bool :=
  existsb (λ b, bool_decide (b ∈ chars)) (bytes_of_string s).

(** [s[:n]] and [s[n:]]. *)
Definition str_take (n : nat) (s : string) : string := string_of_bytes (take n (bytes_of_string s)).
Definition str_drop (n : nat) (s : string) : string := string_of_bytes (drop n (bytes_of_string s)).

(** ** encoding/hex *)

Definition hex_char (n : Z) : byte := byte_of_Z (if n <? 10 then 48 + n else 87 + n).
Definition EncodeToString (b : bytes) : string :=
  string_of_bytes (b ≫= λ x, [hex_char (code x / 16); hex_char (code x mod 16)]).

Definition hex_value (b : byte) : option Z :=
  if is_digit b then Some (code b - 48)
  else if (97 <=? code b) && (code b <=? 102) then Some (code b - 87)
  else if (65 <=? code b) && (code b <=? 70) then Some (code b - 55)
  else None.

(** hex.DecodeString; [None] is an invalid byte or an odd length. *)
Fixpoint hex_decode (b : bytes) : option bytes :=
  match b with
  | [] => Some []
  | [_] => None
  | x :: y :: r =>
      match hex_value x, hex_value y, hex_decode r with
      | Some h, Some l, Some o => Some (byte_of_Z (16 * h + l) :: o)
      | _, _, _ => None
      end
  end.
Definition DecodeString (s : string) : option bytes := hex_decode (bytes_of_string s).

(** ** crypto/sha256

    The constants are the fractional parts of the square and cube roots of
    the first primes. *)

Fixpoint root_bits (e : N) (n : N) (bits : nat) (r : N) : N :=
  match bits with
  | O => r
  | S k => let r' := (r + N.shiftl 1 (N.of_nat k))%N in
           root_bits e n k (if (r' ^ e <=? n)%N then r' else r)
  end.

Definition is_prime (n : N) : bool :=
  forallb (λ d, negb (n mod N.of_nat d =? 0)%N) (seq 2 (N.to_nat n - 2)).
Definition primes : list N := Eval vm_compute in
  take 64 (List.filter is_prime (N.of_nat <$> seq 2 310)).

Definition sha_K : list N := Eval vm_compute in
  map (λ p, root_bits 3 (p * 2 ^ 96) 37 0 mod 2 ^ 32)%N primes.
Definition sha_H0 : list N := Eval vm_compute in
  map (λ p, root_bits 2 (p * 2 ^ 64) 37 0 mod 2 ^ 32)%N (take 8 primes).

Definition w32 (n : N) : N := (n mod 2 ^ 32)%N.
Definition rotr (n k : N) : N := w32 (N.lor (N.shiftr n k) (N.shiftl n (32 - k))).
Definition sigma0 (x : N) : N := N.lxor (rotr x 7) (N.lxor (rotr x 18) (N.shiftr x 3)).
Definition sigma1 (x : N) : N := N.lxor (rotr x 17) (N.lxor (rotr x 19) (N.shiftr x 10)).
Definition Sigma0 (x : N) : N := N.lxor (rotr x 2) (N.lxor (rotr x 13) (rotr x 22)).
Definition Sigma1 (x : N) : N := N.lxor (rotr x 6) (N.lxor (rotr x 11) (rotr x 25)).
Definition Ch (x y z : N) : N := N.lxor (N.land x y) (N.ldiff z x).
Definition Maj (x y z : N) : N := N.lxor (N.land x y) (N.lxor (N.land x z) (N.land y z)).

(** The message schedule, newest word first. *)
Fixpoint schedule (n : nat) (ws : list N) : list N :=
  match n with
  | O => ws
  | S m =>
      let w i := nth i ws 0%N in
      schedule m (w32 (sigma1 (w 1%nat) + w 6%nat + sigma0 (w 14%nat) + w 15%nat) :: ws)
  end.

Definition sha_round (s : list N) (kw : N * N) : list N :=
  match s with
  | [a; b; c; d; e; f; g; h] =>
      let t1 := (h + Sigma1 e + Ch e f g + kw.1 + kw.2)%N in
      let t2 := (Sigma0 a + Maj a b c)%N in
      [w32 (t1 + t2); a; b; c; w32 (d + t1); e; f; g]
  | _ => s
  end.

Definition sha_block (h : list N) (block : bytes) : list N :=
  let ws := be_value <$> chunks_fuel 16 4 block in
  let sched := rev (schedule 48 (rev ws)) in
  zip_with (λ x y, w32 (x + y)) h (foldl sha_round h (zip sha_K sched)).

Definition Sum256 (b : bytes) : bytes :=
  let zeros := Z.to_nat ((55 - Z.of_nat (length b)) mod 64) in
  let padded := b ++ Byte.x80 :: replicate zeros Byte.x00 ++ be_bytes 8 (8 * Z.of_nat (length b)) in
  (foldl sha_block sha_H0 (chunks_fuel (length padded) 64 padded)) ≫= λ w, be_bytes 4 (Z.of_N w).

(** FIPS 180-4: "abc", and the two-block message. *)
Example sha256_abc :
  EncodeToString (Sum256 (bytes_of_string "abc"))
  = "ba7816bf8f01cfea414140de5dae2223b00361a396177a9cb410ff61f20015ad".
Proof. vm_compute. reflexivity. Qed.
Example sha256_two_blocks :
  EncodeToString (Sum256 (bytes_of_string "abcdbcdecdefdefgefghfghighijhijkijkljklmklmnlmnomnopnopq"))
  = "248d6a61d20638b8e5c026930c3e6039a33ce45964ff2167f6ecedd419db06c1".
Proof. vm_compute. reflexivity. Qed.
Example ParseInt_examples :
  ParseInt "42" = Some 42 ∧ ParseInt "-7" = Some (-7) ∧ ParseInt "+7" = Some 7 ∧ ParseInt "" = None
  ∧ ParseInt "1_0" = None ∧ ParseInt " 1" = None ∧ ParseInt "9223372036854775807" = Some max_int64
  ∧ ParseInt "9223372036854775808" = None ∧ ParseInt "-9223372036854775808" = Some min_int64.
Proof. vm_compute. repeat split; reflexivity. Qed.
Example TrimSpace_example : TrimSpace "  a b	" = "a b".
Proof. vm_compute. reflexivity. Qed.

(** ** Trimming *)

Lemma strip_prefix_some p b r : strip_prefix p b = Some r → b = p ++ r.
Proof.
  revert b. induction p as [|x p IH]; intros [|y b]; simpl; try (intros; by simplify_eq/=).
  case_decide as Hxy; [|done]. intros Hr%IH. by subst.
Qed.

Lemma strip_any_shrinks ps b r :
  Forall (λ p, p ≠ []) ps → strip_any ps b = Some r → (length r < length b)%nat.
Proof.
  intros Hps. induction Hps as [|p ps Hp Hps IH]; simpl; [done|].
  destruct (strip_prefix p b) as [r'|] eqn:Hs; [|done]. intros [= <-].
  apply strip_prefix_some in Hs. subst b. rewrite length_app. destruct p; [done|]. simpl. lia.
Qed.

(** The length of the text is fuel enough: nothing that can be dropped is
    left in front. *)
Lemma trim_left_done ps b : Forall (λ p, p ≠ []) ps → strip_any ps (trim_left ps b) = None.
Proof.
  intros Hps. unfold trim_left. remember (length b) as n eqn:Hn.
  assert (Hle : (length b ≤ n)%nat) by lia. clear Hn. revert b Hle.
  induction n as [|n IH]; intros b Hle; simpl.
  - destruct b; [|simpl in Hle; lia]. destruct (strip_any ps []) as [r|] eqn:Hs; [|done].
    apply strip_any_shrinks in Hs; [|done]. simpl in Hs. lia.
  - destruct (strip_any ps b) as [r|] eqn:Hs; [|done]. apply IH.
    apply strip_any_shrinks in Hs; [|done]. lia.
Qed.

(** TrimSpace leaves no white space at the end. *)
Lemma TrimSpace_end s :
  strip_any (@rev byte <$> space_runes) (rev (bytes_of_string (TrimSpace s))) = None.
Proof.
  unfold TrimSpace, trim_bytes. rewrite bytes_string_roundtrip, rev_involutive.
  apply trim_left_done. apply Forall_fmap. unfold compose.
  repeat (apply Forall_cons; split; [vm_compute; discriminate|]). constructor.
Qed.

(** ** Hex *)

Lemma hex_pair x :
  hex_value (hex_char (code x / 16)) = Some (code x / 16)
  ∧ hex_value (hex_char (code x mod 16)) = Some (code x mod 16)
  ∧ byte_of_Z (16 * (code x / 16) + code x mod 16) = x.
Proof. destruct x; vm_compute; repeat split; reflexivity. Qed.

Lemma Decode_Encode b : DecodeString (EncodeToString b) = Some b.
Proof.
  unfold DecodeString, EncodeToString. rewrite bytes_string_roundtrip.
  induction b as [|x b IH]; [done|]. cbn [mbind list_bind app hex_decode].
  destruct (hex_pair x) as (-> & -> & Hx). change (list_bind _ _ _ b) with (b ≫= λ x, [hex_char (code x / 16); hex_char (code x mod 16)]).
  by rewrite IH, Hx.
Qed.

(** ** Text that trimming leaves alone *)

Lemma strip_prefix_app p b x r : strip_prefix p b = Some r → strip_prefix p (b ++ x) = Some (r ++ x).
Proof.
  revert b. induction p as [|a p IH]; intros [|c b]; simpl; try done; [by intros [= <-]..|].
  case_decide; [apply IH|done].
Qed.

Lemma strip_any_prefix ps b x : strip_any ps (b ++ x) = None → strip_any ps b = None.
Proof.
  induction ps as [|p ps IH]; simpl; [done|]. destruct (strip_prefix p b) as [r|] eqn:Hs.
  - by rewrite (strip_prefix_app p b x r Hs).
  - by destruct (strip_prefix p (b ++ x)).
Qed.

Lemma trim_left_suffix ps b : ∃ x, b = x ++ trim_left ps b.
Proof.
  unfold trim_left. generalize (length b) as n. intros n. revert b.
  induction n as [|n IH]; intros b; simpl; [by exists []|].
  destruct (strip_any ps b) as [r|] eqn:Hs; [|by exists []].
  destruct (IH r) as [x Hx]. assert (∃ y, b = y ++ r) as [y Hy].
  { clear -Hs. induction ps as [|p ps IH]; simpl in Hs; [done|].
    destruct (strip_prefix p b) eqn:Hp; [|by apply IH]. injection Hs as <-.
    exists p. by apply strip_prefix_some. }
  exists (y ++ x). rewrite <- app_assoc, <- Hx. done.
Qed.

Lemma trim_left_id ps b : strip_any ps b = None → trim_left ps b = b.
Proof. unfold trim_left. destruct b as [|c b]; [done|]. simpl. by intros ->. Qed.

Lemma spaces_nonempty : Forall (λ p, p ≠ []) space_runes ∧ Forall (λ p, p ≠ []) (@rev byte <$> space_runes).
Proof.
  split; [|apply Forall_fmap; unfold compose];
    repeat (apply Forall_cons; split; [vm_compute; discriminate|]); constructor.
Qed.

Lemma TrimSpace_id s :
  strip_any space_runes (bytes_of_string s) = None →
  strip_any (@rev byte <$> space_runes) (rev (bytes_of_string s)) = None → TrimSpace s = s.
Proof.
  intros H1 H2. unfold TrimSpace, trim_bytes. rewrite (trim_left_id _ _ H1), (trim_left_id _ _ H2).
  by rewrite rev_involutive, string_bytes_roundtrip.
Qed.

(** TrimSpace leaves no white space in front. *)
Lemma TrimSpace_front s : strip_any space_runes (bytes_of_string (TrimSpace s)) = None.
Proof.
  unfold TrimSpace, trim_bytes. rewrite bytes_string_roundtrip.
  set (b := trim_left space_runes (bytes_of_string s)).
  assert (Hb : strip_any space_runes b = None) by apply trim_left_done, spaces_nonempty.
  destruct (trim_left_suffix (@rev byte <$> space_runes) (rev b)) as [x Hx].
  apply (strip_any_prefix _ _ (rev x)). rewrite <- rev_app_distr, <- Hx. by rewrite rev_involutive.
Qed.

Lemma TrimSpace_idem s : TrimSpace (TrimSpace s) = TrimSpace s.
Proof. apply TrimSpace_id; [apply TrimSpace_front|apply TrimSpace_end]. Qed.

(** Printable ASCII without blanks. *)
Definition graphic (b : byte) : bool := (33 <=? code b) && (code b <=? 126).

Lemma strip_any_graphic ps b :
  forallb (λ p, match p with c :: _ => negb (graphic c) | [] => false end) ps = true →
  forallb graphic b = true → strip_any ps b = None.
Proof.
  intros Hps Hb. induction ps as [|p ps IH]; [done|]. simpl in *.
  apply andb_true_iff in Hps as [Hp Hps]. destruct p as [|c p]; [done|].
  destruct b as [|d b]; [by apply IH|]. simpl. case_decide as Hcd; [|by apply IH].
  subst d. simpl in Hb. apply andb_true_iff in Hb as [Hd _]. rewrite Hd in Hp. done.
Qed.

Lemma TrimSpace_graphic s : forallb graphic (bytes_of_string s) = true → TrimSpace s = s.
Proof.
  intros H. apply TrimSpace_id; apply strip_any_graphic; [by vm_compute|done|by vm_compute|].
  apply forallb_forall. intros x Hx%in_rev. rewrite forallb_forall in H. by apply H.
Qed.
