(* ===== verification/Net.v ===== *)
(** Package net as the server uses it: host:port strings, IP addresses and
    CIDR blocks. *)

From S2P Require Import Prelude AesGcm GoLib.

(** ** Searching bytes *)

(** What precedes and what follows the first [c]. *)
Fixpoint cut_first (c : byte) (b : bytes) : option (bytes * bytes) :=
  match b with
  | [] => None
  | x :: r =>
      if decide (x = c) then Some ([], r)
      else '(pre, post) ← cut_first c r; Some (x :: pre, post)
  end.

(** What precedes and what follows the last [c]. *)
Definition cut_last (c : byte) (b : bytes) : option (bytes * bytes) :=
  '(post, pre) ← cut_first c (rev b); Some (rev pre, rev post).

Definition has_byte (c : byte) (b : bytes) : bool := bool_decide (c ∈ b).

(** ** SplitHostPort, JoinHostPort *)

(** [None] is an AddrError. *)
Definition split_host_port (b : bytes) : option (bytes * bytes) :=
  '(before, port) ← cut_last (chr ":") b;
  match b with
  | x :: r =>
      if decide (x = chr "[") then
        '(host, after) ← cut_first (chr "]") r;
        (* the first ']' stands just before the last ':' *)
        if decide (after = chr ":" :: port) then
          if has_byte (chr "[") r || has_byte (chr "]") port then None
          else Some (host, port)
        else None
      else
        if has_byte (chr ":") before || has_byte (chr "[") b || has_byte (chr "]") b then None
        else Some (before, port)
  | [] => None
  end.

Definition SplitHostPort (s : string) : option (string * string) :=
  '(h, p) ← split_host_port (bytes_of_string s); Some (string_of_bytes h, string_of_bytes p).

Definition JoinHostPort (host port : string) : string :=
  if has_byte (chr ":") (bytes_of_string host)
  then "[" +:+ host +:+ "]:" +:+ port
  else host +:+ ":" +:+ port.

(** ** IP addresses *)

(** An address; an IPv4-mapped IPv6 address is its IPv4 address (To4). *)
Inductive IP := V4 (a : Z) | V6 (a : Z).

Definition to4 (a : Z) : IP := if a / 2 ^ 32 =? 65535 then V4 (a mod 2 ^ 32) else V6 a.

(** One decimal field of an IPv4 address: no leading zero, at most 255. *)
Definition ipv4_field (b : bytes) : option Z :=
  match b with
  | [] => None
  | x :: r =>
      if bool_decide (x = chr "0") && bool_decide (r ≠ []) then None
      else v ← digits_value 0 b; if v <=? 255 then Some v else None
  end.

Definition parse_ipv4 (b : bytes) : option Z :=
  match split_byte (chr ".") b with
  | [f1; f2; f3; f4] =>
      a ← ipv4_field f1; b ← ipv4_field f2; c ← ipv4_field f3; d ← ipv4_field f4;
      Some (((a * 256 + b) * 256 + c) * 256 + d)
  | _ => None
  end.

(** The hexadecimal digits at the front, their value, and the rest. *)
Fixpoint hex_run (acc : Z) (n : nat) (b : bytes) : Z * nat * bytes :=
  match b with
  | x :: r =>
      match hex_value x with
      | Some v => hex_run (acc * 16 + v) (S n) r
      | None => (acc, n, b)
      end
  | [] => (acc, n, [])
  end.

(** The groups from the [i]-th on.  [ell] is where "::" stood; the result
    has the 16-bit groups in order and that position. *)
Fixpoint ipv6_groups (room : nat) (i : nat) (ell : option nat) (s : bytes)
    : option (list Z * option nat) :=
  match room with
  | O => match s with [] => Some ([], ell) | _ => None end
  | S room' =>
      let '(acc, digits, rest) := hex_run 0 0 s in
      if (digits =? 0)%nat || (4 <? digits)%nat then None
      else
        match rest with
        | [] => Some ([acc], ell)
        | c :: rest' =>
            if decide (c = chr ".") then
              (* a trailing IPv4 address takes two groups *)
              if (bool_decide (ell = None) && negb (i =? 6)%nat) || (6 <? i)%nat then None
              else a ← parse_ipv4 s; Some ([a / 65536; a mod 65536], ell)
            else if decide (c = chr ":") then
              match rest' with
              | [] => None
              | c' :: rest'' =>
                  if decide (c' = chr ":") then
                    if bool_decide (ell ≠ None) then None
                    else match rest'' with
                         | [] => Some ([acc], Some (S i))
                         | _ => '(gs, e) ← ipv6_groups room' (S i) (Some (S i)) rest'';
                                Some (acc :: gs, e)
                         end
                  else '(gs, e) ← ipv6_groups room' (S i) ell rest'; Some (acc :: gs, e)
              end
            else None
        end
  end.

Definition groups_value (gs : list Z) : Z := foldl (λ a g, a * 65536 + g) 0 gs.

(** "::" stands for at least one group of zeros. *)
Definition expand (gs : list Z) (ell : option nat) : option Z :=
  match ell with
  | None => if (length gs =? 8)%nat then Some (groups_value gs) else None
  | Some e =>
      if (length gs <? 8)%nat
      then Some (groups_value (take e gs ++ replicate (8 - length gs) 0 ++ drop e gs))
      else None
  end.

Definition parse_ipv6 (s : bytes) : option Z :=
  if has_byte (chr "%") s then None     (* net.ParseIP refuses zones *)
  else
    let '(ell, s') := match s with
                      | x :: y :: r =>
                          if bool_decide (x = chr ":") && bool_decide (y = chr ":")
                          then (Some 0%nat, r) else (None, s)
                      | _ => (None, s)
                      end in
    match ell, s' with
    | Some _, [] => Some 0
    | _, _ => '(gs, e) ← ipv6_groups 8 0 ell s'; expand gs e
    end.

(** The first '.' or ':' decides which family it is. *)
Fixpoint family (b : bytes) : option byte :=
  match b with
  | [] => None
  | c :: r =>
      if decide (c = chr ".") then Some c
      else if decide (c = chr ":") then Some c
      else if decide (c = chr "%") then None
      else family r
  end.

Definition ParseIP (s : string) : option IP :=
  let b := bytes_of_string s in
  match family b with
  | Some c => if decide (c = chr ".") then V4 <$> parse_ipv4 b else to4 <$> parse_ipv6 b
  | None => None
  end.

(** ** CIDR blocks *)

Record IPNet := mk_IPNet { n_ip : IP; n_ones : Z }.

Definition mask (bits ones a : Z) : Z := a / 2 ^ (bits - ones) * 2 ^ (bits - ones).

(** The prefix length: digits, small enough. *)
Definition prefix_len (b : bytes) (bits : Z) : option Z :=
  match b with
  | [] => None
  | _ => v ← digits_value 0 b; if v <=? bits then Some v else None
  end.

Definition ParseCIDR (s : string) : option IPNet :=
  '(addr, ones) ← cut_first (chr "/") (bytes_of_string s);
  match family addr with
  | Some c =>
      if decide (c = chr ".") then
        a ← parse_ipv4 addr; n ← prefix_len ones 32; Some (mk_IPNet (V4 (mask 32 n a)) n)
      else
        a ← parse_ipv6 addr; n ← prefix_len ones 128; Some (mk_IPNet (V6 (mask 128 n a)) n)
  | None => None
  end.

Definition Contains (n : IPNet) (ip : IP) : bool :=
  match n_ip n, ip with
  | V4 a, V4 b => mask 32 (n_ones n) b =? a
  | V6 a, V6 b => mask 128 (n_ones n) b =? a
  | _, _ => false
  end.

(** ** Examples *)

Example parse_v4 : ParseIP "192.168.0.1" = Some (V4 3232235521).
Proof. vm_compute. reflexivity. Qed.
Example parse_v4_bad : ParseIP <$> ["1.2.3"; "01.2.3.4"; "1.2.3.256"; "1..2.3"; "1.2.3.4.5"; "a"; ""]
  = replicate 7 None.
Proof. vm_compute. reflexivity. Qed.
Example parse_v6 :
  ParseIP <$> ["::1"; "fd00::1:2"; "1:2:3:4:5:6:7:8"; "::ffff:10.0.0.1"; "1::"; "::"]
  = Some <$> [V6 1; V6 (64768 * 2 ^ 112 + 65538); V6 5192455318486707404433266433261576;
              V4 167772161; V6 (2 ^ 112); V6 0].
Proof. vm_compute. reflexivity. Qed.
Example parse_v6_bad :
  ParseIP <$> [":1"; "1:"; "1:::2"; "1::2::3"; "12345::"; "1:2:3:4:5:6:7:8:9"; "1:2:3:4:5:6:7::8"; "fe80::1%eth0"; "1:2.3.4.5"]
  = replicate 9 None ++ [].
Proof. vm_compute. reflexivity. Qed.

(** ** The text of an address has no brackets *)

Definition plain (b : bytes) : Prop := Forall (λ c, c ≠ chr "[" ∧ c ≠ chr "]") b.

Lemma plain_digits b acc v : digits_value acc b = Some v → plain b.
Proof.
  revert acc. induction b as [|c b IH]; intros acc; simpl; [constructor|].
  destruct (is_digit c) eqn:Hd; [|done]. intros H. constructor; [|by eapply IH].
  split; intros ->; by vm_compute in Hd.
Qed.

Lemma split_byte_plain sep b :
  sep ≠ chr "[" → sep ≠ chr "]" → Forall plain (split_byte sep b) → plain b.
Proof.
  intros H1 H2. induction b as [|c b IH]; simpl; [constructor|].
  case_decide as Hc.
  - subst. intros [_ H]%Forall_cons. constructor; [done|by apply IH].
  - destruct (split_byte sep b) as [|w ws] eqn:Hs.
    + intros [[Hw _]%Forall_cons _]%Forall_cons. constructor; [done|]. apply IH. constructor.
    + intros [[Hw Hws]%Forall_cons H]%Forall_cons. constructor; [done|]. apply IH. by constructor.
Qed.

Lemma ipv4_field_plain b v : ipv4_field b = Some v → plain b.
Proof.
  unfold ipv4_field. destruct b as [|x r]; [done|]. destruct (_ && _); [done|].
  intros (w & Hw & _)%bind_Some. by eapply plain_digits.
Qed.

Lemma parse_ipv4_plain b a : parse_ipv4 b = Some a → plain b.
Proof.
  unfold parse_ipv4. destruct (split_byte (chr ".") b) as [|f1 [|f2 [|f3 [|f4 [|]]]]] eqn:Hs; try done.
  intros (? & ?%ipv4_field_plain & (? & ?%ipv4_field_plain & (? & ?%ipv4_field_plain &
    (? & ?%ipv4_field_plain & _)%bind_Some)%bind_Some)%bind_Some)%bind_Some.
  apply (split_byte_plain (chr ".")); [done..|]. rewrite Hs. by repeat constructor.
Qed.

Lemma hex_run_plain acc n b v m r : hex_run acc n b = (v, m, r) → plain r → plain b.
Proof.
  revert acc n. induction b as [|x b IH]; intros acc n; simpl; [intros; constructor|].
  destruct (hex_value x) eqn:Hx; [|by intros [= <- <- <-]].
  intros H Hr. constructor; [|by eapply IH]. split; intros ->; by vm_compute in Hx.
Qed.

Lemma ipv6_groups_plain room i ell s r : ipv6_groups room i ell s = Some r → plain s.
Proof.
  revert i ell s r. induction room as [|room IH]; intros i ell s r; simpl.
  { destruct s; [constructor|done]. }
  destruct (hex_run 0 0 s) as [[acc n] rest] eqn:Hh. destruct (_ || _); [done|].
  destruct rest as [|c rest']; [intros _; by eapply hex_run_plain; [|constructor]|].
  case_decide as Hdot.
  { destruct (_ || _); [done|]. by intros (a & Ha%parse_ipv4_plain & _)%bind_Some. }
  case_decide as Hcol; [|done]. subst c. destruct rest' as [|c' rest'']; [done|].
  assert (Hgo : plain (c' :: rest'') → plain s).
  { intros H. eapply hex_run_plain; [done|]. by constructor. }
  case_decide as Hc'; [subst c'; destruct (bool_decide _); [done|]; destruct rest'' as [|d rest]|].
  - intros _. apply Hgo. by repeat constructor.
  - intros ([gs e] & Hg%IH & _)%bind_Some. apply Hgo. by constructor.
  - intros ([gs e] & Hg%IH & _)%bind_Some. by apply Hgo.
Qed.

Lemma parse_ipv6_plain s a : parse_ipv6 s = Some a → plain s.
Proof.
  unfold parse_ipv6. destruct (has_byte _ _); [done|].
  destruct s as [|x [|y r]]; [constructor|..].
  - by intros ([gs e] & Hg%ipv6_groups_plain & _)%bind_Some.
  - case_bool_decide as Hx; [case_bool_decide as Hy|]; cbn [andb].
    + subst. destruct r as [|z r]; [by repeat constructor|].
      intros ([gs e] & Hg%ipv6_groups_plain & _)%bind_Some. by repeat (constructor; [done|]).
    + by intros ([gs e] & Hg%ipv6_groups_plain & _)%bind_Some.
    + by intros ([gs e] & Hg%ipv6_groups_plain & _)%bind_Some.
Qed.

Lemma ParseIP_plain s ip : ParseIP s = Some ip → plain (bytes_of_string s).
Proof.
  unfold ParseIP. destruct (family _) as [c|]; [|done]. case_decide.
  - by intros (a & Ha%parse_ipv4_plain & _)%fmap_Some.
  - by intros (a & Ha%parse_ipv6_plain & _)%fmap_Some.
Qed.

(** ** Joining and splitting *)

Lemma cut_first_here c a b : c ∉ a → cut_first c (a ++ c :: b) = Some (a, b).
Proof.
  induction a as [|x a IH]; intros Hc; simpl; [by rewrite decide_True|].
  apply not_elem_of_cons in Hc as [? Hc]. rewrite decide_False by done. by rewrite IH.
Qed.

Lemma cut_last_here c a b : c ∉ b → cut_last c (a ++ c :: b) = Some (a, b).
Proof.
  intros Hc. unfold cut_last. rewrite rev_app_distr. simpl. rewrite <- app_assoc. simpl.
  rewrite cut_first_here by (by rewrite list_elem_of_In, <- in_rev, <- list_elem_of_In).
  simpl. by rewrite !rev_involutive.
Qed.

Lemma bytes_of_string_app s t : bytes_of_string (s +:+ t) = bytes_of_string s ++ bytes_of_string t.
Proof.
  induction s as [|c s IH]; [done|]. rewrite str_app_cons.
  change (Ascii.byte_of_ascii c :: bytes_of_string (s +:+ t) =
    Ascii.byte_of_ascii c :: bytes_of_string s ++ bytes_of_string t).
  by rewrite IH.
Qed.

Lemma plain_no_bracket b : plain b → has_byte (chr "[") b = false ∧ has_byte (chr "]") b = false.
Proof.
  intros H. unfold plain in H. rewrite Forall_forall in H.
  split; apply bool_decide_eq_false; intros Hin; by destruct (H _ Hin).
Qed.

(** A byte is not in a closed list. *)
Ltac not_in := apply (proj1 (bool_decide_eq_false _)); vm_compute; reflexivity.

(** Splitting undoes joining, for an address and a plain port. *)
Lemma split_join host :
  plain (bytes_of_string host) →
  SplitHostPort (JoinHostPort host "0") = Some (host, "0").
Proof.
  intros Hp. pose proof (plain_no_bracket _ Hp) as [Hl Hr].
  unfold SplitHostPort, JoinHostPort, split_host_port.
  destruct (has_byte (chr ":") (bytes_of_string host)) eqn:Hc; rewrite !bytes_of_string_app.
  - change (bytes_of_string "[") with [chr "["]. change (bytes_of_string "]:") with [chr "]"; chr ":"].
    change (bytes_of_string "0") with [chr "0"]. set (h := bytes_of_string host) in *.
    replace ([chr "["] ++ h ++ [chr "]"; chr ":"] ++ [chr "0"])
      with (([chr "["] ++ h ++ [chr "]"]) ++ chr ":" :: [chr "0"]) by (by rewrite <- !app_assoc).
    rewrite cut_last_here by not_in.
    rewrite <- !app_assoc. cbn [app mbind option_bind]. rewrite decide_True by done.
    rewrite (cut_first_here (chr "]") h) by (by apply bool_decide_eq_false in Hr).
    cbn [mbind option_bind]. rewrite decide_True by done.
    replace (has_byte (chr "[") (h ++ [chr "]"; chr ":"; chr "0"])) with false.
    + change (has_byte (chr "]") [chr "0"]) with false. subst h. simpl.
      by rewrite string_bytes_roundtrip.
    + symmetry. apply bool_decide_eq_false in Hl. apply bool_decide_eq_false.
      rewrite elem_of_app. intros [?|Hin]; [done|]. revert Hin. not_in.
  - change (bytes_of_string ":") with [chr ":"]. change (bytes_of_string "0") with [chr "0"].
    set (h := bytes_of_string host) in *. cbn [app]. rewrite cut_last_here by not_in.
    assert (Hno : ∀ c, has_byte c h = false → c ∉ [chr ":"; chr "0"] → has_byte c (h ++ [chr ":"; chr "0"]) = false).
    { intros c Hh Hn. apply bool_decide_eq_false in Hh. apply bool_decide_eq_false.
      rewrite elem_of_app. tauto. }
    cbn [mbind option_bind].
    rewrite Hc, (Hno (chr "[") Hl), (Hno (chr "]") Hr) by not_in. cbn [orb].
    destruct (h ++ [chr ":"; chr "0"]) as [|x r] eqn:Hb; [by destruct h|].
    rewrite decide_False.
    + simpl. subst h. by rewrite string_bytes_roundtrip.
    + intros ->. destruct h as [|y h']; [done|]. injection Hb as -> _. by vm_compute in Hl.
Qed.
