(* ===== verification/Filepath.v ===== *)
(** Package path/filepath on Unix: Clean, Dir, Base and Join. *)

From S2P Require Import Prelude AesGcm GoLib Net.

Definition separator : byte := chr "/".

(** The elements of a path once "." and inner ".." are gone; [kept] is a
    stack, the last element on top. *)
Fixpoint clean_elems (rooted : bool) (kept elems : list bytes) : list bytes :=
  match elems with
  | [] => rev kept
  | s :: rest =>
      if bool_decide (s = []) || bool_decide (s = bytes_of_string ".") then clean_elems rooted kept rest
      else if decide (s = bytes_of_string "..") then
        match kept with
        | [] => clean_elems rooted (if rooted then [] else [s]) rest
        | top :: below =>
            if decide (top = bytes_of_string "..") then clean_elems rooted (s :: kept) rest
            else clean_elems rooted below rest
        end
      else clean_elems rooted (s :: kept) rest
  end.

(** [strings.Join(elems, "/")]. *)
Fixpoint join_slash (elems : list bytes) : bytes :=
  match elems with
  | [] => []
  | [s] => s
  | s :: rest => s ++ separator :: join_slash rest
  end.

Definition is_rooted (b : bytes) : bool := bool_decide (head b = Some separator).

Definition clean_bytes (b : bytes) : bytes :=
  let elems := clean_elems (is_rooted b) [] (split_byte separator b) in
  if is_rooted b then separator :: join_slash elems
  else match elems with [] => bytes_of_string "." | _ => join_slash elems end.

Definition Clean (s : string) : string := string_of_bytes (clean_bytes (bytes_of_string s)).

Definition dir_bytes (b : bytes) : bytes :=
  match cut_last separator b with
  | Some (d, _) => clean_bytes (d ++ [separator])
  | None => clean_bytes []
  end.
Definition Dir (s : string) : string := string_of_bytes (dir_bytes (bytes_of_string s)).

Fixpoint strip_slashes (rb : bytes) : bytes :=
  match rb with
  | c :: r => if decide (c = separator) then strip_slashes r else rb
  | [] => []
  end.

Definition base_bytes (b : bytes) : bytes :=
  match b with
  | [] => bytes_of_string "."
  | _ =>
      let b := rev (strip_slashes (rev b)) in
      let last := match cut_last separator b with Some (_, l) => l | None => b end in
      match last with [] => [separator] | _ => last end
  end.
Definition Base (s : string) : string := string_of_bytes (base_bytes (bytes_of_string s)).

(** [filepath.Join(d, b)]. *)
Definition Join (d b : string) : string :=
  if decide (d = "") then (if decide (b = "") then "" else Clean b)
  else Clean (d +:+ "/" +:+ b).

(** ** Laws *)

(** A file name: not empty, not "." or "..", without a slash. *)
Definition file_name (b : bytes) : Prop :=
  b ≠ [] ∧ b ≠ bytes_of_string "." ∧ b ≠ bytes_of_string ".." ∧ separator ∉ b.
#[global] Instance file_name_dec b : Decision (file_name b).
Proof. unfold file_name. apply _. Defined.

Lemma split_byte_none sep b : sep ∉ b → split_byte sep b = [b].
Proof.
  induction b as [|c b IH]; [done|]. intros H. simpl. rewrite decide_False by (intros ->; apply H; by left).
  rewrite IH by (intros Hin; apply H; by right). done.
Qed.

Lemma split_byte_ne sep b : split_byte sep b ≠ [].
Proof. destruct b as [|c b]; simpl; [done|]. case_decide; [done|]. by destruct (split_byte sep b). Qed.

Lemma split_byte_snoc sep d b : sep ∉ b → split_byte sep (d ++ sep :: b) = split_byte sep d ++ [b].
Proof.
  intros Hb. induction d as [|c d IH]; cbn [app split_byte].
  - rewrite decide_True by done. by rewrite split_byte_none.
  - rewrite IH. case_decide; [done|]. pose proof (split_byte_ne sep d).
    by destruct (split_byte sep d).
Qed.

Lemma clean_elems_snoc r kept l b : file_name b → clean_elems r kept (l ++ [b]) = clean_elems r kept l ++ [b].
Proof.
  intros (H0 & H1 & H2 & _). revert kept. induction l as [|s l IH]; intros kept; cbn [app clean_elems].
  - rewrite !bool_decide_false by done. rewrite decide_False by done. done.
  - destruct (_ || _); [apply IH|]. case_decide; [|apply IH].
    destruct kept as [|top below]; [apply IH|]. case_decide; apply IH.
Qed.

Lemma join_slash_snoc l b : join_slash (l ++ [b]) = match l with [] => b | _ => join_slash l ++ separator :: b end.
Proof.
  induction l as [|s l IH]; [done|]. destruct l as [|s' l]; [done|].
  change (join_slash ((s :: s' :: l) ++ [b])) with (s ++ separator :: join_slash ((s' :: l) ++ [b])).
  rewrite IH. change (join_slash (s :: s' :: l)) with (s ++ separator :: join_slash (s' :: l)).
  by rewrite <- app_assoc.
Qed.

(** A joined path is the name, or ends in a slash and the name. *)
Lemma clean_join_bytes d b :
  d ≠ [] → file_name b →
  clean_bytes (d ++ separator :: b) = b ∨ ∃ p, clean_bytes (d ++ separator :: b) = p ++ separator :: b.
Proof.
  intros Hd Hb. pose proof Hb as (Hne & _ & _ & Hsep). unfold clean_bytes.
  assert (is_rooted (d ++ separator :: b) = is_rooted d) as -> by by destruct d.
  rewrite split_byte_snoc, clean_elems_snoc, join_slash_snoc by done.
  set (l := clean_elems _ _ _). destruct (is_rooted d).
  - right. destruct l; [by exists []|]. eexists. by rewrite app_comm_cons.
  - destruct l as [|x l]; [by left|]. right. eexists. by destruct (x :: l ++ [b]) eqn:E.
Qed.

(** A path that ends in a name has no trailing slashes to strip. *)
Lemma strip_slashes_name p b : file_name b → rev (strip_slashes (rev (p ++ b))) = p ++ b.
Proof.
  intros (Hne & _ & _ & Hsep). destruct b as [|c b _] using rev_ind; [done|].
  rewrite app_assoc, rev_app_distr. simpl. rewrite decide_False.
  - simpl. by rewrite rev_involutive.
  - intros ->. apply Hsep, elem_of_app. right. by left.
Qed.

Lemma cut_last_none c b : c ∉ b → cut_last c b = None.
Proof.
  intros Hc. unfold cut_last. assert (Hr : c ∉ rev b) by (by rewrite list_elem_of_In, <- in_rev, <- list_elem_of_In).
  revert Hr. generalize (rev b) as l. intros l. induction l as [|x l IH]; [done|]. intros Hr. simpl.
  rewrite decide_False by (intros ->; apply Hr; by left).
  assert (Hl : c ∉ l) by (intros H; apply Hr; by right). specialize (IH Hl).
  destruct (cut_first c l) as [[? ?]|]; [done|done].
Qed.

Lemma base_bytes_name p b : file_name b → base_bytes (p ++ separator :: b) = b.
Proof.
  intros Hf. pose proof Hf as (Hne & _ & _ & Hsep). unfold base_bytes.
  destruct (p ++ separator :: b) eqn:E; [by destruct p|]. rewrite <- E. clear E.
  replace (p ++ separator :: b) with ((p ++ [separator]) ++ b) by by rewrite <- app_assoc.
  rewrite strip_slashes_name by done. rewrite <- app_assoc. cbn [app].
  rewrite cut_last_here by done. by destruct b.
Qed.

Lemma base_bytes_plain b : file_name b → base_bytes b = b.
Proof.
  intros Hf. pose proof Hf as (Hne & _ & _ & Hsep). unfold base_bytes. destruct b as [|c b]; [done|].
  pose proof (strip_slashes_name [] (c :: b) Hf) as Hs. cbn [app] in Hs. rewrite Hs.
  by rewrite cut_last_none.
Qed.

(** The base of a joined path is the name that was joined. *)
Lemma Base_Join d b : d ≠ "" → file_name (bytes_of_string b) → Base (Join d b) = b.
Proof.
  intros Hd Hb. unfold Join. rewrite decide_False by done. unfold Base, Clean.
  rewrite bytes_string_roundtrip, !bytes_of_string_app.
  change (bytes_of_string "/") with [separator]. cbn [app].
  assert (bytes_of_string d ≠ []) as Hd' by (intros H; apply Hd, bytes_of_string_inj; by rewrite H).
  destruct (clean_join_bytes (bytes_of_string d) (bytes_of_string b) Hd' Hb) as [-> | [p ->]].
  - rewrite base_bytes_plain by done. apply string_bytes_roundtrip.
  - rewrite base_bytes_name by done. apply string_bytes_roundtrip.
Qed.
