(* ===== verification/Json.v ===== *)
(** encoding/json as [decodeJSON] uses it: a Decoder with
    DisallowUnknownFields that reads one value into a struct of string and
    *string fields, and the Decoder's More.

    [parse_value] is the scanner's grammar with the decoder's string
    unquoting; it returns the value and the unread bytes.  The recursion is
    bounded by fuel; [parse_fuel] shows that beyond twice the length of the
    input it changes nothing. *)

From S2P Require Import Prelude AesGcm GoLib.

#[warnings="-register-all"]
Inductive json :=
  | JNull
  | JBool (b : bool)
  | JNum (raw : bytes)
  | JStr (s : bytes)
  | JArr (l : list json)
  | JObj (l : list (bytes * json)).

(** ** Lexical helpers *)

Definition is_ws (b : byte) : bool := bool_decide (b ∈ [chr " "; Byte.x09; Byte.x0a; Byte.x0d]).

Fixpoint skip_ws (b : bytes) : bytes :=
  match b with
  | c :: r => if is_ws c then skip_ws r else b
  | [] => []
  end.

Definition is_quote (b : byte) : bool := bool_decide (b = Byte.x22).
Definition eqc (b : byte) (c : ascii) : bool := bool_decide (b = chr c).

(** ** UTF-8 (unicode/utf8) *)

Definition in_range (lo hi : Z) (b : byte) : bool := (lo <=? code b) && (code b <=? hi).
Definition cont (b : byte) : bool := in_range 128 191 b.

(** The length of the valid encoding at the front; [0] when there is none. *)
Definition rune_len (b : bytes) : nat :=
  match b with
  | x :: r =>
      if code x <? 128 then 1%nat
      else if in_range 194 223 x then
        match r with
        | y :: _ => if cont y then 2%nat else 0%nat
        | _ => 0%nat
        end
      else if in_range 224 239 x then
        match r with
        | y :: z :: _ =>
            let second := if code x =? 224 then in_range 160 191 y
                          else if code x =? 237 then in_range 128 159 y else cont y in
            if second && cont z then 3%nat else 0%nat
        | _ => 0%nat
        end
      else if in_range 240 244 x then
        match r with
        | y :: z :: t :: _ =>
            let second := if code x =? 240 then in_range 144 191 y
                          else if code x =? 244 then in_range 128 143 y else cont y in
            if second && cont z && cont t then 4%nat else 0%nat
        | _ => 0%nat
        end
      else 0%nat
  | [] => 0%nat
  end.

(** utf8.AppendRune; surrogates and out-of-range values give U+FFFD. *)
Definition replacement : bytes := [byte_of_Z 239; byte_of_Z 191; byte_of_Z 189].
Definition encode_rune (r : Z) : bytes :=
  if r <? 128 then [byte_of_Z r]
  else if r <? 2048 then [byte_of_Z (192 + r / 64); byte_of_Z (128 + r mod 64)]
  else if (1114111 <? r) || ((55296 <=? r) && (r <=? 57343)) then replacement
  else if r <? 65536 then
    [byte_of_Z (224 + r / 4096); byte_of_Z (128 + r / 64 mod 64); byte_of_Z (128 + r mod 64)]
  else
    [byte_of_Z (240 + r / 262144); byte_of_Z (128 + r / 4096 mod 64);
     byte_of_Z (128 + r / 64 mod 64); byte_of_Z (128 + r mod 64)].

(** ** Strings *)

Definition hex4 (b : bytes) : option (Z * bytes) :=
  match b with
  | w :: x :: y :: z :: r =>
      match hex_value w, hex_value x, hex_value y, hex_value z with
      | Some a, Some b, Some c, Some d => Some (((a * 16 + b) * 16 + c) * 16 + d, r)
      | _, _, _, _ => None
      end
  | _ => None
  end.

Definition is_surrogate (r : Z) : bool := (55296 <=? r) && (r <? 57344).

(** A \u escape after its first four digits: the rune's bytes and the rest.
    A high surrogate takes the low one that follows; any other surrogate is
    U+FFFD. *)
Definition unicode_escape (r : Z) (rest : bytes) : bytes * bytes :=
  if is_surrogate r then
    match rest with
    | x :: y :: rest' =>
        if eqc x "\" && eqc y "u" then
          match hex4 rest' with
          | Some (r1, rest'') =>
              if (r <? 56320) && (56320 <=? r1) && (r1 <? 57344)
              then (encode_rune (65536 + (r - 55296) * 1024 + (r1 - 56320)), rest'')
              else (replacement, rest)
          | None => (replacement, rest)
          end
        else (replacement, rest)
    | _ => (replacement, rest)
    end
  else (encode_rune r, rest).

Definition simple_escape (c : byte) : option byte :=
  if is_quote c || eqc c "\" || eqc c "/" then Some c
  else if eqc c "b" then Some Byte.x08
  else if eqc c "f" then Some Byte.x0c
  else if eqc c "n" then Some Byte.x0a
  else if eqc c "r" then Some Byte.x0d
  else if eqc c "t" then Some Byte.x09
  else None.

(** The text of a string after its opening quote, unquoted, and the bytes
    after the closing quote.  Invalid UTF-8 becomes U+FFFD byte by byte. *)
Fixpoint parse_string (fuel : nat) (b : bytes) : option (bytes * bytes) :=
  match fuel with
  | O => None
  | S f =>
      let emit (out : bytes) (rest : bytes) :=
        match parse_string f rest with Some (s, r) => Some (out ++ s, r) | None => None end in
      match b with
      | [] => None
      | c :: r =>
          if is_quote c then Some ([], r)
          else if eqc c "\" then
            match r with
            | [] => None
            | e :: r' =>
                if eqc e "u" then
                  match hex4 r' with
                  | Some (v, r'') => let '(out, rest) := unicode_escape v r'' in emit out rest
                  | None => None
                  end
                else match simple_escape e with Some x => emit [x] r' | None => None end
            end
          else if code c <? 32 then None
          else match rune_len b with
               | O => emit replacement r
               | n => emit (take n b) (drop n b)
               end
      end
  end.

(** ** Numbers

    The scanner's number grammar: an optional minus, 0 or a nonzero digit
    and digits, an optional fraction, an optional exponent. *)

Fixpoint skip_digits (b : bytes) : bytes :=
  match b with
  | c :: r => if is_digit c then skip_digits r else b
  | [] => []
  end.
Definition some_digits (b : bytes) : option bytes :=
  match b with
  | c :: r => if is_digit c then Some (skip_digits r) else None
  | [] => None
  end.

Definition number_int (b : bytes) : option bytes :=
  match b with
  | c :: r => if eqc c "0" then Some r else if is_digit c then Some (skip_digits r) else None
  | [] => None
  end.
Definition number_frac (b : bytes) : option bytes :=
  match b with
  | c :: r => if eqc c "." then some_digits r else Some b
  | [] => Some b
  end.
Definition number_exp (b : bytes) : option bytes :=
  match b with
  | c :: r =>
      if eqc c "e" || eqc c "E" then
        match r with
        | s :: r' => if eqc s "+" || eqc s "-" then some_digits r' else some_digits r
        | [] => None
        end
      else Some b
  | [] => Some b
  end.
Definition parse_number (b : bytes) : option bytes :=
  let b' := match b with c :: r => if eqc c "-" then r else b | [] => b end in
  i ← number_int b'; f ← number_frac i; number_exp f.

(** ** Values *)

Definition maxNestingDepth : Z := 10000.

Definition literal (s : string) (b : bytes) : option bytes := strip_prefix (bytes_of_string s) b.

(** Values that are neither strings, arrays nor objects. *)
Definition parse_scalar (b : bytes) : option (json * bytes) :=
  match b with
  | [] => None
  | c :: _ =>
      if eqc c "t" then pair (JBool true) <$> literal "true" b
      else if eqc c "f" then pair (JBool false) <$> literal "false" b
      else if eqc c "n" then pair JNull <$> literal "null" b
      else r ← parse_number b; Some (JNum (take (length b - length r) b), r)
  end.

Fixpoint parse_value (fuel : nat) (depth : Z) (b : bytes) {struct fuel} : option (json * bytes) :=
  match fuel with
  | O => None
  | S f =>
      let b := skip_ws b in
      match b with
      | [] => None
      | c :: r =>
          if is_quote c then
            match parse_string f r with Some (s, r') => Some (JStr s, r') | None => None end
          else if eqc c "{" then
            if maxNestingDepth <? depth + 1 then None
            else match skip_ws r with
                 | c' :: r' => if eqc c' "}" then Some (JObj [], r')
                               else match parse_members f (depth + 1) r with
                                    | Some (l, r'') => Some (JObj l, r'')
                                    | None => None
                                    end
                 | [] => None
                 end
          else if eqc c "[" then
            if maxNestingDepth <? depth + 1 then None
            else match skip_ws r with
                 | c' :: r' => if eqc c' "]" then Some (JArr [], r')
                               else match parse_elements f (depth + 1) r with
                                    | Some (l, r'') => Some (JArr l, r'')
                                    | None => None
                                    end
                 | [] => None
                 end
          else parse_scalar b
      end
  end
with parse_members (fuel : nat) (depth : Z) (b : bytes) {struct fuel}
    : option (list (bytes * json) * bytes) :=
  match fuel with
  | O => None
  | S f =>
      match skip_ws b with
      | c :: r =>
          if is_quote c then
            match parse_string f r with
            | Some (key, r1) =>
                match skip_ws r1 with
                | c1 :: r2 =>
                    if eqc c1 ":" then
                      match parse_value f depth r2 with
                      | Some (v, r3) =>
                          match skip_ws r3 with
                          | c3 :: r4 =>
                              if eqc c3 "}" then Some ([(key, v)], r4)
                              else if eqc c3 "," then
                                match parse_members f depth r4 with
                                | Some (l, r5) => Some ((key, v) :: l, r5)
                                | None => None
                                end
                              else None
                          | [] => None
                          end
                      | None => None
                      end
                    else None
                | [] => None
                end
            | None => None
            end
          else None
      | [] => None
      end
  end
with parse_elements (fuel : nat) (depth : Z) (b : bytes) {struct fuel}
    : option (list json * bytes) :=
  match fuel with
  | O => None
  | S f =>
      match parse_value f depth b with
      | Some (v, r) =>
          match skip_ws r with
          | c :: r' =>
              if eqc c "]" then Some ([v], r')
              else if eqc c "," then
                match parse_elements f depth r' with
                | Some (l, r'') => Some (v :: l, r'')
                | None => None
                end
              else None
          | [] => None
          end
      | None => None
      end
  end.

(** One value from a stream, with fuel for every byte of it. *)
Definition parse_json (b : bytes) : option (json * bytes) := parse_value (S (2 * length b)) 0 b.

(** [dec.More()]: more bytes than white space, and the next one does not
    close an array or object. *)
Definition More (rest : bytes) : bool :=
  match skip_ws rest with
  | [] => false
  | c :: _ => negb (eqc c "]" || eqc c "}")
  end.

(** ** Field names

    A key matches a field by exact name or under Unicode case folding; the
    only non-ASCII runes that fold to ASCII letters are U+017F (s) and U+212A
    (k). *)
Fixpoint fold_name (b : bytes) : bytes :=
  match b with
  | [] => []
  | Byte.xc5 :: Byte.xbf :: r => chr "S" :: fold_name r
  | Byte.xe2 :: Byte.x84 :: Byte.xaa :: r => chr "K" :: fold_name r
  | c :: r => (if is_lower c then byte_of_Z (code c - 32) else c) :: fold_name r
  end.

Definition field_is (name : string) (key : bytes) : bool :=
  bool_decide (fold_name key = fold_name (bytes_of_string name)).

(** ** The parser consumes its input *)

Lemma skip_ws_length b : (length (skip_ws b) ≤ length b)%nat.
Proof. induction b as [|c r IH]; simpl; [done|]. case_match; simpl; lia. Qed.

Lemma skip_digits_length b : (length (skip_digits b) ≤ length b)%nat.
Proof. induction b as [|c r IH]; simpl; [done|]. case_match; simpl; lia. Qed.

Lemma hex4_length b v r : hex4 b = Some (v, r) → (length r < length b)%nat.
Proof. unfold hex4. repeat case_match; intros; simplify_eq/=; lia. Qed.

Lemma unicode_escape_length v b out r :
  unicode_escape v b = (out, r) → (length r ≤ length b)%nat.
Proof.
  unfold unicode_escape. repeat case_match; intros; simplify_eq/=; try lia.
  match goal with H : hex4 _ = _ |- _ => apply hex4_length in H end. lia.
Qed.

Lemma parse_string_length f b s r :
  parse_string f b = Some (s, r) → (length r < length b)%nat.
Proof.
  revert b s r. induction f as [|f IH]; intros b s r; [done|]. cbn [parse_string].
  destruct b as [|c b]; [done|]. simpl length.
  destruct (is_quote c); [intros; simplify_eq; lia|].
  destruct (eqc c "\").
  - destruct b as [|e b]; [done|]. destruct (eqc e "u").
    + destruct (hex4 b) as [[v b']|] eqn:Hh; [|done]. apply hex4_length in Hh.
      destruct (unicode_escape v b') as [out rest] eqn:Hu. apply unicode_escape_length in Hu.
      destruct (parse_string f rest) as [[s' r']|] eqn:Hp; [|done]. apply IH in Hp.
      intros; simplify_eq/=. lia.
    + destruct (simple_escape e); [|done].
      destruct (parse_string f b) as [[s' r']|] eqn:Hp; [|done]. apply IH in Hp.
      intros; simplify_eq/=. lia.
  - destruct (code c <? 32); [done|]. destruct (rune_len (c :: b)) as [|n].
    + destruct (parse_string f b) as [[s' r']|] eqn:Hp; [|done]. apply IH in Hp.
      intros; simplify_eq/=. lia.
    + destruct (parse_string f (drop (S n) (c :: b))) as [[s' r']|] eqn:Hp; [|done]. apply IH in Hp.
      rewrite length_drop in Hp. simpl in Hp. intros; simplify_eq/=. lia.
Qed.

Lemma strip_prefix_length p b r :
  strip_prefix p b = Some r → length b = (length p + length r)%nat.
Proof.
  revert b. induction p as [|x p IH]; intros [|y b]; simpl; try (intros; by simplify_eq/=).
  case_decide; [|done]. intros Hs%IH. lia.
Qed.

Lemma number_exp_length b r : number_exp b = Some r → (length r ≤ length b)%nat.
Proof.
  unfold number_exp, some_digits. repeat case_match; intros; simplify_eq/=; try lia;
    match goal with |- context [skip_digits ?x] => pose proof (skip_digits_length x) end; lia.
Qed.

Lemma number_frac_length b r : number_frac b = Some r → (length r ≤ length b)%nat.
Proof.
  unfold number_frac, some_digits. repeat case_match; intros; simplify_eq/=; try lia;
    match goal with |- context [skip_digits ?x] => pose proof (skip_digits_length x) end; lia.
Qed.

Lemma number_int_length b r : number_int b = Some r → (length r < length b)%nat.
Proof.
  unfold number_int. repeat case_match; intros; simplify_eq/=; try lia;
    match goal with |- context [skip_digits ?x] => pose proof (skip_digits_length x) end; lia.
Qed.

Lemma parse_number_length b r : parse_number b = Some r → (length r < length b)%nat.
Proof.
  unfold parse_number. rewrite bind_Some. intros (i & Hi & Hr).
  apply bind_Some in Hr as (fr & Hf & He).
  apply number_int_length in Hi. apply number_frac_length in Hf. apply number_exp_length in He.
  destruct b as [|c b]; [simpl in *; lia|]. destruct (eqc c "-"); simpl in *; lia.
Qed.

Lemma parse_scalar_length b v r : parse_scalar b = Some (v, r) → (length r < length b)%nat.
Proof.
  unfold parse_scalar, literal. destruct b as [|c b]; [done|].
  repeat case_match; intros Hr;
    first [apply fmap_Some in Hr as (r' & Hr & ?); simplify_eq; apply strip_prefix_length in Hr; simpl in *; lia
          |apply bind_Some in Hr as (r' & Hr & ?); simplify_eq; by apply parse_number_length in Hr].
Qed.

#[global] Arguments parse_scalar : simpl never.

#[global] Arguments rune_len : simpl never.

(** The three parsers return less than they were given. *)
Definition shrinks {A} (p : bytes → option (A * bytes)) : Prop :=
  ∀ b v r, p b = Some (v, r) → (length r < length b)%nat.

Lemma parse_shrinks f :
  (∀ d, shrinks (parse_value f d)) ∧ (∀ d, shrinks (parse_members f d))
  ∧ (∀ d, shrinks (parse_elements f d)).
Proof.
  induction f as [|f (IHv & IHm & IHe)]; [by split_and!; intros d b v r|]. split_and!; intros d b v r; cbn [parse_value parse_members parse_elements].
  - pose proof (skip_ws_length b). destruct (skip_ws b) as [|c b1] eqn:Hb; [done|]. simpl in *.
    destruct (is_quote c).
    { destruct (parse_string f b1) as [[s r']|] eqn:Hs; [|done].
      apply parse_string_length in Hs. intros; simplify_eq. lia. }
    destruct (eqc c "{"); [|destruct (eqc c "[")].
    3: { intros Hs%parse_scalar_length. simpl in Hs. lia. }
    all: destruct (_ <? _); [done|]; pose proof (skip_ws_length b1);
      destruct (skip_ws b1) as [|c' b2] eqn:Hb1; [done|]; simpl in *.
    + destruct (eqc c' "}"); [intros; simplify_eq; lia|].
      destruct (parse_members f _ b1) as [[l r'']|] eqn:Hm; [|done].
      apply IHm in Hm. intros; simplify_eq. lia.
    + destruct (eqc c' "]"); [intros; simplify_eq; lia|].
      destruct (parse_elements f _ b1) as [[l r'']|] eqn:Hm; [|done].
      apply IHe in Hm. intros; simplify_eq. lia.
  - pose proof (skip_ws_length b). destruct (skip_ws b) as [|c b1] eqn:Hb; [done|]. simpl in *.
    destruct (is_quote c); [|done].
    destruct (parse_string f b1) as [[key r1]|] eqn:Hs; [|done]. apply parse_string_length in Hs.
    pose proof (skip_ws_length r1). destruct (skip_ws r1) as [|c1 r2] eqn:Hr1; [done|]. simpl in *.
    destruct (eqc c1 ":"); [|done].
    destruct (parse_value f d r2) as [[w r3]|] eqn:Hv; [|done]. apply IHv in Hv.
    pose proof (skip_ws_length r3). destruct (skip_ws r3) as [|c3 r4] eqn:Hr3; [done|]. simpl in *.
    destruct (eqc c3 "}"); [intros; simplify_eq; lia|]. destruct (eqc c3 ","); [|done].
    destruct (parse_members f d r4) as [[l r5]|] eqn:Hm; [|done]. apply IHm in Hm.
    intros; simplify_eq. lia.
  - destruct (parse_value f d b) as [[w r3]|] eqn:Hv; [|done]. apply IHv in Hv.
    pose proof (skip_ws_length r3). destruct (skip_ws r3) as [|c3 r4] eqn:Hr3; [done|]. simpl in *.
    destruct (eqc c3 "]"); [intros; simplify_eq; lia|]. destruct (eqc c3 ","); [|done].
    destruct (parse_elements f d r4) as [[l r5]|] eqn:Hm; [|done]. apply IHe in Hm.
    intros; simplify_eq. lia.
Qed.

(** ** Fuel beyond the length of the input changes nothing *)

Lemma parse_string_fuel f f' b :
  (length b < f)%nat → (length b < f')%nat → parse_string f b = parse_string f' b.
Proof.
  revert f' b. induction f as [|f IH]; intros [|f'] b Hf Hf'; try lia. cbn [parse_string].
  destruct b as [|c b]; [done|]. simpl in *. destruct (is_quote c); [done|].
  destruct (eqc c "\").
  - destruct b as [|e b]; [done|]. simpl in *. destruct (eqc e "u").
    + destruct (hex4 b) as [[v b']|] eqn:Hh; [|done]. apply hex4_length in Hh.
      destruct (unicode_escape v b') as [out rest] eqn:Hu. apply unicode_escape_length in Hu.
      by rewrite (IH f' rest) by lia.
    + destruct (simple_escape e); [|done]. by rewrite (IH f' b) by lia.
  - destruct (code c <? 32); [done|]. destruct (rune_len (c :: b)) as [|n].
    + by rewrite (IH f' b) by lia.
    + simpl drop. rewrite (IH f' (drop n b)); [done|..]; rewrite length_drop; lia.
Qed.

Lemma parse_fuel f :
  (∀ f' d b, (2 * length b < f)%nat → (2 * length b < f')%nat →
     parse_value f d b = parse_value f' d b)
  ∧ (∀ f' d b, (2 * length b < f)%nat → (2 * length b < f')%nat →
     parse_members f d b = parse_members f' d b)
  ∧ (∀ f' d b, (2 * length b + 1 < f)%nat → (2 * length b + 1 < f')%nat →
     parse_elements f d b = parse_elements f' d b).
Proof.
  induction f as [|f (IHv & IHm & IHe)]; [split_and!; intros; lia|].
  split_and!; intros [|f'] d b Hf Hf'; try lia; cbn [parse_value parse_members parse_elements].
  - pose proof (skip_ws_length b). destruct (skip_ws b) as [|c b1] eqn:Hb; [done|]. simpl in *.
    destruct (is_quote c); [by rewrite (parse_string_fuel f f' b1) by lia|].
    destruct (eqc c "{"); [|destruct (eqc c "["); [|done]];
      (destruct (_ <? _); [done|]); destruct (skip_ws b1) as [|c' b2]; [done| |done|];
      destruct (eqc c' _); try done.
    + by rewrite (IHm f' _ b1) by lia.
    + by rewrite (IHe f' _ b1) by lia.
  - pose proof (skip_ws_length b). destruct (skip_ws b) as [|c b1] eqn:Hb; [done|]. simpl in *.
    destruct (is_quote c); [|done]. rewrite (parse_string_fuel f f' b1) by lia.
    destruct (parse_string f' b1) as [[key r1]|] eqn:Hs; [|done]. apply parse_string_length in Hs.
    pose proof (skip_ws_length r1). destruct (skip_ws r1) as [|c1 r2] eqn:Hr1; [done|]. simpl in *.
    destruct (eqc c1 ":"); [|done]. rewrite (IHv f' d r2) by lia.
    destruct (parse_value f' d r2) as [[w r3]|] eqn:Hv; [|done]. apply parse_shrinks in Hv.
    pose proof (skip_ws_length r3). destruct (skip_ws r3) as [|c3 r4] eqn:Hr3; [done|]. simpl in *.
    destruct (eqc c3 "}"); [done|]. destruct (eqc c3 ","); [|done]. by rewrite (IHm f' d r4) by lia.
  - rewrite (IHv f' d b) by lia.
    destruct (parse_value f' d b) as [[w r3]|] eqn:Hv; [|done]. apply parse_shrinks in Hv.
    pose proof (skip_ws_length r3). destruct (skip_ws r3) as [|c3 r4] eqn:Hr3; [done|]. simpl in *.
    destruct (eqc c3 "]"); [done|]. destruct (eqc c3 ","); [|done]. by rewrite (IHe f' d r4) by lia.
Qed.

(** ** Strings that need no escaping *)

(** Valid UTF-8 without control characters, quotes and backslashes. *)
Inductive text : bytes → Prop :=
  | text_nil : text []
  | text_rune x r s :
      rune_len (x :: r) = S (length r) → is_quote x = false → eqc x "\" = false →
      (code x <? 32) = false → text s → text ((x :: r) ++ s).

Lemma rune_len_app x r s :
  rune_len (x :: r) = S (length r) → rune_len ((x :: r) ++ s) = S (length r).
Proof.
  unfold rune_len. simpl.
  destruct (code x <? 128); [done|]. destruct (in_range 194 223 x).
  { destruct r as [|y r]; [done|]. simpl. by destruct (cont y). }
  destruct (in_range 224 239 x).
  { destruct r as [|y [|z r]]; [done..|]. simpl. by case_match. }
  destruct (in_range 240 244 x); [|done].
  destruct r as [|y [|z [|t r]]]; [done..|]. simpl. by case_match.
Qed.

Lemma parse_string_text s rest f :
  text s → (length s < f)%nat → parse_string f (s ++ Byte.x22 :: rest) = Some (s, rest).
Proof.
  intros Ht. revert f. induction Ht as [|x r s Hr Hq Hb Hc Ht IH]; intros [|f] Hf; try (simpl in *; lia).
  - done.
  - cbn [app parse_string]. rewrite Hq, Hb, Hc.
    change (x :: (r ++ s) ++ Byte.x22 :: rest) with (((x :: r) ++ s) ++ Byte.x22 :: rest).
    rewrite <- app_assoc, rune_len_app by done.
    change (S (length r)) with (length (x :: r)). rewrite take_app_length, drop_app_length.
    rewrite IH; [done|]. rewrite length_app in Hf. simpl in Hf. lia.
Qed.

(** Plain ASCII is such text. *)
Lemma text_ascii s :
  forallb (λ b, (32 <=? code b) && (code b <? 128) && negb (is_quote b) && negb (eqc b "\")) s = true →
  text s.
Proof.
  induction s as [|b s IH]; [constructor|]. cbn [forallb]. rewrite !andb_true_iff, !negb_true_iff.
  intros ((((H32 & H128) & Hq) & Hb) & Hs). apply (text_rune b []); try done; [..|by apply IH].
  - unfold rune_len. by rewrite H128.
  - apply Z.ltb_ge. by apply Z.leb_le.
Qed.

(** The object with one string member. *)
Definition one_member (key v : bytes) : bytes :=
  [chr "{"; Byte.x22] ++ key ++ [Byte.x22; chr ":"; Byte.x22] ++ v ++ [Byte.x22; chr "}"].

Lemma parse_one_member key v rest :
  text key → text v →
  parse_json (one_member key v ++ rest) = Some (JObj [(key, JStr v)], rest).
Proof.
  intros Hk Hv. unfold parse_json.
  set (input := one_member key v ++ rest).
  assert (Hlen : (length key + length v + 4 < length input)%nat).
  { subst input. unfold one_member. rewrite !length_app. simpl. lia. }
  destruct (S (2 * length input)) as [|[|[|f]]] eqn:Hf; [lia..|].
  assert (Hi : input = chr "{" :: Byte.x22 :: key ++ Byte.x22 :: chr ":" :: Byte.x22 :: v
                         ++ Byte.x22 :: chr "}" :: rest).
  { subst input. unfold one_member. by rewrite <- !app_assoc. }
  rewrite Hi. cbn [parse_value skip_ws is_ws].
  change (is_ws (chr "{")) with false. change (is_ws Byte.x22) with false. cbv iota.
  change (is_quote (chr "{")) with false. change (eqc (chr "{") "{") with true. cbv iota.
  change (maxNestingDepth <? 0 + 1) with false. cbv iota. change (eqc Byte.x22 "}") with false. cbv iota.
  cbn [parse_members skip_ws]. change (is_ws Byte.x22) with false. change (is_quote Byte.x22) with true. cbv iota.
  rewrite parse_string_text by (done || lia). cbn [skip_ws].
  change (is_ws (chr ":")) with false. change (eqc (chr ":") ":") with true. cbv iota.
  destruct f as [|f]; [lia|]. cbn [parse_value skip_ws].
  change (is_ws Byte.x22) with false. change (is_quote Byte.x22) with true. cbv iota.
  rewrite parse_string_text by (done || lia). cbn [skip_ws].
  change (is_ws (chr "}")) with false. change (eqc (chr "}") "}") with true. done.
Qed.
