(* ===== verification/Strconv.v ===== *)
(** strconv.Quote, which fmt's %q uses.

    ASCII is exact; a valid rune beyond ASCII is written as it is, which is
    what Go does with all those that unicode.IsPrint accepts. *)

From S2P Require Import Prelude AesGcm GoLib Json.

Definition hex_pair (b : byte) : bytes := [hex_char (code b / 16); hex_char (code b mod 16)].

(** An ASCII character between quotes. *)
Definition quote_ascii (b : byte) : bytes :=
  if bool_decide (b ∈ [chr "\"; Byte.x22]) then [chr "\"; b]
  else if (32 <=? code b) && (code b <? 127) then [b]
  else match b with
       | Byte.x07 => [chr "\"; chr "a"]
       | Byte.x08 => [chr "\"; chr "b"]
       | Byte.x0c => [chr "\"; chr "f"]
       | Byte.x0a => [chr "\"; chr "n"]
       | Byte.x0d => [chr "\"; chr "r"]
       | Byte.x09 => [chr "\"; chr "t"]
       | Byte.x0b => [chr "\"; chr "v"]
       | _ => [chr "\"; chr "x"] ++ hex_pair b
       end.

Fixpoint quote_fuel (fuel : nat) (b : bytes) : bytes :=
  match fuel, b with
  | S f, x :: rest =>
      if code x <? 128 then quote_ascii x ++ quote_fuel f rest
      else match rune_len b with
           | O => [chr "\"; chr "x"] ++ hex_pair x ++ quote_fuel f rest
           | n => take n b ++ quote_fuel f (drop n b)
           end
  | _, _ => []
  end.

(** [fmt.Sprintf("%q", s)]. *)
Definition Quote (s : string) : string :=
  let b := bytes_of_string s in
  string_of_bytes ([Byte.x22] ++ quote_fuel (length b) b ++ [Byte.x22]).

(** Fuel for every byte is enough: what is left of it does not matter. *)
Lemma quote_fuel_enough f g b : (length b ≤ f)%nat → (length b ≤ g)%nat → quote_fuel f b = quote_fuel g b.
Proof.
  revert g b. induction f as [|f IH]; intros g b Hf Hg.
  { destruct b; [by destruct g|simpl in Hf; lia]. }
  destruct b as [|x rest]; [by destruct g|]. destruct g as [|g]; [simpl in Hg; lia|].
  simpl in Hf, Hg. cbn [quote_fuel]. destruct (code x <? 128); [f_equal; apply IH; lia|].
  destruct (rune_len (x :: rest)) as [|n]; [f_equal; f_equal; apply IH; lia|].
  f_equal. simpl. apply IH; rewrite length_drop; lia.
Qed.

(** Text without control characters, quotes and backslashes is only put
    between quotes. *)
Definition plain_char (b : byte) : bool :=
  (32 <=? code b) && (code b <? 127) && negb (bool_decide (b ∈ [chr "\"; Byte.x22])).

Lemma Quote_plain s :
  forallb plain_char (bytes_of_string s) = true →
  bytes_of_string (Quote s) = [Byte.x22] ++ bytes_of_string s ++ [Byte.x22].
Proof.
  intros H. unfold Quote. rewrite bytes_string_roundtrip. f_equal. f_equal.
  induction (bytes_of_string s) as [|x rest IH]; [done|]. cbn [forallb] in H.
  apply andb_prop in H as [Hx H]. unfold plain_char in Hx. apply andb_prop in Hx as [Hr Hq].
  apply negb_true_iff in Hq. cbn [length quote_fuel]. unfold quote_ascii. rewrite Hq, Hr.
  apply andb_prop in Hr as [_ Hr]. rewrite (proj2 (Z.ltb_lt _ _)) by (apply Z.ltb_lt in Hr; lia).
  simpl. f_equal. by apply IH.
Qed.

(** A newline or a quote in a name cannot forge a line of output. *)
Example Quote_escapes :
  Quote (string_of_bytes (bytes_of_string "a" ++ [Byte.x22; Byte.x0a; Byte.x01; Byte.xff; Byte.xc3; Byte.xa9]))
  = string_of_bytes ([Byte.x22] ++ bytes_of_string "a\" ++ [Byte.x22] ++ bytes_of_string "\n\x01\xff"
                     ++ [Byte.xc3; Byte.xa9; Byte.x22]).
Proof. vm_compute. reflexivity. Qed.
