(* ===== verification/FS.v ===== *)
(** The file system as packages os and io/fs show it.

    Files are data with a mode; a path is a directory and a name, shown in
    its clean form; directories are clean paths with a mode.  Every call may
    fail: the script [fs_fault] is consulted once per system call, a failing
    write leaves a prefix of its data behind and a failing MkdirAll some of
    the parents.  A mode is the one asked for: the umask, and refusals for
    lack of permission other than those of the script, are not modelled, nor
    are symbolic links. *)

From S2P Require Import Prelude AesGcm GoLib Net Filepath.

Record file := mk_file { f_data : bytes; f_mode : Z }.

#[global] Instance file_eq_dec : EqDecision file.
Proof. solve_decision. Defined.

Record path := mk_path { p_dir : string; p_base : string }.

#[global] Instance path_eq_dec : EqDecision path.
Proof. solve_decision. Defined.
#[global] Instance path_countable : Countable path.
Proof.
  refine (inj_countable' (λ p, (p_dir p, p_base p)) (λ x, mk_path x.1 x.2) _). by intros [].
Defined.

Definition path_string (p : path) : string :=
  if decide (p_dir p = "/") then "/" +:+ p_base p
  else if decide (p_dir p = ".") then p_base p
  else p_dir p +:+ "/" +:+ p_base p.

(** The directory and the name that a string denotes. *)
Definition path_of (s : string) : path := mk_path (Dir s) (Base s).

(** [filepath.Join(d, b)]. *)
Definition join_path (d b : string) : path := path_of (Join d b).

Record FS := mk_FS {
  fs_files : gmap path file;
  fs_dirs : gmap string Z;                    (* the mode of each directory, by clean path *)
  fs_calls : nat;
  fs_fault : nat → option string;             (* the call fails with this I/O error *)
  fs_partial : nat → nat;                     (* how much a failing call got done *)
  fs_suffix : nat → string;                   (* the random part of temporary names *)
  fs_rand : nat → option (nat → byte);        (* crypto/rand.Reader *)
}.

(** Errors of package os. *)
Inductive os_error :=
  | PathError (op : string) (p : string) (err : error)
  | LinkError (op : string) (old new : string) (err : error)
  | OtherError (err : error).

Definition os_err (e : os_error) : error :=
  match e with
  | PathError op p err => ErrWrap (op +:+ " " +:+ p +:+ ": ") err ""
  | LinkError op o n err => ErrWrap (op +:+ " " +:+ o +:+ " " +:+ n +:+ ": ") err ""
  | OtherError err => err
  end.

(** A call of package os. *)
Definition OS (A : Type) : Type := FS → (os_error + A) * FS.

Definition with_files (s : FS) (m : gmap path file) : FS :=
  mk_FS m (fs_dirs s) (fs_calls s) (fs_fault s) (fs_partial s) (fs_suffix s) (fs_rand s).
(** Directories that exist keep their mode. *)
Definition with_dirs (s : FS) (ds : list string) (mode : Z) : FS :=
  mk_FS (fs_files s) (fs_dirs s ∪ list_to_map ((λ d, (d, mode)) <$> ds)) (fs_calls s) (fs_fault s) (fs_partial s) (fs_suffix s) (fs_rand s).
Definition next_call (s : FS) : FS :=
  mk_FS (fs_files s) (fs_dirs s) (S (fs_calls s)) (fs_fault s) (fs_partial s) (fs_suffix s) (fs_rand s).

(** Consults the fault script. *)
Definition syscall {A} (fail : error → os_error) (f : FS → (os_error + A) * FS) : OS A := λ s,
  match fs_fault s (fs_calls s) with
  | Some msg => (inl (fail (ErrExternal msg)), next_call s)
  | None => f (next_call s)
  end.

Definition not_exist (op : string) (p : path) : os_error :=
  PathError op (path_string p) (ErrSentinel ErrNotExist).

Definition is_dir (d : string) (s : FS) : bool := bool_decide (is_Some (fs_dirs s !! d)).

(** A directory can be opened and not read. *)
Definition ReadFile (p : path) : OS bytes := syscall (PathError "open" (path_string p)) (λ s,
  match fs_files s !! p with
  | Some f => (inr (f_data f), s)
  | None =>
      if is_dir (path_string p) s then (inl (PathError "read" (path_string p) (ErrExternal "is a directory")), s)
      else (inl (not_exist "open" p), s)
  end).

(** A clean path and its parents, the topmost first. *)
Fixpoint ancestors_fuel (fuel : nat) (d : string) : list string :=
  match fuel with
  | O => [d]
  | S n => if decide (Dir d = d) then [d] else ancestors_fuel n (Dir d) ++ [d]
  end.
Definition ancestors (d : string) : list string := ancestors_fuel (length (bytes_of_string d)) (Clean d).

(** The directory that exists already is left alone; on failure some of the
    parents may exist, and the error names the first one that does not.  A
    regular file in the way is an error. *)
Definition MkdirAll (dir : string) (mode : Z) : OS unit := λ s,
  if is_dir (Clean dir) s then
    syscall (PathError "mkdir" dir) (λ s, (inr tt, s)) s
  else
    match fs_fault s (fs_calls s) with
    | Some msg =>
        let missing := filter (λ d, is_dir d s = false) (ancestors dir) in
        let made := take (fs_partial s (fs_calls s)) (removelast missing) in
        (inl (PathError "mkdir" (default dir (missing !! length made)) (ErrExternal msg)),
         with_dirs (next_call s) made mode)
    | None =>
        match List.find (λ d, bool_decide (is_Some (fs_files s !! path_of d))) (ancestors dir) with
        | Some d =>
            (inl (PathError "mkdir" (if decide (d = Clean dir) then dir else d) (ErrExternal "not a directory")),
             next_call s)
        | None => (inr tt, with_dirs (next_call s) (ancestors dir) mode)
        end
    end.

(** os.Chmod of a directory. *)
Definition ChmodDir (dir : string) (mode : Z) : OS unit := syscall (PathError "chmod" dir) (λ s,
  if is_dir (Clean dir) s
  then (inr tt, mk_FS (fs_files s) (<[Clean dir := mode]> (fs_dirs s)) (fs_calls s) (fs_fault s) (fs_partial s)
                  (fs_suffix s) (fs_rand s))
  else (inl (PathError "chmod" dir (ErrSentinel ErrNotExist)), s)).

Definition Chmod (p : path) (mode : Z) : OS unit := syscall (PathError "chmod" (path_string p)) (λ s,
  match fs_files s !! p with
  | Some f => (inr tt, with_files s (<[p := mk_file (f_data f) mode]> (fs_files s)))
  | None => (inl (not_exist "chmod" p), s)
  end).

(** os.CreateTemp(dir, prefix + "*"): a new empty file of mode 0600, in a
    directory that exists. *)
Definition CreateTemp (dir prefix : string) : OS path := λ s0,
  let p := mk_path dir (prefix +:+ fs_suffix s0 (fs_calls s0)) in
  syscall (PathError "open" (path_string p)) (λ s,
    if negb (is_dir dir s) then (inl (not_exist "open" p), s)
    else match fs_files s !! p with
         | Some _ => (inl (PathError "createtemp" (path_string p) (ErrExternal "file exists")), s)
         | None => (inr p, with_files s (<[p := mk_file [] 384]> (fs_files s)))
         end) s0.

(** f.Write(data) on a file just created: appends, or fails after a prefix. *)
Definition WriteTo (p : path) (data : bytes) : OS unit := λ s,
  let append (b : bytes) (s : FS) :=
    match fs_files s !! p with
    | Some f => with_files s (<[p := mk_file (f_data f ++ b) (f_mode f)]> (fs_files s))
    | None => s
    end in
  match fs_fault s (fs_calls s) with
  | Some msg => (inl (PathError "write" (path_string p) (ErrExternal msg)), append (take (fs_partial s (fs_calls s)) data) (next_call s))
  | None => (inr tt, append data (next_call s))
  end.

Definition Sync (p : path) : OS unit := syscall (PathError "sync" (path_string p)) (λ s, (inr tt, s)).
Definition CloseFile (p : path) : OS unit := syscall (PathError "close" (path_string p)) (λ s, (inr tt, s)).

(** os.Rename replaces the target file atomically. *)
Definition Rename (old new : path) : OS unit := syscall (LinkError "rename" (path_string old) (path_string new)) (λ s,
  match fs_files s !! old with
  | Some f =>
      if is_dir (path_string new) s
      then (inl (LinkError "rename" (path_string old) (path_string new) (ErrExternal "file exists")), s)
      else (inr tt, with_files s (<[new := f]> (delete old (fs_files s))))
  | None => (inl (LinkError "rename" (path_string old) (path_string new) (ErrSentinel ErrNotExist)), s)
  end).

Definition Remove (p : path) : OS unit := syscall (PathError "remove" (path_string p)) (λ s,
  match fs_files s !! p with
  | Some _ => (inr tt, with_files s (delete p (fs_files s)))
  | None => (inl (not_exist "remove" p), s)
  end).

(** os.Stat: a file with its size and mode, or a directory. *)
Inductive FileInfo := RegularFile (size mode : Z) | Directory.

Definition Stat (p : path) : OS FileInfo := syscall (PathError "stat" (path_string p)) (λ s,
  match fs_files s !! p with
  | Some f => (inr (RegularFile (Z.of_nat (length (f_data f))) (f_mode f)), s)
  | None =>
      if is_dir (path_string p) s then (inr Directory, s) else (inl (not_exist "stat" p), s)
  end).

(** os.Stat of a directory's own path. *)
Definition StatDir (d : string) : OS FileInfo := syscall (PathError "stat" d) (λ s,
  if is_dir (Clean d) s then (inr Directory, s)
  else match fs_files s !! path_of d with
       | Some f => (inr (RegularFile (Z.of_nat (length (f_data f))) (f_mode f)), s)
       | None => (inl (PathError "stat" d (ErrSentinel ErrNotExist)), s)
       end).

(** Calls in sequence; the first error ends them. *)
Definition os_bind {A B} (m : OS A) (k : A → OS B) : OS B := λ s,
  match m s with
  | (inl e, s') => (inl e, s')
  | (inr a, s') => k a s'
  end.

(** Opens for writing: truncates the file, or creates it with [mode]. *)
Definition OpenTrunc (p : path) (mode : Z) : OS unit := syscall (PathError "open" (path_string p)) (λ s,
  if is_dir (path_string p) s then (inl (PathError "open" (path_string p) (ErrExternal "is a directory")), s)
  else match fs_files s !! p with
       | Some f => (inr tt, with_files s (<[p := mk_file [] (f_mode f)]> (fs_files s)))
       | None =>
           if is_dir (p_dir p) s then (inr tt, with_files s (<[p := mk_file [] mode]> (fs_files s)))
           else (inl (not_exist "open" p), s)
       end).

(** os.WriteFile: the file is closed in any case, and the first error wins. *)
Definition WriteFile (p : path) (data : bytes) (mode : Z) : OS unit :=
  os_bind (OpenTrunc p mode) (λ _ s,
    let '(r, s1) := WriteTo p data s in
    let '(rc, s2) := CloseFile p s1 in
    (match r with inl e => inl e | inr _ => rc end, s2)).

(** io.ReadFull(rand.Reader, buf). *)
Definition fs_read_rand (n : nat) : M FS bytes := λ s,
  match fs_rand s (fs_calls s) with
  | Some f => (Ok (f <$> seq 0 n), next_call s)
  | None => (Err (ErrExternal "entropy source failed"), next_call s)
  end.

(** A call whose error the code wraps and returns. *)
Definition or_fail {A} (wrap : os_error → error) (c : OS A) : M FS A := λ s,
  match c s with
  | (inl e, s') => (Err (wrap e), s')
  | (inr a, s') => (Ok a, s')
  end.

(** [_ = call()]. *)
Definition ignored {A} (c : OS A) : M FS unit := λ s, (Ok tt, (c s).2).

(** ** What the calls leave alone *)

(** No path but [p] changed. *)
Definition only (p : path) (s s' : FS) : Prop := ∀ q, q ≠ p → fs_files s' !! q = fs_files s !! q.
Definition same_files (s s' : FS) : Prop := fs_files s' = fs_files s.

#[global] Instance only_preorder p : PreOrder (only p).
Proof.
  split; [by intros s q|]. intros s1 s2 s3 H1 H2 q Hq. by rewrite (H2 q Hq), (H1 q Hq).
Qed.

Lemma same_files_only p s s' : same_files s s' → only p s s'.
Proof. intros H q _. by rewrite H. Qed.

Lemma syscall_pure {A} fail (f : FS → (os_error + A) * FS) s r s' :
  (∀ x, fs_files (f x).2 = fs_files x) → syscall fail f s = (r, s') → same_files s s'.
Proof.
  intros Hf. unfold syscall, same_files. destruct (fs_fault s _); [by intros [= <- <-]|].
  intros H. apply (f_equal snd) in H. simpl in H. rewrite <- H, Hf. done.
Qed.

Lemma Sync_pure p s r s' : Sync p s = (r, s') → same_files s s'.
Proof. by apply syscall_pure. Qed.
Lemma CloseFile_pure p s r s' : CloseFile p s = (r, s') → same_files s s'.
Proof. by apply syscall_pure. Qed.
Lemma MkdirAll_pure d mode s r s' : MkdirAll d mode s = (r, s') → same_files s s'.
Proof.
  unfold MkdirAll. destruct (is_dir _ s); [by apply syscall_pure|]. unfold same_files.
  destruct (fs_fault s _); [by intros [= <- <-]|]. destruct (List.find _ _); by intros [= <- <-].
Qed.
Lemma Stat_pure p s r s' : Stat p s = (r, s') → same_files s s'.
Proof.
  apply syscall_pure. intros x. destruct (fs_files x !! p); [done|]. by destruct (is_dir _ x).
Qed.
Lemma StatDir_pure d s r s' : StatDir d s = (r, s') → same_files s s'.
Proof.
  apply syscall_pure. intros x. destruct (is_dir _ x); [done|]. by destruct (fs_files x !! _).
Qed.
Lemma ChmodDir_pure d mode s r s' : ChmodDir d mode s = (r, s') → same_files s s'.
Proof. apply syscall_pure. intros x. by destruct (is_dir _ x). Qed.

Lemma ReadFile_run p s r s' :
  ReadFile p s = (r, s') →
  same_files s s' ∧
  match r with
  | inr b => ∃ f, fs_files s !! p = Some f ∧ f_data f = b
  | inl e => (fs_files s !! p = None ∧ e = not_exist "open" p)
             ∨ ∃ op msg, e = PathError op (path_string p) (ErrExternal msg)
  end.
Proof.
  unfold ReadFile, syscall, same_files. destruct (fs_fault s _) as [e|]; [intros [= <- <-]; eauto|].
  simpl. destruct (fs_files s !! p) eqn:Hp; [|destruct (is_dir _ _)]; intros [= <- <-]; split; eauto.
Qed.

Lemma Chmod_run p mode s r s' :
  Chmod p mode s = (r, s') →
  only p s s' ∧
  match r with
  | inr _ => ∃ f, fs_files s !! p = Some f ∧ fs_files s' !! p = Some (mk_file (f_data f) mode)
  | inl _ => same_files s s'
  end.
Proof.
  unfold Chmod, syscall, same_files. destruct (fs_fault s _); [by intros [= <- <-]|].
  simpl. destruct (fs_files s !! p) as [f|] eqn:Hp; intros [= <- <-]; [|done]. simpl. split.
  - intros q Hq. simpl. by rewrite lookup_insert_ne.
  - exists f. by rewrite lookup_insert_eq.
Qed.

Lemma CreateTemp_run d prefix s r s' :
  CreateTemp d prefix s = (r, s') →
  match r with
  | inr p => (∃ x, p = mk_path d (prefix +:+ x)) ∧ fs_files s !! p = None
             ∧ only p s s' ∧ fs_files s' !! p = Some (mk_file [] 384)
  | inl _ => same_files s s'
  end.
Proof.
  unfold CreateTemp, syscall, same_files. destruct (fs_fault s _); [by intros [= <- <-]|].
  simpl. destruct (is_dir _ _); [|by intros [= <- <-]].
  simpl. destruct (fs_files s !! _) eqn:Hp; intros [= <- <-]; [done|]. simpl. split_and!.
  - by eexists.
  - done.
  - intros q Hq. simpl. by rewrite lookup_insert_ne.
  - by rewrite lookup_insert_eq.
Qed.

Lemma WriteTo_run p data s r s' :
  WriteTo p data s = (r, s') →
  only p s s' ∧
  match r with
  | inr _ => ∀ f, fs_files s !! p = Some f → fs_files s' !! p = Some (mk_file (f_data f ++ data) (f_mode f))
  | inl _ => True
  end.
Proof.
  unfold WriteTo. destruct (fs_fault s _); simpl; destruct (fs_files s !! p) as [f|] eqn:Hp;
    intros [= <- <-]; simpl; (split; [intros q Hq; simpl; by rewrite ?lookup_insert_ne by done|]); try done.
  intros f' [= <-]. by rewrite lookup_insert_eq.
Qed.

Lemma Rename_run old new s r s' :
  Rename old new s = (r, s') →
  match r with
  | inr _ => ∃ f, fs_files s !! old = Some f ∧ fs_files s' = <[new := f]> (delete old (fs_files s))
  | inl _ => same_files s s'
  end.
Proof.
  unfold Rename, syscall, same_files. destruct (fs_fault s _); [by intros [= <- <-]|].
  simpl. destruct (fs_files s !! old) as [f|] eqn:Hp; [destruct (is_dir _ _)|]; intros [= <- <-]; try done. by exists f.
Qed.

Lemma Remove_run p s r s' :
  Remove p s = (r, s') → only p s s' ∧ (fs_files s !! p = None → same_files s s').
Proof.
  unfold Remove, syscall, same_files. destruct (fs_fault s _); [by intros [= <- <-]|].
  simpl. destruct (fs_files s !! p) eqn:Hp; intros [= <- <-]; [|done]. simpl. split; [|done].
  intros q Hq. simpl. by rewrite lookup_delete_ne.
Qed.

Lemma os_bind_run {A B} (m : OS A) (k : A → OS B) s r s' :
  os_bind m k s = (r, s') →
  (∃ e, m s = (inl e, s') ∧ r = inl e) ∨ (∃ a s1, m s = (inr a, s1) ∧ k a s1 = (r, s')).
Proof. unfold os_bind. destruct (m s) as [[e|a] s1]; [intros [= <- <-]; eauto|eauto]. Qed.

Lemma Stat_run p s r s' :
  Stat p s = (r, s') →
  same_files s s' ∧
  match r with
  | inr (RegularFile n _) => ∃ f, fs_files s !! p = Some f ∧ n = Z.of_nat (length (f_data f))
  | inr Directory => fs_files s !! p = None
  | inl e => errors_is (os_err e) ErrNotExist = true → fs_files s !! p = None
  end.
Proof.
  intros H. split; [by eapply Stat_pure|]. revert H. unfold Stat, syscall.
  destruct (fs_fault s _); [by intros [= <- <-]|]. simpl.
  destruct (fs_files s !! p) eqn:Hp; [intros [= <- <-]; eauto|]. destruct (is_dir _ _); intros [= <- <-]; done.
Qed.

(** A new file is complete when the call succeeds, and partial at worst. *)
Lemma OpenTrunc_run p mode s r s' :
  OpenTrunc p mode s = (r, s') →
  match r with
  | inr _ => only p s s' ∧ fs_files s' !! p = Some (mk_file [] (default mode (f_mode <$> fs_files s !! p)))
  | inl _ => same_files s s'
  end.
Proof.
  unfold OpenTrunc, syscall, same_files. destruct (fs_fault s _); [by intros [= <- <-]|]. simpl.
  destruct (is_dir _ _); [by intros [= <- <-]|].
  destruct (fs_files s !! p) as [f|] eqn:Hp; [|destruct (is_dir _ _)]; intros [= <- <-]; try done;
    (split; [intros q Hq; simpl; by rewrite lookup_insert_ne|simpl; by rewrite lookup_insert_eq]).
Qed.

Lemma WriteFile_run p data mode s r s' :
  WriteFile p data mode s = (r, s') →
  only p s s'
  ∧ match r with
    | inr _ => fs_files s' !! p = Some (mk_file data (default mode (f_mode <$> fs_files s !! p)))
    | inl _ => True
    end.
Proof.
  unfold WriteFile. intros [(e & H%OpenTrunc_run & ->)|([] & s1 & [Ho1 Hf1]%OpenTrunc_run & H)]%os_bind_run.
  - split; [by apply same_files_only|done].
  - destruct (WriteTo p data s1) as [rw s2] eqn:Hw. apply WriteTo_run in Hw as [Ho2 Hw].
    destruct (CloseFile p s2) as [rc s3] eqn:Hc. apply CloseFile_pure in Hc. unfold same_files in Hc.
    injection H as <- <-. split; [intros q Hq; by rewrite Hc, Ho2, Ho1|].
    destruct rw as [e|[]]; [done|]. destruct rc; [done|]. specialize (Hw _ Hf1). by rewrite Hc.
Qed.

(** ** Directories *)

(** The directories are the same, and so are the faults to come. *)
Definition steady (s s' : FS) : Prop := fs_dirs s' = fs_dirs s ∧ fs_fault s' = fs_fault s.

#[global] Instance steady_preorder : PreOrder steady.
Proof. split; [done|]. intros s1 s2 s3 [H1 H2] [K1 K2]. split; congruence. Qed.

(** No directory but those in [ds] was made, with [mode]; those that existed
    keep their mode. *)
Definition made_dirs (ds : list string) (mode : Z) (s s' : FS) : Prop :=
  fs_fault s' = fs_fault s
  ∧ ∀ d, fs_dirs s' !! d = fs_dirs s !! d ∨ (fs_dirs s !! d = None ∧ d ∈ ds ∧ fs_dirs s' !! d = Some mode).

Lemma steady_made ds mode s s' : steady s s' → made_dirs ds mode s s'.
Proof. intros [Hd Hf]. split; [done|]. intros d. left. by rewrite Hd. Qed.

Lemma made_steady ds mode s1 s2 s3 : made_dirs ds mode s1 s2 → steady s2 s3 → made_dirs ds mode s1 s3.
Proof. intros [Hf Hd] [Kd Kf]. split; [congruence|]. intros d. rewrite Kd. apply Hd. Qed.

Lemma steady_then_made ds mode s1 s2 s3 : steady s1 s2 → made_dirs ds mode s2 s3 → made_dirs ds mode s1 s3.
Proof. intros [Kd Kf] [Hf Hd]. split; [congruence|]. intros d. rewrite <- Kd. apply Hd. Qed.

Lemma syscall_steady {A} fail (f : FS → (os_error + A) * FS) s :
  (∀ x, steady x (f x).2) → steady s (syscall fail f s).2.
Proof. intros Hf. unfold syscall. destruct (fs_fault s _); [done|]. exact (Hf (next_call s)). Qed.

Lemma ReadFile_steady p s : steady s (ReadFile p s).2.
Proof. apply syscall_steady. intros x. by repeat case_match. Qed.
Lemma Chmod_steady p mode s : steady s (Chmod p mode s).2.
Proof. apply syscall_steady. intros x. by case_match. Qed.
Lemma Remove_steady p s : steady s (Remove p s).2.
Proof. apply syscall_steady. intros x. by case_match. Qed.
Lemma Stat_steady p s : steady s (Stat p s).2.
Proof. apply syscall_steady. intros x. by repeat case_match. Qed.
Lemma StatDir_steady d s : steady s (StatDir d s).2.
Proof. apply syscall_steady. intros x. by repeat case_match. Qed.
Lemma OpenTrunc_steady p mode s : steady s (OpenTrunc p mode s).2.
Proof. apply syscall_steady. intros x. by repeat case_match. Qed.
Lemma WriteTo_steady p data s : steady s (WriteTo p data s).2.
Proof. unfold WriteTo. destruct (fs_fault s _); simpl; by destruct (fs_files s !! p). Qed.
Lemma CloseFile_steady p s : steady s (CloseFile p s).2.
Proof. by apply syscall_steady. Qed.

Lemma WriteFile_steady p data mode s : steady s (WriteFile p data mode s).2.
Proof.
  unfold WriteFile, os_bind. pose proof (OpenTrunc_steady p mode s) as H1.
  destruct (OpenTrunc p mode s) as [[e|[]] s1]; [done|]. pose proof (WriteTo_steady p data s1) as H2.
  destruct (WriteTo p data s1) as [r s2]. pose proof (CloseFile_steady p s2) as H3.
  destruct (CloseFile p s2) as [rc s3]. simpl in *. etrans; [exact H1|]. by etrans.
Qed.

Lemma ancestors_self d : Clean d ∈ ancestors d.
Proof.
  unfold ancestors. destruct (length _) as [|n]; simpl; [by left|]. case_decide; [by left|].
  apply elem_of_app. right. by left.
Qed.

Lemma with_dirs_made s ds mode all :
  ds ⊆ all → made_dirs all mode s (with_dirs s ds mode).
Proof.
  intros Hds. split; [done|]. intros d. cbn [with_dirs fs_dirs]. destruct (fs_dirs s !! d) as [m|] eqn:Hd.
  { left. by apply lookup_union_Some_l. }
  rewrite lookup_union_r by done. destruct (list_to_map _ !! d) as [m|] eqn:Hl; [right|by left].
  apply elem_of_list_to_map_2 in Hl. apply list_elem_of_fmap in Hl as (d' & [= -> ->] & Hin). auto.
Qed.

Lemma removelast_subset {A} (l : list A) : removelast l ⊆ l.
Proof.
  induction l as [|x [|y l] IH]; [by intros z|by intros z Hz%elem_of_nil|]. intros z [->|Hz]%elem_of_cons; [by left|]. right. by apply IH.
Qed.

Lemma MkdirAll_made dir mode s r s' :
  MkdirAll dir mode s = (r, s') →
  made_dirs (ancestors dir) mode s s' ∧ fs_calls s' = S (fs_calls s)
  ∧ match r with inr _ => is_Some (fs_dirs s' !! Clean dir) | inl _ => True end.
Proof.
  unfold MkdirAll, syscall. destruct (is_dir (Clean dir) s) eqn:Hd.
  { unfold is_dir in Hd. apply bool_decide_eq_true in Hd.
    destruct (fs_fault s _); intros [= <- <-]; (split_and!; [by apply steady_made|done|done]). }
  destruct (fs_fault s _).
  - intros [= <- <-]. split_and!; [|done|done]. apply (with_dirs_made (next_call s)).
    intros d Hin%elem_of_take. destruct Hin as (i & Hi & _). apply list_elem_of_lookup_2, removelast_subset in Hi.
    by apply list_elem_of_filter in Hi as [_ Hi].
  - destruct (List.find _ _); intros [= <- <-]; [by split_and!; [apply steady_made|..]|].
    split_and!; [by apply (with_dirs_made (next_call s))|done|].
    cbn [with_dirs fs_dirs]. destruct (fs_dirs s !! Clean dir) as [m|] eqn:Hm.
    { exists m. by apply lookup_union_Some_l. }
    rewrite lookup_union_r by done. apply not_eq_None_Some. intros Hn%not_elem_of_list_to_map_2. apply Hn.
    apply list_elem_of_fmap. exists (Clean dir, mode). split; [done|]. apply list_elem_of_fmap.
    exists (Clean dir). split; [done|apply ancestors_self].
Qed.
