(* ===== verification/Auth.v ===== *)
(** Users and bearer authentication (src/internal/auth).

    The YAML decoder (gopkg.in/yaml.v3) is a parameter; reading the file
    gives its bytes or an operating-system error.  A Go panic is the outcome
    [Panicked]. *)

From S2P Require Import Prelude AesGcm GoLib FS.

(** ** Data (users.go) *)

Record User := mk_User {
  u_ID : Z;
  u_Name : string;
  u_TokenPrefix : string;
  u_TokenHash : string;
  u_Disabled : bool;
}.

Record userEntry := mk_userEntry {
  e_ID : Z;
  e_Name : string;
  e_TokenPrefix : string;
  e_TokenHash : string;
  e_Disabled : bool;
}.

Inductive outcome (A : Type) :=
  | Returned (r : result A)
  | Panicked (msg : string).
Arguments Returned {A} r.
Arguments Panicked {A} msg.

(** ** Validation *)

Definition is_hex_lower (b : byte) : bool :=
  is_digit b || ((97 <=? code b) && (code b <=? 102)).

(** hashPattern, [^[0-9a-f]{64}$]. *)
Definition hashPattern (s : string) : bool :=
  bool_decide (slen s = 64) && forallb is_hex_lower (bytes_of_string s).

Definition at_user (i : nat) (msg : string) : error :=
  ErrNew ("auth: users[" +:+ pretty i +:+ "]: " +:+ msg).

Fixpoint validate_from (i : nat) (seenID : gset Z) (seenName : gset string) (entries : list userEntry)
    : result (list User) :=
  match entries with
  | [] => Ok []
  | e :: rest =>
      if e_ID e <? 1 then Err (at_user i "id must be a positive integer")
      else if decide (e_ID e ∈ seenID) then Err (at_user i "id is duplicated")
      else
        let name := TrimSpace (e_Name e) in
        if decide (name = "") then Err (at_user i "name must not be empty")
        else if decide (name ∈ seenName) then Err (at_user i "name is duplicated")
        else
          let prefix := TrimSpace (e_TokenPrefix e) in
          if decide (prefix = "") then Err (at_user i "token_prefix must not be empty")
          else
            let hash := lower_ascii (TrimSpace (e_TokenHash e)) in
            if negb (hashPattern hash)
            then Err (at_user i "token_hash must be 64 lowercase hex characters")
            else
              match validate_from (S i) ({[ e_ID e ]} ∪ seenID) ({[ name ]} ∪ seenName) rest with
              | Err err => Err err
              | Ok users => Ok (mk_User (e_ID e) name prefix hash (e_Disabled e) :: users)
              end
  end.

Definition validateAndNormalise (entries : list userEntry) : result (list User) :=
  validate_from 0 ∅ ∅ entries.

(** ** Snapshots (store.go) *)

Record userSnapshot := mk_userSnapshot {
  byHash : gmap string User;
  ordered : list User;
}.

(** [None] is the panic on a duplicate token_hash. *)
Fixpoint snapshot_from (snap : userSnapshot) (users : list User) : option userSnapshot :=
  match users with
  | [] => Some snap
  | u :: rest =>
      match byHash snap !! u_TokenHash u with
      | Some _ => None
      | None => snapshot_from (mk_userSnapshot (<[u_TokenHash u := u]> (byHash snap))
                                 (ordered snap ++ [u])) rest
      end
  end.
Definition newUserSnapshot (users : list User) : option userSnapshot :=
  snapshot_from (mk_userSnapshot ∅ []) users.

Definition zeroHashHex : string := EncodeToString (replicate 32 Byte.x00).

Definition token_hash (token : string) : string :=
  EncodeToString (Sum256 (bytes_of_string token)).

Definition Lookup (snap : userSnapshot) (token : string) : result User :=
  let hashHex := token_hash token in
  let candidate := byHash snap !! hashHex in
  let expected := match candidate with Some u => u_TokenHash u | None => zeroHashHex end in
  let matched := bool_decide (hashHex = expected) in
  match candidate with
  | Some u =>
      if negb matched then Err (ErrSentinel ErrUnauthorized)
      else if u_Disabled u then Err (ErrSentinel ErrUnauthorized)
      else Ok u
  | None => Err (ErrSentinel ErrUnauthorized)
  end.

Definition UserCount (snap : userSnapshot) : Z := Z.of_nat (length (ordered snap)).

Section load.
(** yaml.v3 with KnownFields. *)
Variable yaml_decode : bytes → result (list userEntry).

Definition LoadUsersFile (file : os_error + bytes) : outcome userSnapshot :=
  match file with
  | inl (PathError _ _ err) => Returned (Err (ErrWrap "auth: read users file: " err ""))
  | inl e => Returned (Err (ErrWrap "auth: read users file: " (os_err e) ""))
  | inr raw =>
      match yaml_decode raw with
      | Err err => Returned (Err (ErrWrap "auth: decode users file: " err ""))
      | Ok entries =>
          match validateAndNormalise entries with
          | Err err => Returned (Err err)
          | Ok users =>
              match newUserSnapshot users with
              | Some snap => Returned (Ok snap)
              | None => Panicked "auth: duplicate token_hash in users snapshot"
              end
          end
      end
  end.

(** The snapshot after the call, and the call's outcome. *)
Definition Reload (snap : userSnapshot) (file : os_error + bytes) : userSnapshot * outcome unit :=
  match LoadUsersFile file with
  | Returned (Ok fresh) => (fresh, Returned (Ok tt))
  | Returned (Err err) => (snap, Returned (Err err))
  | Panicked msg => (snap, Panicked msg)
  end.
End load.

(** ** The middleware (middleware.go) *)

Definition bearerPrefix : string := "Bearer ".

(** The user that an Authorization header authenticates; [None] is the 401
    response. *)
Definition Bearer (snap : userSnapshot) (authz : string) : option User :=
  if (slen authz <? slen bearerPrefix)
     || negb (equal_fold_ascii (str_take 7 authz) bearerPrefix)
  then None
  else
    let token := str_drop 7 authz in
    if bool_decide (token = "") || contains_any token [chr " "; Byte.x09; Byte.x0d; Byte.x0a]
    then None
    else match Lookup snap token with
         | Err _ => None
         | Ok user => Some user
         end.

(** ** What validation establishes *)

(** A list of users that the server may serve. *)
Definition users_wf (users : list User) : Prop :=
  NoDup (u_ID <$> users) ∧ NoDup (u_Name <$> users)
  ∧ Forall (λ u, 1 ≤ u_ID u ∧ u_Name u ≠ "" ∧ u_TokenPrefix u ≠ ""
                 ∧ hashPattern (u_TokenHash u) = true) users.

(** [u] is entry [e] with its text normalised. *)
Definition normalised (e : userEntry) (u : User) : Prop :=
  u_ID u = e_ID e ∧ u_Name u = TrimSpace (e_Name e) ∧ u_TokenPrefix u = TrimSpace (e_TokenPrefix e)
  ∧ u_TokenHash u = lower_ascii (TrimSpace (e_TokenHash e)) ∧ u_Disabled u = e_Disabled e.

Lemma validate_from_ok i ids names es users :
  validate_from i ids names es = Ok users →
  users_wf users ∧ Forall2 normalised es users
  ∧ Forall (λ u, (u_ID u ∉ ids) ∧ (u_Name u ∉ names)) users.
Proof.
  revert i ids names users. induction es as [|e es IH]; intros i ids names users; cbn [validate_from].
  - intros [= <-]. repeat constructor.
  - destruct (Z.ltb_spec (e_ID e) 1); [done|]. repeat (case_decide; [done|]).
    destruct (hashPattern _) eqn:Hh; [|done]. cbn [negb].
    destruct (validate_from _ _ _ es) as [us|] eqn:Hv; [|done]. intros [= <-].
    apply IH in Hv as ((Hi & Hn & Hf) & Hnorm & Hfresh).
    rewrite Forall_forall in Hfresh. split_and!.
    + split; [|split]; rewrite ?fmap_cons.
      * apply NoDup_cons. split; [|done]. intros (u & Hu & Hin)%list_elem_of_fmap.
        destruct (Hfresh u Hin) as [Hx _]. apply Hx. rewrite <- Hu. apply elem_of_union_l.
        by apply elem_of_singleton.
      * apply NoDup_cons. split; [|done]. intros (u & Hu & Hin)%list_elem_of_fmap.
        destruct (Hfresh u Hin) as [_ Hx]. apply Hx. rewrite <- Hu. apply elem_of_union_l.
        by apply elem_of_singleton.
      * by constructor.
    + by constructor.
    + constructor; [done|]. apply Forall_forall. intros u Hin. destruct (Hfresh u Hin) as [Hf1 Hf2].
      split; intros Hc; [apply Hf1|apply Hf2]; by apply elem_of_union_r.
Qed.

(** ** Snapshots *)

(** The map holds exactly the users, by their hash. *)
Definition snapshot_of (users : list User) (snap : userSnapshot) : Prop :=
  ordered snap = users
  ∧ NoDup (u_TokenHash <$> users)
  ∧ ∀ h u, byHash snap !! h = Some u ↔ u ∈ users ∧ u_TokenHash u = h.

Lemma snapshot_from_run done_ snap users :
  snapshot_of done_ snap →
  match snapshot_from snap users with
  | Some s => snapshot_of (done_ ++ users) s
  | None => ¬ NoDup (u_TokenHash <$> (done_ ++ users))
  end.
Proof.
  revert done_ snap. induction users as [|u users IH]; intros done_ snap Hs; cbn [snapshot_from].
  - by rewrite app_nil_r.
  - destruct Hs as (Ho & Hnd & Hm).
    destruct (byHash snap !! u_TokenHash u) as [v|] eqn:Hl.
    + apply Hm in Hl as [Hin Hh]. rewrite fmap_app, fmap_cons. intros Hnd'.
      apply NoDup_app in Hnd' as (_ & Hdis & _). apply (Hdis (u_TokenHash v)).
      * apply list_elem_of_fmap. by exists v.
      * rewrite Hh. apply list_elem_of_here.
    + replace (done_ ++ u :: users) with ((done_ ++ [u]) ++ users) by (by rewrite <- app_assoc).
      apply IH. split; [by rewrite <- Ho|]. split.
      * rewrite fmap_app. apply NoDup_app. split; [done|]. split; [|apply NoDup_singleton].
        intros h (v & -> & Hv)%list_elem_of_fmap Hin. apply list_elem_of_singleton in Hin.
        assert (byHash snap !! u_TokenHash u = Some v) by (by apply Hm). congruence.
      * intros h v. simpl. rewrite lookup_insert_Some, elem_of_app, list_elem_of_singleton.
        rewrite Hm. split.
        -- intros [[<- <-]|[Hne [Hin Hh]]]; auto.
        -- intros [[Hin| ->] <-]; [|by auto]. right. split; [|done]. intros Heq.
           assert (byHash snap !! u_TokenHash u = Some v) by (by apply Hm). congruence.
Qed.

Lemma newUserSnapshot_run users :
  match newUserSnapshot users with
  | Some s => snapshot_of users s
  | None => ¬ NoDup (u_TokenHash <$> users)
  end.
Proof.
  apply (snapshot_from_run []). split; [done|]. split; [constructor|]. intros h u. simpl.
  rewrite lookup_empty. split; [done|]. by intros [?%not_elem_of_nil _].
Qed.

Lemma Lookup_Ok users snap token u :
  snapshot_of users snap →
  Lookup snap token = Ok u ↔ u ∈ users ∧ u_TokenHash u = token_hash token ∧ u_Disabled u = false.
Proof.
  intros (_ & _ & Hm). unfold Lookup. destruct (byHash snap !! token_hash token) as [v|] eqn:Hl.
  - apply Hm in Hl as Hv. destruct Hv as [Hin Hh]. rewrite bool_decide_true by done. simpl.
    destruct (u_Disabled v) eqn:Hd; split; try done.
    + intros (Hin' & Hh' & Hd'). assert (Some u = Some v) by (rewrite <- Hl; symmetry; by apply Hm).
      simplify_eq. congruence.
    + intros [= ->]. done.
    + intros (Hin' & Hh' & Hd'). assert (Some u = Some v) by (rewrite <- Hl; symmetry; by apply Hm).
      by simplify_eq.
  - split; [done|]. intros (Hin & Hh & _).
    assert (byHash snap !! token_hash token = Some u) by (by apply Hm). congruence.
Qed.

Lemma Lookup_Err snap token e : Lookup snap token = Err e → e = ErrSentinel ErrUnauthorized.
Proof. unfold Lookup. repeat case_match; congruence. Qed.
