(* ===== verification/Api.v ===== *)
(** The HTTP handlers (src/internal/api: handlers.go, dto.go).

    A handler takes the request that reached it (the user the middleware put
    in its context, the path's {id}, the body) and the world, and gives the
    response it wrote, the records it logged and the new world.  The
    handlers use the store only through [EncryptedStore].  Request bodies
    are bytes, decoded by [Json]; response bodies are the values that
    writeJSON encodes. *)

From S2P Require Import Prelude GoTime Env Store AesGcm GoLib Json Auth.

(** ** Data transfer objects (dto.go) *)

Record configResponse := mk_configResponse {
  cr_ID : Z;
  cr_Name : string;
  cr_Content : string;
  cr_LastUsedWithVersion : option string;
  cr_CreatedAt : string;
  cr_ModifiedAt : string;
}.

Record userResponse := mk_userResponse {
  ur_ID : Z;
  ur_Name : string;
  ur_ActiveConfig : option Z;
}.

Record createConfigRequest := mk_createConfigRequest { cq_Name : string }.

Record patchConfigRequest := mk_patchConfigRequest {
  pq_Name : option string;
  pq_Content : option string;
  pq_LastUsedWithVersion : option string;
}.

Definition newConfigResponse (c : ConfigWithPlaintext) : configResponse :=
  mk_configResponse (pt_ID c) (pt_Name c) (string_of_bytes (pt_Content c))
    (if decide (pt_LastUsedWithVersion c = "") then None else Some (pt_LastUsedWithVersion c))
    (Format (pt_CreatedAt c)) (Format (pt_ModifiedAt c)).

(** ** Constants (handlers.go) *)

Definition errBadRequest : string := "bad request".
Definition errInvalidRequest : string := "invalid request".
Definition errNotFound : string := "not found".
Definition errInternalError : string := "internal error".
Definition errQuotaExceeded : string := "quota exceeded".
Definition errContentTooLarge : string := "content too large".

Definition MaxConfigsPerUser : Z := 50.
Definition MaxContentBytes : Z := 2 * 1024 * 1024.

(** ** Requests, responses, log records *)

Record Request := mk_Request {
  rq_user : option User;       (* auth.UserFromContext(r.Context()) *)
  rq_id : string;              (* r.PathValue("id") *)
  rq_body : option bytes;      (* r.Body; None is nil *)
}.

Inductive Body :=
  | BUser (r : userResponse)
  | BConfigs (l : list configResponse)
  | BConfig (r : configResponse)
  | BError (code : string)
  | BEmpty.

Record Response := mk_Response { rs_status : Z; rs_body : Body }.

Record LogRecord := mk_LogRecord {
  lg_msg : string;
  lg_op : string;
  lg_user : option Z;
  lg_config : option Z;
}.

Definition Out : Type := Response * list LogRecord.

Definition writeJSON (status : Z) (b : Body) : Out := (mk_Response status b, []).
Definition writeError (status : Z) (code : string) : Out := writeJSON status (BError code).

(** The user, or the response of a request that reached a handler without
    one. *)
Definition currentUser (r : Request) : Out + User :=
  match rq_user r with
  | None => inl ((writeError 500 errInternalError).1,
                 [mk_LogRecord "auth user missing on authenticated request" "current_user" None None])
  | Some u => inr u
  end.

Definition storeErrorAttrs (msg op : string) (userID configID : Z) : LogRecord :=
  mk_LogRecord msg op (Some userID) (if 0 <? configID then Some configID else None).

Definition writeStoreError (op : string) (userID configID : Z) (err : error) : Out :=
  if errors_is err ErrConfigNotFound then writeError 404 errNotFound
  else if errors_is err ErrDecrypt then
    ((writeError 500 errInternalError).1, [storeErrorAttrs "decrypt failure" op userID configID])
  else
    ((writeError 500 errInternalError).1, [storeErrorAttrs "internal error" op userID configID]).

Definition parseConfigID (r : Request) : Out + Z :=
  match ParseInt (rq_id r) with
  | None => inl (writeError 404 errNotFound)
  | Some id => if id <=? 0 then inl (writeError 404 errNotFound) else inr id
  end.

(** ** Decoding request bodies *)

(** How a request struct takes one member of the object; [None] is an
    unknown field or a value of the wrong type. *)
Definition createConfigRequest_set (q : createConfigRequest) (kv : bytes * json)
    : option createConfigRequest :=
  if field_is "name" kv.1 then
    match kv.2 with
    | JStr s => Some (mk_createConfigRequest (string_of_bytes s))
    | JNull => Some q
    | _ => None
    end
  else None.

Definition string_ptr (v : json) : option (option string) :=
  match v with
  | JStr s => Some (Some (string_of_bytes s))
  | JNull => Some None
  | _ => None
  end.

Definition patchConfigRequest_set (q : patchConfigRequest) (kv : bytes * json)
    : option patchConfigRequest :=
  if field_is "name" kv.1 then
    (λ v, mk_patchConfigRequest v (pq_Content q) (pq_LastUsedWithVersion q)) <$> string_ptr kv.2
  else if field_is "content" kv.1 then
    (λ v, mk_patchConfigRequest (pq_Name q) v (pq_LastUsedWithVersion q)) <$> string_ptr kv.2
  else if field_is "last_used_with_version" kv.1 then
    (λ v, mk_patchConfigRequest (pq_Name q) (pq_Content q) v) <$> string_ptr kv.2
  else None.

Fixpoint set_members {R} (set : R → bytes * json → option R) (q : R) (l : list (bytes * json))
    : option R :=
  match l with
  | [] => Some q
  | kv :: l' => match set q kv with Some q' => set_members set q' l' | None => None end
  end.

(** [dec.Decode(v)] followed by [dec.More()]; a top-level null leaves the
    struct as it is. *)
Definition decodeJSON {R} (set : R → bytes * json → option R) (zero : R) (body : option bytes)
    : Out + R :=
  match body with
  | None => inl (writeError 400 errBadRequest)
  | Some b =>
      match parse_json b with
      | None => inl (writeError 400 errBadRequest)
      | Some (v, rest) =>
          let decoded := match v with
                         | JObj l => set_members set zero l
                         | JNull => Some zero
                         | _ => None
                         end in
          match decoded with
          | None => inl (writeError 400 errBadRequest)
          | Some q => if More rest then inl (writeError 400 errBadRequest) else inr q
          end
      end
  end.

(** ** The handlers *)

Section handlers.
Context {W : Type} {ES : EncryptedStore W}.

Definition Handler : Type := Request → W → Out * W.

Definition handleGetUser : Handler := λ r w,
  match currentUser r with
  | inl out => (out, w)
  | inr u => (writeJSON 200 (BUser (mk_userResponse (u_ID u) (u_Name u) None)), w)
  end.

Definition handleListConfigs : Handler := λ r w,
  match currentUser r with
  | inl out => (out, w)
  | inr u =>
      match ListConfigsByUserPlaintext (u_ID u) w with
      | (Err err, w') => (writeStoreError "list_configs" (u_ID u) 0 err, w')
      | (Ok rows, w') => (writeJSON 200 (BConfigs (newConfigResponse <$> rows)), w')
      end
  end.

Definition handleGetConfig : Handler := λ r w,
  match currentUser r with
  | inl out => (out, w)
  | inr u =>
      match parseConfigID r with
      | inl out => (out, w)
      | inr id =>
          match GetConfigPlaintext (u_ID u) id w with
          | (Err err, w') => (writeStoreError "get_config" (u_ID u) id err, w')
          | (Ok row, w') => (writeJSON 200 (BConfig (newConfigResponse row)), w')
          end
      end
  end.

Definition handleCreateConfig : Handler := λ r w,
  match currentUser r with
  | inl out => (out, w)
  | inr u =>
      match decodeJSON createConfigRequest_set (mk_createConfigRequest "") (rq_body r) with
      | inl out => (out, w)
      | inr req =>
          if decide (cq_Name req = "") then (writeError 400 errInvalidRequest, w)
          else
            match CountConfigsByUserEnc (u_ID u) w with
            | (Err err, w1) => (writeStoreError "count_configs" (u_ID u) 0 err, w1)
            | (Ok count, w1) =>
                if MaxConfigsPerUser <=? count then (writeError 409 errQuotaExceeded, w1)
                else
                  match CreateConfigPlaintext (u_ID u)
                          (mk_CreateConfigPlaintextInput (cq_Name req) [] "") w1 with
                  | (Err err, w2) => (writeStoreError "create_config" (u_ID u) 0 err, w2)
                  | (Ok row, w2) => (writeJSON 201 (BConfig (newConfigResponse row)), w2)
                  end
            end
      end
  end.

(** The patch that a request sends down. *)
Definition request_patch (req : patchConfigRequest) : UpdateConfigPlaintextPatch :=
  mk_UpdateConfigPlaintextPatch (pq_Name req) (bytes_of_string <$> pq_Content req)
    (pq_LastUsedWithVersion req).

Definition content_too_large (req : patchConfigRequest) : bool :=
  match pq_Content req with
  | Some c => MaxContentBytes <? slen c
  | None => false
  end.

(** [rounds] bounds the store's retry loop; [None] says that it has not
    returned yet. *)
Definition handlePatchConfig (rounds : nat) (r : Request) (w : W) : option Out * W :=
  match currentUser r with
  | inl out => (Some out, w)
  | inr u =>
      match parseConfigID r with
      | inl out => (Some out, w)
      | inr id =>
          match decodeJSON patchConfigRequest_set (mk_patchConfigRequest None None None) (rq_body r) with
          | inl out => (Some out, w)
          | inr req =>
              if decide (pq_Name req = None ∧ pq_Content req = None ∧ pq_LastUsedWithVersion req = None)
              then (Some (writeError 400 errInvalidRequest), w)
              else if content_too_large req then (Some (writeError 413 errContentTooLarge), w)
              else
                match UpdateConfigPlaintext rounds (u_ID u) id (request_patch req) w with
                | (None, w') => (None, w')
                | (Some (Err err), w') => (Some (writeStoreError "update_config" (u_ID u) id err), w')
                | (Some (Ok row), w') => (Some (writeJSON 200 (BConfig (newConfigResponse row))), w')
                end
          end
      end
  end.

Definition handleDeleteConfig : Handler := λ r w,
  match currentUser r with
  | inl out => (out, w)
  | inr u =>
      match parseConfigID r with
      | inl out => (out, w)
      | inr id =>
          match DeleteConfigEnc (u_ID u) id w with
          | (Err err, w') => (writeStoreError "delete_config" (u_ID u) id err, w')
          | (Ok _, w') => ((mk_Response 204 BEmpty, []), w')
          end
      end
  end.

(** The endpoints that api.New registers. *)
Inductive Endpoint :=
  | GetUser | ListConfigs | CreateConfigEP | GetConfigEP | PatchConfigEP | DeleteConfigEP.

Definition serve (rounds : nat) (ep : Endpoint) (r : Request) (w : W) : option Out * W :=
  match ep with
  | GetUser => let '(o, w') := handleGetUser r w in (Some o, w')
  | ListConfigs => let '(o, w') := handleListConfigs r w in (Some o, w')
  | CreateConfigEP => let '(o, w') := handleCreateConfig r w in (Some o, w')
  | GetConfigEP => let '(o, w') := handleGetConfig r w in (Some o, w')
  | PatchConfigEP => handlePatchConfig rounds r w
  | DeleteConfigEP => let '(o, w') := handleDeleteConfig r w in (Some o, w')
  end.
End handlers.
