(* ===== verification/ApiLaws.v ===== *)
(** What the handlers do to the rows and what they answer, proved against
    the interface [EncryptedStoreSpec]. *)

From stdpp Require Import relations.
From S2P Require Import Prelude GoTime Env Store AesGcm GoLib Json Auth Api History.

(** An error response, which logs nothing. *)
Definition refusal (status : Z) (code : string) : Out := (mk_Response status (BError code), []).

Definition not_found : Out := refusal 404 "not found".

(** A 500 whose only trace is one log record with an operation and IDs. *)
Definition internal (o : Out) : Prop :=
  o.1 = mk_Response 500 (BError "internal error") ∧ ∃ l, o.2 = [l].

Lemma writeStoreError_run op u c e :
  writeStoreError op u c e = not_found ∧ errors_is e ErrConfigNotFound = true
  ∨ internal (writeStoreError op u c e) ∧ errors_is e ErrConfigNotFound = false.
Proof.
  unfold writeStoreError, internal. destruct (errors_is e ErrConfigNotFound); [by left|right].
  split; [|done]. destruct (errors_is e ErrDecrypt); simpl; eauto.
Qed.

Lemma writeStoreError_internal op u c e :
  no_sentinel e → internal (writeStoreError op u c e).
Proof.
  intros He. destruct (writeStoreError_run op u c e) as [[_ H]|[H _]]; [|done].
  by rewrite no_sentinel_is in H.
Qed.

Lemma decodeJSON_error {R} set (z : R) b out :
  decodeJSON set z b = inl out → out = refusal 400 "bad request".
Proof. unfold decodeJSON. repeat case_match; intros ?; by simplify_eq. Qed.

Lemma parseConfigID_run r :
  match parseConfigID r with
  | inl out => out = not_found ∧ ∀ id, ParseInt (rq_id r) = Some id → id ≤ 0
  | inr id => ParseInt (rq_id r) = Some id ∧ 0 < id
  end.
Proof.
  unfold parseConfigID. destruct (ParseInt (rq_id r)) as [id|]; [|done].
  destruct (Z.leb_spec id 0); [|done]. split; [done|]. by intros ? [= <-].
Qed.

Section laws.
Context {W : Type} {ES : EncryptedStore W} {Sp : EncryptedStoreSpec W}.
Implicit Types (w : W) (u : User) (r : Request).

(** ** Effects *)

Lemma serve_no_user n ep r w :
  rq_user r = None →
  serve n ep r w = (Some (mk_Response 500 (BError errInternalError),
                          [mk_LogRecord "auth user missing on authenticated request" "current_user" None None]), w).
Proof using.
  intros Hu. destruct ep; unfold serve, handleGetUser, handleListConfigs, handleCreateConfig,
    handleGetConfig, handlePatchConfig, handleDeleteConfig, currentUser; by rewrite Hu.
Qed.

Lemma serve_effect n ep r u w o w' :
  rq_user r = Some u → serve n ep r w = (o, w') → effect (u_ID u) (prows w) (prows w').
Proof using.
  intros Hu H. assert (Hrefl : ∀ x : W, effect (u_ID u) (prows x) (prows x)) by (intros; apply rtc_refl).
  destruct ep; unfold serve, handleGetUser, handleListConfigs, handleCreateConfig, handleGetConfig,
    handlePatchConfig, handleDeleteConfig, currentUser in H; rewrite Hu in H.
  - by simplify_eq.
  - destruct (ListConfigsByUserPlaintext (u_ID u) w) as [[l|e] w1] eqn:Hl; simplify_eq;
      by apply list_pt_spec in Hl as [?%(effect_rely (u_ID u)) _].
  - destruct (decodeJSON _ _ _); [by simplify_eq|]. case_decide; [by simplify_eq|].
    destruct (CountConfigsByUserEnc (u_ID u) w) as [[n'|e] w1] eqn:Hc;
      apply count_pt_spec in Hc as [Hc%(effect_rely (u_ID u)) _]; [|by simplify_eq].
    destruct (_ <=? _); [by simplify_eq|].
    destruct (CreateConfigPlaintext (u_ID u) _ w1) as [[cfg|e] w2] eqn:Hcr;
      apply create_effect in Hcr; simplify_eq; by eapply effect_trans.
  - destruct (parseConfigID r); [by simplify_eq|].
    destruct (GetConfigPlaintext (u_ID u) _ w) as [[c|e] w1] eqn:Hg; simplify_eq;
      by apply get_pt_spec in Hg as [?%(effect_rely (u_ID u)) _].
  - destruct (parseConfigID r); [by simplify_eq|]. destruct (decodeJSON _ _ _); [by simplify_eq|].
    case_decide; [by simplify_eq|]. destruct (content_too_large _); [by simplify_eq|].
    destruct (UpdateConfigPlaintext n (u_ID u) _ _ w) as [[[c|e]|] w1] eqn:Hp; simplify_eq;
      by apply update_effect in Hp.
  - destruct (parseConfigID r); [by simplify_eq|].
    destruct (DeleteConfigEnc (u_ID u) _ w) as [[c|e] w1] eqn:Hd; simplify_eq;
      by apply delete_effect in Hd.
Qed.

(** A property of [v]'s rows that the other requests keep is kept by every
    request that another user, or nobody, makes. *)
Lemma serve_own_rows n ep r v w o w' (Q : gmap Z PRow → Prop) :
  (∀ u, rq_user r = Some u → u_ID u ≠ v) →
  (∀ m m', prely m m' → Q (pt_own v m) → Q (pt_own v m')) →
  serve n ep r w = (o, w') → Q (pt_own v (prows w)) → Q (pt_own v (prows w')).
Proof using.
  intros Hne Hrely Hs. destruct (rq_user r) as [u|] eqn:Hu.
  2: { rewrite serve_no_user in Hs by done. by simplify_eq. }
  apply (serve_effect n ep r u) in Hs; [|done]. specialize (Hne u eq_refl).
  induction Hs as [m|m1 m2 m3 Hs _ IH]; [done|]. intros HQ. apply IH.
  destruct Hs as [Hs|Hs]; [by eapply Hrely|].
  by rewrite (pt_own_foreign (u_ID u) v m1 m2 Hne (own_step_foreign _ _ _ Hs)).
Qed.

(** ** Answers *)

(** The JSON object that shows a configuration. *)
Definition shows (cr : configResponse) (cfg : ConfigWithPlaintext) : Prop :=
  cr_ID cr = pt_ID cfg ∧ cr_Name cr = pt_Name cfg ∧ bytes_of_string (cr_Content cr) = pt_Content cfg
  ∧ cr_LastUsedWithVersion cr = (if decide (pt_LastUsedWithVersion cfg = "") then None
                                 else Some (pt_LastUsedWithVersion cfg))
  ∧ cr_CreatedAt cr = Format (pt_CreatedAt cfg) ∧ cr_ModifiedAt cr = Format (pt_ModifiedAt cfg).

(** A success response with one configuration. *)
Definition one_config (status : Z) (o : Out) (cfg : ConfigWithPlaintext) : Prop :=
  ∃ cr, o = (mk_Response status (BConfig cr), []) ∧ shows cr cfg.

(** The user has no configuration [c], readable or not. *)
Definition nowhere w' (i c : Z) : Prop := ¬ pt_owned (prows w') i c ∧ plost w' !! c ≠ Some i.

(** The store failed with something else than "not found". *)
Definition broke {A} (res : result A) (o : Out) : Prop :=
  ∃ e, res = Err e ∧ errors_is e ErrConfigNotFound = false ∧ internal o.

(** The path's ID, which must be a positive number. *)
Definition path_id r (id : Z) : Prop := ParseInt (rq_id r) = Some id ∧ 0 < id.

(** What a request of [u] is answered, endpoint by endpoint, with [w] the
    world before and [w'] the world after. *)
Definition answer n u ep r w w' (o : Out) : Prop :=
  let i := u_ID u in
  match ep with
  | GetUser => o = (mk_Response 200 (BUser (mk_userResponse i (u_Name u) None)), []) ∧ w' = w
  | ListConfigs =>
      (∃ l crs, o = (mk_Response 200 (BConfigs crs), []) ∧ Forall2 shows crs l
         ∧ pt_listing i (prows w') l ∧ lost_rows i (plost w') = ∅)
      ∨ broke (ListConfigsByUserPlaintext i w).1 o
  | CreateConfigEP =>
      match decodeJSON createConfigRequest_set (mk_createConfigRequest "") (rq_body r) with
      | inl _ => o = refusal 400 "bad request" ∧ w' = w
      | inr req =>
          (cq_Name req = "" ∧ o = refusal 400 "invalid request" ∧ w' = w)
          ∨ (cq_Name req ≠ "" ∧ ∃ w1,
               prely (prows w) (prows w1)
               ∧ ((50 ≤ Z.of_nat (size (pt_own i (prows w1)) + size (lost_rows i (plost w1)))
                   ∧ o = refusal 409 "quota exceeded" ∧ w' = w1)
                  ∨ (∃ cfg, Z.of_nat (size (pt_own i (prows w1)) + size (lost_rows i (plost w1))) < 50
                      ∧ one_config 201 o cfg ∧ pt_row (prows w') i (pt_ID cfg) cfg
                      ∧ pt_Name cfg = cq_Name req ∧ pt_Content cfg = [])))
          ∨ broke (CountConfigsByUserEnc i w).1 o
          ∨ broke (CreateConfigPlaintext i (mk_CreateConfigPlaintextInput (cq_Name req) [] "")
                     (CountConfigsByUserEnc i w).2).1 o
      end
  | GetConfigEP =>
      ((∀ id, ¬ path_id r id) ∧ o = not_found ∧ w' = w)
      ∨ ∃ id, path_id r id
          ∧ ((∃ cfg, one_config 200 o cfg ∧ pt_row (prows w') i id cfg)
             ∨ (o = not_found ∧ nowhere w' i id)
             ∨ broke (GetConfigPlaintext i id w).1 o)
  | PatchConfigEP =>
      ((∀ id, ¬ path_id r id) ∧ o = not_found ∧ w' = w)
      ∨ ∃ id, path_id r id
          ∧ match decodeJSON patchConfigRequest_set (mk_patchConfigRequest None None None) (rq_body r) with
            | inl _ => o = refusal 400 "bad request" ∧ w' = w
            | inr (mk_patchConfigRequest None None None) => o = refusal 400 "invalid request" ∧ w' = w
            | inr (mk_patchConfigRequest name text version) =>
                let p := mk_UpdateConfigPlaintextPatch name (bytes_of_string <$> text) version in
                (∃ c, text = Some c ∧ 2097152 < slen c ∧ o = refusal 413 "content too large" ∧ w' = w)
                ∨ (∃ cfg seen m m', one_config 200 o cfg ∧ pt_row (prows w') i id cfg
                     ∧ (pt_commits p seen i id m m' ∨ (m !! id = None ∧ m' = m)) ∧ prely m' (prows w'))
                ∨ (o = not_found ∧ nowhere w' i id)
                ∨ ∃ res, (UpdateConfigPlaintext n i id p w).1 = Some res ∧ broke res o
            end
  | DeleteConfigEP =>
      ((∀ id, ¬ path_id r id) ∧ o = not_found ∧ w' = w)
      ∨ ∃ id, path_id r id
          ∧ ((o = (mk_Response 204 BEmpty, []) ∧ prows w' !! id = None)
             ∨ (o = not_found ∧ nowhere w' i id)
             ∨ broke (DeleteConfigEnc i id w).1 o)
  end.

Lemma newConfigResponse_shows cfg : shows (newConfigResponse cfg) cfg.
Proof using. unfold shows, newConfigResponse. simpl. by rewrite bytes_string_roundtrip. Qed.

Lemma newConfigResponse_config status cfg :
  one_config status (writeJSON status (BConfig (newConfigResponse cfg))) cfg.
Proof using. eexists. split; [done|]. apply newConfigResponse_shows. Qed.

Lemma writeStoreError_broke {A} op (i c : Z) e :
  errors_is e ErrConfigNotFound = false → broke (Err (A := A) e) (writeStoreError op i c e).
Proof using.
  intros He. exists e. split; [done|]. split; [done|].
  destruct (writeStoreError_run op i c e) as [[_ H]|[H _]]; [congruence|done].
Qed.

(** The errors of a read or a write of one row. *)
Lemma store_error_answer {A} op (i c k : Z) e w' :
  (e = ErrSentinel ErrConfigNotFound ∧ nowhere w' i c)
  ∨ (e = ErrSentinel ErrDecrypt ∧ pt_damaged (prows w') i c) ∨ no_sentinel e →
  (writeStoreError op i k e = not_found ∧ nowhere w' i c) ∨ broke (Err (A := A) e) (writeStoreError op i k e).
Proof using.
  intros [[-> Hn]|[[-> _]|He]]; [by left|right; by apply writeStoreError_broke|].
  right. apply writeStoreError_broke. by apply no_sentinel_is.
Qed.

Lemma path_id_run r :
  match parseConfigID r with
  | inl out => out = not_found ∧ ∀ id, ¬ path_id r id
  | inr id => path_id r id
  end.
Proof using.
  pose proof (parseConfigID_run r) as H. destruct (parseConfigID r) as [out|id]; [|done].
  destruct H as [-> H]. split; [done|]. intros id [Hid Hpos]. specialize (H id Hid). lia.
Qed.

Lemma list_answer n u r w o w' :
  rq_user r = Some u → serve n ListConfigs r w = (Some o, w') → answer n u ListConfigs r w w' o.
Proof using.
  intros Hu H. unfold serve, handleListConfigs, currentUser in H. rewrite Hu in H. unfold answer. cbn zeta.
  destruct (ListConfigsByUserPlaintext (u_ID u) w) as [[l|e] w1] eqn:Hl; simplify_eq;
    apply list_pt_spec in Hl as [_ Hl].
  - left. exists l, (newConfigResponse <$> l). destruct Hl. split_and!; [done| |done|done].
    apply Forall2_fmap_l, Forall_Forall2_diag, Forall_true. apply newConfigResponse_shows.
  - right. apply writeStoreError_broke. destruct Hl as [[-> _]|He]; [done|by apply no_sentinel_is].
Qed.

Lemma create_answer n u r w o w' :
  rq_user r = Some u → serve n CreateConfigEP r w = (Some o, w') → answer n u CreateConfigEP r w w' o.
Proof using.
  intros Hu H. unfold serve, handleCreateConfig, currentUser in H. rewrite Hu in H. unfold answer. cbn zeta.
  destruct (decodeJSON _ _ _) as [out|req] eqn:Hd.
  { apply decodeJSON_error in Hd as ->. by simplify_eq. }
  case_decide as Hname; [left; by simplify_eq|].
  destruct (CountConfigsByUserEnc (u_ID u) w) as [[k|e] w1] eqn:Hc; apply count_pt_spec in Hc as [Hr Hc]; cbn [fst snd].
  2: { simplify_eq. right; right; left. by apply writeStoreError_broke, no_sentinel_is. }
  subst k. unfold MaxConfigsPerUser in H. destruct (Z.leb_spec 50 (Z.of_nat (size (pt_own (u_ID u) (prows w1))
    + size (lost_rows (u_ID u) (plost w1))))) as [Hle|Hlt].
  { simplify_eq. right; left. split; [done|]. exists w'. by split; [|left]. }
  destruct (CreateConfigPlaintext (u_ID u) _ w1) as [[cfg|e] w2] eqn:Hcr; simplify_eq;
    apply create_pt_spec in Hcr as (m & _ & Hcr).
  - destruct Hcr as (Hown & Hn & Hct & _ & _ & _ & _ & Hrows). right; left. split; [done|]. exists w1. split; [done|].
    right. exists cfg. split_and!; [done|apply newConfigResponse_config| |done|done].
    unfold pt_row. by rewrite Hrows, lookup_insert_eq.
  - destruct Hcr as [_ He]. right; right; right. by apply writeStoreError_broke, no_sentinel_is.
Qed.

Lemma get_answer n u r w o w' :
  rq_user r = Some u → serve n GetConfigEP r w = (Some o, w') → answer n u GetConfigEP r w w' o.
Proof using.
  intros Hu H. unfold serve, handleGetConfig, currentUser in H. rewrite Hu in H. unfold answer. cbn zeta.
  pose proof (path_id_run r) as Hid. destruct (parseConfigID r) as [out|id].
  { destruct Hid as [-> Hid]. simplify_eq. by left. }
  right. exists id. split; [done|].
  destruct (GetConfigPlaintext (u_ID u) id w) as [[cfg|e] w1] eqn:Hg; simplify_eq; apply get_pt_spec in Hg as [_ Hg].
  - left. exists cfg. split; [apply newConfigResponse_config|done].
  - right. by apply store_error_answer.
Qed.

Lemma patch_answer n u r w o w' :
  rq_user r = Some u → serve n PatchConfigEP r w = (Some o, w') → answer n u PatchConfigEP r w w' o.
Proof using.
  intros Hu H. unfold serve, handlePatchConfig, currentUser in H. rewrite Hu in H. unfold answer. cbn zeta.
  pose proof (path_id_run r) as Hid. destruct (parseConfigID r) as [out|id].
  { destruct Hid as [-> Hid]. simplify_eq. by left. }
  right. exists id. split; [done|]. destruct (decodeJSON _ _ _) as [out|[name text version]] eqn:Hd.
  { apply decodeJSON_error in Hd as ->. by simplify_eq. }
  case_decide as Hnone; cbn [pq_Name pq_Content pq_LastUsedWithVersion] in Hnone.
  { destruct Hnone as (-> & -> & ->). by simplify_eq. }
  enough (HQ : (∃ c, text = Some c ∧ 2097152 < slen c ∧ o = refusal 413 "content too large" ∧ w' = w)
    ∨ (∃ cfg seen m m', one_config 200 o cfg ∧ pt_row (prows w') (u_ID u) id cfg
         ∧ (pt_commits (mk_UpdateConfigPlaintextPatch name (bytes_of_string <$> text) version) seen (u_ID u) id m m'
            ∨ (m !! id = None ∧ m' = m)) ∧ prely m' (prows w'))
    ∨ (o = not_found ∧ nowhere w' (u_ID u) id)
    ∨ ∃ res, (UpdateConfigPlaintext n (u_ID u) id
                (mk_UpdateConfigPlaintextPatch name (bytes_of_string <$> text) version) w).1 = Some res ∧ broke res o)
    by (destruct name, text, version; try exact HQ; by destruct Hnone).
  unfold content_too_large in H. cbn [pq_Content] in H.
  destruct (match text with Some c => MaxContentBytes <? slen c | None => false end) eqn:Hbig.
  { destruct text as [c|]; [|done]. apply Z.ltb_lt in Hbig. simplify_eq. left. by exists c. }
  right. unfold request_patch in H. cbn [pq_Name pq_Content pq_LastUsedWithVersion] in H.
  destruct (UpdateConfigPlaintext n (u_ID u) id _ w) as [[[cfg|e]|] w1] eqn:Hp; simplify_eq; apply update_pt_spec in Hp.
  - destruct Hp as (_ & seen & m & m' & _ & _ & _ & Hc & Hr & Hrow). left.
    exists cfg, seen, m, m'. split_and!; [apply newConfigResponse_config|done..].
  - destruct Hp as [_ He]. right. destruct (store_error_answer (A := ConfigWithPlaintext) "update_config" (u_ID u) id id e w' He)
      as [?|?]; [by left|right]. by exists (Err e).
Qed.

Lemma delete_answer n u r w o w' :
  rq_user r = Some u → serve n DeleteConfigEP r w = (Some o, w') → answer n u DeleteConfigEP r w w' o.
Proof using.
  intros Hu H. unfold serve, handleDeleteConfig, currentUser in H. rewrite Hu in H. unfold answer. cbn zeta.
  pose proof (path_id_run r) as Hid. destruct (parseConfigID r) as [out|id].
  { destruct Hid as [-> Hid]. simplify_eq. by left. }
  right. exists id. split; [done|].
  destruct (DeleteConfigEnc (u_ID u) id w) as [[[]|e] w1] eqn:Hd; simplify_eq; apply delete_pt_spec in Hd as (m & _ & Hd).
  - left. destruct Hd as [_ ->]. by rewrite lookup_delete_eq.
  - right. apply store_error_answer. destruct Hd as [(-> & <- & Ho & Hl)|[He _]]; [by left|by right; right].
Qed.

Lemma serve_answer n ep r u w o w' :
  rq_user r = Some u → serve n ep r w = (Some o, w') → answer n u ep r w w' o.
Proof using.
  intros Hu H. destruct ep.
  - unfold serve, handleGetUser, currentUser in H. rewrite Hu in H. by simplify_eq.
  - by apply list_answer.
  - by apply create_answer.
  - by apply get_answer.
  - by apply patch_answer.
  - by apply delete_answer.
Qed.

(** ** The quota, when requests do not interleave *)

Definition within_quota (m : gmap Z PRow) : Prop :=
  ∀ v, Z.of_nat (size (pt_own v m)) ≤ MaxConfigsPerUser.

Lemma own_size_dom v (m m' : gmap Z PRow) :
  (∀ k x, m' !! k = Some x → pr_UserID x = v → ∃ y, m !! k = Some y ∧ pr_UserID y = v) →
  (size (pt_own v m') ≤ size (pt_own v m))%nat.
Proof using.
  intros H. rewrite <- !size_dom. apply subseteq_size. intros k. rewrite !elem_of_dom.
  intros [x [Hk Hx]%map_lookup_filter_Some]. destruct (H k x Hk Hx) as (y & Hy & Hv).
  exists y. by apply map_lookup_filter_Some.
Qed.

Lemma commits_size p seen i c v m m' :
  pt_commits p seen i c m m' → (size (pt_own v m') ≤ size (pt_own v m))%nat.
Proof using.
  intros (old & new & Ho & Hu & (Hown & _) & Hm). apply own_size_dom. intros k x Hk Hx.
  destruct Hm as [->|[_ ->]]; destruct (decide (k = c)) as [->|Hne]; simplify_map_eq; eauto.
Qed.

Lemma delete_size c v (m : gmap Z PRow) : (size (pt_own v (delete c m)) ≤ size (pt_own v m))%nat.
Proof using.
  apply own_size_dom. intros k x Hk Hx. exists x. split; [|done].
  by apply lookup_delete_Some in Hk as [_ ?].
Qed.

Lemma create_size c x v (m : gmap Z PRow) :
  m !! c = None →
  size (pt_own v (<[c := x]> m)) = (size (pt_own v m) + (if decide (pr_UserID x = v) then 1 else 0))%nat.
Proof using.
  intros Hno. unfold pt_own. case_decide as Hx.
  - rewrite map_filter_insert_True by done. rewrite map_size_insert_None; [lia|].
    apply map_lookup_filter_None. by left.
  - rewrite map_filter_insert_False by done. rewrite delete_id by done. lia.
Qed.

Section sequential.
Hypothesis alone : PtSequential W.

Lemma update_rows n (u c : Z) p w o w' :
  UpdateConfigPlaintext n u c p w = (o, w') →
  prows w' = prows w ∨ ∃ seen, pt_commits p seen u c (prows w) (prows w').
Proof using alone.
  intros H%update_pt_spec. destruct o as [[cfg|e]|]; [| |left; by apply alone].
  - destruct H as (m0 & seen & m & m' & ->%alone & _ & ->%alone & Hc & Hr%alone & _). subst m'.
    destruct Hc as [Hc|[_ Hc]]; [right; eauto|by left].
  - destruct H as [(m0 & m & m' & ->%alone & ->%alone & Hc & Hr%alone) _]. subst m'.
    destruct Hc as [Hc|(seen & _ & Hc)]; [by left|right; eauto].
Qed.

Lemma serve_quota n ep r w o w' :
  serve n ep r w = (o, w') → within_quota (prows w) → within_quota (prows w').
Proof using alone.
  intros H Hq v. specialize (Hq v). destruct (rq_user r) as [u|] eqn:Hu.
  2: { rewrite serve_no_user in H by done. by simplify_eq. }
  destruct ep; unfold serve, handleGetUser, handleListConfigs, handleCreateConfig, handleGetConfig,
    handlePatchConfig, handleDeleteConfig, currentUser in H; rewrite Hu in H.
  - by simplify_eq.
  - destruct (ListConfigsByUserPlaintext (u_ID u) w) as [[l|e] w1] eqn:Hl; simplify_eq;
      apply list_pt_spec in Hl as [Hr%alone _]; by rewrite Hr.
  - destruct (decodeJSON _ _ _); [by simplify_eq|]. case_decide; [by simplify_eq|].
    destruct (CountConfigsByUserEnc (u_ID u) w) as [[n'|e] w1] eqn:Hc;
      apply count_pt_spec in Hc as [Hr%alone Hc]; [|simplify_eq; by rewrite Hr].
    destruct (Z.leb_spec MaxConfigsPerUser n') as [|Hlt]; [simplify_eq; by rewrite Hr|].
    destruct (CreateConfigPlaintext (u_ID u) _ w1) as [[cfg|e] w2] eqn:Hcr; simplify_eq;
      apply create_pt_spec in Hcr as (m & Hm%alone & Hcr); subst m.
    + destruct Hcr as (Hown & _ & _ & _ & _ & _ & Hno & ->). rewrite create_size by done.
      rewrite Hr in *. case_decide as Hv; [|lia]. simpl in Hv. rewrite Hown in Hv. subst v. lia.
    + destruct Hcr as [-> _]. by rewrite Hr.
  - destruct (parseConfigID r); [by simplify_eq|].
    destruct (GetConfigPlaintext (u_ID u) _ w) as [[c|e] w1] eqn:Hg; simplify_eq;
      apply get_pt_spec in Hg as [Hr%alone _]; by rewrite Hr.
  - destruct (parseConfigID r); [by simplify_eq|]. destruct (decodeJSON _ _ _); [by simplify_eq|].
    case_decide; [by simplify_eq|]. destruct (content_too_large _); [by simplify_eq|].
    destruct (UpdateConfigPlaintext n (u_ID u) _ _ w) as [o1 w1] eqn:Hp.
    assert (w1 = w') as -> by (by destruct o1 as [[]|]; simplify_eq).
    apply update_rows in Hp as [->|(seen & Hp)]; [done|]. apply (commits_size _ _ _ _ v) in Hp. lia.
  - destruct (parseConfigID r) as [|id]; [by simplify_eq|].
    destruct (DeleteConfigEnc (u_ID u) id w) as [[c|e] w1] eqn:Hd; simplify_eq;
      apply delete_pt_spec in Hd as (m & ->%alone & Hd).
    + destruct Hd as [_ ->]. pose proof (delete_size id v (prows w)). lia.
    + destruct Hd as [(_ & -> & _)|[_ [->|[_ ->]]]]; [done..|]. pose proof (delete_size id v (prows w)). lia.
Qed.

(** A row of somebody else is answered like one that does not exist. *)
Lemma serve_foreign n ep r u id x w o w' :
  ep = GetConfigEP ∨ ep = PatchConfigEP ∨ ep = DeleteConfigEP →
  rq_user r = Some u → ParseInt (rq_id r) = Some id → prows w !! id = Some x → pr_UserID x ≠ u_ID u →
  serve n ep r w = (Some o, w') →
  prows w' = prows w
  ∧ (o = not_found ∨ internal o
     ∨ ep = PatchConfigEP ∧ (rs_status o.1 = 400 ∨ rs_status o.1 = 413)).
Proof using alone.
  intros Hep Hu Hid Hx Hne H. pose proof (parseConfigID_run r) as Hp.
  assert (Hno : ¬ pt_owned (prows w) (u_ID u) id) by (intros (y & Hy & Hown); congruence).
  destruct Hep as [->|[->| ->]]; unfold serve, handleGetConfig, handlePatchConfig, handleDeleteConfig,
    currentUser in H; rewrite Hu in H;
    (destruct (parseConfigID r) as [out|id']; [destruct Hp as [-> _]; simplify_eq; by auto|]);
    destruct Hp as [Hp _]; rewrite Hid in Hp; injection Hp as <-.
  - destruct (GetConfigPlaintext (u_ID u) id w) as [[c|e] w1] eqn:Hg; simplify_eq;
      apply get_pt_spec in Hg as [Hr%alone Hg]; rewrite Hr in *; (split; [done|]).
    + destruct Hg as (Hg & _ & Hown). exfalso. apply Hno. exists (shown c). by split.
    + destruct Hg as [[-> _]|[[-> (y & Hy & Hown & _)]|Hs]]; [by left|exfalso; apply Hno; by exists y|].
      right; left. by apply writeStoreError_internal.
  - destruct (decodeJSON _ _ _) as [out|req] eqn:Hd.
    { apply decodeJSON_error in Hd as ->. simplify_eq. split; [done|]. right; right. simpl. auto. }
    case_decide; [simplify_eq; split; [done|]; right; right; simpl; by auto|].
    destruct (content_too_large req); [simplify_eq; split; [done|]; right; right; simpl; by auto|].
    destruct (UpdateConfigPlaintext n (u_ID u) id _ w) as [o1 w1] eqn:Hup. pose proof Hup as Hup'.
    assert (w1 = w') as -> by (by destruct o1 as [[]|]; simplify_eq).
    assert (Hrows : prows w' = prows w).
    { apply update_rows in Hup as [?|(seen & old & new & Ho & Hown & _)]; [done|]. congruence. }
    split; [done|]. apply (update_alone alone) in Hup'. rewrite Hrows in Hup'.
    destruct o1 as [[cfg|e]|]; simplify_eq.
    + destruct Hup' as (seen & (Hs & _ & Hown) & _). exfalso. apply Hno. exists (shown seen). by split.
    + destruct Hup' as [[-> _]|[[-> (y & Hy & Hown & _)]|Hs]]; [by left|exfalso; apply Hno; by exists y|].
      right; left. by apply writeStoreError_internal.
  - destruct (DeleteConfigEnc (u_ID u) id w) as [[c|e] w1] eqn:Hd; simplify_eq;
      apply delete_pt_spec in Hd as (m & ->%alone & Hd).
    + exfalso. apply Hne. by apply Hd.
    + destruct Hd as [(-> & Hr & _)|[Hs Hr]]; [split; [done|by left]|].
      split; [|right; left; by apply writeStoreError_internal].
      destruct Hr as [->|[Hown _]]; [done|]. exfalso. apply Hne. by apply Hown.
Qed.

(** A GET of the caller's own open row shows it. *)
Lemma get_own n r u id cfg w o w' :
  rq_user r = Some u → ParseInt (rq_id r) = Some id → 0 < id → pt_row (prows w) (u_ID u) id cfg →
  serve n GetConfigEP r w = (Some o, w') →
  prows w' = prows w
  ∧ (o = (mk_Response 200 (BConfig (newConfigResponse cfg)), []) ∨ internal o).
Proof using alone.
  intros Hu Hid Hpos Hrow H. unfold serve, handleGetConfig, currentUser, parseConfigID in H.
  rewrite Hu, Hid in H. destruct (Z.leb_spec id 0); [lia|].
  destruct (GetConfigPlaintext (u_ID u) id w) as [[c|e] w1] eqn:Hg; simplify_eq;
    apply get_pt_spec in Hg as [Hr%alone Hg]; rewrite Hr in *; (split; [done|]).
  - left. by rewrite (pt_row_inj _ _ _ _ _ _ Hg Hrow).
  - right. destruct Hrow as (Hrow & _ & Hown).
    destruct Hg as [(_ & Hg & _)|[[_ (y & Hy & _ & Hn)]|Hs]]; [|by simplify_eq|by apply writeStoreError_internal].
    exfalso. apply Hg. exists (shown cfg). by split.
Qed.

(** What a successful PATCH leaves. *)
Lemma patch_own n r u w resp w' :
  rq_user r = Some u → serve n PatchConfigEP r w = (Some resp, w') → rs_status resp.1 = 200 →
  ∃ id req seen cfg, ParseInt (rq_id r) = Some id ∧ 0 < id
    ∧ decodeJSON patchConfigRequest_set (mk_patchConfigRequest None None None) (rq_body r) = inr req
    ∧ pt_row (prows w) (u_ID u) id seen ∧ patched_row (request_patch req) seen cfg
    ∧ resp = (mk_Response 200 (BConfig (newConfigResponse cfg)), [])
    ∧ prows w' = <[id := shown cfg]> (prows w).
Proof using alone.
  intros Hu H Hst. pose proof (parseConfigID_run r) as Hp.
  unfold serve, handlePatchConfig, currentUser in H. rewrite Hu in H.
  destruct (parseConfigID r) as [out|id]; [destruct Hp as [-> _]; by simplify_eq|].
  destruct (decodeJSON _ _ _) as [out|req] eqn:Hd.
  { apply decodeJSON_error in Hd as ->. by simplify_eq. }
  case_decide; [by simplify_eq|]. destruct (content_too_large req); [by simplify_eq|].
  destruct (UpdateConfigPlaintext n (u_ID u) id _ w) as [[[cfg|e]|] w1] eqn:Hup; simplify_eq.
  - apply (update_alone alone) in Hup as (seen & Hs & Hpr & Hr). destruct Hp.
    by exists id, req, seen, cfg.
  - destruct (writeStoreError_run "update_config" (u_ID u) id e) as [[Hw _]|[[Hw _] _]];
      rewrite Hw in Hst; done.
Qed.
End sequential.
End laws.
