(* ===== verification/ApiProps.v ===== *)
(** Properties of the HTTP API over the encrypted SQLite stack. *)

From stdpp Require Import relations.
From S2P Require Import Prelude GoTime Env Store Sql Sqlite AesGcm Crypto Encrypted History Stack.
From S2P Require Import GoLib Json Auth Api ApiLaws.

Section api.
Context {DB : Type} {E : SqlEngine DB} {HK : HKDF}.
Abbreviation W := (World DB).
Implicit Types (w : W) (others : nat → DB → DB) (key : bytes) (r : Request) (u : User).

(** The API over the stack. *)
Definition api others key (n : nat) (ep : Endpoint) r w : option Out * W :=
  @serve W (stack others key) n ep r w.

(** No request changes another user's rows: whatever endpoint, path ID
    and body a request has, whatever it answers and whatever other goroutines
    do meanwhile, a property of user [v]'s rows that those goroutines keep is
    kept by every request that does not carry [v]'s credentials. *)
Theorem api_isolation others key n ep r v w o w' (Q : gmap Z PRow → Prop) :
  (∀ u, rq_user r = Some u → u_ID u ≠ v) →
  (∀ i d, Q (pt_own v (opened key <$> view (committed d))) →
          Q (pt_own v (opened key <$> view (committed (others i d))))) →
  api others key n ep r w = (o, w') →
  Q (pt_own v (stack_rows key w)) → Q (pt_own v (stack_rows key w')).
Proof using.
  intros Hne HQ. apply (serve_own_rows (Sp := stack_spec others key)); [done|].
  by apply (outer_rely_preserves others key (λ m, Q (pt_own v m))).
Qed.


(** A configuration of another user looks like one that does not exist:
    GET, PATCH and DELETE of its ID answer 404 with the fixed body and log
    nothing (or 500 on a system fault, or 400/413 for a bad PATCH body before
    the store is asked), and change nothing. *)
Theorem foreign_config_hidden key n ep r u id x w o w' :
  ep = GetConfigEP ∨ ep = PatchConfigEP ∨ ep = DeleteConfigEP →
  rq_user r = Some u → ParseInt (rq_id r) = Some id →
  stack_rows key w !! id = Some x → pr_UserID x ≠ u_ID u →
  api alone key n ep r w = (Some o, w') →
  stack_rows key w' = stack_rows key w
  ∧ (o = not_found ∨ internal o
     ∨ ep = PatchConfigEP ∧ (rs_status o.1 = 400 ∨ rs_status o.1 = 413)).
Proof using. apply (serve_foreign (Sp := stack_spec alone key) (alone_sequential key)). Qed.

(** C11: When requests do not interleave, no user ever has more than
    MaxConfigsPerUser readable configurations: every request on every endpoint
    keeps the quota. *)
Theorem quota_kept key n ep r w o w' :
  api alone key n ep r w = (o, w') →
  within_quota (stack_rows key w) → within_quota (stack_rows key w').
Proof using. apply (serve_quota (Sp := stack_spec alone key) (alone_sequential key)). Qed.

(** A GET after a successful PATCH shows exactly what the PATCH answered:
    the row the PATCH found, with the fields of its body replaced, or 500 on a
    system fault. *)
Theorem patch_then_get key n r u w resp w1 r' o w2 :
  rq_user r = Some u → api alone key n PatchConfigEP r w = (Some resp, w1) → rs_status resp.1 = 200 →
  rq_user r' = Some u → rq_id r' = rq_id r → api alone key n GetConfigEP r' w1 = (Some o, w2) →
  (o = resp ∨ internal o)
  ∧ ∃ id req seen cfg, ParseInt (rq_id r) = Some id
      ∧ decodeJSON patchConfigRequest_set (mk_patchConfigRequest None None None) (rq_body r) = inr req
      ∧ pt_row (stack_rows key w) (u_ID u) id seen ∧ patched_row (request_patch req) seen cfg
      ∧ resp.1 = mk_Response 200 (BConfig (newConfigResponse cfg)).
Proof using.
  intros Hu Hp Hst Hu' Hid' Hg.
  apply (patch_own (Sp := stack_spec alone key) (alone_sequential key) n r u) in Hp
    as (id & req & seen & cfg & Hid & Hpos & Hd & Hs & Hpr & -> & Hr); [|done..].
  pose proof Hpr as (Hi & Hown & _).
  apply (get_own (Sp := stack_spec alone key) (alone_sequential key) n r' u id cfg) in Hg
    as [_ Hg]; [|done|congruence|done|].
  - split; [done|]. by exists id, req, seen, cfg.
  - destruct Hs as (_ & Hsi & Hsu). unfold pt_row. rewrite Hr, lookup_insert_eq.
    split_and!; [done|congruence|congruence].
Qed.
End api.

(** ** Two POST requests at the quota *)

Definition demo_user : User := mk_User 1 "alice" "tbs_00000000" "" false.

(** The body of a POST that names a configuration. *)
Definition post_body (name : bytes) : bytes := one_member (bytes_of_string "name") name.

Definition post_request : Request :=
  mk_Request (Some demo_user) "" (Some (post_body (bytes_of_string "x"))).

(** User 1 has 49 configurations. *)
Definition almost_full : tables :=
  let r := mk_row 1 "n" [Byte.x01] [Byte.x02] None "2024-01-01T00:00:00Z" "2024-01-01T00:00:00Z" in
  mk_tables (list_to_map ((λ i, (Z.of_nat i, r)) <$> seq 1 49)) 49.

Definition almost_full_world : World Table.db :=
  mk_World Demo.env 0 (Table.mk_db almost_full almost_full 0 (λ _, None) (λ _, None)).

(** Another POST of the same user runs from start to end while the first one
    waits for the connection at its [k]-th step. *)
Definition other_post_at (k i : nat) (d : Table.db) : Table.db :=
  if (i =? k)%nat
  then w_db (api alone Demo.key 1 CreateConfigEP post_request (mk_World Demo.env (100 + i) d)).2
  else d.

(** The quota is not enforced under concurrency: the count and the create
    of a POST are separate database calls, so two requests that both counted
    49 configurations both succeed and leave 51. *)
Theorem quota_race :
  let '(o, w) := api (other_post_at 1) Demo.key 1 CreateConfigEP post_request almost_full_world in
  (rs_status ∘ fst) <$> o = Some 201
  ∧ Z.of_nat (size (rows_of 1 (committed (w_db w)))) = 51 ∧ MaxConfigsPerUser = 50.
Proof.
  destruct (api _ _ _ _ _ _) as [o w] eqn:H.
  split; [change o with ((o, w).1); rewrite <- H; vm_compute; reflexivity|].
  split; [change w with ((o, w).2); rewrite <- H; vm_compute; reflexivity|done].
Qed.

(** ** Request bodies *)

Lemma decode_post name rest :
  text name →
  decodeJSON createConfigRequest_set (mk_createConfigRequest "") (Some (post_body name ++ rest))
  = if More rest then inl (writeError 400 errBadRequest)
    else inr (mk_createConfigRequest (string_of_bytes name)).
Proof.
  intros Ht. unfold decodeJSON, post_body.
  rewrite parse_one_member; [|by apply text_ascii; vm_compute|done].
  cbn [set_members]. unfold createConfigRequest_set.
  replace (field_is "name" _) with true by (vm_compute; reflexivity). done.
Qed.

(** The name a client sends arrives unchanged: the body whose only member
    is a name in valid UTF-8 without control characters, quotes and
    backslashes decodes to exactly that name. *)
Theorem post_body_roundtrip name :
  text name →
  decodeJSON createConfigRequest_set (mk_createConfigRequest "") (Some (post_body name))
  = inr (mk_createConfigRequest (string_of_bytes name)).
Proof. intros Ht. rewrite <- (app_nil_r (post_body name)). by rewrite decode_post. Qed.

(** A body with trailing data after its JSON value is accepted when the
    trailing data starts with a closing brace, whatever follows, while two
    plain values in a row are rejected: More only looks at the next byte. *)
Theorem trailing_data_accepted junk :
  decodeJSON createConfigRequest_set (mk_createConfigRequest "")
    (Some (post_body (bytes_of_string "a") ++ chr "}" :: junk)) = inr (mk_createConfigRequest "a")
  ∧ decodeJSON createConfigRequest_set (mk_createConfigRequest "")
      (Some (post_body (bytes_of_string "a") ++ chr " " :: post_body (bytes_of_string "b")))
    = inl (writeError 400 errBadRequest).
Proof.
  assert (text (bytes_of_string "a")) by (by apply text_ascii; vm_compute).
  split; rewrite decode_post by done; [|by vm_compute].
  unfold More. cbn [skip_ws]. by change (is_ws (chr "}")) with false.
Qed.

(** ** Witnesses on the concrete stack *)

Definition demo_user2 : User := mk_User 2 "bob" "tbs_00000001" "" false.

Definition get_request (u : User) : Request := mk_Request (Some u) "1" None.
Definition patch_request (u : User) : Request :=
  mk_Request (Some u) "1" (Some (one_member (bytes_of_string "content") (bytes_of_string "hosts: [b]"))).

Definition patch_answer : Out :=
  (mk_Response 200 (BConfig (mk_configResponse 1 "work" "hosts: [b]" (Some "1.0.210")
     "2023-11-14T22:13:21Z" "2023-11-14T22:13:28Z")), []).

Definition after_api_patch : World Table.db :=
  (api alone Demo.key 1 PatchConfigEP (patch_request demo_user) Demo.after_create).2.

Lemma api_isolation_witness :
  pt_own 1 (stack_rows Demo.key
    (api alone Demo.key 1 DeleteConfigEP (get_request demo_user2) Demo.after_create).2)
  = pt_own 1 (stack_rows Demo.key Demo.after_create).
Proof.
  apply (api_isolation alone Demo.key 1 DeleteConfigEP (get_request demo_user2) 1 Demo.after_create
    (api alone Demo.key 1 DeleteConfigEP (get_request demo_user2) Demo.after_create).1 _
    (λ m, m = pt_own 1 (stack_rows Demo.key Demo.after_create))).
  - intros u Hu. injection Hu as <-. simpl. lia.
  - intros i d H. exact H.
  - apply surjective_pairing.
  - reflexivity.
Defined.


Lemma foreign_config_hidden_witness :
  stack_rows Demo.key (api alone Demo.key 1 GetConfigEP (get_request demo_user2) Demo.after_create).2
  = stack_rows Demo.key Demo.after_create
  ∧ (api alone Demo.key 1 GetConfigEP (get_request demo_user2) Demo.after_create).1 = Some not_found.
Proof.
  split.
  - refine (proj1 (foreign_config_hidden Demo.key 1 GetConfigEP (get_request demo_user2) demo_user2 1
      (shown Demo.created_cfg) Demo.after_create not_found _ _ _ _ _ _ _)).
    + by left.
    + reflexivity.
    + vm_compute. reflexivity.
    + vm_compute. reflexivity.
    + simpl. lia.
    + apply run_fst. vm_compute. reflexivity.
  - vm_compute. reflexivity.
Defined.

Lemma quota_kept_witness :
  within_quota (stack_rows Demo.key
    (api alone Demo.key 1 CreateConfigEP post_request Demo.world).2).
Proof.
  apply (quota_kept Demo.key 1 CreateConfigEP post_request Demo.world
    (api alone Demo.key 1 CreateConfigEP post_request Demo.world).1).
  - apply surjective_pairing.
  - intros v. assert (H : stack_rows Demo.key Demo.world = ∅) by (vm_compute; reflexivity).
    rewrite H. unfold pt_own. rewrite map_filter_empty, map_size_empty. unfold MaxConfigsPerUser. lia.
Defined.

Lemma patch_then_get_witness :
  (api alone Demo.key 1 GetConfigEP (get_request demo_user) after_api_patch).1 = Some patch_answer
  ∧ (patch_answer = patch_answer ∨ internal patch_answer).
Proof.
  split; [vm_compute; reflexivity|].
  refine (proj1 (patch_then_get Demo.key 1 (patch_request demo_user) demo_user Demo.after_create
    patch_answer after_api_patch (get_request demo_user) patch_answer
    (api alone Demo.key 1 GetConfigEP (get_request demo_user) after_api_patch).2 _ _ _ _ _ _)).
  - reflexivity.
  - unfold after_api_patch. apply run_fst. vm_compute. reflexivity.
  - reflexivity.
  - reflexivity.
  - reflexivity.
  - apply run_fst. vm_compute. reflexivity.
Defined.

Lemma post_body_roundtrip_witness :
  decodeJSON createConfigRequest_set (mk_createConfigRequest "") (Some (post_body (bytes_of_string "Büro")))
  = inr (mk_createConfigRequest "Büro").
Proof.
  rewrite (post_body_roundtrip (bytes_of_string "Büro")); [vm_compute; reflexivity|].
  apply (text_rune (chr "B") []); [vm_compute; reflexivity..|].
  apply (text_rune Byte.xc3 [Byte.xbc]); [vm_compute; reflexivity..|].
  apply text_ascii. vm_compute. reflexivity.
Defined.
