(* ===== verification/AuthProps.v ===== *)
(** Properties of the users file and of bearer authentication. *)

From S2P Require Import Prelude AesGcm GoLib Net FS Auth.

Section auth.
Variable yaml_decode : bytes → result (list userEntry).
Implicit Types (snap : userSnapshot) (token authz : string) (file : os_error + bytes).

Lemma LoadUsersFile_ok file snap :
  LoadUsersFile yaml_decode file = Returned (Ok snap) →
  ∃ raw entries users, file = inr raw ∧ yaml_decode raw = Ok entries
    ∧ validateAndNormalise entries = Ok users ∧ snapshot_of users snap.
Proof using.
  unfold LoadUsersFile. destruct file as [[]|raw]; [done..|].
  destruct (yaml_decode raw) as [entries|] eqn:Hy; [|done].
  destruct (validateAndNormalise entries) as [users|] eqn:Hv; [|done].
  pose proof (newUserSnapshot_run users) as Hn. destruct (newUserSnapshot users); [|done].
  intros [= ->]. eauto 10.
Qed.

(** C40: A users file that loads yields only well-formed users, one per entry
    in file order: IDs are positive and distinct, names non-empty and distinct
    after trimming, prefixes non-empty, token hashes 64 lowercase hex digits
    and pairwise distinct. *)
Theorem loaded_users_wf file snap :
  LoadUsersFile yaml_decode file = Returned (Ok snap) →
  users_wf (ordered snap) ∧ NoDup (u_TokenHash <$> ordered snap)
  ∧ ∃ raw entries, file = inr raw ∧ yaml_decode raw = Ok entries
      ∧ Forall2 normalised entries (ordered snap).
Proof using.
  intros (raw & entries & users & -> & Hy & Hv & Ho & Hnd & _)%LoadUsersFile_ok. subst users.
  apply validate_from_ok in Hv as (Hwf & Hn & _). eauto 10.
Qed.

(** A token authenticates exactly the enabled user whose stored hash is
    its SHA-256, and every other token is refused with ErrUnauthorized;
    in particular a disabled user's own token is refused. *)
Theorem lookup_exact file snap token :
  LoadUsersFile yaml_decode file = Returned (Ok snap) →
  (∀ u, Lookup snap token = Ok u ↔
        u ∈ ordered snap ∧ u_TokenHash u = token_hash token ∧ u_Disabled u = false)
  ∧ (∀ e, Lookup snap token = Err e → e = ErrSentinel ErrUnauthorized).
Proof using.
  intros (raw & entries & users & _ & _ & _ & Hs)%LoadUsersFile_ok.
  split; [|apply Lookup_Err]. intros u. pose proof Hs as (-> & _). by apply Lookup_Ok.
Qed.

(** A users file is refused with a panic, not with an error, exactly when
    its entries pass validation but two of them have the same token hash. *)
Theorem duplicate_hash_panics raw entries users :
  yaml_decode raw = Ok entries → validateAndNormalise entries = Ok users →
  (∃ msg, LoadUsersFile yaml_decode (inr raw) = Panicked msg) ↔ ¬ NoDup (u_TokenHash <$> users).
Proof using.
  intros Hy Hv. unfold LoadUsersFile. rewrite Hy, Hv.
  pose proof (newUserSnapshot_run users) as Hn. destruct (newUserSnapshot users) as [s|].
  - split; [by intros []|]. destruct Hn as (_ & ? & _). by intros [].
  - split; [done|]. eauto.
Qed.

(** A reload that does not load a valid file leaves the users in service
    as they are; one that does replaces all of them at once. *)
Theorem reload_fails_closed snap file :
  match Reload yaml_decode snap file with
  | (snap', Returned (Ok _)) => LoadUsersFile yaml_decode file = Returned (Ok snap')
  | (snap', Returned (Err e)) => snap' = snap ∧ LoadUsersFile yaml_decode file = Returned (Err e)
  | (snap', Panicked msg) => snap' = snap ∧ LoadUsersFile yaml_decode file = Panicked msg
  end.
Proof using. unfold Reload. by destruct (LoadUsersFile yaml_decode file) as [[]|]. Qed.
End auth.

(** The decision of the middleware, in terms of the lookup. *)
Lemma Bearer_run snap authz u :
  Bearer snap authz = Some u ↔
  lower_ascii (str_take 7 authz) = "bearer " ∧ 7 ≤ slen authz
  ∧ str_drop 7 authz ≠ ""
  ∧ contains_any (str_drop 7 authz) [chr " "; Byte.x09; Byte.x0d; Byte.x0a] = false
  ∧ Lookup snap (str_drop 7 authz) = Ok u.
Proof.
  unfold Bearer, equal_fold_ascii. change (slen bearerPrefix) with 7.
  change (lower_ascii bearerPrefix) with "bearer ".
  destruct (Z.ltb_spec (slen authz) 7) as [Hl|Hl]; simpl; [split; [done|lia]|].
  case_bool_decide as Hp; simpl; [|split; [done|tauto]].
  case_bool_decide as He; simpl; [split; [done|tauto]|].
  destruct (contains_any _ _); [split; [done|]; by intros (_ & _ & _ & ? & _)|].
  destruct (Lookup snap _) as [v|e].
  - split; [intros [= ->]|intros (_ & _ & _ & _ & [= ->])]; done.
  - split; [done|]. by intros (_ & _ & _ & _ & ?).
Qed.

Lemma contains_any_false s chars :
  contains_any s chars = false ↔ ∀ b, b ∈ bytes_of_string s → b ∉ chars.
Proof.
  unfold contains_any. rewrite <- not_true_iff_false, existsb_exists. split.
  - intros H b Hb Hc. apply H. exists b. split; [by apply list_elem_of_In|by apply bool_decide_eq_true].
  - intros H (b & Hb%list_elem_of_In & Hc%bool_decide_eq_true). by apply (H b).
Qed.

(** A header that starts with the scheme: six letters, a space, the rest. *)
Lemma scheme_split authz :
  lower_ascii (str_take 7 authz) = "bearer " ↔
  ∃ scheme, authz = scheme +:+ " " +:+ str_drop 7 authz ∧ lower_ascii scheme = "bearer".
Proof.
  unfold lower_ascii, str_take, str_drop. setoid_rewrite bytes_string_roundtrip. split.
  - intros H. apply (f_equal bytes_of_string) in H. rewrite bytes_string_roundtrip in H.
    change (bytes_of_string "bearer ") with (bytes_of_string "bearer" ++ [Byte.x20]) in H.
    pose proof (string_bytes_roundtrip authz) as Hs. set (b := bytes_of_string authz) in *.
    do 7 (destruct b as [|? b]; [done|]). cbn [take drop fmap list_fmap] in *.
    injection H as H1 H2 H3 H4 H5 H6 H7. exists (string_of_bytes [b0; b1; b2; b3; b4; b5]). split.
    + rewrite <- Hs. assert (b6 = Byte.x20) as -> by (revert H7; clear; destruct b6; vm_compute; congruence).
      rewrite <- (string_bytes_roundtrip (string_of_bytes _ +:+ _)). f_equal.
      by rewrite !bytes_of_string_app, !bytes_string_roundtrip.
    + rewrite bytes_string_roundtrip. cbn [fmap list_fmap]. by rewrite H1, H2, H3, H4, H5, H6.
  - intros (scheme & Ha & Hl). apply (f_equal bytes_of_string) in Hl. rewrite bytes_string_roundtrip in Hl.
    assert (Hlen : length (bytes_of_string scheme) = 6%nat)
      by (by apply (f_equal length) in Hl; rewrite length_fmap in Hl).
    rewrite Ha, !bytes_of_string_app, app_assoc, take_app_length'; [|by rewrite length_app, Hlen].
    by rewrite fmap_app, Hl.
Qed.

(** C28: The middleware lets a request through as user [u] exactly when its
    Authorization header is the word Bearer in any letter case, one space and
    a token without white space, and [u] is the user of the loaded file whose
    stored hash is the hexadecimal SHA-256 of that token, and is enabled. *)
Theorem bearer_exact yaml_decode file snap authz u :
  LoadUsersFile yaml_decode file = Returned (Ok snap) →
  Bearer snap authz = Some u ↔
  ∃ scheme token, authz = scheme +:+ " " +:+ token ∧ lower_ascii scheme = "bearer" ∧ token ≠ ""
    ∧ (∀ b, b ∈ bytes_of_string token → b ∉ [Byte.x20; Byte.x09; Byte.x0d; Byte.x0a])
    ∧ u ∈ ordered snap ∧ u_TokenHash u = EncodeToString (Sum256 (bytes_of_string token))
    ∧ u_Disabled u = false.
Proof.
  intros (raw & entries & users & _ & _ & _ & Hs)%LoadUsersFile_ok. pose proof Hs as (-> & _).
  rewrite Bearer_run, scheme_split, contains_any_false, (Lookup_Ok users snap _ _ Hs). split.
  - intros ((scheme & Ha & Hl) & _ & Hne & Hw & Hu). by exists scheme, (str_drop 7 authz).
  - intros (scheme & token & Ha & Hl & Hne & Hw & Hu).
    assert (Hlen : length (bytes_of_string scheme) = 6%nat)
      by (apply (f_equal (length ∘ bytes_of_string)) in Hl; simpl in Hl; unfold lower_ascii in Hl;
          by rewrite bytes_string_roundtrip, length_fmap in Hl).
    assert (Hb : bytes_of_string authz = (bytes_of_string scheme ++ [Byte.x20]) ++ bytes_of_string token)
      by (by rewrite Ha, !bytes_of_string_app, app_assoc).
    assert (str_drop 7 authz = token) as ->.
    { unfold str_drop. rewrite Hb, drop_app_length'; [apply string_bytes_roundtrip|]. by rewrite length_app, Hlen. }
    split_and!; [by exists scheme| |done..|apply Hu|apply Hu|apply Hu].
    unfold slen. rewrite Hb, !length_app, Hlen. simpl. lia.
Qed.

(** ** Witnesses *)

Definition demo_token : string := "tbs_secret".
Definition demo_entries : list userEntry :=
  [mk_userEntry 1 " alice " "tbs_secr" (token_hash demo_token) false;
   mk_userEntry 2 "bob" "tbs_othe" (token_hash "tbs_other") true].

(** Bob's entry copied with Alice's hash. *)
Definition clashing_entries : list userEntry :=
  [mk_userEntry 1 "alice" "tbs_secr" (token_hash demo_token) false;
   mk_userEntry 2 "bob" "tbs_secr" (token_hash demo_token) false].

Definition demo_users : list User := Eval vm_compute in
  match validateAndNormalise demo_entries with Ok l => l | Err _ => [] end.
Definition clashing_users : list User := Eval vm_compute in
  match validateAndNormalise clashing_entries with Ok l => l | Err _ => [] end.
Definition demo_snapshot : userSnapshot :=
  default (mk_userSnapshot ∅ []) (newUserSnapshot demo_users).

Lemma demo_load : LoadUsersFile (λ _, Ok demo_entries) (inr []) = Returned (Ok demo_snapshot).
Proof. vm_compute. reflexivity. Qed.

Lemma loaded_users_wf_witness : users_wf (ordered demo_snapshot).
Proof. exact (proj1 (loaded_users_wf (λ _, Ok demo_entries) (inr []) demo_snapshot demo_load)). Defined.

Lemma bearer_exact_witness :
  Bearer demo_snapshot "bEARER tbs_secret" = Some (mk_User 1 "alice" "tbs_secr" (token_hash demo_token) false).
Proof.
  apply (bearer_exact (λ _, Ok demo_entries) (inr []) demo_snapshot "bEARER tbs_secret" _ demo_load).
  exists "bEARER", demo_token. split_and!; [reflexivity|reflexivity|discriminate| | |reflexivity|reflexivity].
  - apply (proj1 (contains_any_false demo_token _)). vm_compute. reflexivity.
  - vm_compute. apply list_elem_of_here.
Defined.

Lemma lookup_exact_witness : Lookup demo_snapshot demo_token = Ok (mk_User 1 "alice" "tbs_secr" (token_hash demo_token) false).
Proof.
  apply (lookup_exact (λ _, Ok demo_entries) (inr []) demo_snapshot demo_token demo_load).
  split; [|split; reflexivity]. vm_compute. apply list_elem_of_here.
Defined.

Lemma duplicate_hash_panics_witness :
  ∃ msg, LoadUsersFile (λ _, Ok clashing_entries) (inr []) = Panicked msg.
Proof.
  apply (duplicate_hash_panics (λ _, Ok clashing_entries) [] clashing_entries clashing_users).
  - reflexivity.
  - vm_compute. reflexivity.
  - intros H. vm_compute in H. apply NoDup_cons in H as [H _]. apply H. apply list_elem_of_here.
Defined.
