(* ===== verification/UserStore.v ===== *)
(** The user store as goroutines share it (src/internal/auth/store.go).

    A [UserStore] is a pointer that is loaded and stored atomically; what it
    points to is never written again.  [us_step] interleaves any number of
    calls of Lookup, Reload and UserCount at the granularity of these loads
    and stores; [atomic_step] is the store that its comments promise, in
    which each call happens at one instant.  [simulated] relates the two. *)

From S2P Require Import Prelude FS Auth.

(** [None] is the nil pointer. *)
Record UserStore := mk_UserStore { us_snap : option userSnapshot }.

(** [None] is newUserSnapshot's panic. *)
Definition newUserStore (users : list User) : option UserStore :=
  (λ snap, mk_UserStore (Some snap)) <$> newUserSnapshot users.

Inductive call := CLookup (token : string) | CReload | CUserCount.
Inductive reply :=
  | RLookup (r : outcome User)
  | RReload (r : outcome unit)
  | RUserCount (n : Z).

(** What a caller sees: a call begins, Reload reads the users file (a
    failure to read it, or its bytes), a call ends. *)
Inductive event :=
  | EInv (t : nat) (c : call)
  | ERead (t : nat) (file : os_error + bytes)
  | ERet (t : nat) (r : reply).

Definition nil_deref : string := "runtime error: invalid memory address or nil pointer dereference".

Section store.
Variable yaml_decode : bytes → result (list userEntry).
Implicit Types (t : nat) (cell : option userSnapshot) (file : os_error + bytes).

(** Where a goroutine is in its call, with its local variables. *)
Inductive pc :=
  | LookupLoad (token : string)
  | LookupCompute (token : string) (snap : option userSnapshot)
  | ReloadRead
  | ReloadParse (file : os_error + bytes)
  | ReloadStore (fresh : option userSnapshot)
  | CountLoad
  | CountCompute (snap : option userSnapshot)
  | Return (r : reply).

Definition enter (c : call) : pc :=
  match c with
  | CLookup token => LookupLoad token
  | CReload => ReloadRead
  | CUserCount => CountLoad
  end.

(** The next step of a goroutine that neither reads the file nor returns:
    the pointer after it and where the goroutine is then. *)
Definition thread_step cell (p : pc) : option (option userSnapshot * pc) :=
  match p with
  | LookupLoad token => Some (cell, LookupCompute token cell)
  | LookupCompute token None => Some (cell, Return (RLookup (Panicked nil_deref)))
  | LookupCompute token (Some snap) => Some (cell, Return (RLookup (Returned (Lookup snap token))))
  | ReloadParse file =>
      match LoadUsersFile yaml_decode file with
      | Returned (Ok fresh) => Some (cell, ReloadStore (Some fresh))
      | Returned (Err err) => Some (cell, Return (RReload (Returned (Err err))))
      | Panicked msg => Some (cell, Return (RReload (Panicked msg)))
      end
  | ReloadStore fresh => Some (fresh, Return (RReload (Returned (Ok tt))))
  | CountLoad => Some (cell, CountCompute cell)
  | CountCompute None => Some (cell, Return (RUserCount 0))
  | CountCompute (Some snap) => Some (cell, Return (RUserCount (UserCount snap)))
  | ReloadRead | Return _ => None
  end.

(** The pointer and the calls in progress. *)
Record us_state := mk_us { us_store : UserStore; us_calls : gmap nat pc }.
Definition us_start (s : UserStore) : us_state := mk_us s ∅.

Inductive us_step : us_state → list event → us_state → Prop :=
  | us_inv s calls t c :
      calls !! t = None →
      us_step (mk_us s calls) [EInv t c] (mk_us s (<[t := enter c]> calls))
  | us_read s calls t file :
      calls !! t = Some ReloadRead →
      us_step (mk_us s calls) [ERead t file] (mk_us s (<[t := ReloadParse file]> calls))
  | us_tau cell cell' calls t p p' :
      calls !! t = Some p → thread_step cell p = Some (cell', p') →
      us_step (mk_us (mk_UserStore cell) calls) [] (mk_us (mk_UserStore cell') (<[t := p']> calls))
  | us_ret s calls t r :
      calls !! t = Some (Return r) →
      us_step (mk_us s calls) [ERet t r] (mk_us s (delete t calls)).

(** ** The promise: calls that happen at one instant *)

Inductive apc := Called (c : call) | FileRead (file : os_error + bytes) | Answered (r : reply).
Record atomic_state := mk_atomic { at_snap : userSnapshot; at_calls : gmap nat apc }.
Definition atomic_start (snap : userSnapshot) : atomic_state := mk_atomic snap ∅.

(** The instant at which a call takes effect; Reload has read the file by
    then. *)
Definition take_effect (snap : userSnapshot) (p : apc) : option (userSnapshot * reply) :=
  match p with
  | Called (CLookup token) => Some (snap, RLookup (Returned (Lookup snap token)))
  | Called CUserCount => Some (snap, RUserCount (UserCount snap))
  | FileRead file => let '(snap', r) := Reload yaml_decode snap file in Some (snap', RReload r)
  | Called CReload | Answered _ => None
  end.

Inductive atomic_step : atomic_state → list event → atomic_state → Prop :=
  | at_inv snap calls t c :
      calls !! t = None →
      atomic_step (mk_atomic snap calls) [EInv t c] (mk_atomic snap (<[t := Called c]> calls))
  | at_read snap calls t file :
      calls !! t = Some (Called CReload) →
      atomic_step (mk_atomic snap calls) [ERead t file] (mk_atomic snap (<[t := FileRead file]> calls))
  | at_effect snap snap' calls t p r :
      calls !! t = Some p → take_effect snap p = Some (snap', r) →
      atomic_step (mk_atomic snap calls) [] (mk_atomic snap' (<[t := Answered r]> calls))
  | at_ret snap calls t r :
      calls !! t = Some (Answered r) →
      atomic_step (mk_atomic snap calls) [ERet t r] (mk_atomic snap (delete t calls)).

(** Executions and what their callers see. *)
Inductive exec {S} (step : S → list event → S → Prop) : S → list event → S → Prop :=
  | exec_nil s : exec step s [] s
  | exec_snoc s es s' e s'' : exec step s es s' → step s' e s'' → exec step s (es ++ e) s''.

(** ** Simulation *)

(** A call that has loaded the pointer, or swapped it, has taken effect. *)
Definition simulates (p : pc) (a : apc) : Prop :=
  match p with
  | LookupLoad token => a = Called (CLookup token)
  | LookupCompute token snap =>
      ∃ s, snap = Some s ∧ a = Answered (RLookup (Returned (Lookup s token)))
  | ReloadRead => a = Called CReload
  | ReloadParse file => a = FileRead file
  | ReloadStore fresh =>
      ∃ s file, fresh = Some s ∧ LoadUsersFile yaml_decode file = Returned (Ok s) ∧ a = FileRead file
  | CountLoad => a = Called CUserCount
  | CountCompute snap => ∃ s, snap = Some s ∧ a = Answered (RUserCount (UserCount s))
  | Return r => a = Answered r
  end.

Definition simulated (s : us_state) (a : atomic_state) : Prop :=
  us_snap (us_store s) = Some (at_snap a) ∧ map_Forall2 (λ _, simulates) (us_calls s) (at_calls a).

Implicit Types (calls : gmap nat pc) (acalls : gmap nat apc).
Notation us_run := (exec us_step).
Notation atomic_run := (exec atomic_step).
Notation all_simulate := (map_Forall2 (λ _, simulates)).

Lemma simulated_call calls acalls t p :
  all_simulate calls acalls → calls !! t = Some p →
  ∃ a, acalls !! t = Some a ∧ simulates p a.
Proof using.
  intros Hm Hp. specialize (Hm t). rewrite Hp in Hm. inversion Hm; eauto.
Qed.

Lemma simulated_no_call calls acalls t :
  all_simulate calls acalls → calls !! t = None → acalls !! t = None.
Proof using.
  intros Hm Hp. specialize (Hm t). rewrite Hp in Hm. by inversion Hm.
Qed.

(** The call moves on in the implementation only. *)
Lemma simulated_stutter calls acalls t p a :
  all_simulate calls acalls → acalls !! t = Some a → simulates p a →
  all_simulate (<[t := p]> calls) acalls.
Proof using.
  intros Hm Ha Hs. rewrite <- (insert_id acalls t a Ha). by apply map_Forall2_insert_2.
Qed.

(** A step of a goroutine inside the code: its call takes effect now, or
    nothing that its caller could see has happened. *)
Lemma thread_step_sim snap cell' p p' a :
  thread_step (Some snap) p = Some (cell', p') → simulates p a →
  (cell' = Some snap ∧ simulates p' a)
  ∨ ∃ snap' r, cell' = Some snap' ∧ take_effect snap a = Some (snap', r) ∧ simulates p' (Answered r).
Proof using.
  destruct p as [token|token l| |file|fresh| |l|r]; simpl; intros Hstep Ha; try done.
  - simplify_eq. right. do 2 eexists. split; [done|]. split; [done|]. simpl. eauto.
  - destruct Ha as (s & -> & ->). simplify_eq/=. by left.
  - subst a. simpl. unfold Reload.
    destruct (LoadUsersFile yaml_decode file) as [[fresh|err]|msg] eqn:Hl; simplify_eq/=.
    + left. eauto 10.
    + right. eauto 10.
    + right. eauto 10.
  - destruct Ha as (s & file & -> & Hl & ->). simplify_eq/=. right. unfold Reload. rewrite Hl. eauto 10.
  - simplify_eq. right. do 2 eexists. split; [done|]. split; [done|]. simpl. eauto.
  - destruct Ha as (s & -> & ->). simplify_eq/=. by left.
Qed.

Lemma us_step_sim s e s' a :
  us_step s e s' → simulated s a →
  ∃ a', (atomic_step a e a' ∨ (e = [] ∧ a' = a)) ∧ simulated s' a'.
Proof using.
  destruct a as [snap acalls].
  intros [st calls t c Hc|st calls t file Hc|cell cell' calls t p p' Hc Hstep|st calls t r Hc] [Hsnap Hm];
    simpl in Hsnap, Hm; unfold simulated; simpl.
  - exists (mk_atomic snap (<[t := Called c]> acalls)). split.
    + left. constructor. by eapply simulated_no_call.
    + split; [done|]. apply map_Forall2_insert_2; [|done]. by destruct c.
  - destruct (simulated_call _ _ _ _ Hm Hc) as (a & Ha & Hs). simpl in Hs. subst a.
    exists (mk_atomic snap (<[t := FileRead file]> acalls)). split; [left; by constructor|].
    split; [done|]. by apply map_Forall2_insert_2.
  - subst cell. destruct (simulated_call _ _ _ _ Hm Hc) as (a & Ha & Hs).
    destruct (thread_step_sim _ _ _ _ _ Hstep Hs) as [[-> Hs']|(snap' & r & -> & Heff & Hs')].
    + exists (mk_atomic snap acalls). split; [by right|]. split; [done|]. by eapply simulated_stutter.
    + exists (mk_atomic snap' (<[t := Answered r]> acalls)). split; [left; by econstructor|].
      split; [done|]. by apply map_Forall2_insert_2.
  - destruct (simulated_call _ _ _ _ Hm Hc) as (a & Ha & Hs). simpl in Hs. subst a.
    exists (mk_atomic snap (delete t acalls)). split; [left; by constructor|].
    split; [done|]. by apply map_Forall2_delete.
Qed.

Lemma us_run_sim s es s' a :
  us_run s es s' → simulated s a → ∃ a', atomic_run a es a' ∧ simulated s' a'.
Proof using.
  induction 1 as [s|s es s' e s'' _ IH Hstep]; intros Hsim; [exists a; split; [constructor|done]|].
  destruct (IH Hsim) as (a' & Hrun & Hsim').
  destruct (us_step_sim _ _ _ _ Hstep Hsim') as (a'' & [Ha|[-> ->]] & Hsim'').
  - exists a''. split; [by econstructor|done].
  - exists a'. by rewrite app_nil_r.
Qed.

Lemma newUserStore_snap users s :
  newUserStore users = Some s → ∃ snap, newUserSnapshot users = Some snap ∧ us_snap s = Some snap.
Proof using. unfold newUserStore. destruct (newUserSnapshot users); [|done]. intros [= <-]. eauto. Qed.

(** What the atomic store holds, and what its Reloads are about to load,
    comes from [snap] and from the files read. *)
Definition sourced (snap : userSnapshot) (es : list event) (a : atomic_state) : Prop :=
  (at_snap a = snap
   ∨ ∃ t file, ERead t file ∈ es ∧ LoadUsersFile yaml_decode file = Returned (Ok (at_snap a)))
  ∧ ∀ t file, at_calls a !! t = Some (FileRead file) → ERead t file ∈ es.

Lemma take_effect_snap snap p snap' r :
  take_effect snap p = Some (snap', r) →
  snap' = snap ∨ ∃ file, p = FileRead file ∧ LoadUsersFile yaml_decode file = Returned (Ok snap').
Proof using.
  destruct p as [[]|file|]; simpl; intros H; simplify_eq; auto. unfold Reload in H.
  destruct (LoadUsersFile yaml_decode file) as [[]|] eqn:Hl; simplify_eq; eauto.
Qed.

Lemma atomic_step_sourced snap es a e a' :
  atomic_step a e a' → sourced snap es a → sourced snap (es ++ e) a'.
Proof using.
  intros Hstep [Hs Hr].
  assert (∀ t file, ERead t file ∈ es → ERead t file ∈ es ++ e) as Hmono.
  { intros. apply elem_of_app. by left. }
  destruct Hstep as [? acalls t c Hc|? acalls t file Hc|? snap' acalls t p r Hc Heff|? acalls t r Hc];
    unfold sourced; simpl in *.
  - split; [naive_solver|]. intros t' file. rewrite lookup_insert_Some. naive_solver.
  - split; [naive_solver|]. intros t' file'. rewrite lookup_insert_Some.
    intros [[-> [= ->]]|[_ H]]; [|auto]. apply elem_of_app. right. by apply list_elem_of_singleton.
  - split.
    + apply take_effect_snap in Heff as [->|(file & -> & Hl)]; [naive_solver|]. eauto 10.
    + intros t' file. rewrite lookup_insert_Some. naive_solver.
  - split; [naive_solver|]. intros t' file [_ H]%lookup_delete_Some. eauto.
Qed.

Lemma atomic_run_sourced snap es a :
  atomic_run (atomic_start snap) es a → sourced snap es a.
Proof using.
  intros H. remember (atomic_start snap) as a0 eqn:Ha0.
  induction H as [|? es a' e a'' Hrun IH Hstep]; subst.
  - split; [by left|]. intros t file. simpl. by rewrite lookup_empty.
  - by eapply atomic_step_sourced; [|apply IH].
Qed.

(** C34: Whatever calls of Lookup, Reload and UserCount run concurrently on a
    store that newUserStore built, and however their loads and stores of the
    pointer interleave, their callers see a history of the atomic store: each
    call has the effect and the answer that it has alone, at one instant
    between its beginning and its end (for Reload, after it read the file),
    and the store never holds anything but the users of newUserStore or of a
    whole file that loaded. *)
Theorem user_store_linearizable users s es s' :
  newUserStore users = Some s → us_run (us_start s) es s' →
  ∃ snap a, newUserSnapshot users = Some snap
    ∧ atomic_run (atomic_start snap) es a
    ∧ us_snap (us_store s') = Some (at_snap a)
    ∧ (at_snap a = snap
       ∨ ∃ t file, ERead t file ∈ es ∧ LoadUsersFile yaml_decode file = Returned (Ok (at_snap a))).
Proof using.
  intros (snap & Hn & Hs)%newUserStore_snap Hrun.
  destruct (us_run_sim _ _ _ (atomic_start snap) Hrun) as (a & Ha & Hsim & _).
  { split; [done|]. apply map_Forall2_empty. }
  exists snap, a. split_and!; [done..|]. apply (atomic_run_sourced _ _ _ Ha).
Qed.

(** ** When a Reload is visible *)

(** The calls of Reload that have begun and not ended. *)
Definition note_reload (open : gset nat) (e : event) : gset nat :=
  match e with
  | EInv t CReload => {[ t ]} ∪ open
  | ERet t _ => open ∖ {[ t ]}
  | _ => open
  end.
Definition open_reloads (es : list event) : gset nat := foldl note_reload ∅ es.

Definition event_call (e : event) : nat := match e with EInv t _ | ERead t _ | ERet t _ => t end.
Definition begins_reload (e : event) : bool := match e with EInv _ CReload => true | _ => false end.

Lemma exec_app_inv a es1 es2 a' :
  atomic_run a (es1 ++ es2) a' → ∃ m, atomic_run a es1 m ∧ atomic_run m es2 a'.
Proof using.
  intros H. remember (es1 ++ es2) as es eqn:Hes. revert es2 Hes.
  induction H as [a|a es a' e a'' Hrun IH Hstep]; intros es2 Hes.
  - symmetry in Hes. apply app_nil in Hes as [-> ->]. eexists. split; constructor.
  - destruct es2 as [|x es2 _] using rev_ind.
    + rewrite app_nil_r in Hes. subst es1. eexists. split; [by econstructor|constructor].
    + rewrite app_assoc in Hes.
      assert (e = [] ∨ ∃ y, e = [y]) as [->|[y ->]] by (destruct Hstep; eauto).
      * rewrite app_nil_r in Hes. subst es. destruct (IH (es2 ++ [x])) as (m & H1 & H2); [by rewrite app_assoc|].
        exists m. split; [done|]. rewrite <- (app_nil_r (es2 ++ [x])). by econstructor.
      * apply app_inj_tail in Hes as [-> ->]. destruct (IH es2 eq_refl) as (m & H1 & H2).
        exists m. split; [done|]. by econstructor.
Qed.

(** An observed event happens at one step, after steps that nobody sees. *)
Lemma exec_cons_inv a e es a' :
  atomic_run a (e :: es) a' →
  ∃ m m', atomic_run a [] m ∧ atomic_step m [e] m' ∧ atomic_run m' es a'.
Proof using.
  intros H. change (e :: es) with ([e] ++ es) in H. apply exec_app_inv in H as (m2 & H1 & H2).
  enough (∃ m m', atomic_run a [] m ∧ atomic_step m [e] m' ∧ atomic_run m' [] m2) as (m & m' & ? & ? & H3).
  { exists m, m'. split_and!; [done..|]. clear -H3 H2. remember [] as e' eqn:He.
    induction H2 as [|x es y e z _ IH Hs]; [by subst|]. econstructor; [|done]. eauto. }
  clear H2. remember [e] as es' eqn:Hes in H1. induction H1 as [|x es1 y e1 z Hrun IH Hs]; [done|].
  assert (e1 = [] ∨ ∃ y, e1 = [y]) as [->|[y' ->]] by (destruct Hs; eauto).
  - rewrite app_nil_r in Hes. destruct (IH Hes) as (m & m' & ? & ? & H). exists m, m'. split_and!; [done..|].
    rewrite <- (app_nil_r []). by econstructor.
  - apply (app_inj_tail es1 []) in Hes as [-> ->]. exists y, z. split_and!; [done..|constructor].
Qed.

(** What every step with events in [Q] preserves holds after a run. *)
Lemma exec_invariant (Q : event → Prop) (P : atomic_state → Prop) a es a' :
  (∀ x e y, atomic_step x e y → Forall Q e → P x → P y) →
  atomic_run a es a' → Forall Q es → P a → P a'.
Proof using.
  intros Hpres Hrun. induction Hrun as [|x es y e z _ IH Hs]; [done|].
  intros [HQ HQ']%Forall_app HP. by eapply Hpres; [| |apply IH].
Qed.

(** A Reload that has still to take effect. *)
Definition reloading (a : atomic_state) (t : nat) : Prop :=
  at_calls a !! t = Some (Called CReload) ∨ ∃ file, at_calls a !! t = Some (FileRead file).

Lemma reloading_step a e a' t :
  atomic_step a e a' → reloading a' t → reloading a t ∨ EInv t CReload ∈ e.
Proof using.
  unfold reloading.
  intros [snap acalls t' c Hc|snap acalls t' file Hc|snap snap' acalls t' p r Hc Heff|snap acalls t' r Hc]; simpl.
  - intros [H|[f H]]; apply lookup_insert_Some in H as [[-> [= ->]]|[_ H]]; eauto.
    right. by apply list_elem_of_singleton.
  - intros [H|[f H]]; apply lookup_insert_Some in H as [[-> [= ->]]|[_ H]]; eauto.
  - intros [H|[f H]]; apply lookup_insert_Some in H as [[_ [=]]|[_ H]]; eauto.
  - intros [H|[f H]]; apply lookup_delete_Some in H as [_ H]; eauto.
Qed.

Lemma reloading_open snap es a t :
  atomic_run (atomic_start snap) es a → reloading a t → t ∈ open_reloads es.
Proof using.
  intros H. remember (atomic_start snap) as a0 eqn:Ha0. revert t.
  induction H as [|? es a' e a'' Hrun IH Hstep]; intros t Hr; subst.
  - destruct Hr as [Hr|[? Hr]]; simpl in Hr; by rewrite lookup_empty in Hr.
  - unfold open_reloads. rewrite foldl_app. fold (open_reloads es).
    destruct (reloading_step _ _ _ _ Hstep Hr) as [Hr'|Hin].
    + specialize (IH eq_refl _ Hr'). destruct Hstep; simpl; try set_solver; [destruct c; set_solver|].
      apply elem_of_difference. split; [done|]. intros ->%elem_of_singleton.
      destruct Hr as [Hr|[? Hr]]; simpl in Hr; by rewrite lookup_delete_eq in Hr.
    + destruct Hstep; simpl in *; (try by apply not_elem_of_nil in Hin);
        apply list_elem_of_singleton in Hin; simplify_eq. set_solver.
Qed.

Definition quiet_for (t : nat) (e : event) : Prop := event_call e ≠ t ∧ begins_reload e = false.

(** Only [r]'s Reload may change the store. *)
Definition only_reload (r : nat) (a : atomic_state) : Prop := ∀ t, reloading a t → t = r.

Lemma only_reload_step r a e a' :
  atomic_step a e a' → Forall (λ e, begins_reload e = false) e → only_reload r a → only_reload r a'.
Proof using.
  intros Hs Hq Ho t Ht. destruct (reloading_step _ _ _ _ Hs Ht) as [H|H]; [by apply Ho|].
  rewrite Forall_forall in Hq. by specialize (Hq _ H).
Qed.

(** [r] has read [file], and if its Reload has succeeded the store holds
    what [file] says. *)
Definition loading (r : nat) (file : os_error + bytes) (a : atomic_state) : Prop :=
  only_reload r a
  ∧ (at_calls a !! r = Some (FileRead file)
     ∨ ∃ out, at_calls a !! r = Some (Answered (RReload out))
         ∧ (out = Returned (Ok tt) → LoadUsersFile yaml_decode file = Returned (Ok (at_snap a)))).

(** The store holds [snap] and no Reload is about to change it. *)
Definition settled (snap : userSnapshot) (a : atomic_state) : Prop :=
  at_snap a = snap ∧ ∀ t, ¬ reloading a t.

(** [t] looks [token] up in the settled store. *)
Definition looking (snap : userSnapshot) (t : nat) (token : string) (a : atomic_state) : Prop :=
  settled snap a
  ∧ (at_calls a !! t = Some (Called (CLookup token))
     ∨ at_calls a !! t = Some (Answered (RLookup (Returned (Lookup snap token))))).

Lemma loading_step r file a e a' :
  atomic_step a e a' → Forall (quiet_for r) e → loading r file a → loading r file a'.
Proof using.
  intros Hs Hq [Ho Hl]. split.
  { eapply only_reload_step; [done| |done]. eapply Forall_impl; [done|]. by intros ? []. }
  destruct Hs as [snap acalls t c Hc|snap acalls t f Hc|snap snap' acalls t p rep Hc Heff|snap acalls t rep Hc];
    try (apply Forall_singleton in Hq as [Hne _]); simpl in *.
  - by rewrite lookup_insert_ne.
  - by rewrite lookup_insert_ne.
  - destruct (decide (t = r)) as [->|Hne].
    + right. rewrite lookup_insert_eq. destruct Hl as [Hl|(out & Hl & _)]; simplify_eq/=.
      unfold Reload in Heff. destruct (LoadUsersFile yaml_decode file) as [[]|]; simplify_eq; eauto.
      all: eexists; split; [done|discriminate].
    + rewrite lookup_insert_ne by done. destruct Hl as [Hl|Hl]; [by left|right].
      apply take_effect_snap in Heff as [->|(f & -> & _)]; [done|]. destruct Hne. apply Ho. right. eauto.
  - by rewrite lookup_delete_ne.
Qed.

Lemma settled_step snap a e a' :
  atomic_step a e a' → Forall (λ e, begins_reload e = false) e → settled snap a → settled snap a'.
Proof using.
  intros Hs Hq [<- Hn]. split.
  - destruct Hs as [| |snap snap' acalls t p rep Hc Heff|]; simpl; [done..| |done].
    apply take_effect_snap in Heff as [->|(f & -> & _)]; [done|]. destruct (Hn t). right. eauto.
  - intros t Ht. destruct (reloading_step _ _ _ _ Hs Ht) as [H|H]; [by eapply Hn|].
    rewrite Forall_forall in Hq. by specialize (Hq _ H).
Qed.

Lemma looking_step snap t token a e a' :
  atomic_step a e a' → Forall (quiet_for t) e → looking snap t token a → looking snap t token a'.
Proof using.
  intros Hs Hq [Hset Hl]. split.
  { eapply settled_step; [done| |done]. eapply Forall_impl; [done|]. by intros ? []. }
  destruct Hset as [Hsnap _].
  destruct Hs as [s acalls t' c Hc|s acalls t' f Hc|s s' acalls t' p rep Hc Heff|s acalls t' rep Hc];
    try (apply Forall_singleton in Hq as [Hne _]); simpl in *; subst.
  - by rewrite lookup_insert_ne.
  - by rewrite lookup_insert_ne.
  - destruct (decide (t' = t)) as [->|Hne]; [|by rewrite lookup_insert_ne].
    rewrite lookup_insert_eq. destruct Hl as [Hl|Hl]; simplify_eq/=. by right.
  - by rewrite lookup_delete_ne.
Qed.

Lemma read_loading r file a es a' :
  only_reload r a → atomic_run a (ERead r file :: es) a' →
  ∃ b, loading r file b ∧ atomic_run b es a'.
Proof using.
  intros Ho (m & b & Ht & Hs & Ha)%exec_cons_inv. exists b. split; [|done].
  pose proof (exec_invariant _ _ _ _ _ (only_reload_step r) Ht (Forall_nil_2 _) Ho) as Ho'. split.
  - eapply only_reload_step; [done| |done]. by constructor.
  - inversion Hs; subst. left. apply lookup_insert_eq.
Qed.

Lemma loading_settled r file a es a' :
  loading r file a → atomic_run a (ERet r (RReload (Returned (Ok tt))) :: es) a' →
  ∃ snap b, LoadUsersFile yaml_decode file = Returned (Ok snap) ∧ settled snap b ∧ atomic_run b es a'.
Proof using.
  intros Hl (m & b & Ht & Hs & Ha)%exec_cons_inv.
  pose proof (exec_invariant _ _ _ _ _ (loading_step r file) Ht (Forall_nil_2 _) Hl) as [Ho Hl'].
  exists (at_snap b), b. inversion Hs as [| | |snap acalls t out Hc]; subst. simpl in *.
  destruct Hl' as [Hl'|(out & Hl' & Hok)]; simplify_eq. split_and!; [by apply Hok| |done].
  split; [done|]. intros x Hx. assert (x = r) as ->.
  { apply Ho. destruct (reloading_step _ _ _ _ Hs Hx) as [H|H]; [done|].
    by apply list_elem_of_singleton in H. }
  destruct Hx as [Hx|[? Hx]]; simpl in Hx; by rewrite lookup_delete_eq in Hx.
Qed.

Lemma inv_looking snap t token a es a' :
  settled snap a → atomic_run a (EInv t (CLookup token) :: es) a' →
  ∃ b, looking snap t token b ∧ atomic_run b es a'.
Proof using.
  intros Hset (m & b & Ht & Hs & Ha)%exec_cons_inv. exists b. split; [|done].
  pose proof (exec_invariant _ _ _ _ _ (settled_step snap) Ht (Forall_nil_2 _) Hset) as Hset'. split.
  - eapply settled_step; [done| |done]. by constructor.
  - inversion Hs; subst. left. apply lookup_insert_eq.
Qed.

Lemma looking_answered snap t token a rep es a' :
  looking snap t token a → atomic_run a (ERet t rep :: es) a' →
  rep = RLookup (Returned (Lookup snap token)).
Proof using.
  intros Hl (m & b & Ht & Hs & _)%exec_cons_inv.
  pose proof (exec_invariant _ _ _ _ _ (looking_step snap t token) Ht (Forall_nil_2 _) Hl) as [_ Hl'].
  inversion Hs; subst. simpl in Hl'. destruct Hl'; by simplify_eq.
Qed.

(** C35: Once a Reload has returned nil, revocation is in force: every Lookup
    that begins after it is answered from the file that the Reload read,
    provided that no other Reload was in progress when it read the file and none
    begins before the Lookup has ended.  Without that proviso an older file can
    be in service ([older_file_wins]). *)
Theorem reload_visible users s s' r t file token rep es0 es1 es2 es3 :
  newUserStore users = Some s →
  us_run (us_start s)
    (es0 ++ ERead r file :: es1 ++ ERet r (RReload (Returned (Ok tt))) ::
     es2 ++ EInv t (CLookup token) :: es3 ++ [ERet t rep]) s' →
  open_reloads es0 = {[ r ]} →
  Forall (quiet_for r) es1 → Forall (λ e, begins_reload e = false) es2 → Forall (quiet_for t) es3 →
  ∃ snap, LoadUsersFile yaml_decode file = Returned (Ok snap)
    ∧ rep = RLookup (Returned (Lookup snap token)).
Proof using.
  intros (snap0 & _ & Hs0)%newUserStore_snap Hrun Hopen H1 H2 H3.
  destruct (us_run_sim _ _ _ (atomic_start snap0) Hrun) as (a & Ha & _).
  { split; [done|]. apply map_Forall2_empty. }
  apply exec_app_inv in Ha as (a0 & Hr0 & Ha).
  assert (only_reload r a0) as Ho.
  { intros x Hx. apply (reloading_open _ _ _ _ Hr0) in Hx. rewrite Hopen in Hx. set_solver. }
  apply (read_loading _ _ _ _ _ Ho) in Ha as (b1 & Hl1 & Ha).
  apply exec_app_inv in Ha as (a1 & Hr1 & Ha).
  pose proof (exec_invariant _ _ _ _ _ (loading_step r file) Hr1 H1 Hl1) as Hl1'.
  apply (loading_settled _ _ _ _ _ Hl1') in Ha as (snap & b2 & Hf & Hset & Ha).
  apply exec_app_inv in Ha as (a2 & Hr2 & Ha).
  pose proof (exec_invariant _ _ _ _ _ (settled_step snap) Hr2 H2 Hset) as Hset'.
  apply (inv_looking _ _ _ _ _ _ Hset') in Ha as (b3 & Hlook & Ha).
  apply exec_app_inv in Ha as (a3 & Hr3 & Ha).
  pose proof (exec_invariant _ _ _ _ _ (looking_step snap t token) Hr3 H3 Hlook) as Hlook'.
  exists snap. split; [done|]. by eapply looking_answered.
Qed.

(** No call waits for another: alone, from wherever it is, a call ends
    within two steps of its own after the file is read. *)
Definition own_steps (p : pc) : nat :=
  match p with
  | ReloadRead | Return _ => 0
  | LookupLoad _ | ReloadParse _ | CountLoad => 2
  | LookupCompute _ _ | ReloadStore _ | CountCompute _ => 1
  end.

Lemma wait_free cell p :
  match thread_step cell p with
  | Some (_, p') => (own_steps p' < own_steps p)%nat
  | None => p = ReloadRead ∨ ∃ r, p = Return r
  end.
Proof using.
  destruct p as [token|token [snap|]| |file|fresh| |[snap|]|r]; simpl; try lia; eauto.
  destruct (LoadUsersFile yaml_decode file) as [[]|]; simpl; lia.
Qed.

(** ** Schedules: executions as a function *)

Inductive choice := Begin (t : nat) (c : call) | Read (t : nat) (file : os_error + bytes) | Go (t : nat).

Definition act (s : us_state) (c : choice) : option (list event * us_state) :=
  let '(mk_us st calls) := s in
  match c with
  | Begin t c =>
      match calls !! t with
      | None => Some ([EInv t c], mk_us st (<[t := enter c]> calls))
      | Some _ => None
      end
  | Read t file =>
      match calls !! t with
      | Some ReloadRead => Some ([ERead t file], mk_us st (<[t := ReloadParse file]> calls))
      | _ => None
      end
  | Go t =>
      match calls !! t with
      | Some (Return r) => Some ([ERet t r], mk_us st (delete t calls))
      | Some p =>
          '(cell', p') ← thread_step (us_snap st) p;
          Some ([], mk_us (mk_UserStore cell') (<[t := p']> calls))
      | None => None
      end
  end.

Fixpoint schedule (es : list event) (s : us_state) (cs : list choice) : option (list event * us_state) :=
  match cs with
  | [] => Some (es, s)
  | c :: cs => '(e, s') ← act s c; schedule (es ++ e) s' cs
  end.

Lemma act_step s c e s' : act s c = Some (e, s') → us_step s e s'.
Proof using.
  destruct s as [[cell] calls], c as [t c|t file|t]; simpl; destruct (calls !! t) as [p|] eqn:Hc; try done.
  - intros [= <- <-]. by constructor.
  - destruct p; try done. intros [= <- <-]. by constructor.
  - destruct (thread_step cell p) as [[cell' p']|] eqn:Hs; destruct p; try done; simpl in *;
      intros; simplify_option_eq; econstructor; done.
Qed.

Lemma schedule_run s0 es s cs es' s' :
  us_run s0 es s → schedule es s cs = Some (es', s') → us_run s0 es' s'.
Proof using.
  revert es s. induction cs as [|c cs IH]; simpl; intros es s Hrun; [by intros [= <- <-]|].
  destruct (act s c) as [[e m]|] eqn:Ha; [|done]. simpl. apply IH. econstructor; [done|]. by apply act_step in Ha.
Qed.

End store.

Notation us_run yaml_decode := (exec (us_step yaml_decode)).

(** ** An example: alice's token is revoked while it is looked up *)

Definition alice : userEntry := mk_userEntry 1 "alice" "tbs_" (token_hash "secret") false.
(** An empty file has no users; every other file has alice. *)
Definition decode (raw : bytes) : result (list userEntry) := Ok (if raw is [] then [] else [alice]).
Definition alice_user : User := mk_User 1 "alice" "tbs_" (token_hash "secret") false.
Definition alice_store : UserStore := default (mk_UserStore None) (newUserStore [alice_user]).

(** Call 1 began before the Reload, call 2, and ends after it; call 3 begins
    after it. *)
Definition revocation : list choice :=
  [Begin 1 (CLookup "secret"); Begin 2 CReload; Read 2 (inr []); Go 1; Go 2; Go 2; Go 2;
   Begin 3 (CLookup "secret"); Go 3; Go 3; Go 3; Go 1; Go 1].
Definition refused : reply := RLookup (Returned (Err (ErrSentinel ErrUnauthorized))).
Definition revoked : list event :=
  [EInv 1 (CLookup "secret"); EInv 2 CReload; ERead 2 (inr []); ERet 2 (RReload (Returned (Ok tt)));
   EInv 3 (CLookup "secret"); ERet 3 refused; ERet 1 (RLookup (Returned (Ok alice_user)))].

Lemma revocation_run : ∃ s, us_run decode (us_start alice_store) revoked s.
Proof.
  assert (∃ s, schedule decode [] (us_start alice_store) revocation = Some (revoked, s)) as [s Hs].
  { eexists. vm_compute. reflexivity. }
  exists s. eapply schedule_run; [constructor|exact Hs].
Qed.

Lemma user_store_linearizable_witness :
  ∃ snap a, newUserSnapshot [alice_user] = Some snap
    ∧ exec (atomic_step decode) (atomic_start snap) revoked a.
Proof.
  destruct revocation_run as [s Hs].
  destruct (user_store_linearizable decode [alice_user] alice_store revoked s) as (snap & a & H1 & H2 & _).
  - vm_compute. reflexivity.
  - exact Hs.
  - exists snap, a. split; [exact H1|exact H2].
Defined.

Lemma reload_visible_witness :
  ∃ snap, LoadUsersFile decode (inr []) = Returned (Ok snap)
    ∧ refused = RLookup (Returned (Lookup snap "secret")).
Proof.
  assert (∃ s, schedule decode [] (us_start alice_store) (take 11 revocation) = Some (take 6 revoked, s)) as [s Hs].
  { eexists. vm_compute. reflexivity. }
  apply (reload_visible decode [alice_user] alice_store s 2 3 (inr []) "secret" refused
           [EInv 1 (CLookup "secret"); EInv 2 CReload] [] [] []).
  - vm_compute. reflexivity.
  - exact (schedule_run _ _ _ _ _ _ _ (exec_nil _ _) Hs).
  - vm_compute. reflexivity.
  - constructor.
  - constructor.
  - constructor.
Defined.

(** Two overlapping Reloads can leave the older file in service: each is
    atomic, but the one that read first may store last. *)
Definition overlapping : list choice :=
  [Begin 1 CReload; Begin 2 CReload; Read 1 (inr [Byte.x00]); Read 2 (inr []);
   Go 2; Go 2; Go 2; Go 1; Go 1; Go 1].
Example older_file_wins :
  (λ '(_, s), us_snap (us_store s)) <$> schedule decode [] (us_start alice_store) overlapping
  = Some (us_snap alice_store).
Proof. vm_compute. reflexivity. Qed.
