(* ===== verification/Config.v ===== *)
(** Process configuration (src/internal/config/config.go). *)

From S2P Require Import Prelude.

Module config.

Definition defaultAddr : string := ":8080".
Definition defaultLogLevel : string := "info".

Definition EnvAddr : string := "TABBY_SYNC_ADDR".
Definition EnvDataDir : string := "TABBY_SYNC_DATA_DIR".
Definition EnvUsersFile : string := "TABBY_SYNC_USERS_FILE".
Definition EnvMasterKeyProvider : string := "TABBY_SYNC_MASTER_KEY_PROVIDER".
Definition EnvLogLevel : string := "APP_LOG_LEVEL".

Definition allowedMasterKeyProviders : list string := ["env"; "file"].
Definition allowedLogLevels : list string := ["error"; "warn"; "info"; "debug"].

Record Config := mk_Config {
  Addr : string;
  DataDir : string;
  UsersFile : string;
  MasterKeyProvider : string;
  LogLevel : string;
}.

Fixpoint contains (haystack : list string) (needle : string) : bool :=
  match haystack with
  | [] => false
  | v :: rest => if decide (v = needle) then true else contains rest needle
  end.

(** fmt's %v of a string slice. *)
Fixpoint join_space (l : list string) : string :=
  match l with
  | [] => ""
  | [s] => s
  | s :: rest => s +:+ " " +:+ join_space rest
  end.
Definition fmt_v (l : list string) : string := "[" +:+ join_space l +:+ "]".

Definition Load (getenv : option (string → string)) : result Config :=
  match getenv with
  | None => Err (ErrNew "config.Load: getenv must not be nil")
  | Some getenv =>
      let addr := getenv EnvAddr in
      let dataDir := getenv EnvDataDir in
      let usersFile := getenv EnvUsersFile in
      let provider := getenv EnvMasterKeyProvider in
      let logLevel := getenv EnvLogLevel in
      let addr := if decide (addr = "") then defaultAddr else addr in
      let logLevel := if decide (logLevel = "") then defaultLogLevel else logLevel in
      if decide (dataDir = "") then Err (ErrNew (EnvDataDir +:+ " is required"))
      else if decide (usersFile = "") then Err (ErrNew (EnvUsersFile +:+ " is required"))
      else if decide (provider = "")
      then Err (ErrNew (EnvMasterKeyProvider +:+ " is required (allowed: "
                        +:+ fmt_v allowedMasterKeyProviders +:+ ")"))
      else if negb (contains allowedMasterKeyProviders provider)
      then Err (ErrNew (EnvMasterKeyProvider +:+ " must be one of " +:+ fmt_v allowedMasterKeyProviders))
      else if negb (contains allowedLogLevels logLevel)
      then Err (ErrNew (EnvLogLevel +:+ " must be one of " +:+ fmt_v allowedLogLevels))
      else Ok (mk_Config addr dataDir usersFile provider logLevel)
  end.

Definition redact (v : string) : string := if decide (v = "") then "<unset>" else "<set>".

(** String on a possibly nil receiver. *)
Definition String (c : option Config) : string :=
  match c with
  | None => "config<nil>"
  | Some c =>
      "config{addr=" +:+ Addr c +:+ " log_level=" +:+ LogLevel c
      +:+ " data_dir=" +:+ redact (DataDir c) +:+ " users_file=" +:+ redact (UsersFile c)
      +:+ " master_key_provider=" +:+ redact (MasterKeyProvider c) +:+ "}"
  end.

Lemma contains_elem l s : contains l s = true ↔ s ∈ l.
Proof.
  induction l as [|x l IH]; simpl; [split; [done|by intros ?%not_elem_of_nil]|].
  rewrite elem_of_cons. case_decide as H; [subst; tauto|]. rewrite IH. split; [tauto|].
  intros [->|?]; [done|done].
Qed.

#[global] Arguments contains : simpl never.

(** A configuration the server may run with. *)
Definition wf (c : Config) : Prop :=
  Addr c ≠ "" ∧ DataDir c ≠ "" ∧ UsersFile c ≠ ""
  ∧ (MasterKeyProvider c = "env" ∨ MasterKeyProvider c = "file")
  ∧ LogLevel c ∈ allowedLogLevels.

(** Loading succeeds exactly when the required variables are set and the
    enumerated ones have an allowed value, and then returns the environment's
    values with the two defaults filled in. *)
Theorem load_exact (env : string → string) c :
  Load (Some env) = Ok c ↔
  wf c
  ∧ Addr c = (if decide (env EnvAddr = "") then defaultAddr else env EnvAddr)
  ∧ DataDir c = env EnvDataDir ∧ UsersFile c = env EnvUsersFile
  ∧ MasterKeyProvider c = env EnvMasterKeyProvider
  ∧ LogLevel c = (if decide (env EnvLogLevel = "") then defaultLogLevel else env EnvLogLevel).
Proof.
  unfold Load, wf. cbv zeta. split.
  - destruct (decide (env EnvDataDir = "")); [done|]. destruct (decide (env EnvUsersFile = "")); [done|].
    destruct (decide (env EnvMasterKeyProvider = "")); [done|].
    destruct (contains allowedMasterKeyProviders _) eqn:Hp; [|done].
    destruct (contains allowedLogLevels _) eqn:Hl; [|done]. simpl. intros [= <-]. simpl.
    apply contains_elem in Hp, Hl. split_and!; try done.
    + by destruct (decide (env EnvAddr = "")).
    + apply elem_of_cons in Hp as [->|Hp%list_elem_of_singleton]; by auto.
  - intros ((Ha & Hd & Hu & Hp & Hl) & Ea & Ed & Eu & Ep & El). destruct c as [a d us p l]; simpl in *.
    subst. destruct (decide (env EnvDataDir = "")) as [|_]; [done|].
    destruct (decide (env EnvUsersFile = "")) as [|_]; [done|].
    destruct (decide (env EnvMasterKeyProvider = "")) as [He|_]; [rewrite He in Hp; by destruct Hp|].
    replace (contains allowedMasterKeyProviders (env EnvMasterKeyProvider)) with true
      by (by destruct Hp as [-> | ->]).
    by rewrite (proj2 (contains_elem _ _) Hl).
Qed.

(** The printed configuration reveals nothing about paths and key
    provider but whether they are set. *)
Theorem string_redacts c c' :
  Addr c = Addr c' → LogLevel c = LogLevel c' → wf c → wf c' → String (Some c) = String (Some c').
Proof.
  unfold wf, String, redact. intros -> -> (_ & ? & ? & Hp & _) (_ & ? & ? & Hp' & _).
  repeat match goal with |- context [decide (?x = "")] =>
    rewrite (decide_False (P := x = "")) by first [done|by destruct Hp as [-> | ->]|by destruct Hp' as [-> | ->]]
  end. done.
Qed.

Definition demo_env (k : string) : string :=
  if decide (k = EnvDataDir) then "/data"
  else if decide (k = EnvUsersFile) then "/etc/users.yml"
  else if decide (k = EnvMasterKeyProvider) then "file" else "".

Definition demo_config : Config := mk_Config ":8080" "/data" "/etc/users.yml" "file" "info".

Lemma string_redacts_witness :
  String (Some demo_config)
  = String (Some (mk_Config ":8080" "/other" "/secret/users.yml" "env" "info")).
Proof.
  apply string_redacts; [reflexivity|reflexivity|..]; unfold wf, allowedLogLevels; simpl; split_and!;
    first [discriminate|by left|by right|repeat first [apply list_elem_of_here|apply list_elem_of_further]].
Defined.

End config.
