(* ===== verification/Keys.v ===== *)
(** Master key providers (src/internal/keys: keys.go, env_provider.go,
    file_provider.go). *)

From S2P Require Import Prelude AesGcm GoLib Filepath Config FS.

Definition MasterKeySize : nat := 32.
Definition EnvMasterKey : string := "TABBY_SYNC_MASTER_KEY".
Definition MasterKeyFilename : string := "master.key".

(** ** The environment provider *)

Definition env_Load (getenv : string → string) : result bytes :=
  let raw := getenv EnvMasterKey in
  if decide (raw = "") then Err (ErrSentinel ErrMissing)
  else
    match DecodeString raw with
    | None => Err (ErrNew "keys: master key env value is not valid hex")
    | Some decoded =>
        if negb (length decoded =? MasterKeySize)%nat then Err (ErrSentinel ErrInvalidLength)
        else Ok decoded
    end.

(** ** The file provider *)

Definition wrapPathError (op : string) (e : os_error) : error :=
  match e with
  | PathError _ _ err => ErrWrap ("keys: " +:+ op +:+ ": ") err ""
  | LinkError _ _ _ err => ErrWrap ("keys: " +:+ op +:+ ": ") err ""
  | OtherError err => ErrWrap ("keys: " +:+ op +:+ ": ") err ""
  end.

(** A step on the temporary file: on failure it is closed first. *)
Definition or_close {A} (tmp : path) (op : string) (c : OS A) : M FS A := λ s,
  match c s with
  | (inl e, s') => (Err (wrapPathError op e), (CloseFile tmp s').2)
  | (inr a, s') => (Ok a, s')
  end.

(** [defer func() { _ = os.Remove(tmpPath) }()]. *)
Definition defer_remove {A} (tmp : path) (body : M FS A) : M FS A := λ s,
  let '(r, s') := body s in (r, (Remove tmp s').2).

(** The steps of [generate] that fill the temporary file. *)
Definition stage_key (tmp : path) (key : bytes) : M FS unit :=
  or_close tmp "chmod master key temp file" (Chmod tmp 384) ;;;
  or_close tmp "write master key temp file" (WriteTo tmp key) ;;;
  or_close tmp "fsync master key temp file" (Sync tmp) ;;;
  or_fail (wrapPathError "close master key temp file") (CloseFile tmp).

(** The part of [generate] under the deferred removal. *)
Definition install_key (p tmp : path) (key : bytes) : M FS bytes :=
  stage_key tmp key ;;;
  or_fail (wrapPathError "rename master key into place") (Rename tmp p) ;;;
  or_fail (wrapPathError "chmod master key") (Chmod p 384) ;;;
  ret key.

Definition generate (p : path) : M FS bytes :=
  or_fail (wrapPathError "create master key parent dir") (MkdirAll (p_dir p) 448) ;;;
  ignored (ChmodDir (p_dir p) 448) ;;;
  let! key := wrapf "generate master key: " (fs_read_rand MasterKeySize) in
  let! tmp := or_fail (wrapPathError "create master key temp file")
                (CreateTemp (p_dir p) ".master.key.") in
  defer_remove tmp (install_key p tmp key).

Definition file_Load (p : path) : M FS bytes := λ s,
  match ReadFile p s with
  | (inl e, s') =>
      if errors_is (os_err e) ErrNotExist then generate p s'
      else (Err (wrapPathError "read master key" e), s')
  | (inr raw, s') =>
      if negb (length raw =? MasterKeySize)%nat then (Err (ErrSentinel ErrInvalidLength), s')
      else (Ok raw, s')
  end.

Inductive Provider := FileProvider (p : path) | EnvProvider.

Definition LoadFromConfig (getenv : string → string) (cfg : option config.Config) : M FS (Provider * bytes) :=
  match cfg with
  | None => fail (ErrNew "keys: nil config")
  | Some cfg =>
      if decide (config.MasterKeyProvider cfg = "file") then
        let p := join_path (config.DataDir cfg) MasterKeyFilename in
        let! key := file_Load p in ret (FileProvider p, key)
      else if decide (config.MasterKeyProvider cfg = "env") then
        let! key := lift (env_Load getenv) in ret (EnvProvider, key)
      else fail (ErrNew "keys: unsupported master_key_provider")
  end.

(** ** Laws *)

Lemma or_close_run {A} tmp op (c : OS A) s r s' :
  or_close tmp op c s = (r, s') →
  ∃ x s1, c s = (x, s1) ∧ fs_files s' = fs_files s1 ∧
  match r with Ok a => x = inr a | Err _ => ∃ e, x = inl e end.
Proof.
  unfold or_close. destruct (c s) as [[e|a] s1] eqn:Hc; intros [= <- <-].
  - exists (inl e), s1. destruct (CloseFile tmp s1) eqn:Hcl. apply CloseFile_pure in Hcl. simpl. eauto 10.
  - exists (inr a), s1. done.
Qed.

Lemma or_fail_run {A} wrap (c : OS A) s r s' :
  or_fail wrap c s = (r, s') →
  ∃ x, c s = (x, s') ∧ match r with Ok a => x = inr a | Err _ => ∃ e, x = inl e end.
Proof. unfold or_fail. destruct (c s) as [[e|a] s1]; intros [= <- <-]; eauto. Qed.

(** Staging touches nothing but the temporary file and leaves the whole key
    in it. *)
Lemma stage_key_run tmp key s r s' :
  fs_files s !! tmp = Some (mk_file [] 384) → stage_key tmp key s = (r, s') →
  only tmp s s' ∧ match r with Ok _ => fs_files s' !! tmp = Some (mk_file key 384) | Err _ => True end.
Proof.
  intros Htmp. unfold stage_key. rewrite bind_run.
  destruct (or_close tmp _ (Chmod tmp 384) s) as [[[]|e] s1] eqn:H1;
    apply or_close_run in H1 as (x1 & t1 & H1 & Hs1 & Hx1); apply Chmod_run in H1 as [Ho1 H1];
    (assert (Ho : only tmp s s1) by (intros q Hq; rewrite Hs1; by apply Ho1));
    [|by intros [= <- <-]].
  subst x1. destruct H1 as (f1 & Hf1 & Ht1). rewrite Htmp in Hf1. injection Hf1 as <-.
  rewrite <- Hs1 in Ht1. rewrite bind_run.
  destruct (or_close tmp _ (WriteTo tmp key) s1) as [[[]|e] s2] eqn:H2;
    apply or_close_run in H2 as (x2 & t2 & H2 & Hs2 & Hx2); apply WriteTo_run in H2 as [Ho2 H2];
    (assert (Ho' : only tmp s s2) by (etrans; [done|]; intros q Hq; rewrite Hs2; by apply Ho2));
    [|by intros [= <- <-]].
  subst x2. specialize (H2 _ Ht1). rewrite <- Hs2 in H2. simpl in H2. rewrite bind_run.
  destruct (or_close tmp _ (Sync tmp) s2) as [[[]|e] s3] eqn:H3;
    apply or_close_run in H3 as (x3 & t3 & H3 & Hs3 & Hx3); apply Sync_pure in H3; unfold same_files in H3;
    (assert (E3 : fs_files s3 = fs_files s2) by congruence);
    [|intros [= <- <-]; split; [|done]; intros q Hq; rewrite E3; by apply Ho'].
  intros (x4 & H4%CloseFile_pure & _)%or_fail_run. unfold same_files in H4.
  assert (E4 : fs_files s' = fs_files s2) by congruence.
  split; [intros q Hq; rewrite E4; by apply Ho'|]. destruct r; [|done]. by rewrite E4.
Qed.

(** Until the rename only the temporary file changes; the rename puts the
    complete key in place. *)
Lemma install_key_run p tmp key s r s' :
  p ≠ tmp → fs_files s !! tmp = Some (mk_file [] 384) →
  install_key p tmp key s = (r, s') →
  (∀ q, q ≠ p → q ≠ tmp → fs_files s' !! q = fs_files s !! q)
  ∧ match r with
    | Ok k => k = key ∧ fs_files s' !! p = Some (mk_file key 384) ∧ fs_files s' !! tmp = None
    | Err _ => fs_files s' !! p = fs_files s !! p ∨ fs_files s' !! p = Some (mk_file key 384)
    end.
Proof.
  intros Hne Htmp. unfold install_key. rewrite bind_run.
  destruct (stage_key tmp key s) as [[[]|e] s4] eqn:H4; apply stage_key_run in H4 as [Ho H4]; try done.
  2: { intros [= <- <-]. split; [by intros; apply Ho|]. left. by apply Ho. }
  rewrite bind_run. destruct (or_fail _ (Rename tmp p) s4) as [[[]|e] s5] eqn:H5;
    apply or_fail_run in H5 as (x5 & H5 & Hx5); apply Rename_run in H5.
  2: { destruct Hx5 as [e5 ->]. intros [= <- <-]. rewrite H5. split; [by intros; apply Ho|].
       left. by apply Ho. }
  subst x5. destruct H5 as (f5 & Hf5 & H5). rewrite H4 in Hf5. injection Hf5 as <-.
  assert (Hp5 : fs_files s5 !! p = Some (mk_file key 384)) by (by rewrite H5, lookup_insert_eq).
  assert (Hq5 : ∀ q, q ≠ p → q ≠ tmp → fs_files s5 !! q = fs_files s !! q).
  { intros q Hq Hq'. rewrite H5, lookup_insert_ne, lookup_delete_ne by done. by apply Ho. }
  assert (Ht5 : fs_files s5 !! tmp = None) by (by rewrite H5, lookup_insert_ne, lookup_delete_eq).
  rewrite bind_run. destruct (or_fail _ (Chmod p 384) s5) as [[[]|e] s6] eqn:H6;
    apply or_fail_run in H6 as (x6 & H6 & Hx6); apply Chmod_run in H6 as [Ho6 H6].
  2: { destruct Hx6 as [e6 ->]. intros [= <- <-]. rewrite H6. split; [done|]. by right. }
  subst x6. destruct H6 as (f6 & Hf6 & H6). rewrite Hp5 in Hf6. injection Hf6 as <-.
  intros [= <- <-]. split; [intros q Hq Hq'; rewrite Ho6 by done; by apply Hq5|].
  split; [done|]. split; [done|]. rewrite Ho6 by done. done.
Qed.

(** The temporary name is never the key's own. *)
Lemma temp_not_key d x : mk_path d MasterKeyFilename ≠ mk_path d (".master.key." +:+ x).
Proof. by intros [=]. Qed.

(** Generating a key: afterwards the key file is complete or as it was, and
    no other file that existed before has changed. *)
Lemma generate_run d s r s' :
  let p := mk_path d MasterKeyFilename in
  generate p s = (r, s') →
  (∀ q, q ≠ p → is_Some (fs_files s !! q) → fs_files s' !! q = fs_files s !! q)
  ∧ match r with
    | Ok k => length k = MasterKeySize ∧ fs_files s' !! p = Some (mk_file k 384)
    | Err _ => fs_files s' !! p = fs_files s !! p
               ∨ ∃ k, length k = MasterKeySize ∧ fs_files s' !! p = Some (mk_file k 384)
    end.
Proof.
  intros p. unfold generate. rewrite bind_run.
  destruct (or_fail _ (MkdirAll _ _) s) as [[[]|e] s1] eqn:H1;
    apply or_fail_run in H1 as (x1 & H1%MkdirAll_pure & _); unfold same_files in H1.
  2: { intros [= <- <-]. rewrite H1. eauto. }
  rewrite bind_run. unfold ignored. destruct (ChmodDir (p_dir p) 448 s1) as [x2 s2] eqn:H2.
  apply ChmodDir_pure in H2. unfold same_files in H2. cbn [snd]. rewrite bind_run, wrapf_run.
  unfold fs_read_rand. destruct (fs_rand s2 _) as [g|].
  2: { intros [= <- <-]. simpl. rewrite H2, H1. eauto. }
  rewrite bind_run. destruct (or_fail _ (CreateTemp _ _) (next_call s2)) as [[tmp|e] s3] eqn:H3;
    apply or_fail_run in H3 as (x3 & H3 & Hx3); apply CreateTemp_run in H3.
  2: { destruct Hx3 as [e3 ->]. intros [= <- <-]. unfold same_files in H3. simpl in H3.
       rewrite H3, H2, H1. eauto. }
  subst x3. destruct H3 as ([x ->] & Hfresh & Ho3 & Htmp). simpl in Hfresh. rewrite H2, H1 in Hfresh.
  unfold defer_remove. destruct (install_key p _ _ s3) as [ri s4] eqn:Hi.
  apply install_key_run in Hi as [Hq Hi]; [|by apply temp_not_key|done].
  destruct (Remove _ s4) as [xr s5] eqn:Hr. apply Remove_run in Hr as [Hor _]. cbn [snd].
  intros [= <- <-].
  assert (H03 : ∀ q, q ≠ mk_path d (".master.key." +:+ x) → fs_files s3 !! q = fs_files s !! q).
  { intros q Hne. rewrite Ho3 by done. simpl. by rewrite H2, H1. }
  assert (Hp := temp_not_key d x). fold p in Hp. split.
  - intros q Hne [f Hf].
    assert (q ≠ mk_path d (".master.key." +:+ x)) by (intros ->; simpl in Hfresh; congruence).
    rewrite Hor, Hq, H03 by done. done.
  - rewrite (Hor p Hp). destruct ri as [k|e].
    + destruct Hi as (-> & Hi & _). split; [|done]. by rewrite length_fmap, length_seq.
    + destruct Hi as [Hi|Hi]; [left; by rewrite Hi, H03|right]. eexists.
      split; [|exact Hi]. by rewrite length_fmap, length_seq.
Qed.

(** ** Properties *)

(** C37: The key file is never partial and never replaced: whatever call
    fails, loading leaves an existing key file and every other file as they
    are; a missing key file is afterwards still missing or a complete 32-byte
    key of mode 0600, and a key that is returned is the key that is stored,
    in a file of mode 0600 if it was generated. *)
Theorem key_file_never_partial d s r s' :
  let p := mk_path d MasterKeyFilename in
  file_Load p s = (r, s') →
  (∀ q, is_Some (fs_files s !! q) → fs_files s' !! q = fs_files s !! q)
  ∧ match r with
    | Ok k => length k = MasterKeySize
              ∧ ∃ f, fs_files s' !! p = Some f ∧ f_data f = k ∧ (fs_files s !! p = None → f_mode f = 384)
    | Err _ => fs_files s' !! p = fs_files s !! p
               ∨ ∃ k, length k = MasterKeySize ∧ fs_files s' !! p = Some (mk_file k 384)
    end.
Proof.
  intros p. unfold file_Load. destruct (ReadFile p s) as [[e|raw] s1] eqn:Hr;
    apply ReadFile_run in Hr as [Hs Hr]; unfold same_files in Hs.
  - destruct (errors_is (os_err e) ErrNotExist) eqn:He; [|intros [= <- <-]; rewrite Hs; by eauto].
    destruct Hr as [[Hno ->]|(op & msg & ->)]; [|done].
    intros [Hq Hg]%generate_run. rewrite Hs in Hq, Hg. fold p in Hq, Hg. split.
    + intros q Hsome. apply Hq; [|done]. intros ->. rewrite Hno in Hsome. by destruct Hsome.
    + destruct r as [k|]; [|done]. destruct Hg as [Hl Hg]. split; [done|]. by exists (mk_file k 384).
  - destruct Hr as (f & Hf & <-). destruct (Nat.eqb_spec (length (f_data f)) MasterKeySize) as [Hl|Hl];
      intros [= <- <-]; rewrite Hs; (split; [done|]); [|by left].
    split; [done|]. exists f. split_and!; [done|done|congruence].
Qed.

(** A key survives restarts: loading again, as long as the file can be
    read, returns the key that the first load returned and writes nothing. *)
Theorem key_load_stable d s k s' :
  let p := mk_path d MasterKeyFilename in
  file_Load p s = (Ok k, s') → fs_fault s' (fs_calls s') = None →
  ∃ s'', file_Load p s' = (Ok k, s'') ∧ fs_files s'' = fs_files s'.
Proof.
  intros p H Hnf.
  assert (∃ f, fs_files s' !! p = Some f ∧ f_data f = k ∧ length k = MasterKeySize) as (f & Hf & Hk & Hl).
  { unfold file_Load in H. destruct (ReadFile p s) as [[e|raw] s1] eqn:Hr;
      apply ReadFile_run in Hr as [Hs Hr]; unfold same_files in Hs.
    - destruct (errors_is (os_err e) ErrNotExist); [|done].
      apply generate_run in H as [_ [Hl Hg]]. fold p in Hg. by exists (mk_file k 384).
    - destruct Hr as (f & Hf & <-).
      destruct (Nat.eqb_spec (length (f_data f)) MasterKeySize); [|done]. simplify_eq/=.
      exists f. by rewrite Hs. }
  unfold file_Load, ReadFile, syscall. rewrite Hnf. simpl. rewrite Hf, Hk, Hl. simpl. by eexists.
Qed.

(** The environment provider accepts exactly 64 hexadecimal digits and
    returns the 32 bytes they spell; an unset variable is ErrMissing and a
    value of another length ErrInvalidLength. *)
Theorem env_key_exact getenv :
  match env_Load getenv with
  | Ok k => DecodeString (getenv EnvMasterKey) = Some k ∧ length k = MasterKeySize
  | Err e =>
      (getenv EnvMasterKey = "" ∧ e = ErrSentinel ErrMissing)
      ∨ (DecodeString (getenv EnvMasterKey) = None ∧ no_sentinel e)
      ∨ (∃ k, DecodeString (getenv EnvMasterKey) = Some k ∧ length k ≠ MasterKeySize
              ∧ e = ErrSentinel ErrInvalidLength)
  end.
Proof.
  unfold env_Load. case_decide as H0; [by left|].
  destruct (DecodeString (getenv EnvMasterKey)) as [k|]; [|right; left; by auto with tabby].
  destruct (Nat.eqb_spec (length k) MasterKeySize); simpl; [done|]. right; right. by exists k.
Qed.

(** A key printed in hexadecimal into the environment is the key that the
    provider loads. *)
Theorem env_key_roundtrip k getenv :
  length k = MasterKeySize → getenv EnvMasterKey = EncodeToString k → env_Load getenv = Ok k.
Proof.
  intros Hl He. unfold env_Load. rewrite He, Decode_Encode, Hl. case_decide as H0; [|done].
  apply (f_equal DecodeString) in H0. rewrite Decode_Encode in H0. vm_compute in H0.
  injection H0 as ->. done.
Qed.

(** ** Witnesses *)

Definition demo_fs : FS :=
  mk_FS ∅ {[ "/" := 493 ]} 0 (λ _, None) (λ _, O) (λ n, pretty n) (λ n, Some (λ i, byte_of_N (N.of_nat (n + i)))).
Definition demo_fs_key : bytes := Eval vm_compute in
  match (file_Load (mk_path "/data" MasterKeyFilename) demo_fs).1 with Ok k => k | Err _ => [] end.
Definition demo_fs_after : FS := (file_Load (mk_path "/data" MasterKeyFilename) demo_fs).2.

Lemma key_file_never_partial_witness :
  length demo_fs_key = MasterKeySize
  ∧ ∃ f, fs_files demo_fs_after !! mk_path "/data" MasterKeyFilename = Some f ∧ f_data f = demo_fs_key
         ∧ (fs_files demo_fs !! mk_path "/data" MasterKeyFilename = None → f_mode f = 384).
Proof.
  refine (proj2 (key_file_never_partial "/data" demo_fs (Ok demo_fs_key) demo_fs_after _)).
  unfold demo_fs_after. apply run_fst. vm_compute. reflexivity.
Defined.

Lemma key_load_stable_witness :
  ∃ s'', file_Load (mk_path "/data" MasterKeyFilename) demo_fs_after = (Ok demo_fs_key, s'')
         ∧ fs_files s'' = fs_files demo_fs_after.
Proof.
  refine (key_load_stable "/data" demo_fs demo_fs_key demo_fs_after _ _).
  - unfold demo_fs_after. apply run_fst. vm_compute. reflexivity.
  - vm_compute. reflexivity.
Defined.

Lemma env_key_roundtrip_witness :
  env_Load (λ _, EncodeToString (replicate 32 Byte.x5a)) = Ok (replicate 32 Byte.x5a).
Proof. apply env_key_roundtrip; reflexivity. Defined.
