(* ===== verification/Migrations.v ===== *)
(** Schema migrations (src/internal/store/sqlite/migrations.go).

    The effect of a migration's SQL on the schema is the engine's business
    and a parameter; the files, their order, the bookkeeping table and the
    transactions are modelled.  Every database call may fail (a fault
    script, one entry per call). *)

From S2P Require Import Prelude AesGcm GoLib Strconv.

(** ** Files *)

Record dir_entry := mk_dir_entry {
  de_name : string;
  de_is_dir : bool;
  de_body : result string;       (* fs.ReadFile of it *)
}.

Record migration := mk_migration { mg_version : Z; mg_name : string; mg_sql : string }.

(** [%03d] of a version. *)
Definition pad3 (z : Z) : string :=
  let s := pretty z in
  if slen s <? 3 then (if slen s <? 2 then "00" else "0") +:+ s else s.

Definition name_char (b : byte) : bool :=
  is_lower b || is_digit b || bool_decide (b ∈ [chr "."; chr "_"; chr "-"]).

(** [^([0-9]{3})_([a-z0-9._-]+)\.sql$]: version and name. *)
Definition migrationFilenamePattern (s : string) : option (bytes * bytes) :=
  match bytes_of_string s with
  | a :: b :: c :: u :: rest =>
      if is_digit a && is_digit b && is_digit c && bool_decide (u = chr "_") then
        match strip_prefix (rev (bytes_of_string ".sql")) (rev rest) with
        | Some rname =>
            if bool_decide (rname ≠ []) && forallb name_char rname
            then Some ([a; b; c], rev rname) else None
        | None => None
        end
      else None
  | _ => None
  end.

Fixpoint read_migrations (entries : list dir_entry) : result (list migration) :=
  match entries with
  | [] => Ok []
  | e :: rest =>
      if de_is_dir e then read_migrations rest
      else
        match migrationFilenamePattern (de_name e) with
        | None => Err (ErrNew ("invalid migration filename: " +:+ Quote (de_name e)))
        | Some (digits, name) =>
            match digits_value 0 digits with
            | None => Err (ErrNew ("parse migration version " +:+ Quote (de_name e)))
            | Some version =>
                match de_body e with
                | Err err => Err (ErrWrap ("read migration " +:+ Quote (de_name e) +:+ ": ") err "")
                | Ok body =>
                    match read_migrations rest with
                    | Err err => Err err
                    | Ok migs => Ok (mk_migration version (string_of_bytes name) body :: migs)
                    end
                end
            end
        end
  end.

Definition version_le (a b : migration) : Prop := mg_version a ≤ mg_version b.
#[global] Instance version_le_dec a b : Decision (version_le a b).
Proof. unfold version_le. apply _. Defined.

(** The versions are 1, 2, 3, ... *)
Fixpoint check_contiguous (i : Z) (migs : list migration) : result unit :=
  match migs with
  | [] => Ok tt
  | m :: rest =>
      if negb (mg_version m =? i + 1)
      then Err (ErrNew ("migration versions must start at 001 and be contiguous; got version "
                        +:+ pretty (mg_version m) +:+ " at index " +:+ pretty i))
      else check_contiguous (i + 1) rest
  end.

Definition loadMigrations (dir : result (list dir_entry)) : result (list migration) :=
  match dir with
  | Err err => Err (ErrWrap "read migrations dir: " err "")
  | Ok entries =>
      match read_migrations entries with
      | Err err => Err err
      | Ok migs =>
          let migs := merge_sort version_le migs in
          match check_contiguous 0 migs with
          | Err err => Err err
          | Ok _ => Ok migs
          end
      end
  end.

(** The directory that is compiled in (migrations/*.sql). *)
Definition init_sql : string :=
"CREATE TABLE IF NOT EXISTS configs (
    id INTEGER PRIMARY KEY AUTOINCREMENT,
    user_id INTEGER NOT NULL,
    name TEXT NOT NULL,
    content_ciphertext BLOB NOT NULL,
    content_nonce BLOB NOT NULL,
    last_used_with_version TEXT,
    created_at TEXT NOT NULL,
    modified_at TEXT NOT NULL
);

CREATE INDEX IF NOT EXISTS idx_configs_user_id ON configs(user_id);

CREATE TABLE IF NOT EXISTS schema_migrations (
    version INTEGER PRIMARY KEY,
    applied_at TEXT NOT NULL
);
".
Definition migrationsFS : result (list dir_entry) := Ok [mk_dir_entry "001_init.sql" false (Ok init_sql)].

(** ** Statements *)

Definition splitSQLStatements (raw : string) : list string :=
  List.filter (λ s, bool_decide (s ≠ ""))
    ((TrimSpace ∘ string_of_bytes) <$> split_byte (chr ";") (bytes_of_string raw)).

(** ** Applying *)

Section apply.
Context {schema : Type}.
(** The engine's effect of one statement; [None] is an SQL error. *)
Variable run_sql : string → schema → option schema.

Record mdb := mk_mdb {
  m_schema : schema;
  m_applied : gset Z;              (* schema_migrations *)
  m_calls : nat;
  m_fault : nat → option string;
}.

Definition m_next (d : mdb) : mdb := mk_mdb (m_schema d) (m_applied d) (S (m_calls d)) (m_fault d).

(** One database call. *)
Definition m_call {A} (f : mdb → result A * mdb) : M mdb A := λ d,
  match m_fault d (m_calls d) with
  | Some msg => (Err (ErrExternal msg), m_next d)
  | None => f (m_next d)
  end.

Definition exec_sql (stmt : string) : M mdb unit := m_call (λ d,
  match run_sql stmt (m_schema d) with
  | Some sch => (Ok tt, mk_mdb sch (m_applied d) (m_calls d) (m_fault d))
  | None => (Err (ErrExternal "SQL logic error"), d)
  end).

Fixpoint exec_all (stmts : list string) : M mdb unit :=
  match stmts with
  | [] => ret tt
  | s :: rest => wrapf "exec statement: " (exec_sql s) ;;; exec_all rest
  end.

(** INSERT INTO schema_migrations; the version is its primary key. *)
Definition record_version (v : Z) : M mdb unit := m_call (λ d,
  if decide (v ∈ m_applied d) then (Err (ErrExternal "UNIQUE constraint failed"), d)
  else (Ok tt, mk_mdb (m_schema d) ({[ v ]} ∪ m_applied d) (m_calls d) (m_fault d))).

(** A transaction: on any failure the tables are as before. *)
Definition in_tx {A} (body : M mdb A) : M mdb A := λ d,
  match body d with
  | (Ok a, d') => (Ok a, d')
  | (Err e, d') => (Err e, mk_mdb (m_schema d) (m_applied d) (m_calls d') (m_fault d'))
  end.

Definition applyMigration (m : migration) : M mdb unit :=
  wrapf "begin tx: " (m_call (λ d, (Ok tt, d))) ;;;
  in_tx (exec_all (splitSQLStatements (mg_sql m)) ;;;
         wrapf "record migration: " (record_version (mg_version m)) ;;;
         wrapf "commit tx: " (m_call (λ d, (Ok tt, d)))).

Definition loadAppliedVersions : M mdb (gset Z) := m_call (λ d, (Ok (m_applied d), d)).

Fixpoint apply_pending (applied : gset Z) (migs : list migration) : M mdb unit :=
  match migs with
  | [] => ret tt
  | m :: rest =>
      if decide (mg_version m ∈ applied) then apply_pending applied rest
      else
        wrapf ("apply migration " +:+ pad3 (mg_version m) +:+ "_" +:+ mg_name m +:+ ": ")
          (applyMigration m) ;;;
        apply_pending applied rest
  end.

Definition applyMigrations (dir : result (list dir_entry)) : M mdb unit :=
  let! migs := wrapf "load migrations: " (lift (loadMigrations dir)) in
  (* CREATE TABLE IF NOT EXISTS schema_migrations *)
  wrapf "create schema_migrations: " (m_call (λ d, (Ok tt, d))) ;;;
  let! applied := wrapf "load applied migrations: " loadAppliedVersions in
  apply_pending applied migs.

(** ** Laws *)

(** The effect of one whole migration, as a function. *)
Definition run_migration (m : migration) (x : schema * gset Z) : option (schema * gset Z) :=
  sch ← foldl (λ o s, o ≫= run_sql s) (Some x.1) (splitSQLStatements (mg_sql m));
  if decide (mg_version m ∈ x.2) then None else Some (sch, {[ mg_version m ]} ∪ x.2).

Definition tables_of (d : mdb) : schema * gset Z := (m_schema d, m_applied d).

Lemma m_call_keep d r d' :
  m_call (λ d, (Ok tt, d)) d = (r, d') → tables_of d' = tables_of d.
Proof using. unfold m_call. destruct (m_fault d _); by intros [= <- <-]. Qed.

Lemma foldl_none stmts : foldl (λ o s, o ≫= run_sql s) None stmts = None.
Proof using. induction stmts as [|s l IH]; [done|]. simpl. apply IH. Qed.

Lemma exec_all_run stmts d d' :
  exec_all stmts d = (Ok tt, d') →
  foldl (λ o s, o ≫= run_sql s) (Some (m_schema d)) stmts = Some (m_schema d')
  ∧ m_applied d' = m_applied d.
Proof using.
  revert d. induction stmts as [|s l IH]; intros d; simpl; [by intros [= <-]|].
  rewrite bind_run, wrapf_run. unfold exec_sql, m_call. destruct (m_fault d _); [done|].
  simpl. destruct (run_sql s (m_schema d)) as [sch|]; [|done]. by intros H%IH.
Qed.

(** A migration is applied completely or not at all. *)
Lemma applyMigration_run m d r d' :
  applyMigration m d = (r, d') →
  match r with
  | Ok _ => run_migration m (tables_of d) = Some (tables_of d')
  | Err _ => tables_of d' = tables_of d
  end.
Proof using.
  unfold applyMigration. rewrite bind_run, wrapf_run.
  destruct (m_call _ d) as [[[]|e] d1] eqn:Hb; apply m_call_keep in Hb; [|by intros [= <- <-]].
  rewrite <- Hb. unfold in_tx, run_migration, tables_of. rewrite bind_run.
  destruct (exec_all _ d1) as [[[]|e] d2] eqn:He; [|by intros [= <- <-]].
  apply exec_all_run in He as [He Ha]. cbn [fst snd]. rewrite He. cbn [mbind option_bind].
  rewrite bind_run, wrapf_run. unfold record_version, m_call at 1.
  destruct (m_fault d2 _); [by intros [= <- <-]|]. cbn [m_next m_applied].
  rewrite Ha. case_decide; [by intros [= <- <-]|]. rewrite wrapf_run.
  destruct (m_call _ _) as [[[]|e] d3] eqn:Hc; apply m_call_keep in Hc; [|by intros [= <- <-]].
  intros [= <- <-]. injection Hc as -> ->. done.
Qed.
(** The migrations that are not recorded yet. *)
Definition pending (applied : gset Z) (migs : list migration) : list migration :=
  filter (λ m, mg_version m ∉ applied) migs.

Definition run_migrations (ms : list migration) (x : schema * gset Z) : option (schema * gset Z) :=
  foldl (λ o m, o ≫= run_migration m) (Some x) ms.

Lemma apply_pending_run applied migs d r d' :
  apply_pending applied migs d = (r, d') →
  ∃ done_ rest, pending applied migs = done_ ++ rest
    ∧ run_migrations done_ (tables_of d) = Some (tables_of d')
    ∧ match r with Ok _ => rest = [] | Err _ => rest ≠ [] end.
Proof using.
  revert d. induction migs as [|m migs IH]; intros d; cbn [apply_pending].
  - intros [= <- <-]. by exists [], [].
  - unfold pending. rewrite filter_cons. destruct (decide (mg_version m ∈ applied)) as [Hin|Hin].
    { rewrite decide_False by tauto. apply IH. }
    rewrite decide_True by done. rewrite bind_run, wrapf_run.
    destruct (applyMigration m d) as [[[]|e] d1] eqn:Ha; apply applyMigration_run in Ha.
    + intros (done_ & rest & Hp & Hf & Hr)%IH. exists (m :: done_), rest.
      unfold pending in Hp. rewrite Hp. split; [done|]. split; [|done].
      unfold run_migrations. simpl. by rewrite Ha.
    + intros [= <- <-]. exists [], (m :: pending applied migs). split; [done|]. by rewrite Ha.
Qed.

Lemma run_migrations_none ms : foldl (λ o m, o ≫= run_migration m) None ms = None.
Proof using. induction ms as [|m ms IH]; [done|]. simpl. apply IH. Qed.

Lemma run_migrations_applied ms x y :
  run_migrations ms x = Some y → y.2 = list_to_set (mg_version <$> ms) ∪ x.2.
Proof using.
  revert x. induction ms as [|m ms IH]; intros x; unfold run_migrations; simpl.
  - intros [= ->]. by rewrite (left_id_L ∅ _).
  - destruct (run_migration m x) as [x1|] eqn:Hm; [|by rewrite run_migrations_none].
    intros ->%IH. unfold run_migration in Hm. apply bind_Some in Hm as (sch & _ & Hm).
    case_decide; [done|]. injection Hm as <-. simpl.
    by rewrite (assoc_L _), (comm_L _ (list_to_set _)).
Qed.

(** What a run does. *)
Lemma migrations_apply_prefix_run dir d r d' :
  applyMigrations dir d = (r, d') →
  match loadMigrations dir with
  | Err _ => tables_of d' = tables_of d ∧ is_ok r = false
  | Ok migs =>
      ∃ done_ rest, pending (m_applied d) migs = done_ ++ rest
        ∧ run_migrations done_ (tables_of d) = Some (tables_of d')
        ∧ (is_ok r = true → rest = [])
  end.
Proof using.
  unfold applyMigrations. rewrite bind_run, wrapf_run. unfold lift at 1.
  destruct (loadMigrations dir) as [migs|e]; [|by intros [= <- <-]].
  rewrite bind_run, wrapf_run. destruct (m_call _ d) as [[[]|e] d1] eqn:Hc; apply m_call_keep in Hc.
  2: { intros [= <- <-]. exists [], (pending (m_applied d) migs). by rewrite Hc. }
  rewrite bind_run, wrapf_run. unfold loadAppliedVersions, m_call at 1. injection Hc as Hsch Happ.
  destruct (m_fault d1 _).
  { intros [= <- <-]. exists [], (pending (m_applied d) migs). split; [done|]. split; [|done].
    unfold tables_of. simpl. by rewrite Hsch, Happ. }
  intros (done_ & rest & Hp & Hf & Hr)%apply_pending_run. simpl in Hp. rewrite Happ in Hp.
  exists done_, rest. split; [done|]. split; [|by destruct r].
  rewrite <- Hf. unfold tables_of. simpl. by rewrite Hsch, Happ.
Qed.

Lemma pending_nil applied migs :
  (∀ m, m ∈ migs → mg_version m ∈ applied) → pending applied migs = [].
Proof using.
  intros Hall. unfold pending. induction migs as [|m migs IH]; [done|].
  rewrite filter_cons, decide_False; [apply IH; intros; apply Hall; by apply list_elem_of_further|].
  intros Hn. apply Hn, Hall, list_elem_of_here.
Qed.

(** Starting the server again does not migrate again: after a successful
    run every further run leaves schema and records as they are. *)
Theorem migrations_idempotent dir d d' r d'' :
  applyMigrations dir d = (Ok tt, d') → applyMigrations dir d' = (r, d'') →
  tables_of d'' = tables_of d'.
Proof using.
  intros H1 H2. apply migrations_apply_prefix_run in H1, H2.
  destruct (loadMigrations dir) as [migs|e]; [|by destruct H1].
  destruct H1 as (done1 & rest1 & Hp1 & Hf1 & Hr1). specialize (Hr1 eq_refl). subst rest1.
  rewrite app_nil_r in Hp1. apply run_migrations_applied in Hf1. simpl in Hf1.
  destruct H2 as (done2 & rest2 & Hp2 & Hf2 & _). rewrite pending_nil in Hp2.
  - symmetry in Hp2. apply app_nil in Hp2 as [-> _]. unfold run_migrations in Hf2. simpl in Hf2. congruence.
  - intros m Hm. rewrite Hf1. destruct (decide (mg_version m ∈ m_applied d)); [by apply elem_of_union_r|].
    apply elem_of_union_l, elem_of_list_to_set, list_elem_of_fmap. exists m. split; [done|].
    rewrite <- Hp1. unfold pending. by apply list_elem_of_filter.
Qed.
End apply.

(** ** Which directories load *)

(** One file, read on its own. *)
Definition file_migration (e : dir_entry) : option migration :=
  match migrationFilenamePattern (de_name e), de_body e with
  | Some (digits, name), Ok body =>
      v ← digits_value 0 digits; Some (mk_migration v (string_of_bytes name) body)
  | _, _ => None
  end.

Definition file_migrations (entries : list dir_entry) : option (list migration) :=
  mapM file_migration (filter (λ e, de_is_dir e = false) entries).

Lemma file_mapM_cons (e : dir_entry) es :
  mapM file_migration (e :: es) = m ← file_migration e; ms ← mapM file_migration es; Some (m :: ms).
Proof. done. Qed.

Lemma read_migrations_files entries migs :
  read_migrations entries = Ok migs ↔ file_migrations entries = Some migs.
Proof.
  unfold file_migrations. revert migs. induction entries as [|e es IH]; intros migs; cbn [read_migrations].
  { split; by intros [= <-]. }
  rewrite filter_cons. destruct (de_is_dir e) eqn:Hdir.
  { rewrite decide_False by done. apply IH. }
  rewrite decide_True, file_mapM_cons by done. unfold file_migration at 2.
  destruct (migrationFilenamePattern (de_name e)) as [[digits name]|]; [|split; intros [=]].
  destruct (digits_value 0 digits) as [v|]; [|destruct (de_body e); split; intros [=]].
  destruct (de_body e) as [body|]; [|split; intros [=]]. cbn [mbind option_bind].
  destruct (read_migrations es) as [ms|] eqn:Hes.
  - rewrite (proj1 (IH ms) eq_refl). split; by intros [= <-].
  - destruct (mapM file_migration _) as [ms|] eqn:Hms; [|split; intros [=]].
    discriminate (proj2 (IH ms) eq_refl).
Qed.

Lemma check_contiguous_ok i migs :
  is_ok (check_contiguous i migs) = true
  ↔ mg_version <$> migs = seqZ (i + 1) (Z.of_nat (length migs)).
Proof.
  revert i. induction migs as [|m migs IH]; intros i; [done|].
  cbn [check_contiguous length fmap list_fmap].
  rewrite seqZ_cons by lia.
  replace (Z.pred (Z.of_nat (S (length migs)))) with (Z.of_nat (length migs)) by lia.
  destruct (Z.eqb_spec (mg_version m) (i + 1)) as [->|Hne]; simpl.
  - rewrite IH. replace (Z.succ (i + 1)) with (i + 1 + 1) by lia. split; [by intros ->|by intros [=]].
  - split; [done|]. by intros [=].
Qed.

#[global] Instance version_le_trans : Transitive version_le.
Proof. intros a b c. unfold version_le. lia. Qed.
#[global] Instance version_le_total : Total version_le.
Proof. intros a b. unfold version_le. lia. Qed.

(** A list numbered 1, 2, 3, ... is sorted, and no two of its members share a
    version. *)
Lemma numbered_sorted k migs n :
  mg_version <$> migs = seqZ k n → StronglySorted version_le migs.
Proof.
  revert k n. induction migs as [|m migs IH]; intros k n H; [constructor|].
  assert (0 < n) by (destruct (decide (0 < n)); [done|]; by rewrite seqZ_nil in H by lia).
  rewrite seqZ_cons, fmap_cons in H by lia. apply (inj2 cons) in H as [Hm H]. constructor; [by eapply IH|].
  apply Forall_forall. intros x Hx. unfold version_le.
  assert (mg_version x ∈ mg_version <$> migs) as Hin by by apply list_elem_of_fmap_2.
  rewrite H in Hin. apply elem_of_seqZ in Hin. lia.
Qed.

Lemma numbered_inj k migs n x y :
  mg_version <$> migs = seqZ k n → x ∈ migs → y ∈ migs → mg_version x = mg_version y → x = y.
Proof.
  intros H [i Hi]%list_elem_of_lookup [j Hj]%list_elem_of_lookup Hv.
  assert (NoDup (mg_version <$> migs)) as Hnd by (rewrite H; apply NoDup_seqZ).
  assert (i = j); [|congruence].
  apply (NoDup_lookup _ i j (mg_version x) Hnd); rewrite list_lookup_fmap; [by rewrite Hi|].
  by rewrite Hj, Hv.
Qed.

(** Migrations load exactly when every file of the directory is well named
    and readable and the versions are 1, 2, 3, ... with none missing or twice;
    what is loaded is those files in ascending version order. *)
Theorem load_migrations_exact entries migs :
  loadMigrations (Ok entries) = Ok migs
  ↔ ∃ files, file_migrations entries = Some files ∧ migs ≡ₚ files
      ∧ mg_version <$> migs = seqZ 1 (Z.of_nat (length migs)).
Proof.
  unfold loadMigrations. split.
  - destruct (read_migrations entries) as [files|] eqn:Hr; [|done].
    destruct (check_contiguous 0 _) as [[]|] eqn:Hc; [|done]. intros [= <-].
    exists files. split; [by apply read_migrations_files|].
    split; [apply merge_sort_Permutation|]. by apply (check_contiguous_ok 0); rewrite Hc.
  - intros (files & Hf & Hp & Hv). rewrite (proj2 (read_migrations_files _ _) Hf).
    assert (merge_sort version_le files = migs) as ->.
    { assert (merge_sort version_le files ≡ₚ migs) as Hpm by by rewrite merge_sort_Permutation.
      apply (StronglySorted_unique_strong version_le); [|apply (StronglySorted_merge_sort version_le)
        | by eapply numbered_sorted | done].
      intros x y Hx Hy Hxy Hyx. rewrite Hpm in Hx.
      apply (numbered_inj _ _ _ _ _ Hv Hx Hy). unfold version_le in *. lia. }
    pose proof (proj2 (check_contiguous_ok 0 migs) Hv) as Hc.
    destruct (check_contiguous 0 migs); [done|discriminate].
Qed.

(** The migrations of a directory in the order of their versions, which are
    1, 2, 3, ... *)
Definition in_version_order (dir : result (list dir_entry)) (migs : list migration) : Prop :=
  ∃ entries files, dir = Ok entries ∧ file_migrations entries = Some files ∧ migs ≡ₚ files
    ∧ mg_version <$> migs = seqZ 1 (Z.of_nat (length migs)).

(** C38: Migrating applies, in the order of their versions, a prefix of the
    migrations that were not recorded before, each of them completely together
    with its record or not at all; it reports success only when that prefix is
    all of them.  A directory with a file that is badly named or unreadable, or
    whose versions are not exactly 1, 2, 3, ..., is refused and changes
    nothing. *)
Theorem migrations_apply_prefix {schema} (run_sql : string → schema → option schema) dir d r d' :
  applyMigrations run_sql dir d = (r, d') →
  (∃ migs done_ rest, in_version_order dir migs
     ∧ filter (λ m, mg_version m ∉ m_applied d) migs = done_ ++ rest
     ∧ run_migrations run_sql done_ (tables_of d) = Some (tables_of d')
     ∧ (is_ok r = true → rest = []))
  ∨ ((∀ migs, ¬ in_version_order dir migs) ∧ tables_of d' = tables_of d ∧ is_ok r = false).
Proof.
  intros H%migrations_apply_prefix_run. destruct (loadMigrations dir) as [migs|e] eqn:Hload.
  - left. destruct dir as [entries|err]; [|done]. destruct H as (done_ & rest & H).
    exists migs, done_, rest. split; [|exact H]. exists entries.
    destruct (proj1 (load_migrations_exact _ _) Hload) as (files & ?). by exists files.
  - right. split; [|done]. intros migs (entries & files & -> & Hf).
    rewrite (proj2 (load_migrations_exact entries migs)) in Hload; [done|eauto].
Qed.

(** ** A run *)

Module Demo.
(** A schema is the list of the statements run; a statement runs once. *)
Definition log_sql (stmt : string) (s : list string) : option (list string) :=
  if decide (stmt ∈ s) then None else Some (s ++ [stmt]).

Definition files : result (list dir_entry) := Ok
  [mk_dir_entry "002_names.sql" false (Ok "ALTER a;  ALTER b;");
   mk_dir_entry "001_init.sql" false (Ok "CREATE t;");
   mk_dir_entry "old" true (Err (ErrNew "is a directory"))].

Definition fresh (f : nat → option string) : mdb (schema := list string) := mk_mdb [] ∅ 0 f.

(** The second statement of the second migration fails. *)
Definition faulty (n : nat) : option string :=
  if decide (n = 7%nat) then Some "disk I/O error" else None.

Definition crashed := (applyMigrations log_sql files (fresh faulty)).2.
Definition migrated := (applyMigrations log_sql files (fresh (λ _, None))).2.
End Demo.

(** The files are out of order in the directory, and the second migration
    breaks off. *)
Lemma migrations_apply_prefix_witness :
  m_schema Demo.crashed = ["CREATE t"] ∧ elements (m_applied Demo.crashed) = [1]
  ∧ ∃ migs done_ rest, mg_version <$> migs = [1; 2]
      ∧ pending ∅ migs = done_ ++ rest
      ∧ run_migrations Demo.log_sql done_ ([], ∅) = Some (tables_of Demo.crashed).
Proof.
  split; [by vm_compute|]. split; [by vm_compute|].
  destruct (migrations_apply_prefix Demo.log_sql Demo.files (Demo.fresh Demo.faulty)
             (Err (ErrWrap "apply migration 002_names: "
                (ErrWrap "exec statement: " (ErrExternal "disk I/O error") "") ""))
             Demo.crashed ltac:(vm_compute; reflexivity))
    as [(migs & done_ & rest & (entries & files & [= <-] & Hf & Hp & Hv) & Hpend & Hrun & _)|(_ & H & _)].
  - exists migs, done_, rest. split; [|split; [exact Hpend|exact Hrun]].
    assert (length migs = 2%nat) as Hl.
    { rewrite Hp. apply (f_equal (option_map length)) in Hf. vm_compute in Hf. by injection Hf. }
    rewrite Hl in Hv. exact Hv.
  - exfalso. vm_compute in H. discriminate H.
Defined.

Lemma migrations_idempotent_witness :
  m_schema Demo.migrated = ["CREATE t"; "ALTER a"; "ALTER b"]
  ∧ tables_of (applyMigrations Demo.log_sql Demo.files Demo.migrated).2 = tables_of Demo.migrated.
Proof.
  split; [by vm_compute|].
  apply (migrations_idempotent Demo.log_sql Demo.files (Demo.fresh (λ _, None)) Demo.migrated (Ok tt));
    vm_compute; reflexivity.
Defined.
