(* ===== verification/Open.v ===== *)
(** Opening the database (src/internal/store/sqlite/sqlite.go: Open,
    tightenDBFileMode, verifyPragmas, Close).

    The driver behind database/sql is a class: what its calls report and
    which files they touch.  A [Host] is the machine as one process sees it:
    the file system, the database behind the path, and the handles that are
    open. *)

From S2P Require Import Prelude AesGcm GoLib Net Filepath Strconv FS Migrations.

Definition expectedPragmas : list (string * string) :=
  [("journal_mode", "wal"); ("foreign_keys", "1"); ("busy_timeout", "5000"); ("synchronous", "1")].

Definition DBSidecarSuffixes : list string := ["-wal"; "-shm"].

Definition dsn_of (dbPath : string) : string :=
  dbPath +:+ "?_pragma=journal_mode(WAL)" +:+ "&_pragma=foreign_keys(ON)"
  +:+ "&_pragma=busy_timeout(5000)" +:+ "&_pragma=synchronous(NORMAL)" +:+ "&_txlock=immediate".

(** The files of the database at [dbPath]. *)
Definition db_files (dbPath : string) : list path :=
  path_of dbPath :: ((λ suffix, path_of (dbPath +:+ suffix)) <$> DBSidecarSuffixes).

(** Only the database's own files changed. *)
Definition db_only (dbPath : string) (s s' : FS) : Prop :=
  ∀ q, q ∉ db_files dbPath → fs_files s' !! q = fs_files s !! q.

#[global] Instance db_only_preorder p : PreOrder (db_only p).
Proof. split; [by intros s q|]. intros s1 s2 s3 H1 H2 q Hq. by rewrite H2, H1. Qed.

Lemma same_db_only p s s' : same_files s s' → db_only p s s'.
Proof. intros H q _. by rewrite H. Qed.

(** modernc.org/sqlite: [sql_Open] parses the DSN and connects to nothing;
    [drv_Ping] connects, which creates the database file; [drv_Pragma] is
    what PRAGMA reports on that connection; [drv_wrote] and [drv_closed] are
    what writing and closing do to the files. *)
Class SqlDriver := {
  sql_Open : string → result unit;
  drv_Ping : string → M FS unit;
  drv_Pragma : string → string → result string;
  drv_wrote : string → FS → FS;
  drv_closed : string → FS → FS;
  ping_files dbPath s : db_only dbPath s (drv_Ping dbPath s).2;
  wrote_files dbPath s : db_only dbPath s (drv_wrote dbPath s);
  closed_files dbPath s : db_only dbPath s (drv_closed dbPath s);
  ping_dirs dbPath s : steady s (drv_Ping dbPath s).2;
  wrote_dirs dbPath s : steady s (drv_wrote dbPath s);
  closed_dirs dbPath s : steady s (drv_closed dbPath s);
}.

(** A *sql.DB: its DSN and the pool's limits. *)
Record sql_DB := mk_sql_DB { db_dsn : string; db_MaxOpen : Z; db_MaxIdle : Z; db_MaxLifetime : Z }.

Section open.
Context {schema : Type} {D : SqlDriver}.
Variable run_sql : string → schema → option schema.

Record Host := mk_Host {
  ho_fs : FS;
  ho_db : mdb (schema := schema);
  ho_open : list sql_DB;           (* handles, the newest first *)
}.

Definition on_fs {A} (f : M FS A) : M Host A := λ h,
  let '(r, s) := f (ho_fs h) in (r, mk_Host s (ho_db h) (ho_open h)).

Definition open_handle (dbPath : string) : M Host unit := λ h,
  match sql_Open (dsn_of dbPath) with
  | Err e => (Err e, h)
  | Ok _ => (Ok tt, mk_Host (ho_fs h) (ho_db h) (mk_sql_DB (dsn_of dbPath) 1 1 0 :: ho_open h))
  end.

(** [db.Close()] of the newest handle. *)
Definition close_handle (dbPath : string) (h : Host) : Host :=
  mk_Host (drv_closed dbPath (ho_fs h)) (ho_db h) (tail (ho_open h)).

(** A step after which a failure closes the handle. *)
Definition or_close_db {A} (dbPath : string) (m : M Host A) : M Host A := λ h,
  match m h with
  | (Ok a, h') => (Ok a, h')
  | (Err e, h') => (Err e, close_handle dbPath h')
  end.

Fixpoint verify_from (dbPath : string) (pragmas : list (string * string)) : result unit :=
  match pragmas with
  | [] => Ok tt
  | (name, want) :: rest =>
      match drv_Pragma (dsn_of dbPath) name with
      | Err e => Err (ErrWrap ("sqlite.Open: read pragma " +:+ name +:+ ": ") e "")
      | Ok got =>
          if negb (equal_fold_ascii got want)
          then Err (ErrNew ("sqlite.Open: pragma " +:+ name +:+ " = " +:+ Quote got +:+ ", want " +:+ Quote want))
          else verify_from dbPath rest
      end
  end.
Definition verifyPragmas (dbPath : string) : M Host unit := lift (verify_from dbPath expectedPragmas).

(** applyMigrations on the open handle. *)
Definition migrate (dbPath : string) : M Host unit := λ h,
  let '(r, d) := applyMigrations run_sql migrationsFS (ho_db h) in
  (r, mk_Host (drv_wrote dbPath (ho_fs h)) d (ho_open h)).

Fixpoint tighten_sidecars (dbPath : string) (suffixes : list string) : M FS unit :=
  match suffixes with
  | [] => ret tt
  | suffix :: rest => λ s,
      let p := path_of (dbPath +:+ suffix) in
      match Stat p s with
      | (inl e, s1) =>
          if errors_is (os_err e) ErrNotExist then tighten_sidecars dbPath rest s1
          else (Err (ErrWrap ("stat sidecar " +:+ suffix +:+ ": ") (os_err e) ""), s1)
      | (inr _, s1) =>
          (or_fail (λ e, ErrWrap ("chmod sidecar " +:+ suffix +:+ ": ") (os_err e) "") (Chmod p 384) ;;;
           tighten_sidecars dbPath rest) s1
      end
  end.

Definition tightenDBFileMode (dbPath : string) : M FS unit :=
  or_fail (λ e, ErrWrap "chmod db file: " (os_err e) "") (Chmod (path_of dbPath) 384) ;;;
  tighten_sidecars dbPath DBSidecarSuffixes.

Definition Open (dbPath : string) : M Host unit :=
  if decide (dbPath = "") then fail (ErrNew "sqlite.Open: dbPath must not be empty")
  else
    on_fs (or_fail (λ e, ErrWrap "sqlite.Open: ensure data dir: " (os_err e) "") (MkdirAll (Dir dbPath) 488)) ;;;
    wrapf "sqlite.Open: open db: " (open_handle dbPath) ;;;
    or_close_db dbPath (wrapf "sqlite.Open: ping db: " (on_fs (drv_Ping dbPath))) ;;;
    or_close_db dbPath (verifyPragmas dbPath) ;;;
    or_close_db dbPath (wrapf "sqlite.Open: apply migrations: " (migrate dbPath)) ;;;
    or_close_db dbPath (wrapf "sqlite.Open: tighten db file mode: " (on_fs (tightenDBFileMode dbPath))).

(** ** Laws *)

Lemma on_fs_run {A} (f : M FS A) h r h' :
  on_fs f h = (r, h') → ∃ s, f (ho_fs h) = (r, s) ∧ h' = mk_Host s (ho_db h) (ho_open h).
Proof using. unfold on_fs. destruct (f (ho_fs h)) as [x s]. intros [= <- <-]. eauto. Qed.

Lemma or_fail_ok {A} wrap (c : OS A) s r s' :
  or_fail wrap c s = (r, s') →
  ∃ x, c s = (x, s') ∧ match r with Ok a => x = inr a | Err _ => ∃ e, x = inl e end.
Proof using. unfold or_fail. destruct (c s) as [[e|a] s1]; intros [= <- <-]; eauto. Qed.

(** What holds of the file system once every file of [ps] is private. *)
Definition private (ps : list path) (s : FS) : Prop :=
  ∀ p f, p ∈ ps → fs_files s !! p = Some f → f_mode f = 384.

Lemma Chmod_private p ps s x s' :
  Chmod p 384 s = (x, s') → private ps s → private ps s' ∧ (∀ a, x = inr a → private [p] s' ∧ is_Some (fs_files s' !! p)).
Proof using.
  intros [Ho Hx]%Chmod_run Hp. destruct x as [e|a].
  - unfold private. split; [|done]. by rewrite Hx.
  - destruct Hx as (f & Hf & Hf'). split.
    + intros q g Hq Hg. destruct (decide (q = p)) as [->|Hne]; [by simplify_eq|]. apply (Hp q g Hq). by rewrite <- Ho.
    + intros _ _. rewrite Hf'. split; [|done]. intros q g ->%list_elem_of_singleton Hg. by simplify_eq.
Qed.

Lemma Chmod_exists p q mode s x s' :
  Chmod p mode s = (x, s') → is_Some (fs_files s !! q) → is_Some (fs_files s' !! q).
Proof using.
  intros [Ho Hx]%Chmod_run Hs. destruct (decide (q = p)) as [->|]; [|by rewrite Ho].
  destruct x; [by rewrite Hx|]. destruct Hx as (f & _ & ->). done.
Qed.

Lemma private_app ps qs s : private ps s → private qs s → private (ps ++ qs) s.
Proof using. intros Hp Hq p f [?|?]%elem_of_app; eauto. Qed.

Lemma private_same ps s s' : same_files s s' → private ps s → private ps s'.
Proof using. intros H Hp p f Hin. rewrite H. by apply Hp. Qed.

Lemma tighten_sidecars_run dbPath suffixes ps p0 s r s' :
  tighten_sidecars dbPath suffixes s = (r, s') → private ps s → is_Some (fs_files s !! p0) →
  (∀ q, q ∉ (λ x, path_of (dbPath +:+ x)) <$> suffixes → fs_files s' !! q = fs_files s !! q)
  ∧ match r with
    | Ok _ => private (ps ++ ((λ x, path_of (dbPath +:+ x)) <$> suffixes)) s' ∧ is_Some (fs_files s' !! p0)
    | Err _ => True
    end.
Proof using.
  revert ps s. induction suffixes as [|suffix rest IH]; intros ps s; cbn [tighten_sidecars].
  { intros [= <- <-] Hp Hs. rewrite app_nil_r. done. }
  intros H Hp Hs. destruct (Stat _ s) as [[e|i] s1] eqn:Hst; apply Stat_run in Hst as [Hsame Hst].
  - destruct (errors_is (os_err e) ErrNotExist) eqn:He; [|injection H as <- <-; split; [intros; by rewrite Hsame|done]].
    assert (Hp1 : private (ps ++ [path_of (dbPath +:+ suffix)]) s1).
    { apply (private_same _ s); [done|]. apply private_app; [done|].
      intros q f ->%list_elem_of_singleton Hf. rewrite (Hst eq_refl) in Hf. done. }
    eapply IH in H as [Hq Hr]; [|exact Hp1|by rewrite Hsame]. split.
    + intros q Hn. rewrite Hq; [by rewrite Hsame|]. intros Hin. apply Hn. by right.
    + destruct r; [|done]. by rewrite <- app_assoc in Hr.
  - rewrite bind_run in H. destruct (or_fail _ (Chmod _ 384) s1) as [[[]|e] s2] eqn:Hc;
      apply or_fail_ok in Hc as (x & Hc & Hx); pose proof (Chmod_run _ _ _ _ _ Hc) as [Ho _].
    2: { injection H as <- <-. split; [|done]. intros q Hn. rewrite Ho; [by rewrite Hsame|]. intros ->. apply Hn. by left. }
    destruct (Chmod_private _ ps _ _ _ Hc) as [Hp2 Hpriv]; [by apply (private_same _ s)|].
    destruct (Hpriv _ Hx) as [Hp2' _].
    eapply IH in H as [Hq Hr]; [|exact (private_app _ _ _ Hp2 Hp2')|by eapply Chmod_exists; [exact Hc|]; rewrite Hsame]. split.
    + intros q Hn. rewrite Hq, Ho; [by rewrite Hsame|intros ->; apply Hn; by left|intros Hin; apply Hn; by right].
    + destruct r; [|done]. by rewrite <- app_assoc in Hr.
Qed.

Lemma tighten_run dbPath s r s' :
  tightenDBFileMode dbPath s = (r, s') →
  db_only dbPath s s'
  ∧ match r with
    | Ok _ => private (db_files dbPath) s' ∧ is_Some (fs_files s' !! path_of dbPath)
    | Err _ => True
    end.
Proof using.
  unfold tightenDBFileMode. rewrite bind_run.
  destruct (or_fail _ (Chmod _ 384) s) as [[[]|e] s1] eqn:Hc;
    apply or_fail_ok in Hc as (x & Hc & Hx); pose proof (Chmod_run _ _ _ _ _ Hc) as [Ho _].
  2: { intros [= <- <-]. split; [|done]. intros q Hn. apply Ho. intros ->. apply Hn. by left. }
  destruct (Chmod_private _ [] _ _ _ Hc) as [_ Hpriv]; [by intros p f ?%elem_of_nil|].
  destruct (Hpriv _ Hx) as [Hp1 Hs1]. intros Hrest.
  destruct (tighten_sidecars_run _ _ _ _ _ _ _ Hrest Hp1 Hs1) as [Hq Hr].
  split; [|by destruct r]. intros q Hn. rewrite Hq, Ho; [done|intros ->; apply Hn; by left|].
  intros Hin. apply Hn. by right.
Qed.

(** A step between opening the handle and returning the store. *)
Lemma or_close_db_run {A} dbPath (m : M Host A) h r h' :
  or_close_db dbPath m h = (r, h') →
  ∃ h1, m h = (r, h1) ∧ h' = match r with Ok _ => h1 | Err _ => close_handle dbPath h1 end.
Proof using. unfold or_close_db. destruct (m h) as [[a|e] h1]; intros [= <- <-]; eauto. Qed.

Lemma wrapf_inv {W A} pre (m : M W A) w r w' :
  wrapf pre m w = (r, w') →
  ∃ r0, m w = (r0, w') ∧ match r with Ok a => r0 = Ok a | Err _ => is_ok r0 = false end.
Proof using. rewrite wrapf_run. destruct (m w) as [[a|e] w1]; intros [= <- <-]; eauto. Qed.

Lemma verify_from_ok dbPath l :
  verify_from dbPath l = Ok tt →
  Forall (λ '(name, want), ∃ got, drv_Pragma (dsn_of dbPath) name = Ok got ∧ equal_fold_ascii got want = true) l.
Proof using.
  induction l as [|[name want] l IH]; cbn [verify_from]; [by constructor|].
  destruct (drv_Pragma _ name) as [got|] eqn:Hd; [|done].
  destruct (equal_fold_ascii got want) eqn:He; [|done]. cbn [negb]. intros H. constructor; [by exists got|by apply IH].
Qed.

(** All embedded migrations are recorded. *)
Definition schema_current (d : mdb (schema := schema)) : Prop :=
  ∃ migs, loadMigrations migrationsFS = Ok migs ∧ ∀ m, m ∈ migs → mg_version m ∈ m_applied d.

Lemma migrate_run dbPath h r h' :
  migrate dbPath h = (r, h') →
  db_only dbPath (ho_fs h) (ho_fs h') ∧ ho_open h' = ho_open h
  ∧ match r with Ok _ => schema_current (ho_db h') | Err _ => True end.
Proof using.
  unfold migrate. destruct (applyMigrations _ _ (ho_db h)) as [x d] eqn:Hm. intros [= <- <-]. simpl.
  split; [apply wrote_files|]. split; [done|]. destruct x as [[]|]; [|done].
  apply migrations_apply_prefix_run in Hm. unfold schema_current.
  destruct (loadMigrations migrationsFS) as [migs|]; [|by destruct Hm].
  destruct Hm as (done_ & rest & Hp & Hf & Hr). specialize (Hr eq_refl). subst rest. rewrite app_nil_r in Hp.
  exists migs. split; [done|]. intros m Hm. apply run_migrations_applied in Hf. simpl in Hf. rewrite Hf.
  destruct (decide (mg_version m ∈ m_applied (ho_db h))); [by apply elem_of_union_r|].
  apply elem_of_union_l, elem_of_list_to_set, list_elem_of_fmap. exists m. split; [done|].
  rewrite <- Hp. unfold pending. by apply list_elem_of_filter.
Qed.

(** Where Open is once the handle is open: the handles, and the files. *)
Definition handled (dbPath : string) (h h' : Host) : Prop :=
  ho_open h' = mk_sql_DB (dsn_of dbPath) 1 1 0 :: ho_open h ∧ db_only dbPath (ho_fs h) (ho_fs h').

Lemma handled_step dbPath h h1 h2 :
  handled dbPath h h1 → db_only dbPath (ho_fs h1) (ho_fs h2) → ho_open h2 = ho_open h1 → handled dbPath h h2.
Proof using. intros [Ho Hd] Hd2 Ho2. split; [congruence|]. by etrans. Qed.

Lemma handled_closed dbPath h h1 :
  handled dbPath h h1 →
  ho_open (close_handle dbPath h1) = ho_open h ∧ db_only dbPath (ho_fs h) (ho_fs (close_handle dbPath h1)).
Proof using. intros [Ho Hd]. simpl. rewrite Ho. split; [done|]. etrans; [done|]. apply closed_files. Qed.

(** A step keeps to the database's files and leaves the handles alone;
    on success [P] holds. *)
Definition tame {A} (dbPath : string) (m : M Host A) (P : Host → Prop) (h : Host) : Prop :=
  ∀ x h', m h = (x, h') → db_only dbPath (ho_fs h) (ho_fs h') ∧ ho_open h' = ho_open h
                          ∧ match x with Ok _ => P h' | Err _ => True end.

(** One step under [or_close_db]: its failure closes the handle. *)
Lemma handled_or_closed {A} dbPath (m : M Host A) (P : Host → Prop) h h1 r h2 :
  handled dbPath h h1 → or_close_db dbPath m h1 = (r, h2) → tame dbPath m P h1 →
  match r with
  | Ok _ => handled dbPath h h2 ∧ P h2
  | Err _ => ho_open h2 = ho_open h ∧ db_only dbPath (ho_fs h) (ho_fs h2)
  end.
Proof using.
  intros Hh (h' & Hm & ->)%or_close_db_run Hstep. destruct (Hstep _ _ Hm) as (Hd & Ho & HP).
  assert (handled dbPath h h') by by eapply handled_step. destruct r; [done|]. by apply handled_closed.
Qed.

Lemma ping_tame dbPath pre h : tame dbPath (wrapf pre (on_fs (drv_Ping dbPath))) (λ _, True) h.
Proof using.
  intros x h' (x0 & (s & Hs & ->)%on_fs_run & _)%wrapf_inv.
  pose proof (ping_files dbPath (ho_fs h)) as Hp. rewrite Hs in Hp. split_and!; [done|done|by destruct x].
Qed.

Lemma verify_tame dbPath h :
  tame dbPath (verifyPragmas dbPath) (λ _, verify_from dbPath expectedPragmas = Ok tt) h.
Proof using.
  unfold verifyPragmas, lift, tame. generalize (verify_from dbPath expectedPragmas) as v.
  intros v x h' [= <- <-]. split_and!; [done|done|]. by destruct v as [[]|].
Qed.

Lemma migrate_tame dbPath pre h :
  tame dbPath (wrapf pre (migrate dbPath)) (λ h', schema_current (ho_db h')) h.
Proof using.
  intros x h' (x0 & (Hd & Ho & Hm)%migrate_run & Hx)%wrapf_inv. split_and!; [done|done|].
  destruct x; [by subst x0|done].
Qed.

Lemma tighten_tame dbPath pre h :
  tame dbPath (wrapf pre (on_fs (tightenDBFileMode dbPath)))
    (λ h', private (db_files dbPath) (ho_fs h') ∧ is_Some (fs_files (ho_fs h') !! path_of dbPath)
           ∧ ho_db h' = ho_db h) h.
Proof using.
  intros x h' (x0 & (s & [Hd Hs]%tighten_run & ->)%on_fs_run & Hx)%wrapf_inv. split_and!; [done|done|].
  destruct x; [|done]. subst x0. by destruct Hs.
Qed.

Lemma Open_run dbPath h r h' :
  Open dbPath h = (r, h') →
  db_only dbPath (ho_fs h) (ho_fs h')
  ∧ match r with
    | Err _ => ho_open h' = ho_open h
    | Ok _ =>
        ho_open h' = mk_sql_DB (dsn_of dbPath) 1 1 0 :: ho_open h
        ∧ private (db_files dbPath) (ho_fs h') ∧ is_Some (fs_files (ho_fs h') !! path_of dbPath)
        ∧ Forall (λ '(name, want), ∃ got, drv_Pragma (dsn_of dbPath) name = Ok got
                                          ∧ equal_fold_ascii got want = true) expectedPragmas
        ∧ schema_current (ho_db h')
    end.
Proof using.
  unfold Open. case_decide as Hempty; [by intros [= <- <-]|]. rewrite bind_run.
  destruct (on_fs _ h) as [[[]|e] h1] eqn:H1; apply on_fs_run in H1 as (s1 & H1 & ->);
    apply or_fail_ok in H1 as (x1 & H1%MkdirAll_pure%(same_db_only dbPath) & _); [|by intros [= <- <-]].
  rewrite bind_run, wrapf_run. unfold open_handle. destruct (sql_Open _) as [[]|e]; [|by intros [= <- <-]].
  set (h2 := mk_Host _ _ _). assert (Hh2 : handled dbPath h h2) by done. clearbody h2. rewrite bind_run.
  destruct (or_close_db dbPath (wrapf _ _) h2) as [[[]|e] h3] eqn:H3;
    pose proof (handled_or_closed _ _ _ _ _ _ _ Hh2 H3 (ping_tame _ _ _)) as Hh3;
    [|intros [= <- <-]; by destruct Hh3].
  destruct Hh3 as [Hh3 _]. rewrite bind_run.
  destruct (or_close_db dbPath (verifyPragmas _) h3) as [[[]|e] h4] eqn:H4;
    pose proof (handled_or_closed _ _ _ _ _ _ _ Hh3 H4 (verify_tame _ _)) as Hh4;
    [|intros [= <- <-]; by destruct Hh4].
  destruct Hh4 as [Hh4 Hv%verify_from_ok]. rewrite bind_run.
  destruct (or_close_db dbPath (wrapf _ (migrate _)) h4) as [[[]|e] h5] eqn:H5;
    pose proof (handled_or_closed _ _ _ _ _ _ _ Hh4 H5 (migrate_tame _ _ _)) as Hh5;
    [|intros [= <- <-]; by destruct Hh5].
  destruct Hh5 as [Hh5 Hcur]. intros H6.
  pose proof (handled_or_closed _ _ _ _ _ _ _ Hh5 H6 (tighten_tame _ _ _)) as Hh6.
  destruct r; [|by destruct Hh6]. destruct Hh6 as [[Ho Hd] (Hp & Hs & Hdb)]. by rewrite Hdb.
Qed.
(** ** Directories *)

(** A step makes no directory. *)
Definition no_dirs {A} (m : M Host A) : Prop := ∀ h, steady (ho_fs h) (ho_fs (m h).2).

Lemma no_dirs_bind {A B} (m : M Host A) (k : A → M Host B) :
  no_dirs m → (∀ a, no_dirs (k a)) → no_dirs (let! a := m in k a).
Proof using.
  intros Hm Hk h. rewrite bind_run. specialize (Hm h). destruct (m h) as [[a|e] h1]; [|done].
  etrans; [exact Hm|apply Hk].
Qed.

Lemma no_dirs_wrapf {A} pre (m : M Host A) : no_dirs m → no_dirs (wrapf pre m).
Proof using. intros Hm h. rewrite wrapf_run. specialize (Hm h). by destruct (m h) as [[] ?]. Qed.

Lemma no_dirs_on_fs {A} (f : M FS A) : (∀ s, steady s (f s).2) → no_dirs (on_fs f).
Proof using. intros Hf h. unfold on_fs. specialize (Hf (ho_fs h)). by destruct (f (ho_fs h)). Qed.

Lemma no_dirs_or_close {A} dbPath (m : M Host A) : no_dirs m → no_dirs (or_close_db dbPath m).
Proof using.
  intros Hm h. unfold or_close_db. specialize (Hm h). destruct (m h) as [[a|e] h1]; [done|].
  etrans; [exact Hm|]. apply closed_dirs.
Qed.

Lemma or_fail_steady {A} wrap (c : OS A) s : steady s (c s).2 → steady s (or_fail wrap c s).2.
Proof using. unfold or_fail. by destruct (c s) as [[] ?]. Qed.

Lemma tighten_sidecars_steady dbPath suffixes s : steady s (tighten_sidecars dbPath suffixes s).2.
Proof using.
  revert s. induction suffixes as [|x rest IH]; intros s; [done|]. cbn [tighten_sidecars].
  pose proof (Stat_steady (path_of (dbPath +:+ x)) s) as H1. destruct (Stat _ s) as [[e|i] s1]; simpl in H1.
  - destruct (errors_is _ _); [|done]. etrans; [exact H1|apply IH].
  - etrans; [exact H1|]. rewrite bind_run.
    pose proof (or_fail_steady (λ e, ErrWrap ("chmod sidecar " +:+ x +:+ ": ") (os_err e) "")
      (Chmod (path_of (dbPath +:+ x)) 384) s1 (Chmod_steady _ _ _)) as H2.
    destruct (or_fail _ _ s1) as [[a|e] s2]; [|done]. etrans; [exact H2|apply IH].
Qed.

Lemma tighten_steady dbPath s : steady s (tightenDBFileMode dbPath s).2.
Proof using.
  unfold tightenDBFileMode. rewrite bind_run.
  pose proof (or_fail_steady (λ e, ErrWrap "chmod db file: " (os_err e) "") (Chmod (path_of dbPath) 384) s
    (Chmod_steady _ _ _)) as H2.
  destruct (or_fail _ _ s) as [[a|e] s2]; [|done]. etrans; [exact H2|apply tighten_sidecars_steady].
Qed.

(** Open makes the directory of the database and its parents, where they are
    missing, and no other. *)
Lemma Open_dirs dbPath h :
  made_dirs (ancestors (Dir dbPath)) 488 (ho_fs h) (ho_fs (Open dbPath h).2).
Proof using.
  unfold Open. case_decide as Hempty; [by apply steady_made|]. rewrite bind_run.
  destruct (on_fs _ h) as [x h1] eqn:H1; apply on_fs_run in H1 as (s1 & H1 & ->).
  apply or_fail_ok in H1 as (x1 & (H1 & _)%MkdirAll_made & _). destruct x as [[]|e]; [|done].
  eapply made_steady; [exact H1|].
  match goal with |- steady s1 (ho_fs (?m ?h).2) => change (steady (ho_fs h) (ho_fs (m h).2)); assert (no_dirs m) as Hn; [|apply Hn] end.
  repeat (apply no_dirs_bind; [|intros _]).
  - apply no_dirs_wrapf. intros h0. unfold open_handle. by destruct (sql_Open _).
  - apply no_dirs_or_close, no_dirs_wrapf, no_dirs_on_fs, ping_dirs.
  - by apply no_dirs_or_close.
  - apply no_dirs_or_close, no_dirs_wrapf. intros h0. unfold migrate.
    destruct (applyMigrations _ _ _). apply wrote_dirs.
  - apply no_dirs_or_close, no_dirs_wrapf, no_dirs_on_fs, tighten_steady.
Qed.
End open.


(** ** A driver *)

Module Wal.
(** The file, created with the process's umask unless it exists. *)
Definition touch (p : path) (s : FS) : FS :=
  match fs_files s !! p with
  | Some _ => s
  | None => with_files s (<[p := mk_file [] 420]> (fs_files s))
  end.
Definition sidecars (dbPath : string) : list path :=
  (λ suffix, path_of (dbPath +:+ suffix)) <$> DBSidecarSuffixes.

Definition ping (dbPath : string) : M FS unit := λ s,
  match fs_fault s (fs_calls s) with
  | Some msg => (Err (ErrExternal ("unable to open database file: " +:+ msg)), next_call s)
  | None => (Ok tt, touch (path_of dbPath) (next_call s))
  end.
Definition pragma (dsn name : string) : result string :=
  if decide (name = "journal_mode") then Ok "wal"
  else if decide (name = "busy_timeout") then Ok "5000" else Ok "1".
Definition wrote (dbPath : string) (s : FS) : FS := foldr touch s (sidecars dbPath).
Definition closed (dbPath : string) (s : FS) : FS :=
  with_files s (foldr delete (fs_files s) (sidecars dbPath)).

Lemma touch_other p q s : q ≠ p → fs_files (touch p s) !! q = fs_files s !! q.
Proof. intros Hq. unfold touch. destruct (fs_files s !! p); [done|]. simpl. by rewrite lookup_insert_ne. Qed.

#[global] Program Instance driver : SqlDriver := {|
  sql_Open := λ _, Ok tt; drv_Ping := ping; drv_Pragma := pragma; drv_wrote := wrote; drv_closed := closed;
|}.
Next Obligation.
  intros dbPath s q Hq. unfold ping. destruct (fs_fault s _); [reflexivity|]. cbn [snd].
  rewrite touch_other; [reflexivity|]. intros ->. apply Hq. by left.
Qed.
Next Obligation.
  intros dbPath s q Hq. assert (q ∉ sidecars dbPath) as Hn by (intros H; apply Hq; by right).
  unfold wrote. induction (sidecars dbPath) as [|p l IH]; [done|]. simpl.
  rewrite touch_other by (intros ->; apply Hn; by left). apply IH. intros H. apply Hn. by right.
Qed.
Next Obligation.
  intros dbPath s q Hq. assert (q ∉ sidecars dbPath) as Hn by (intros H; apply Hq; by right).
  change (foldr delete (fs_files s) (sidecars dbPath) !! q = fs_files s !! q). induction (sidecars dbPath) as [|p l IH]; [done|]. simpl.
  rewrite lookup_delete_ne by (intros ->; apply Hn; by left). apply IH. intros H. apply Hn. by right.
Qed.

Next Obligation. intros dbPath s. unfold ping, touch. by repeat case_match. Qed.
Next Obligation.
  intros dbPath s. unfold wrote. induction (sidecars dbPath) as [|p l IH]; [done|]. simpl.
  etrans; [exact IH|]. unfold touch. by case_match.
Qed.
Next Obligation. done. Qed.

(** A machine with no files on which the calls in [bad] fail. *)
Definition machine (bad : nat → bool) : Host (schema := list string) :=
  mk_Host (mk_FS ∅ {[ "/" := 493 ]} 0 (λ n, if bad n then Some "permission denied" else None) (λ _, 0%nat) pretty
             (λ _, Some (λ i, Byte.x0c)))
    (Demo.fresh (λ _, None)) [].
Definition opened (bad : nat → bool) : result unit * Host := Open Demo.log_sql "/data/tabby-sync.db" (machine bad).
End Wal.

