(* ===== verification/RateLimit.v ===== *)
(** The rate limiter (src/internal/ratelimit/ratelimit.go): token buckets.

    A float64 is the binary64 datum of [SpecFloat], with the IEEE operations
    at 53 bits of precision; a time is a reading of the monotonic clock in
    nanoseconds.  The mutex makes [Allow] and one sweep of [gc] atomic
    steps. *)

From S2P Require Import Prelude AesGcm GoLib Net.
From Stdlib Require Import SpecFloat.

(** ** float64 *)

Abbreviation float64 := spec_float.
Definition f_of_Z (z : Z) : float64 := binary_normalize 53 1024 z 0 false.
Definition f_add : float64 → float64 → float64 := SFadd 53 1024.
Definition f_sub : float64 → float64 → float64 := SFsub 53 1024.
Definition f_mul : float64 → float64 → float64 := SFmul 53 1024.
Definition f_div : float64 → float64 → float64 := SFdiv 53 1024.
Definition f_lt (x y : float64) : bool := SFltb x y.

(** Conversion to an integer, towards zero. *)
Definition f_trunc (x : float64) : Z :=
  match x with
  | S754_finite s m e =>
      let a := if 0 <=? e then Z.pos m * 2 ^ e else Z.pos m `div` 2 ^ (- e) in
      if s then - a else a
  | _ => 0
  end.

(** ** time.Duration, in nanoseconds *)

Definition Second : Z := 1000000000.
Definition Minute : Z := 60 * Second.

(** [d.Seconds()]. *)
Definition Seconds (d : Z) : float64 :=
  f_add (f_of_Z (Z.quot d Second)) (f_div (f_of_Z (Z.rem d Second)) (f_of_Z Second)).

(** [t.Sub(u)] saturates. *)
Definition Sub (t u : Z) : Z := Z.max min_int64 (Z.min max_int64 (t - u)).

(** ** The limiter *)

Record bucket := mk_bucket { tokens : float64; lastCheck : Z }.

Record Limiter := mk_Limiter {
  rate : Z;
  window : Z;
  buckets : gmap string bucket;
  stopped : bool;
}.

Definition NewLimiter (rate window : Z) : Limiter :=
  let rate := if rate <? 1 then 1 else rate in
  let window := if window <? Second then Second else window in
  mk_Limiter rate window ∅ false.

Definition set_bucket (l : Limiter) (key : string) (b : bucket) : Limiter :=
  mk_Limiter (rate l) (window l) (<[key := b]> (buckets l)) (stopped l).

(** Refilling for the time since the last check, up to the capacity. *)
Definition refill (l : Limiter) (now : Z) (b : bucket) : float64 :=
  let elapsed := Sub now (lastCheck b) in
  let t := f_add (tokens b) (f_mul (Seconds elapsed) (f_div (f_of_Z (rate l)) (Seconds (window l)))) in
  if f_lt (f_of_Z (rate l)) t then f_of_Z (rate l) else t.

Definition Allow (key : string) (now : Z) (l : Limiter) : bool * Limiter :=
  let b := match buckets l !! key with
           | Some b => b
           | None => mk_bucket (f_of_Z (rate l)) now
           end in
  let t := refill l now b in
  if f_lt t (f_of_Z 1) then (false, set_bucket l key (mk_bucket t now))
  else (true, set_bucket l key (mk_bucket (f_sub t (f_of_Z 1)) now)).

(** One tick of [gc]. *)
Definition gc_sweep (now : Z) (l : Limiter) : Limiter :=
  if stopped l then l
  else mk_Limiter (rate l) (window l)
         (filter (λ kb, ¬ lastCheck kb.2 < now - 2 * window l) (buckets l)) (stopped l).

Definition Stop (l : Limiter) : Limiter := mk_Limiter (rate l) (window l) (buckets l) true.

(** ** Keys *)

Definition rl_remoteIP (addr : string) : string :=
  if decide (addr = "") then "unknown"
  else match SplitHostPort addr with None => addr | Some (host, _) => host end.

(** The bucket of a request: the user's, or the remote address's. *)
Definition extractKey (user : option Z) (remoteAddr : string) : string :=
  match user with
  | Some id => "user:" +:+ pretty id
  | None => "ip:" +:+ rl_remoteIP remoteAddr
  end.

Definition keyType (user : option Z) : string :=
  match user with Some _ => "user" | None => "ip" end.

(** The limiter that runServe installs. *)
Definition serve_limiter : Limiter := NewLimiter 60 Minute.

(** ** Laws *)

(** [n] requests of one key at one instant. *)
Fixpoint allow_n (n : nat) (key : string) (now : Z) (l : Limiter) : list bool * Limiter :=
  match n with
  | O => ([], l)
  | S n' => let '(b, l1) := Allow key now l in
            let '(bs, l2) := allow_n n' key now l1 in (b :: bs, l2)
  end.

Lemma Allow_rate key now l : rate (Allow key now l).2 = rate l ∧ window (Allow key now l).2 = window l.
Proof. unfold Allow. by destruct (f_lt _ _). Qed.

(** Only the key's own bucket changes. *)
Lemma Allow_other key k now l :
  k ≠ key → buckets (Allow key now l).2 !! k = buckets l !! k.
Proof. intros Hk. unfold Allow. destruct (f_lt _ _); simpl; by rewrite lookup_insert_ne. Qed.

(** The decision depends on the key's own bucket only. *)
Lemma Allow_own key now l l' :
  rate l = rate l' → window l = window l' → buckets l !! key = buckets l' !! key →
  (Allow key now l).1 = (Allow key now l').1
  ∧ buckets (Allow key now l).2 !! key = buckets (Allow key now l').2 !! key.
Proof.
  intros Hr Hw Hb. unfold Allow, refill. rewrite Hr, Hw, Hb.
  destruct (f_lt _ (f_of_Z 1)); simpl; by rewrite !lookup_insert_eq.
Qed.

(** Two users, or a user and an address, never share a bucket. *)
Lemma extractKey_inj u u' a a' :
  extractKey (Some u) a = extractKey (Some u') a' → u = u'.
Proof.
  unfold extractKey. intros H. apply (inj (String.append "user:")) in H. by apply (inj pretty) in H.
Qed.

Lemma extractKey_kinds u a a' : extractKey (Some u) a ≠ extractKey None a'.
Proof. unfold extractKey. discriminate. Qed.

(** ** Sequences of calls *)

Inductive limiter_call := AllowCall (key : string) (now : Z) | SweepCall (now : Z).

(** Runs the calls; each request is reported with its key and decision. *)
Fixpoint run_calls (calls : list limiter_call) (l : Limiter) : list (string * bool) :=
  match calls with
  | [] => []
  | AllowCall key now :: rest => let '(b, l') := Allow key now l in (key, b) :: run_calls rest l'
  | SweepCall now :: rest => run_calls rest (gc_sweep now l)
  end.

Definition decisions (key : string) (calls : list limiter_call) (l : Limiter) : list bool :=
  snd <$> filter (λ kb, kb.1 = key) (run_calls calls l).

(** The calls that remain when nobody else sends requests. *)
Definition concerns (key : string) (c : limiter_call) : Prop :=
  match c with AllowCall k _ => k = key | SweepCall _ => True end.
#[global] Instance concerns_dec key c : Decision (concerns key c).
Proof. destruct c; unfold concerns; apply _. Defined.

Definition without_others (key : string) (calls : list limiter_call) : list limiter_call :=
  filter (concerns key) calls.

(** Two limiters agree on a key. *)
Definition agree (key : string) (l l' : Limiter) : Prop :=
  rate l = rate l' ∧ window l = window l' ∧ stopped l = stopped l' ∧ buckets l !! key = buckets l' !! key.

Lemma Allow_agree_other key k now l l' :
  k ≠ key → agree key l l' → agree key (Allow k now l).2 l'.
Proof.
  intros Hk (Hr & Hw & Hs & Hb). unfold agree. pose proof (Allow_rate k now l) as [-> ->].
  rewrite Allow_other by congruence. split_and!; [done..| |done].
  unfold Allow. by destruct (f_lt _ _).
Qed.

Lemma Allow_agree_own key now l l' :
  agree key l l' →
  (Allow key now l).1 = (Allow key now l').1 ∧ agree key (Allow key now l).2 (Allow key now l').2.
Proof.
  intros (Hr & Hw & Hs & Hb). destruct (Allow_own key now l l' Hr Hw Hb) as [Ho Hb'].
  split; [done|]. unfold agree. pose proof (Allow_rate key now l) as [-> ->].
  pose proof (Allow_rate key now l') as [-> ->]. split_and!; [done..| |done].
  unfold Allow. by do 2 destruct (f_lt _ _).
Qed.

Lemma gc_sweep_agree key now l l' : agree key l l' → agree key (gc_sweep now l) (gc_sweep now l').
Proof.
  intros (Hr & Hw & Hs & Hb). unfold gc_sweep. rewrite <- Hs.
  destruct (stopped l) eqn:Hst; [by unfold agree; rewrite Hst, <- Hs|].
  unfold agree. simpl. split_and!; [done..|]. rewrite <- Hw.
  by rewrite !map_lookup_filter, Hb.
Qed.

Lemma decisions_agree key calls l l' :
  agree key l l' → decisions key calls l = decisions key (without_others key calls) l'.
Proof.
  revert l l'. induction calls as [|[k now|now] calls IH]; intros l l' Ha; [done|..].
  - unfold decisions, without_others. rewrite filter_cons. cbn [run_calls].
    destruct (Allow k now l) as [b l1] eqn:Hl. rewrite filter_cons. cbn [fst snd].
    destruct (decide (k = key)) as [->|Hk];
      [rewrite decide_True by done|rewrite decide_False by done].
    + cbn [run_calls]. destruct (Allow key now l') as [b' l1'] eqn:Hl'.
      destruct (Allow_agree_own key now l l' Ha) as [Hb Ha']. rewrite Hl, Hl' in Hb, Ha'.
      simpl in Hb, Ha'. subst b'. rewrite filter_cons, decide_True by done. rewrite !fmap_cons.
      f_equal. by apply IH.
    + apply IH. pose proof (Allow_agree_other key k now l l' Hk Ha) as Ha'. by rewrite Hl in Ha'.
  - unfold decisions, without_others. rewrite filter_cons, decide_True by done. cbn [run_calls].
    apply IH. by apply gc_sweep_agree.
Qed.

(** Nobody can use up another key's budget: whatever other users and
    addresses send and whenever the sweeper runs, the decisions for a key are
    those it would get if its own requests were the only ones. *)
Theorem limiter_isolation key calls l :
  decisions key calls l = decisions key (without_others key calls) l.
Proof. by apply decisions_agree. Qed.

(** ** Bursts *)

(** Requests against a bucket that is not refilled between them. *)
Fixpoint drain (n : nat) (l : Limiter) (t : float64) : list bool :=
  match n with
  | O => []
  | S n' =>
      let t := refill l 0 (mk_bucket t 0) in
      if f_lt t (f_of_Z 1) then false :: drain n' l t else true :: drain n' l (f_sub t (f_of_Z 1))
  end.

(** What is left in the bucket after them. *)
Fixpoint left_over (n : nat) (l : Limiter) (t : float64) : float64 :=
  match n with
  | O => t
  | S n' =>
      let t := refill l 0 (mk_bucket t 0) in
      left_over n' l (if f_lt t (f_of_Z 1) then t else f_sub t (f_of_Z 1))
  end.

Lemma drain_add m n l t : drain (m + n) l t = drain m l t ++ drain n l (left_over m l t).
Proof.
  revert t. induction m as [|m IH]; intros t; [done|]. cbn [drain left_over Nat.add].
  destruct (f_lt _ _); by rewrite IH.
Qed.

Lemma refill_now l now t : refill l now (mk_bucket t now) = refill l 0 (mk_bucket t 0).
Proof. unfold refill, Sub. simpl. by rewrite !Z.sub_diag. Qed.

Lemma drain_set l key b n t : drain n (set_bucket l key b) t = drain n l t.
Proof. revert t. induction n as [|n IH]; intros t; [done|]. simpl. by rewrite !IH. Qed.

Lemma allow_n_drain n key now l :
  (∀ b, buckets l !! key = Some b → lastCheck b = now) →
  (allow_n n key now l).1
  = drain n l (match buckets l !! key with Some b => tokens b | None => f_of_Z (rate l) end).
Proof.
  revert l. induction n as [|n IH]; intros l Hl; [done|]. cbn [allow_n drain].
  assert (Hb : match buckets l !! key with Some b => b | None => mk_bucket (f_of_Z (rate l)) now end
    = mk_bucket (match buckets l !! key with Some b => tokens b | None => f_of_Z (rate l) end) now).
  { destruct (buckets l !! key) as [b|]; [|done]. rewrite <- (Hl b eq_refl). by destruct b. }
  unfold Allow. rewrite Hb, refill_now. set (t := refill l 0 _).
  destruct (f_lt t (f_of_Z 1));
    (match goal with |- context [allow_n n key now ?l'] =>
       specialize (IH l'); destruct (allow_n n key now l') as [bs l2] end);
    simpl in *; rewrite lookup_insert_eq, drain_set in IH; f_equal; apply IH; by intros ? [= <-].
Qed.

(** The limiter that serve installs lets a new key send a burst of exactly
    60 requests at one instant; the 61st and all later ones of that instant are
    refused, with float64 rounding taken into account. *)
Theorem limiter_burst key now n :
  (allow_n (60 + n) key now serve_limiter).1 = replicate 60 true ++ replicate n false.
Proof.
  rewrite allow_n_drain by done. unfold serve_limiter. simpl buckets. rewrite lookup_empty.
  cbv iota.
  rewrite drain_add.
  replace (drain 60 _ _) with (replicate 60 true) by (vm_compute; reflexivity).
  apply (f_equal (app (replicate 60 true))).
  replace (left_over 60 _ _) with (S754_zero false) by (vm_compute; reflexivity).
  induction n as [|n IH]; [done|]. cbn [drain replicate].
  replace (refill (NewLimiter 60 Minute) 0 (mk_bucket (S754_zero false) 0)) with (S754_zero false)
    by (vm_compute; reflexivity).
  change (f_lt (S754_zero false) (f_of_Z 1)) with true. cbv iota. by rewrite IH.
Qed.
