(* ===== verification/Float.v ===== *)
(** Facts about binary64 arithmetic on non-negative values, for the limiter:
    the exact value of a finite datum is its mantissa times a power of two,
    and rounding keeps integer lower bounds. *)

From S2P Require Import Prelude AesGcm GoLib Net RateLimit.
From Stdlib Require Import SpecFloat.

Abbreviation fexp := (SpecFloat.fexp 53 1024).
Abbreviation round := (binary_round_aux 53 1024 false).

(** Neither negative nor NaN. *)
Definition nn (x : float64) : Prop :=
  match x with
  | S754_zero _ | S754_infinity false | S754_finite false _ _ => True
  | _ => False
  end.

(** Moreover normalised: at most 53 digits, and exactly 53 above the least
    exponent. *)
Definition ok (x : float64) : Prop :=
  match x with
  | S754_zero _ | S754_infinity false => True
  | S754_finite false m e => -1074 ≤ e ∧ Z.pos m < 2 ^ 53 ∧ (-1074 < e → 2 ^ 52 ≤ Z.pos m)
  | _ => False
  end.

(** [c ≤ m * 2 ^ e]. *)
Definition le_val (c m e : Z) : Prop := if decide (0 ≤ e) then c ≤ m * 2 ^ e else c * 2 ^ (- e) ≤ m.

(** The value is at least [c]. *)
Definition ge (c : Z) (x : float64) : Prop :=
  match x with
  | S754_infinity false => True
  | S754_finite false m e => le_val c (Z.pos m) e
  | _ => False
  end.

Lemma ok_nn x : ok x → nn x.
Proof. by destruct x as [|[]| |[]]. Qed.

(** ** Digits and shifts *)

Lemma digits_log2 p : Z.pos (digits2_pos p) = Z.log2 (Z.pos p) + 1.
Proof.
  induction p as [p IH|p IH|]; [..|done]; cbn [digits2_pos]; rewrite Pos2Z.inj_succ, IH.
  - rewrite (Pos2Z.inj_xI p), Z.log2_succ_double; lia.
  - rewrite (Pos2Z.inj_xO p), Z.log2_double; lia.
Qed.

Lemma digits_bounds m : 0 < m → 0 < Zdigits2 m ∧ 2 ^ (Zdigits2 m - 1) ≤ m < 2 ^ Zdigits2 m.
Proof.
  intros Hm. destruct m as [|p|p]; [lia| |lia]. cbn [Zdigits2]. rewrite digits_log2.
  pose proof (Z.log2_spec (Z.pos p) Hm) as H. pose proof (Z.log2_nonneg (Z.pos p)).
  replace (Z.log2 (Z.pos p) + 1 - 1) with (Z.log2 (Z.pos p)) by lia.
  replace (Z.log2 (Z.pos p) + 1) with (Z.succ (Z.log2 (Z.pos p))) by lia. lia.
Qed.

(** Few digits, small number. *)
Lemma digits_small m k : 0 ≤ m → 0 ≤ k → (m < 2 ^ k ↔ Zdigits2 m ≤ k).
Proof.
  intros Hm Hk. destruct (decide (m = 0)) as [->|Hne].
  { simpl. split; [lia|]. intros _. apply Z.pow_pos_nonneg; lia. }
  destruct (digits_bounds m ltac:(lia)) as [Hd [H1 H2]]. split; intros H.
  - destruct (decide (Zdigits2 m ≤ k)); [done|].
    assert (2 ^ k ≤ 2 ^ (Zdigits2 m - 1)) by (apply Z.pow_le_mono_r; lia). lia.
  - assert (2 ^ Zdigits2 m ≤ 2 ^ k) by (apply Z.pow_le_mono_r; lia). lia.
Qed.

Lemma shr_1_half r : 0 ≤ shr_m r → shr_m (shr_1 r) = shr_m r / 2.
Proof.
  destruct r as [[|[p|p|]|p] b s]; simpl; intros H; try done.
  - rewrite Pos2Z.inj_xI. apply (Z.div_unique _ _ _ 1); lia.
  - rewrite Pos2Z.inj_xO. apply (Z.div_unique _ _ _ 0); lia.
Qed.

Lemma div_pow2 a i j : 0 ≤ i → 0 ≤ j → a / 2 ^ i / 2 ^ j = a / 2 ^ (i + j).
Proof.
  intros Hi Hj. rewrite Z.pow_add_r by done. apply Z.div_div; [apply Z.pow_nonzero; lia|apply Z.pow_pos_nonneg; lia].
Qed.

Lemma div_pow2_nonneg a i : 0 ≤ a → 0 ≤ a / 2 ^ i.
Proof.
  intros Ha. destruct (decide (0 ≤ i)); [apply Z.div_pos; [done|]; apply Z.pow_pos_nonneg; lia|].
  rewrite Z.pow_neg_r by lia. by rewrite Zdiv_0_r.
Qed.

Lemma iter_shr p r : 0 ≤ shr_m r → shr_m (iter_pos shr_1 p r) = shr_m r / 2 ^ Z.pos p.
Proof.
  revert r. induction p as [p IH|p IH|]; intros r Hr; cbn [iter_pos].
  - assert (H1 : shr_m (shr_1 r) = shr_m r / 2 ^ 1) by by apply shr_1_half.
    assert (H2 : shr_m (iter_pos shr_1 p (shr_1 r)) = shr_m r / 2 ^ 1 / 2 ^ Z.pos p)
      by (rewrite IH, H1; [done|]; rewrite H1; by apply div_pow2_nonneg).
    rewrite IH, H2, !div_pow2 by (lia || (rewrite H2; by apply div_pow2_nonneg, div_pow2_nonneg)).
    f_equal. f_equal. lia.
  - rewrite IH, IH, div_pow2 by (done || lia || (rewrite IH by done; by apply div_pow2_nonneg)).
    f_equal. f_equal. lia.
  - by rewrite shr_1_half.
Qed.

(** How far [shr_fexp] shifts, and what is left. *)
Definition shift (m e : Z) : Z := Z.max 0 (fexp (Zdigits2 m + e) - e).

Lemma shr_fexp_spec m e l :
  0 ≤ m → ∃ r, shr_fexp 53 1024 m e l = (r, e + shift m e) ∧ shr_m r = m / 2 ^ shift m e.
Proof.
  intros Hm. assert (Hl : shr_m (shr_record_of_loc m l) = m) by by destruct l as [|[]].
  unfold shr_fexp, shr, shift. destruct (fexp (Zdigits2 m + e) - e) as [|p|p] eqn:Hn.
  - exists (shr_record_of_loc m l). cbn [Z.max Z.compare]. rewrite Hl, Z.add_0_r, Z.div_1_r. done.
  - exists (iter_pos shr_1 p (shr_record_of_loc m l)). rewrite iter_shr, Hl by (by rewrite Hl).
    by rewrite Z.max_r by lia.
  - exists (shr_record_of_loc m l). rewrite Z.max_l, Hl, Z.add_0_r, Z.div_1_r by lia. done.
Qed.

Lemma round_up m l : round_nearest_even m l = m ∨ round_nearest_even m l = m + 1.
Proof. destruct l as [|[]]; simpl; auto. destruct (Z.even m); auto. Qed.

(** Rounding: shift, round up or not, shift again. *)
Lemma round_spec m e l :
  0 ≤ m → ∃ m2, (m2 = m / 2 ^ shift m e ∨ m2 = m / 2 ^ shift m e + 1)
    ∧ let e2 := e + shift m e in
      let m3 := m2 / 2 ^ shift m2 e2 in
      let e3 := e2 + shift m2 e2 in
      round m e l = match m3 with
                    | Z0 => S754_zero false
                    | Zpos p => if e3 <=? 971 then S754_finite false p e3 else S754_infinity false
                    | Zneg _ => S754_nan
                    end.
Proof.
  intros Hm. unfold binary_round_aux. destruct (shr_fexp_spec m e l Hm) as (r & -> & Hr).
  set (m2 := round_nearest_even (shr_m r) (loc_of_shr_record r)). exists m2. rewrite <- Hr. split; [apply round_up|].
  assert (Hm2 : 0 ≤ m2).
  { assert (0 ≤ shr_m r) by (rewrite Hr; by apply div_pow2_nonneg).
    destruct (round_up (shr_m r) (loc_of_shr_record r)); unfold m2; lia. }
  destruct (shr_fexp_spec m2 (e + shift m e) loc_Exact Hm2) as (r2 & -> & ->). done.
Qed.

(** ** What rounding keeps *)

Lemma fexp_max k : fexp k = Z.max (k - 53) (-1074).
Proof. done. Qed.

Lemma shift_nonneg m e : 0 ≤ shift m e.
Proof. unfold shift. lia. Qed.

(** After the shift at most 53 digits are left. *)
Lemma shifted_small m e : 0 ≤ m → m / 2 ^ shift m e < 2 ^ 53.
Proof.
  intros Hm. pose proof (shift_nonneg m e). apply Z.div_lt_upper_bound; [apply Z.pow_pos_nonneg; lia|].
  rewrite <- Z.pow_add_r by lia. apply digits_small; [done|lia|]. unfold shift. rewrite fexp_max. lia.
Qed.

(** A full shift, above the least exponent, leaves exactly 53. *)
Lemma shifted_full m e :
  0 < m → e ≤ fexp (Zdigits2 m + e) → -1074 < e + shift m e → 2 ^ 52 ≤ m / 2 ^ shift m e.
Proof.
  intros Hm He Hs. destruct (digits_bounds m Hm) as [Hd [H1 _]].
  assert (Hshift : shift m e = Zdigits2 m - 53) by (unfold shift in *; rewrite fexp_max in *; lia).
  pose proof (shift_nonneg m e). apply Z.div_le_lower_bound; [apply Z.pow_pos_nonneg; lia|].
  rewrite <- Z.pow_add_r by lia. replace (shift m e + 52) with (Zdigits2 m - 1) by lia. done.
Qed.

(** Shifting keeps an integer lower bound. *)
Lemma shift_le_val c m e :
  0 < c < 2 ^ 52 → 0 < m → le_val c m e → le_val c (m / 2 ^ shift m e) (e + shift m e).
Proof.
  intros Hc Hm Hle. pose proof (shift_nonneg m e) as Hs.
  destruct (decide (shift m e = 0)) as [->|Hne]; [by rewrite Z.add_0_r, Z.div_1_r|].
  unfold le_val in *. destruct (decide (0 < e + shift m e)) as [Hpos|Hpos].
  - rewrite decide_True by lia.
    assert (2 ^ 52 ≤ m / 2 ^ shift m e) by (apply shifted_full; [done|unfold shift in *; lia|lia]).
    assert (0 < 2 ^ (e + shift m e)) by (apply Z.pow_pos_nonneg; lia). nia.
  - rewrite decide_False in Hle by lia.
    assert (Hq : c * 2 ^ (- (e + shift m e)) ≤ m / 2 ^ shift m e).
    { apply Z.div_le_lower_bound; [apply Z.pow_pos_nonneg; lia|].
      rewrite (Z.mul_comm c), Z.mul_assoc, <- Z.pow_add_r by lia.
      replace (shift m e + - (e + shift m e)) with (- e) by lia. lia. }
    case_decide as H0; [|done]. replace (e + shift m e) with 0 in * by lia. simpl in Hq. lia.
Qed.

Lemma le_val_mono c m m' e : m ≤ m' → le_val c m e → le_val c m' e.
Proof. unfold le_val. intros Hm. case_decide; [|lia]. assert (0 ≤ 2 ^ e) by (apply Z.pow_nonneg; lia). nia. Qed.

Lemma le_val_pos c m e : 0 < c → le_val c m e → 0 < m.
Proof.
  unfold le_val. intros Hc. case_decide as He; intros H.
  - assert (0 < 2 ^ e) by (apply Z.pow_pos_nonneg; lia). nia.
  - assert (0 < 2 ^ (- e)) by (apply Z.pow_pos_nonneg; lia). nia.
Qed.

Lemma round_nn m e l : 0 ≤ m → nn (round m e l).
Proof.
  intros Hm. destruct (round_spec m e l Hm) as (m2 & Hm2 & ->).
  pose proof (div_pow2_nonneg m (shift m e) Hm).
  assert (0 ≤ m2 / 2 ^ shift m2 (e + shift m e)) by (apply div_pow2_nonneg; lia).
  destruct (m2 / _) as [|p|p]; [done| |lia]. by destruct (_ <=? _).
Qed.

Lemma round_ge c m e l : 0 < c < 2 ^ 52 → 0 ≤ m → le_val c m e → ge c (round m e l).
Proof.
  intros Hc Hm Hle. pose proof (le_val_pos c m e (proj1 Hc) Hle) as Hm'.
  destruct (round_spec m e l Hm) as (m2 & Hm2 & ->).
  pose proof (shift_le_val c m e Hc Hm' Hle) as H1.
  assert (H2 : le_val c m2 (e + shift m e)) by (eapply le_val_mono; [|exact H1]; lia).
  pose proof (le_val_pos c _ _ (proj1 Hc) H2). apply shift_le_val in H2; [|done|done].
  pose proof (le_val_pos c _ _ (proj1 Hc) H2).
  destruct (m2 / _) as [|p|p]; [lia| |lia]. by destruct (_ <=? _).
Qed.

Lemma round_ok m e l : 0 < m → e ≤ fexp (Zdigits2 m + e) → ok (round m e l).
Proof.
  intros Hm He. destruct (round_spec m e l ltac:(lia)) as (m2 & Hm2 & ->).
  set (e2 := e + shift m e) in *. set (m1 := m / 2 ^ shift m e) in *.
  assert (Hm1 : 0 ≤ m1 < 2 ^ 53) by (split; [apply div_pow2_nonneg; lia|apply shifted_small; lia]).
  assert (He2 : e2 = fexp (Zdigits2 m + e)) by (unfold e2, shift; lia).
  assert (Hlow : -1074 < e2 → 2 ^ 52 ≤ m1) by (intros; by apply shifted_full).
  assert (He2' : -1074 ≤ e2) by (rewrite He2, fexp_max; lia).
  pose proof (shifted_small m2 e2 ltac:(lia)) as Hsmall.
  assert (Hfull : -1074 < e2 + shift m2 e2 → 2 ^ 52 ≤ m2 / 2 ^ shift m2 e2).
  { intros Hgt. destruct (decide (m2 < 2 ^ 53)) as [Hlt|Hge].
    - assert (Hd : Zdigits2 m2 ≤ 53) by (apply digits_small; lia).
      assert (Hs : shift m2 e2 = 0) by (unfold shift; rewrite fexp_max; lia).
      rewrite Hs, Z.div_1_r, Z.add_0_r in *. specialize (Hlow Hgt). lia.
    - assert (Hd : 54 ≤ Zdigits2 m2).
      { destruct (decide (Zdigits2 m2 ≤ 53)) as [Hn|]; [|lia]. apply digits_small in Hn; lia. }
      apply shifted_full; [lia| |done]. rewrite fexp_max. lia. }
  destruct (m2 / _) as [|p|p] eqn:Hm3; [done| |].
  - destruct (_ <=? _); [|done]. pose proof (shift_nonneg m2 e2). split_and!; [lia|done|done].
  - assert (0 ≤ m2 / 2 ^ shift m2 e2) by (apply div_pow2_nonneg; lia). lia.
Qed.

(** ** Alignment *)

Lemma iter_xO m d : Z.pos (Pos.iter xO m d) = Z.pos m * 2 ^ Z.pos d.
Proof.
  induction d as [|d IH] using Pos.peano_ind; [simpl; lia|].
  rewrite Pos.iter_succ, Pos2Z.inj_xO, IH, Pos2Z.inj_succ, Z.pow_succ_r by lia. lia.
Qed.

Lemma shl_align_spec m e e' mz ez :
  shl_align m e e' = (mz, ez) → ez = Z.min e e' ∧ Z.pos mz = Z.pos m * 2 ^ (e - ez).
Proof.
  unfold shl_align. destruct (e' - e) as [|d|d] eqn:Hd; intros [= <- <-].
  - rewrite Z.sub_diag. split; lia.
  - rewrite Z.sub_diag. split; lia.
  - split; [lia|]. rewrite iter_xO. do 2 f_equal. lia.
Qed.

(** Aligning to a lower exponent keeps the value. *)
Lemma le_val_align c m e e' : e' ≤ e → le_val c m e → le_val c (m * 2 ^ (e - e')) e'.
Proof.
  intros He. unfold le_val. intros H. destruct (decide (0 ≤ e')).
  - rewrite decide_True in H by lia. rewrite <- Z.mul_assoc, <- Z.pow_add_r by lia. by replace (e - e' + e') with e by lia.
  - case_decide.
    + replace (e - e') with (e + - e') by lia. rewrite Z.pow_add_r, Z.mul_assoc by lia.
      apply Z.mul_le_mono_nonneg_r; [apply Z.pow_nonneg; lia|done].
    + replace (- e') with (- e + (e - e')) by lia. rewrite Z.pow_add_r, Z.mul_assoc by lia.
      apply Z.mul_le_mono_nonneg_r; [apply Z.pow_nonneg; lia|done].
Qed.

Lemma digits_shifted m k : 0 < m → 0 ≤ k → Zdigits2 (m * 2 ^ k) = Zdigits2 m + k.
Proof.
  intros Hm Hk. assert (0 < m * 2 ^ k) by (apply Z.mul_pos_pos; [done|apply Z.pow_pos_nonneg; lia]).
  destruct m as [|p|p]; [lia| |lia]. destruct (Z.pos p * 2 ^ k) as [|q|q] eqn:Hq; [lia| |lia].
  cbn [Zdigits2]. rewrite !digits_log2, <- Hq, Z.log2_mul_pow2 by lia. lia.
Qed.

Lemma binary_round_facts p e :
  ok (binary_round 53 1024 false p e)
  ∧ ∀ c, 0 < c < 2 ^ 52 → le_val c (Z.pos p) e → ge c (binary_round 53 1024 false p e).
Proof.
  unfold binary_round. set (e' := fexp _). destruct (shl_align p e e') as [mz ez] eqn:Hal.
  apply shl_align_spec in Hal as [Hez Hm]. split.
  - apply round_ok; [lia|]. rewrite Hm, digits_shifted by lia. cbn [Zdigits2].
    replace (Z.pos (digits2_pos p) + (e - ez) + ez) with (Z.pos (digits2_pos p) + e) by lia. fold e'. lia.
  - intros c Hc Hle. apply round_ge; [done|lia|]. rewrite Hm. apply le_val_align; [lia|done].
Qed.

(** ** The operations *)

Definition one : float64 := S754_finite false 4503599627370496 (-52).

Lemma f_of_Z_facts z : 0 ≤ z → ok (f_of_Z z) ∧ ∀ c, 0 < c < 2 ^ 52 → c ≤ z → ge c (f_of_Z z).
Proof.
  intros Hz. unfold f_of_Z, binary_normalize. destruct z as [|p|p]; [|..|lia].
  - split; [done|]. intros c Hc Hle. lia.
  - destruct (binary_round_facts p 0) as [Hok Hge]. split; [done|]. intros c Hc Hle. apply Hge; [done|].
    unfold le_val. simpl. lia.
Qed.

Lemma f_div_nn x my ey : nn x → nn (f_div x (S754_finite false my ey)).
Proof.
  destruct x as [s|[]| |[] m e]; try done. intros _. unfold f_div, SFdiv, SFdiv_core_binary.
  match goal with |- context [Z.div_eucl ?x _] => set (m' := x) end. assert (Hm' : 0 ≤ m').
  { unfold m'. case_match; [lia|apply Z.shiftl_nonneg; lia|lia]. }
  pose proof (Z_div_mod m' (Z.pos my) ltac:(lia)) as Hd. destruct (Z.div_eucl m' (Z.pos my)) as [q r].
  apply round_nn. nia.
Qed.

Lemma f_add_align mx ex my ey :
  ∃ p, f_add (S754_finite false mx ex) (S754_finite false my ey) = binary_round 53 1024 false p (Z.min ex ey)
    ∧ Z.pos p = Z.pos mx * 2 ^ (ex - Z.min ex ey) + Z.pos my * 2 ^ (ey - Z.min ex ey).
Proof.
  unfold f_add, SFadd, cond_Zopp. destruct (shl_align mx ex _) as [a ea] eqn:Ha. destruct (shl_align my ey _) as [b eb] eqn:Hb.
  apply shl_align_spec in Ha as [-> Ha]. apply shl_align_spec in Hb as [-> Hb]. simpl fst.
  replace (Z.min ex (Z.min ex ey)) with (Z.min ex ey) in Ha by lia.
  replace (Z.min ey (Z.min ex ey)) with (Z.min ex ey) in Hb by lia.
  exists (a + b)%positive. split; [done|]. lia.
Qed.

Lemma f_add_ok x y : ok x → ok y → ok (f_add x y).
Proof.
  destruct x as [s|[]| |[] mx ex]; try done; destruct y as [s'|[]| |[] my ey]; try done.
  - by destruct s, s'.
  - intros _ _. destruct (f_add_align mx ex my ey) as (p & -> & _). apply binary_round_facts.
Qed.

Lemma f_add_nn x y : nn x → nn y → nn (f_add x y).
Proof.
  destruct x as [s|[]| |[] mx ex]; try done; destruct y as [s'|[]| |[] my ey]; try done.
  - by destruct s, s'.
  - intros _ _. destruct (f_add_align mx ex my ey) as (p & -> & _). apply ok_nn, binary_round_facts.
Qed.

Lemma f_add_comm x y : f_add x y = f_add y x.
Proof.
  destruct x as [[]|[]| |s mx ex], y as [[]|[]| |s' my ey]; try done;
    unfold f_add, SFadd; by rewrite Z.min_comm, Z.add_comm.
Qed.

(** Adding something non-negative keeps a lower bound. *)
Lemma f_add_ge c x y : 0 < c < 2 ^ 52 → nn x → ge c y → ge c (f_add x y).
Proof.
  intros Hc. destruct x as [s|[]| |[] mx ex]; try done; destruct y as [s'|[]| |[] my ey]; try done.
  intros _ Hy. rewrite f_add_comm. destruct (f_add_align my ey mx ex) as (p & -> & Hp).
  apply binary_round_facts; [done|]. rewrite Hp. eapply le_val_mono; [|apply (le_val_align c (Z.pos my) ey (Z.min ey ex)); [lia|exact Hy]].
  assert (0 ≤ Z.pos mx * 2 ^ (ex - Z.min ey ex)) by (apply Z.mul_nonneg_nonneg; [lia|apply Z.pow_nonneg; lia]). lia.
Qed.

Lemma f_mul_one x : nn x → ok (f_mul x one) ∧ ∀ c, 0 < c < 2 ^ 52 → ge c x → ge c (f_mul x one).
Proof.
  destruct x as [s|[]| |[] m e]; try done. intros _. unfold f_mul, SFmul, one. simpl xorb.
  rewrite Pos2Z.inj_mul. change (Z.pos 4503599627370496) with (2 ^ 52). split.
  - apply round_ok; [lia|]. rewrite digits_shifted by lia. cbn [Zdigits2]. rewrite fexp_max. lia.
  - intros c Hc Hx. apply round_ge; [done|lia|].
    pose proof (le_val_align c (Z.pos m) e (e + -52) ltac:(lia) Hx) as H.
    by replace (e - (e + -52)) with 52 in H by lia.
Qed.

(** Taking one away from what is not below one. *)
Lemma f_sub_one x : ok x → f_lt x one = false → ok (f_sub x one).
Proof.
  destruct x as [s|[]| |[] m e]; try done. intros (_ & Hm & Hfull) Hlt.
  assert (He : -52 ≤ e ∧ 2 ^ 52 ≤ Z.pos m).
  { unfold f_lt, SFltb, SFcompare, one in Hlt. destruct (Z.compare_spec e (-52)) as [->|H|H]; [|done|].
    - split; [lia|]. apply Hfull. lia.
    - split; [lia|]. apply Hfull. lia. }
  unfold f_sub, SFsub, cond_Zopp, one. replace (Z.min e (-52)) with (-52) by lia.
  destruct (shl_align m e (-52)) as [a ea] eqn:Ha. apply shl_align_spec in Ha as [-> Ha].
  replace (Z.min e (-52)) with (-52) in Ha by lia. simpl fst. change (Z.pos 4503599627370496) with (2 ^ 52).
  assert (1 ≤ 2 ^ (e - -52)) by (pose proof (Z.pow_pos_nonneg 2 (e - -52)); lia).
  assert (0 ≤ Z.pos a - 2 ^ 52) by nia.
  unfold binary_normalize. destruct (Z.pos a - 2 ^ 52) as [|p|p]; [done|apply binary_round_facts|lia].
Qed.

(** ** Durations *)

Lemma Seconds_facts d :
  0 ≤ d → nn (Seconds d) ∧ ∀ c, 0 < c < 2 ^ 52 → c * Second ≤ d → ge c (Seconds d).
Proof.
  intros Hd. unfold Seconds. set (q := Z.quot d Second). set (r := Z.rem d Second).
  assert (Hq : 0 ≤ q) by (apply Z.quot_pos; unfold Second; lia).
  assert (Hr : 0 ≤ r) by (apply Z.rem_nonneg; unfold Second; lia).
  destruct (f_of_Z_facts q Hq) as [Hokq Hgeq]. destruct (f_of_Z_facts r Hr) as [Hokr _].
  assert (Hfrac : nn (f_div (f_of_Z r) (f_of_Z Second))).
  { replace (f_of_Z Second) with (S754_finite false 8388608000000000 (-23)) by (vm_compute; reflexivity).
    by apply f_div_nn, ok_nn. }
  split; [by apply f_add_nn, Hfrac; apply ok_nn|]. intros c Hc Hle.
  assert (Hcq : c ≤ q) by (apply Z.quot_le_lower_bound; unfold Second in *; lia).
  rewrite f_add_comm. by apply f_add_ge, Hgeq.
Qed.
