(* ===== verification/FloatUp.v ===== *)
(** Upper bounds for binary64 arithmetic: how far above the exact result a
    rounded one can be.

    Values are counted in units of 2 ^ -1200, in which every finite datum and
    every intermediate result of an operation is an integer. *)

From Stdlib Require Import SpecFloat.
From S2P Require Import Prelude AesGcm GoLib Net RateLimit Float.

(** [2 ^ k] and [m * 2 ^ e] in units. *)
Definition P (k : Z) : Z := 2 ^ (k + 1200).
Definition V (m e : Z) : Z := m * P e.

(** A finite datum of at most [u] units. *)
Definition upto (u : Z) (x : float64) : Prop :=
  match x with
  | S754_zero _ => 0 ≤ u
  | S754_finite false m e => -1074 ≤ e ∧ V (Z.pos m) e ≤ u
  | _ => False
  end.

Lemma P_pos k : -1200 ≤ k → 0 < P k.
Proof. intros. apply Z.pow_pos_nonneg; lia. Qed.

Lemma P_add k n : -1200 ≤ k → 0 ≤ n → P (k + n) = 2 ^ n * P k.
Proof. intros. unfold P. rewrite <- Z.pow_add_r by lia. f_equal. lia. Qed.

Lemma P_mono j k : j ≤ k → P j ≤ P k.
Proof. intros. apply Z.pow_le_mono_r; lia. Qed.

Lemma V_shift m e n : -1200 ≤ e → 0 ≤ n → V (m * 2 ^ n) e = V m (e + n).
Proof. intros. unfold V. rewrite P_add by lia. lia. Qed.

Lemma V_div m e n : 0 ≤ m → -1200 ≤ e → 0 ≤ n → V (m / 2 ^ n) (e + n) ≤ V m e.
Proof.
  intros. rewrite <- V_shift by done. unfold V. pose proof (P_pos e).
  pose proof (Z.mul_div_le m (2 ^ n) ltac:(apply Z.pow_pos_nonneg; lia)). nia.
Qed.

Lemma upto_nonneg u x : upto u x → 0 ≤ u.
Proof.
  destruct x as [s|s| |[] m e]; try done. intros [He Hv]. unfold V in Hv.
  pose proof (P_pos e ltac:(lia)). nia.
Qed.

Lemma upto_mono u u' x : u ≤ u' → upto u x → upto u' x.
Proof. intros. destruct x as [s|s| |[] m e]; simpl in *; try done; lia. Qed.

#[global] Opaque P.

(** A value below [2 ^ k] has few digits. *)
Lemma V_digits m e k : 0 < m → -1200 ≤ e → V m e < P k → Zdigits2 m + e ≤ k.
Proof.
  intros Hm He Hv. destruct (digits_bounds m Hm) as (Hd & Hlow & _).
  destruct (decide (Zdigits2 m + e ≤ k)); [done|]. exfalso.
  assert (P k ≤ P (e + (Zdigits2 m - 1))) by (apply P_mono; lia).
  rewrite P_add in * by lia. pose proof (P_pos e He). unfold V in Hv. nia.
Qed.

(** ** Rounding *)

Lemma round_upto m e l k :
  0 ≤ m → -1200 ≤ e → e ≤ fexp (Zdigits2 m + e) → -1000 ≤ k ≤ 900 → V m e < P k →
  upto (V m e + P (k - 53)) (round m e l).
Proof.
  intros Hm He Hf Hk Hv. destruct (round_spec m e l Hm) as (m2 & Hm2 & ->).
  set (e2 := e + shift m e) in *. set (m1 := m / 2 ^ shift m e) in *.
  pose proof (shift_nonneg m e) as Hs. pose proof (shift_nonneg m2 e2) as Hs2.
  assert (Hm1 : 0 ≤ m1 < 2 ^ 53) by (split; [apply div_pow2_nonneg; lia|apply shifted_small; lia]).
  assert (He2 : e2 = fexp (Zdigits2 m + e)) by (unfold e2, shift; lia).
  assert (Hd : Zdigits2 m + e ≤ k).
  { destruct (decide (m = 0)) as [->|]; [|apply V_digits; lia]. rewrite fexp_max in Hf. simpl in *. lia. }
  assert (He2k : -1074 ≤ e2 ≤ k - 53) by (rewrite He2, fexp_max; lia).
  assert (Hs2' : shift m2 e2 ≤ 1).
  { unfold shift. rewrite fexp_max. enough (Zdigits2 m2 ≤ 54) by lia. apply digits_small; lia. }
  assert (Hle : V (m2 / 2 ^ shift m2 e2) (e2 + shift m2 e2) ≤ V m e + P (k - 53)).
  { pose proof (V_div m2 e2 (shift m2 e2) ltac:(lia) ltac:(lia) Hs2).
    pose proof (V_div m e (shift m e) Hm He Hs). fold e2 m1 in H0. pose proof (P_mono e2 (k - 53) ltac:(lia)).
    unfold V in *. pose proof (P_pos e2). nia. }
  destruct (m2 / _) as [|p|p] eqn:Hm3.
  - change (0 ≤ V m e + P (k - 53)). unfold V in Hle at 1. lia.
  - rewrite (proj2 (Z.leb_le _ _)) by lia. split; [lia|done].
  - assert (0 ≤ m2 / 2 ^ shift m2 e2) by (apply div_pow2_nonneg; lia). lia.
Qed.

Lemma binary_round_upto p e k :
  -1200 ≤ e → -1000 ≤ k ≤ 900 → V (Z.pos p) e < P k →
  upto (V (Z.pos p) e + P (k - 53)) (binary_round 53 1024 false p e).
Proof.
  intros He Hk Hv. unfold binary_round. set (e' := fexp _). destruct (shl_align p e e') as [mz ez] eqn:Hal.
  apply shl_align_spec in Hal as [Hez Hm].
  assert (Hez' : -1200 ≤ ez) by (unfold e' in Hez; rewrite fexp_max in Hez; lia).
  assert (Heq : V (Z.pos mz) ez = V (Z.pos p) e).
  { rewrite Hm, V_shift by lia. f_equal. lia. }
  rewrite <- Heq in *. apply round_upto; [lia|done| |done|done].
  rewrite Hm, digits_shifted by lia. cbn [Zdigits2].
  replace (Z.pos (digits2_pos p) + (e - ez) + ez) with (Z.pos (digits2_pos p) + e) by lia. fold e'. lia.
Qed.

(** ** The operations *)

Lemma f_of_Z_upto z k : 0 ≤ z < 2 ^ k → 0 ≤ k ≤ 900 → upto (V z 0 + P (k - 53)) (f_of_Z z).
Proof.
  intros Hz Hk. unfold f_of_Z, binary_normalize. pose proof (P_pos (k - 53) ltac:(lia)).
  destruct z as [|p|p]; [simpl; unfold V; lia| |lia].
  apply binary_round_upto; [lia|lia|]. replace k with (0 + k) by lia. rewrite P_add by lia.
  unfold V. pose proof (P_pos 0 ltac:(lia)). nia.
Qed.

Lemma f_add_upto u w k x y :
  -1000 ≤ k ≤ 900 → u + w < P k → upto u x → upto w y → upto (u + w + P (k - 53)) (f_add x y).
Proof.
  intros Hk Hlt Hx Hy. pose proof (upto_nonneg _ _ Hx) as Hu. pose proof (upto_nonneg _ _ Hy) as Hw.
  pose proof (P_pos (k - 53) ltac:(lia)) as HP.
  destruct x as [s|s| |[] mx ex]; try done; destruct y as [s'|s'| |[] my ey]; try done.
  - destruct s, s'; simpl in *; lia.
  - eapply upto_mono; [|exact Hy]. lia.
  - eapply upto_mono; [|exact Hx]. lia.
  - destruct Hx as [Hex Hx], Hy as [Hey Hy].
    destruct (f_add_align mx ex my ey) as (p & -> & Hp).
    assert (Heq : V (Z.pos p) (Z.min ex ey) = V (Z.pos mx) ex + V (Z.pos my) ey).
    { rewrite Hp. unfold V at 1. rewrite Z.mul_add_distr_r. f_equal.
      - change (V (Z.pos mx * 2 ^ (ex - Z.min ex ey)) (Z.min ex ey) = V (Z.pos mx) ex). rewrite V_shift by lia. f_equal. lia.
      - change (V (Z.pos my * 2 ^ (ey - Z.min ex ey)) (Z.min ex ey) = V (Z.pos my) ey). rewrite V_shift by lia. f_equal. lia. }
    eapply upto_mono; [|apply binary_round_upto; [lia|exact Hk|lia]]. lia.
Qed.

Lemma f_mul_one_upto u k x :
  -1000 ≤ k ≤ 900 → u < P k → upto u x → upto (u + P (k - 53)) (f_mul x one).
Proof.
  intros Hk Hlt Hx. pose proof (P_pos (k - 53) ltac:(lia)) as HP.
  destruct x as [s|s| |[] m e]; try done; [simpl in *; lia|]. destruct Hx as [He Hx].
  unfold f_mul, SFmul, one. simpl xorb. rewrite Pos2Z.inj_mul. change (Z.pos 4503599627370496) with (2 ^ 52).
  assert (Heq : V (Z.pos m * 2 ^ 52) (e + -52) = V (Z.pos m) e) by (rewrite V_shift by lia; f_equal; lia).
  eapply upto_mono; [|apply round_upto; [lia|lia| |exact Hk|lia]]; [lia|].
  rewrite digits_shifted by lia. cbn [Zdigits2]. rewrite fexp_max. lia.
Qed.

Lemma f_sub_one_upto u k x :
  -1000 ≤ k ≤ 900 → u - P 0 < P k → ok x → f_lt x one = false → upto u x →
  upto (u - P 0 + P (k - 53)) (f_sub x one).
Proof.
  intros Hk Hlt Hok Hf Hx. pose proof (P_pos (k - 53) ltac:(lia)) as HP.
  destruct x as [s|[]| |[] m e]; try done. destruct Hok as (_ & _ & Hfull), Hx as [_ Hx].
  assert (He : -52 ≤ e ∧ 2 ^ 52 ≤ Z.pos m).
  { unfold f_lt, SFltb, SFcompare, one in Hf. destruct (Z.compare_spec e (-52)) as [->|H|H]; [|done|];
      (split; [lia|apply Hfull; lia]). }
  unfold f_sub, SFsub, cond_Zopp, one. replace (Z.min e (-52)) with (-52) by lia.
  destruct (shl_align m e (-52)) as [a ea] eqn:Ha. apply shl_align_spec in Ha as [-> Ha].
  replace (Z.min e (-52)) with (-52) in Ha by lia. simpl fst. change (Z.pos 4503599627370496) with (2 ^ 52).
  assert (Hva : V (Z.pos a) (-52) = V (Z.pos m) e) by (rewrite Ha, V_shift by lia; f_equal; lia).
  assert (Hv : V (Z.pos a - 2 ^ 52) (-52) = V (Z.pos m) e - P 0).
  { rewrite <- Hva. unfold V. rewrite Z.mul_sub_distr_r. f_equal. }
  assert (1 ≤ 2 ^ (e - -52)) by (pose proof (Z.pow_pos_nonneg 2 (e - -52)); lia).
  assert (0 ≤ Z.pos a - 2 ^ 52) by nia.
  unfold binary_normalize. destruct (Z.pos a - 2 ^ 52) as [|p|p]; [|..|lia].
  - simpl. unfold V in Hv at 1. lia.
  - eapply upto_mono; [|apply binary_round_upto; [lia|exact Hk|lia]]. lia.
Qed.

(** A quotient has at least the digits that the dividend has more than the
    divisor. *)
Lemma digits_quotient m d q r :
  0 < m → 0 < d → 0 ≤ q → m = d * q + r → r < d → Zdigits2 m - Zdigits2 d ≤ Zdigits2 q.
Proof.
  intros Hm Hd Hq Heq Hr. destruct (digits_bounds d Hd) as (Hd0 & _ & Hd2).
  assert (Hdq : 0 ≤ Zdigits2 q) by (destruct q; simpl; lia).
  assert (Hq2 : q < 2 ^ Zdigits2 q) by by apply digits_small.
  enough (Zdigits2 m ≤ Zdigits2 d + Zdigits2 q) by lia. apply digits_small; [lia|lia|].
  rewrite Z.pow_add_r by lia. nia.
Qed.

(** Dividing by [10 ^ 9]. *)
Lemma f_div_second_upto u k x :
  -1000 ≤ k ≤ 900 → u < Second * P k → upto u x →
  upto (u / Second + P (k - 53)) (f_div x (f_of_Z Second)).
Proof.
  intros Hk Hlt Hx. pose proof (upto_nonneg _ _ Hx) as Hu. pose proof (P_pos (k - 53) ltac:(lia)) as HP.
  assert (0 ≤ u / Second) by (apply Z.div_pos; unfold Second; lia).
  replace (f_of_Z Second) with (S754_finite false 8388608000000000 (-23)) by (vm_compute; reflexivity).
  destruct x as [s|s| |[] m e]; try done; [simpl in *; lia|]. destruct Hx as [He Hx].
  unfold f_div, SFdiv, SFdiv_core_binary. set (my := 8388608000000000%positive).
  set (d := Zdigits2 (Z.pos m) + e - (Zdigits2 (Z.pos my) + -23)). set (e' := Z.min (fexp d) (e - -23)).
  assert (He' : -1074 ≤ e' ≤ e + 23) by (unfold e'; rewrite fexp_max; lia).
  set (m' := match e - -23 - e' with Z0 => _ | Zpos _ => _ | Zneg _ => _ end).
  assert (Hm' : m' = Z.pos m * 2 ^ (e + 23 - e')).
  { unfold m'. replace (e + 23 - e') with (e - -23 - e') by lia. case_match; [lia|by rewrite Z.shiftl_mul_pow2 by lia|lia]. }
  pose proof (Z_div_mod m' (Z.pos my) ltac:(lia)) as Hdm. destruct (Z.div_eucl m' (Z.pos my)) as [q r].
  destruct Hdm as [Hdm Hr]. simpl xorb.
  assert (Hq : 0 ≤ q).
  { assert (0 ≤ m') by (rewrite Hm'; apply Z.mul_nonneg_nonneg; [lia|apply Z.pow_nonneg; lia]). nia. }
  assert (Hvq : Second * V q e' ≤ u).
  { transitivity (V (Z.pos m) e); [|done].
    assert (V m' e' = V (Z.pos m) (e + 23)) by (rewrite Hm', V_shift by lia; f_equal; lia).
    assert (V (Z.pos m) (e + 23) = 2 ^ 23 * V (Z.pos m) e) by (unfold V; rewrite P_add by lia; lia).
    change (Z.pos my) with (2 ^ 23 * Second) in Hdm, Hr.
    unfold V in *. pose proof (P_pos e' ltac:(lia)). unfold Second in *. nia. }
  assert (Hle : V q e' ≤ u / Second) by (apply Z.div_le_lower_bound; unfold Second in *; lia).
  eapply upto_mono; [|apply round_upto; [done|lia| |exact Hk|]]; [lia| |].
  - assert (0 < m') by (rewrite Hm'; apply Z.mul_pos_pos; [lia|apply Z.pow_pos_nonneg; lia]).
    assert (Zdigits2 m' = Zdigits2 (Z.pos m) + (e + 23 - e')) by (rewrite Hm'; apply digits_shifted; lia).
    pose proof (digits_quotient m' (Z.pos my) q r ltac:(done) ltac:(lia) Hq Hdm ltac:(lia)).
    assert (fexp d ≤ fexp (Zdigits2 q + e')) by (rewrite !fexp_max; lia). lia.
  - unfold Second in *. nia.
Qed.

(** ** Durations *)

(** The bounds below are multiples of this. *)
Lemma P_base k : -60 ≤ k → P k = 2 ^ (k + 60) * P (-60).
Proof. intros. rewrite <- P_add by lia. f_equal. lia. Qed.

Ltac in_base :=
  rewrite ?(P_base 7), ?(P_base 1), ?(P_base 0), ?(P_base (-23)), ?(P_base (-45)), ?(P_base (-46)),
    ?(P_base (-47)), ?(P_base (-52)) in * by lia;
  pose proof (P_pos (-60) ltac:(lia)); generalize dependent (P (-60)); intros.

(** Up to a minute, [Seconds] is less than [5 * 2 ^ -45] too high. *)
Lemma Seconds_upto d :
  0 ≤ d ≤ Minute → ∃ w, upto w (Seconds d) ∧ Second * w ≤ d * P 0 + Second * (5 * P (-45)).
Proof.
  intros Hd. unfold Seconds. set (q := Z.quot d Second). set (r := Z.rem d Second).
  assert (Hdqr : d = Second * q + r) by apply Z.quot_rem'.
  assert (Hr : 0 ≤ r < Second) by (apply Z.rem_bound_pos; unfold Second; lia).
  assert (Hq : 0 ≤ q ≤ 60) by (unfold Minute, Second in *; lia).
  assert (HV : 0 ≤ V r 0 ≤ Second * P 0 ∧ V q 0 ≤ 60 * P 0 ∧ d * P 0 = Second * V q 0 + V r 0).
  { unfold V. pose proof (P_pos 0 ltac:(lia)). split_and!; nia. }
  pose proof (f_of_Z_upto q 6 ltac:(lia) ltac:(lia)) as Hfq. change (6 - 53) with (-47) in Hfq.
  pose proof (f_of_Z_upto r 30 ltac:(unfold Second in *; lia) ltac:(lia)) as Hfr. change (30 - 53) with (-23) in Hfr.
  apply (f_div_second_upto _ 1) in Hfr; [|lia|unfold Second in *; in_base; lia].
  change (1 - 53) with (-52) in Hfr.
  assert (Hdiv : Second * ((V r 0 + P (-23)) / Second) ≤ V r 0 + P (-23)) by (apply Z.mul_div_le; unfold Second; lia).
  eexists. split; [eapply (f_add_upto _ _ 7); [lia| |exact Hfq|exact Hfr]; unfold Second in *; in_base; lia|]. change (7 - 53) with (-46). rewrite (proj2 (proj2 HV)). unfold Second in *. in_base. lia.
Qed.
