(* ===== verification/FloatNear.v ===== *)
(** binary64 arithmetic on finite data of either sign: the value of a datum,
    comparison by value, and how far a rounded result is from the exact one.

    Values are counted in the units of FloatUp. *)

From Stdlib Require Import SpecFloat.
From S2P Require Import Prelude AesGcm GoLib Net RateLimit Float FloatUp.

(** [x] is a normalised finite datum of [v] units. *)
Definition value (x : float64) (v : Z) : Prop :=
  match x with
  | S754_zero _ => v = 0
  | S754_finite s m e =>
      -1074 ≤ e ∧ Z.pos m < 2 ^ 53 ∧ (-1074 < e → 2 ^ 52 ≤ Z.pos m) ∧ v = cond_Zopp s (V (Z.pos m) e)
  | _ => False
  end.

(** Its value is within [err] of [v]. *)
Definition near (x : float64) (v err : Z) : Prop := ∃ w, value x w ∧ v - err ≤ w ≤ v + err.

Lemma value_near x v err : 0 ≤ err → value x v → near x v err.
Proof. intros He Hv. exists v. split; [done|lia]. Qed.

Lemma value_det x v w : value x v → value x w → v = w.
Proof. destruct x as [s|s| |s m e]; simpl; try done; intuition congruence. Qed.

(** ** Comparison *)

Lemma V_pos m e : -1074 ≤ e → 0 < V (Z.pos m) e.
Proof. intros He. unfold V. pose proof (P_pos e ltac:(lia)). nia. Qed.

(** Of two normalised data the one with the greater exponent is greater. *)
Lemma V_exponent m m' e e' :
  -1074 ≤ e < e' → Z.pos m < 2 ^ 53 → 2 ^ 52 ≤ Z.pos m' → V (Z.pos m) e < V (Z.pos m') e'.
Proof.
  intros He Hm Hm'. pose proof (P_mono (e + 1) e' ltac:(lia)) as HP. rewrite P_add in HP by lia.
  pose proof (P_pos e ltac:(lia)). unfold V. nia.
Qed.

Lemma magnitude_compare m m' e e' :
  -1074 ≤ e → -1074 ≤ e' → Z.pos m < 2 ^ 53 → Z.pos m' < 2 ^ 53 →
  (-1074 < e → 2 ^ 52 ≤ Z.pos m) → (-1074 < e' → 2 ^ 52 ≤ Z.pos m') →
  match e ?= e' with Lt => Lt | Gt => Gt | Eq => Pos.compare_cont Eq m m' end
  = (V (Z.pos m) e ?= V (Z.pos m') e').
Proof.
  intros He He' Hm Hm' Hf Hf'. symmetry. destruct (Z.compare_spec e e') as [<-|Hlt|Hgt].
  - change (Pos.compare_cont Eq m m') with (Z.pos m ?= Z.pos m'). unfold V.
    pose proof (P_pos e ltac:(lia)).
    destruct (Z.compare_spec (Z.pos m) (Z.pos m')) as [->| |]; [apply Z.compare_refl|..].
    + apply Z.compare_lt_iff. nia.
    + apply Z.compare_gt_iff. nia.
  - apply Z.compare_lt_iff, V_exponent; [lia|done|]. apply Hf'. lia.
  - apply Z.compare_gt_iff, V_exponent; [lia|done|]. apply Hf. lia.
Qed.

Lemma f_lt_value x y v w : value x v → value y w → f_lt x y = (v <? w).
Proof.
  intros Hx Hy. unfold f_lt, SFltb. enough (SFcompare x y = Some (v ?= w)) as ->.
  { unfold Z.ltb. by destruct (v ?= w). }
  destruct x as [s|s| |s m e]; try done; destruct y as [s'|s'| |s' m' e']; try done; simpl in Hx, Hy.
  - by subst.
  - destruct Hy as (He' & _ & _ & ->). pose proof (V_pos m' e' He'). subst v.
    unfold SFcompare. f_equal. symmetry. destruct s'; cbn [cond_Zopp];
      [apply Z.compare_gt_iff|apply Z.compare_lt_iff]; lia.
  - destruct Hx as (He & _ & _ & ->). pose proof (V_pos m e He). subst w.
    unfold SFcompare. f_equal. symmetry. destruct s; cbn [cond_Zopp];
      [apply Z.compare_lt_iff|apply Z.compare_gt_iff]; lia.
  - destruct Hx as (He & Hm & Hf & ->), Hy as (He' & Hm' & Hf' & ->).
    pose proof (magnitude_compare m m' e e' He He' Hm Hm' Hf Hf') as Hc.
    pose proof (V_pos m e He). pose proof (V_pos m' e' He').
    unfold SFcompare. f_equal. destruct s, s'; cbn [cond_Zopp].
    + rewrite Z.compare_opp, (Z.compare_antisym (V (Z.pos m) e)), <- Hc. by destruct (e ?= e').
    + symmetry. apply Z.compare_lt_iff. lia.
    + symmetry. apply Z.compare_gt_iff. lia.
    + exact Hc.
Qed.

(** ** Rounding *)

(** The sign does not take part in rounding. *)
Lemma round_sign s m e l :
  binary_round_aux 53 1024 s m e l
  = match round m e l with
    | S754_zero _ => S754_zero s
    | S754_infinity _ => S754_infinity s
    | S754_finite _ p e' => S754_finite s p e'
    | S754_nan => S754_nan
    end.
Proof.
  unfold binary_round_aux. destruct (shr_fexp _ _ m e l) as [r e1]. destruct (shr_fexp _ _ _ e1 _) as [r2 e2].
  destruct (shr_m r2); [done| |done]. by destruct (e2 <=? _).
Qed.

Lemma V_div_low m e n : 0 ≤ m → -1200 ≤ e → 0 ≤ n → V m e < V (m / 2 ^ n + 1) (e + n).
Proof.
  intros. rewrite <- V_shift by done. unfold V. pose proof (P_pos e).
  pose proof (Z.mul_succ_div_gt m (2 ^ n) ltac:(apply Z.pow_pos_nonneg; lia)). nia.
Qed.

Lemma round_near s m e l k :
  0 < m → -1200 ≤ e → e ≤ fexp (Zdigits2 m + e) → -1000 ≤ k ≤ 900 → V m e < P k →
  near (binary_round_aux 53 1024 s m e l) (cond_Zopp s (V m e)) (P (k - 53)).
Proof.
  intros Hm He Hf Hk Hv. rewrite round_sign. pose proof (round_ok m e l Hm Hf) as Hok.
  pose proof (round_upto m e l k ltac:(lia) He Hf Hk Hv) as Hup.
  enough (∀ w, value (round m e l) w → V m e - P (k - 53) ≤ w) as Hlow.
  { destruct (round m e l) as [s'|s'| |[] p e']; try done.
    - exists 0. specialize (Hlow 0 eq_refl). simpl in Hup. split; [done|]. destruct s; simpl; lia.
    - destruct Hok as (H1 & H2 & H3), Hup as [_ Hup]. exists (cond_Zopp s (V (Z.pos p) e')). split; [done|].
      specialize (Hlow (V (Z.pos p) e') (conj H1 (conj H2 (conj H3 eq_refl)))). destruct s; simpl; lia. }
  clear Hok Hup s. intros w. destruct (round_spec m e l ltac:(lia)) as (m2 & Hm2 & ->).
  set (e2 := e + shift m e) in *. set (m1 := m / 2 ^ shift m e) in *.
  pose proof (shift_nonneg m e) as Hs. pose proof (shift_nonneg m2 e2) as Hs2.
  assert (Hm1 : 0 ≤ m1 < 2 ^ 53) by (split; [apply div_pow2_nonneg; lia|apply shifted_small; lia]).
  assert (He2 : e2 = fexp (Zdigits2 m + e)) by (unfold e2, shift; lia).
  assert (Hd : Zdigits2 m + e ≤ k) by (apply V_digits; lia).
  assert (He2k : -1074 ≤ e2 ≤ k - 53) by (rewrite He2, fexp_max; lia).
  assert (Hexact : V (m2 / 2 ^ shift m2 e2) (e2 + shift m2 e2) = V m2 e2).
  { destruct (decide (m2 < 2 ^ 53)) as [Hlt|Hge].
    - assert (shift m2 e2 = 0) as ->; [|by rewrite Z.div_1_r, Z.add_0_r].
      unfold shift. rewrite fexp_max. enough (Zdigits2 m2 ≤ 53) by lia. apply digits_small; lia.
    - assert (m2 = 2 ^ 53) as -> by lia. unfold shift. rewrite fexp_max. change (Zdigits2 (2 ^ 53)) with 54.
      replace (Z.max 0 (Z.max (54 + e2 - 53) (-1074) - e2)) with 1 by lia.
      rewrite <- V_shift by lia. done. }
  assert (Hlow : V m e - P (k - 53) ≤ V m2 e2).
  { pose proof (V_div_low m e (shift m e) ltac:(lia) He Hs) as H0. fold e2 m1 in H0.
    pose proof (P_mono e2 (k - 53) ltac:(lia)). unfold V in *. pose proof (P_pos e2 ltac:(lia)). nia. }
  rewrite <- Hexact in Hlow. destruct (m2 / _) as [|p|p].
  - intros ->. unfold V in Hlow at 2. lia.
  - destruct (_ <=? _); [|done]. by intros (_ & _ & _ & ->).
  - done.
Qed.

Lemma binary_round_near s p e k :
  -1200 ≤ e → -1000 ≤ k ≤ 900 → V (Z.pos p) e < P k →
  near (binary_round 53 1024 s p e) (cond_Zopp s (V (Z.pos p) e)) (P (k - 53)).
Proof.
  intros He Hk Hv. unfold binary_round. set (e' := fexp _). destruct (shl_align p e e') as [mz ez] eqn:Hal.
  apply shl_align_spec in Hal as [Hez Hm].
  assert (Hez' : -1200 ≤ ez) by (unfold e' in Hez; rewrite fexp_max in Hez; lia).
  assert (Heq : V (Z.pos mz) ez = V (Z.pos p) e).
  { rewrite Hm, V_shift by lia. f_equal. lia. }
  rewrite <- Heq in *. apply round_near; [lia|done| |done|done].
  rewrite Hm, digits_shifted by lia. cbn [Zdigits2].
  replace (Z.pos (digits2_pos p) + (e - ez) + ez) with (Z.pos (digits2_pos p) + e) by lia. fold e'. lia.
Qed.

Lemma normalize_near z e szero k :
  -1200 ≤ e → -1000 ≤ k ≤ 900 → Z.abs (V z e) < P k →
  near (binary_normalize 53 1024 z e szero) (V z e) (P (k - 53)).
Proof.
  intros He Hk Hv. pose proof (P_pos (k - 53) ltac:(lia)). pose proof (P_pos e He).
  destruct z as [|p|p]; unfold binary_normalize.
  - exists 0. split; [done|]. unfold V. lia.
  - apply (binary_round_near false); [done|done|]. lia.
  - assert (HV : V (Z.neg p) e = - V (Z.pos p) e) by (unfold V; lia). rewrite HV in *.
    apply (binary_round_near true); [done|done|]. lia.
Qed.

(** ** The operations *)

Lemma f_of_Z_near z k : Z.abs z < 2 ^ k → 0 ≤ k ≤ 900 → near (f_of_Z z) (z * P 0) (P (k - 53)).
Proof.
  intros Hz Hk. apply normalize_near; [lia|lia|]. unfold V. replace k with (0 + k) by lia.
  rewrite P_add by lia. pose proof (P_pos 0 ltac:(lia)). rewrite Z.abs_mul. nia.
Qed.

Lemma aligned s m e e' : -1074 ≤ e' ≤ e →
  V (cond_Zopp s (Z.pos (fst (shl_align m e e')))) e' = cond_Zopp s (V (Z.pos m) e).
Proof.
  intros He. destruct (shl_align m e e') as [a ea] eqn:Ha. apply shl_align_spec in Ha as [-> Ha].
  replace (Z.min e e') with e' in Ha by lia. cbn [fst].
  assert (V (Z.pos a) e' = V (Z.pos m) e) as <- by (rewrite Ha, V_shift by lia; f_equal; lia).
  destruct s; unfold V; simpl; lia.
Qed.

Lemma f_add_near k x y v w :
  -1000 ≤ k ≤ 900 → value x v → value y w → Z.abs (v + w) < P k → near (f_add x y) (v + w) (P (k - 53)).
Proof.
  intros Hk Hx Hy Hlt. pose proof (P_pos (k - 53) ltac:(lia)) as HP.
  destruct x as [s|s| |s mx ex]; try done; destruct y as [s'|s'| |s' my ey]; try done.
  - simpl in *. subst. apply value_near; [lia|]. by destruct s, s'.
  - simpl in Hx. subst v. by apply value_near; [lia|].
  - simpl in Hy. subst w. rewrite Z.add_0_r. by apply value_near; [lia|].
  - destruct Hx as (Hex & _ & _ & ->), Hy as (Hey & _ & _ & ->). unfold f_add, SFadd.
    assert (Hsum : V (cond_Zopp s (Z.pos (fst (shl_align mx ex (Z.min ex ey))))
                      + cond_Zopp s' (Z.pos (fst (shl_align my ey (Z.min ex ey))))) (Z.min ex ey)
                   = cond_Zopp s (V (Z.pos mx) ex) + cond_Zopp s' (V (Z.pos my) ey)).
    { unfold V at 1. rewrite Z.mul_add_distr_r. f_equal; apply aligned; lia. }
    rewrite <- Hsum in *. apply normalize_near; [lia|done|done].
Qed.

Lemma SFopp_value y w : value y w → value (SFopp y) (- w).
Proof.
  destruct y as [s|s| |s m e]; try done; simpl; [lia|]. intros (? & ? & ? & ->). split_and!; [done..|].
  by destruct s; simpl; rewrite ?Z.opp_involutive.
Qed.

Lemma f_sub_opp x y : f_sub x y = f_add x (SFopp y).
Proof.
  destruct x as [[]|[]| |s mx ex], y as [[]|[]| |s' my ey]; try done.
  unfold f_sub, f_add, SFsub, SFadd. simpl SFopp. f_equal. destruct s'; simpl; lia.
Qed.

Lemma f_sub_near k x y v w :
  -1000 ≤ k ≤ 900 → value x v → value y w → Z.abs (v - w) < P k → near (f_sub x y) (v - w) (P (k - 53)).
Proof. intros Hk Hx Hy%SFopp_value Hlt. rewrite f_sub_opp. by apply f_add_near. Qed.

Lemma f_mul_one_near k x v :
  -1000 ≤ k ≤ 900 → value x v → Z.abs v < P k → near (f_mul x one) v (P (k - 53)).
Proof.
  intros Hk Hx Hlt. pose proof (P_pos (k - 53) ltac:(lia)) as HP.
  destruct x as [s|s| |s m e]; try done.
  - simpl in Hx. subst v. by apply value_near; [lia|].
  - destruct Hx as (He & _ & _ & ->). unfold f_mul, SFmul, one. rewrite xorb_false_r, Pos2Z.inj_mul.
    change (Z.pos 4503599627370496) with (2 ^ 52).
    assert (Heq : V (Z.pos m * 2 ^ 52) (e + -52) = V (Z.pos m) e) by (rewrite V_shift by lia; f_equal; lia).
    pose proof (V_pos m e He). rewrite <- Heq in *. apply round_near; [lia|lia| |done|destruct s; simpl in *; lia].
    rewrite digits_shifted by lia. cbn [Zdigits2]. rewrite fexp_max. lia.
Qed.

(** Dividing by [10 ^ 9]. *)
Lemma f_div_second_near k x v :
  -1000 ≤ k ≤ 900 → value x v → v = 0 ∨ P (-1) ≤ Z.abs v → Z.abs v < Second * P k →
  ∃ w, value (f_div x (f_of_Z Second)) w ∧ Z.abs (Second * w - v) ≤ Second * (2 * P (k - 53)).
Proof.
  intros Hk Hx Hv0 Hlt. pose proof (P_pos (k - 53) ltac:(lia)) as HP.
  replace (f_of_Z Second) with (S754_finite false 8388608000000000 (-23)) by (vm_compute; reflexivity).
  destruct x as [s|s| |s m e]; try done.
  { simpl in Hx. subst v. exists 0. split; [done|]. unfold Second. lia. }
  destruct Hx as (He & _ & _ & ->). pose proof (V_pos m e He) as HVpos.
  assert (Habs : Z.abs (cond_Zopp s (V (Z.pos m) e)) = V (Z.pos m) e) by (destruct s; simpl; lia).
  rewrite Habs in *. destruct Hv0 as [Hv0|Hv0]; [destruct s; simpl in Hv0; lia|].
  unfold f_div, SFdiv, SFdiv_core_binary. set (my := 8388608000000000%positive).
  set (d := Zdigits2 (Z.pos m) + e - (Zdigits2 (Z.pos my) + -23)). set (e' := Z.min (fexp d) (e - -23)).
  assert (Hdlow : -1 < Zdigits2 (Z.pos m) + e).
  { destruct (digits_bounds (Z.pos m) ltac:(lia)) as (Hd0 & _ & Hd2).
    destruct (decide (-1 < Zdigits2 (Z.pos m) + e)); [done|]. exfalso.
    assert (P (e + Zdigits2 (Z.pos m)) ≤ P (-1)) by (apply P_mono; lia).
    rewrite P_add in * by lia. unfold V in Hv0. pose proof (P_pos e ltac:(lia)). nia. }
  assert (Hdigits : Zdigits2 (Z.pos m) + e ≤ k + 30).
  { apply V_digits; [lia|lia|]. rewrite P_add by lia. pose proof (P_pos k ltac:(lia)). unfold Second in *. lia. }
  assert (Hdd : d = Zdigits2 (Z.pos m) + e - 30) by (unfold d; change (Zdigits2 (Z.pos my)) with 53; lia).
  assert (Hfd : fexp d = d - 53) by (rewrite fexp_max; lia).
  assert (He' : -1074 ≤ e' ≤ k - 53 ∧ e' ≤ d - 53 ∧ e' ≤ e + 23) by (unfold e'; rewrite Hfd; lia).
  set (m' := match e - -23 - e' with Z0 => _ | Zpos _ => _ | Zneg _ => _ end).
  assert (Hm' : m' = Z.pos m * 2 ^ (e + 23 - e')).
  { unfold m'. replace (e + 23 - e') with (e - -23 - e') by lia. case_match; [lia|by rewrite Z.shiftl_mul_pow2 by lia|lia]. }
  pose proof (Z_div_mod m' (Z.pos my) ltac:(lia)) as Hdm. destruct (Z.div_eucl m' (Z.pos my)) as [q r].
  destruct Hdm as [Hdm Hr]. rewrite xorb_false_r.
  assert (Hm0 : 0 < m') by (rewrite Hm'; apply Z.mul_pos_pos; [lia|apply Z.pow_pos_nonneg; lia]).
  assert (Hq : 0 ≤ q) by nia.
  assert (Hqd : d - e' ≤ Zdigits2 q).
  { pose proof (digits_quotient m' (Z.pos my) q r Hm0 ltac:(lia) Hq Hdm ltac:(lia)) as Hdq.
    assert (Hdm' : Zdigits2 m' = Zdigits2 (Z.pos m) + (e + 23 - e')) by (rewrite Hm'; apply digits_shifted; lia).
    rewrite Hdm' in Hdq. change (Zdigits2 (Z.pos my)) with 53 in Hdq. lia. }
  assert (Hq0 : 0 < q) by (destruct q; simpl in Hqd; lia).
  assert (Hvq : Second * V q e' ≤ V (Z.pos m) e < Second * V q e' + Second * P e').
  { assert (Hv1 : V m' e' = V (Z.pos m) (e + 23)) by (rewrite Hm', V_shift by lia; f_equal; lia).
    assert (Hv2 : V (Z.pos m) (e + 23) = 2 ^ 23 * V (Z.pos m) e) by (unfold V; rewrite P_add by lia; lia).
    rewrite Hv2 in Hv1. clear Hv2. change (Z.pos my) with (2 ^ 23 * Second) in Hdm, Hr. revert Hv1.
    generalize (V (Z.pos m) e). intros vm Hv1. unfold V in *. pose proof (P_pos e' ltac:(lia)).
    unfold Second in *. nia. }
  assert (HPe : P e' ≤ P (k - 53)) by (apply P_mono; lia).
  destruct (round_near s q e' (new_location (Z.pos my) r) k) as (w & Hw & Hb); [done|lia| |done| |].
  - rewrite fexp_max. lia.
  - unfold Second in *. lia.
  - exists w. split; [done|]. clear -Hb Hvq HPe HP. unfold Second in *. destruct s; cbn [cond_Zopp] in *; lia.
Qed.

(** ** Durations *)

Lemma P_double k : -1200 ≤ k → P (k + 1) = 2 * P k.
Proof. intros. by rewrite P_add by lia. Qed.

(** Seconds of a duration below [2 ^ k] seconds, either way. *)
Lemma Seconds_near d k :
  2 ≤ k ≤ 40 → Z.abs d < Second * 2 ^ k →
  ∃ w, value (Seconds d) w ∧ Z.abs (Second * w - d * P 0) ≤ Second * (3 * P (k - 52)).
Proof.
  intros Hk Hd. unfold Seconds. set (q := Z.quot d Second). set (r := Z.rem d Second).
  assert (Hdqr : d = Second * q + r) by apply Z.quot_rem'.
  assert (Hr : Z.abs r < Second) by (pose proof (Z.rem_bound_abs d Second ltac:(done)); unfold Second in *; lia).
  assert (Hq : Z.abs q < 2 ^ k).
  { assert (Z.abs q * Second ≤ Z.abs d); [|unfold Second in *; lia].
    pose proof (Z.quot_abs d Second ltac:(done)) as Hqa. fold q in Hqa. change (Z.abs Second) with Second in Hqa.
    rewrite <- Hqa, Z.mul_comm. apply Z.mul_quot_le; unfold Second; lia. }
  destruct (f_of_Z_near q k Hq ltac:(lia)) as (vq & Hvq & Hbq).
  destruct (f_of_Z_near r 30 ltac:(unfold Second in *; lia) ltac:(lia)) as (vr & Hvr & Hbr).
  change (30 - 53) with (-23) in Hbr.
  assert (HP0 : P (-1) + P (-23) ≤ P 0 ∧ 0 < P (-23) ∧ P (-23) ≤ Second * P (-52) ∧ 4 * P (-52) ≤ P (k - 52)
                ∧ P (k - 52) = 2 * P (k - 53) ∧ 0 < P (k - 53) ∧ P k = 2 ^ k * P 0 ∧ P 1 = 2 * P 0
                ∧ P (k - 52) ≤ P 0).
  { split_and!.
    - rewrite (P_base 0), (P_base (-1)), (P_base (-23)) by lia. pose proof (P_pos (-60) ltac:(lia)). lia.
    - apply P_pos. lia.
    - rewrite (P_base (-23)), (P_base (-52)) by lia. pose proof (P_pos (-60) ltac:(lia)). unfold Second. lia.
    - pose proof (P_mono (-50) (k - 52) ltac:(lia)). rewrite (P_base (-50)), (P_base (-52)) in * by lia. lia.
    - rewrite <- P_double by lia. f_equal. lia.
    - apply P_pos. lia.
    - rewrite <- P_add by lia. done.
    - rewrite <- P_double by lia. done.
    - apply P_mono. lia. }
  destruct HP0 as (H1 & H2 & H3 & H4 & H5 & H6 & H7 & H8 & H9).
  destruct (f_div_second_near 1 (f_of_Z r) vr) as (w1 & Hw1 & Hb1); [lia|done| | |].
  - destruct (decide (r = 0)) as [Hr0|Hr0].
    + left. eapply value_det; [exact Hvr|]. rewrite Hr0. done.
    + right. pose proof (P_pos 0 ltac:(lia)). nia.
  - rewrite H8. pose proof (P_pos 0 ltac:(lia)). unfold Second in *. nia.
  - change (1 - 53) with (-52) in Hb1.
    assert (Hdist : Z.abs (Second * (vq + w1) - d * P 0) ≤ Second * P (k - 53) + Second * (3 * P (-52))).
    { rewrite Hdqr. pose proof (P_pos 0 ltac:(lia)). unfold Second in *. lia. }
    destruct (f_add_near (k + 1) (f_of_Z q) (f_div (f_of_Z r) (f_of_Z Second)) vq w1) as (w & Hw & Hb); [lia|done|done| |].
    + rewrite P_double, H7 by lia. pose proof (P_pos 0 ltac:(lia)).
      assert (Hdk : Z.abs (d * P 0) ≤ Second * (2 ^ k * P 0)) by (rewrite Z.abs_mul; nia).
      assert (4 ≤ 2 ^ k) by (change 4 with (2 ^ 2); apply Z.pow_le_mono_r; lia).
      assert (4 * P 0 ≤ 2 ^ k * P 0) by nia.
      unfold Second in *. lia.
    + exists w. split; [done|]. replace (k + 1 - 53) with (k - 52) in Hb by lia. unfold Second in *. lia.
Qed.

(** What flows into a bucket of one token per second. *)
Lemma inflow_near d k :
  2 ≤ k ≤ 40 → Z.abs d < Second * 2 ^ k →
  ∃ w, value (f_mul (Seconds d) one) w ∧ Z.abs (Second * w - d * P 0) ≤ Second * (4 * P (k - 52)).
Proof.
  intros Hk Hd. destruct (Seconds_near d k Hk Hd) as (v & Hv & Hb).
  assert (HP : P (k + 1) = 2 * (2 ^ k * P 0) ∧ P (k - 52) ≤ P 0 ∧ 0 < P (k - 52)).
  { split_and!; [rewrite P_double by lia; f_equal; rewrite <- P_add by lia; done|apply P_mono; lia|apply P_pos; lia]. }
  destruct HP as (H1 & H2 & H3). pose proof (P_pos 0 ltac:(lia)).
  assert (Hdk : Z.abs (d * P 0) ≤ Second * (2 ^ k * P 0)) by (rewrite Z.abs_mul; nia).
  assert (4 * P 0 ≤ 2 ^ k * P 0).
  { assert (4 ≤ 2 ^ k) by (change 4 with (2 ^ 2); apply Z.pow_le_mono_r; lia). nia. }
  destruct (f_mul_one_near (k + 1) (Seconds d) v) as (w & Hw & Hbw); [lia|done| |].
  - rewrite H1. unfold Second in *. lia.
  - exists w. split; [done|]. replace (k + 1 - 53) with (k - 52) in Hbw by lia. unfold Second in *. lia.
Qed.
