(* ===== verification/RateProps.v ===== *)
(** The sweeper of the rate limiter cannot be observed. *)

From S2P Require Import Prelude AesGcm GoLib Net RateLimit Float.
From Stdlib Require Import SpecFloat.

(** ** Refilling, for the limiter that serve installs *)

Definition serve_like (l : Limiter) : Prop := rate l = 60 ∧ window l = Minute.

(** One token per second. *)
Lemma serve_speed l : serve_like l → f_div (f_of_Z (rate l)) (Seconds (window l)) = one.
Proof. intros [-> ->]. vm_compute. reflexivity. Qed.

Lemma capacity_ok : ok (f_of_Z 60).
Proof. apply f_of_Z_facts. lia. Qed.

(** What flows in since the last check. *)
Lemma inflow_facts now last :
  last ≤ now →
  ok (f_mul (Seconds (Sub now last)) one)
  ∧ (2 * Minute ≤ now - last → ge 120 (f_mul (Seconds (Sub now last)) one)).
Proof.
  intros Hle. assert (Hs : 0 ≤ Sub now last) by (unfold Sub, min_int64, max_int64; lia).
  destruct (Seconds_facts _ Hs) as [Hnn Hge]. destruct (f_mul_one _ Hnn) as [Hok Hmul].
  split; [done|]. intros Hidle. apply Hmul; [lia|]. apply Hge; [lia|].
  unfold Sub, min_int64, max_int64, Minute, Second in *. lia.
Qed.

Lemma refill_ok l now b : serve_like l → ok (tokens b) → lastCheck b ≤ now → ok (refill l now b).
Proof.
  intros Hl Hb Hle. unfold refill. rewrite serve_speed by done. destruct Hl as [-> _].
  destruct (f_lt _ _); [apply capacity_ok|]. apply f_add_ok; [done|]. by apply inflow_facts.
Qed.

(** A value of at least 120 is above the capacity. *)
Lemma ge_above x : ok x → ge 120 x → f_lt (f_of_Z 60) x = true.
Proof.
  intros Hok Hge.
  replace (f_of_Z 60) with (S754_finite false 8444249301319680 (-47)) by (vm_compute; reflexivity).
  destruct x as [s|[]| |[] m e]; try done. destruct Hok as (_ & Hm & _). simpl in Hge.
  assert (He : -47 < e).
  { destruct (decide (-47 < e)); [done|]. unfold le_val in Hge. rewrite decide_False in Hge by lia.
    assert (2 ^ 47 ≤ 2 ^ (- e)) by (apply Z.pow_le_mono_r; lia). lia. }
  unfold f_lt, SFltb, SFcompare. by rewrite (proj2 (Z.compare_lt_iff (-47) e)).
Qed.

(** A bucket that has been idle for two windows is full again. *)
Lemma refill_idle l now b :
  serve_like l → ok (tokens b) → lastCheck b + 2 * Minute ≤ now → refill l now b = f_of_Z 60.
Proof.
  intros Hl Hb Hidle. unfold refill. rewrite serve_speed by done. destruct Hl as [-> _].
  destruct (inflow_facts now (lastCheck b)) as [Hok Hge]; [unfold Minute, Second in *; lia|].
  rewrite ge_above; [done|by apply f_add_ok|]. apply f_add_ge; [lia|by apply ok_nn|]. apply Hge. lia.
Qed.

Lemma refill_fresh l now : serve_like l → refill l now (mk_bucket (f_of_Z 60) now) = f_of_Z 60.
Proof.
  intros Hl. rewrite refill_now. unfold refill. rewrite serve_speed by done. destruct Hl as [-> _].
  vm_compute. reflexivity.
Qed.

(** ** With and without the sweeper *)

(** A bucket of the swept limiter, and the same key's without sweeping, at
    time [now]. *)
Definition bucket_rel (now : Z) (b b' : option bucket) : Prop :=
  match b, b' with
  | None, None => True
  | Some b, Some b' => b = b' ∧ ok (tokens b) ∧ lastCheck b ≤ now
  | None, Some b' => ok (tokens b') ∧ lastCheck b' + 2 * Minute ≤ now
  | Some _, None => False
  end.

Definition sim (now : Z) (l l' : Limiter) : Prop :=
  serve_like l ∧ serve_like l' ∧ ∀ k, bucket_rel now (buckets l !! k) (buckets l' !! k).

Lemma bucket_rel_later now t b b' : now ≤ t → bucket_rel now b b' → bucket_rel t b b'.
Proof. intros Ht. destruct b, b'; simpl; intuition lia. Qed.

(** The tokens that a request finds, and what Allow leaves. *)
Definition found (l : Limiter) (key : string) (now : Z) : float64 :=
  refill l now (match buckets l !! key with Some b => b | None => mk_bucket (f_of_Z (rate l)) now end).

Lemma Allow_found key now l :
  Allow key now l
  = (negb (f_lt (found l key now) one),
     set_bucket l key (mk_bucket (if f_lt (found l key now) one then found l key now
                                  else f_sub (found l key now) one) now)).
Proof.
  unfold Allow, found. change (f_of_Z 1) with one. by destruct (f_lt _ one).
Qed.

Lemma found_rel now t l l' key :
  now ≤ t → sim now l l' → found l key t = found l' key t ∧ ok (found l key t).
Proof.
  intros Ht (Hl & Hl' & Hb). specialize (Hb key). unfold found.
  pose proof Hl as [-> _]. pose proof Hl' as [-> _].
  assert (Hfresh : ∀ l, serve_like l → refill l t (mk_bucket (f_of_Z 60) t) = f_of_Z 60)
    by (intros; by apply refill_fresh).
  destruct (buckets l !! key) as [b|], (buckets l' !! key) as [b'|]; try done; simpl in Hb.
  - destruct Hb as (-> & Hok & Hlast). split; [|apply refill_ok; [done|done|lia]].
    unfold refill. rewrite !serve_speed by done. by destruct Hl as [-> _], Hl' as [-> _].
  - destruct Hb as [Hok Hidle]. rewrite Hfresh by done. rewrite refill_idle by (done || lia).
    split; [done|apply capacity_ok].
  - rewrite !Hfresh by done. split; [done|apply capacity_ok].
Qed.

Lemma Allow_sim now t l l' key :
  now ≤ t → sim now l l' →
  (Allow key t l).1 = (Allow key t l').1 ∧ sim t (Allow key t l).2 (Allow key t l').2.
Proof.
  intros Ht Hs. destruct (found_rel now t l l' key Ht Hs) as [Hf Hok]. rewrite !Allow_found, <- Hf.
  split; [done|]. destruct Hs as (Hl & Hl' & Hb). split_and!; [done|done|]. intros k. simpl.
  destruct (decide (k = key)) as [->|Hk].
  - rewrite !lookup_insert_eq. simpl. split_and!; [done| |lia].
    destruct (f_lt (found l key t) one) eqn:Hlt; [done|]. by apply f_sub_one.
  - rewrite !lookup_insert_ne by done. eapply bucket_rel_later; [exact Ht|apply Hb].
Qed.

Lemma gc_sweep_sim now t l l' : now ≤ t → sim now l l' → sim t (gc_sweep t l) l'.
Proof.
  intros Ht (Hl & Hl' & Hb). unfold gc_sweep. destruct (stopped l).
  { split_and!; [done|done|]. intros k. by eapply bucket_rel_later. }
  split_and!; [done|done|]. intros k. simpl. rewrite map_lookup_filter. specialize (Hb k).
  pose proof Hl as [_ ->].
  destruct (buckets l !! k) as [b|]; cbn [mbind option_bind]; [|exact (bucket_rel_later now t None _ Ht Hb)].
  destruct (buckets l' !! k) as [b'|]; [|done]. destruct Hb as (<- & Hok & Hlast).
  case_guard as Hg; simpl in *; [split_and!; [done|done|lia]|]. split; [done|]. lia.
Qed.

(** The times of the calls do not decrease. *)
Fixpoint chronological (now : Z) (calls : list limiter_call) : Prop :=
  match calls with
  | [] => True
  | AllowCall _ t :: rest | SweepCall t :: rest => now ≤ t ∧ chronological t rest
  end.

Definition is_request (c : limiter_call) : Prop := match c with AllowCall _ _ => True | SweepCall _ => False end.
#[global] Instance is_request_dec c : Decision (is_request c).
Proof. destruct c; apply _. Defined.

Lemma run_calls_sim now calls l l' :
  chronological now calls → sim now l l' → run_calls calls l = run_calls (filter is_request calls) l'.
Proof.
  revert now l l'. induction calls as [|[k t|t] calls IH]; intros now l l' Hc Hs; [done|..];
    destruct Hc as [Ht Hc]; rewrite filter_cons.
  - rewrite decide_True by done. cbn [run_calls]. destruct (Allow_sim now t l l' k Ht Hs) as [Hb Hs'].
    destruct (Allow k t l) as [b l1], (Allow k t l') as [b' l1']. simpl in Hb, Hs'. subst b'. f_equal. by eapply IH.
  - rewrite decide_False by (by simpl; auto). cbn [run_calls]. eapply IH; [done|]. by eapply gc_sweep_sim.
Qed.

(** Evicting idle buckets is invisible: for every sequence of requests, of
    any keys, with sweeps anywhere in between, at times that do not go
    backwards, the limiter that serve installs decides each request as a
    limiter that never forgets a bucket would, float64 rounding included. *)
Theorem sweeper_invisible now calls :
  chronological now calls →
  run_calls calls serve_limiter = run_calls (filter is_request calls) serve_limiter.
Proof.
  intros Hc. apply (run_calls_sim now); [done|]. split_and!; [done|done|]. intros k. simpl. by rewrite lookup_empty.
Qed.

(** 61 requests, of which the last is refused; two minutes and a sweep later
    the key is served again. *)
Definition sweep_demo : list limiter_call :=
  replicate 61 (AllowCall "user:1" 5) ++ [SweepCall (121 * Second); AllowCall "user:1" (122 * Second)].

Lemma sweeper_invisible_witness :
  run_calls sweep_demo serve_limiter = run_calls (filter is_request sweep_demo) serve_limiter
  ∧ (run_calls sweep_demo serve_limiter) !! 60%nat = Some ("user:1", false)
  ∧ (run_calls sweep_demo serve_limiter) !! 61%nat = Some ("user:1", true).
Proof.
  split; [|split; vm_compute; reflexivity].
  apply (sweeper_invisible 5). vm_compute. repeat split; discriminate.
Defined.
