(* ===== verification/RateBound.v ===== *)
(** How many requests of a key the limiter lets through in a span of time,
    and when it lets one through for certain; float64 rounding included. *)

From Stdlib Require Import SpecFloat.
From S2P Require Import Prelude AesGcm GoLib Net RateLimit Float FloatUp RateProps.

(** ** The level of a bucket *)

(** A token, in units of [10 ^ -9 * 2 ^ -1200], in which a nanosecond adds
    [P 0]; and the error of one call. *)
Definition token : Z := Second * P 0.
Definition slack : Z := Second * (8 * P (-45)).

Lemma cap_datum : f_of_Z 60 = S754_finite false 8444249301319680 (-47).
Proof. vm_compute. reflexivity. Qed.

Lemma P_0 : P 0 = 2 ^ 47 * P (-47).
Proof. rewrite <- P_add by lia. done. Qed.

(** The comparison with the capacity is exact. *)
Lemma below_cap x : ok x → f_lt (f_of_Z 60) x = false → upto (60 * P 0) x.
Proof.
  rewrite cap_datum, P_0. pose proof (P_pos (-47) ltac:(lia)).
  destruct x as [s|[]| |[] m e]; try done. intros (He & Hm & _) Hlt. split; [done|]. unfold V.
  unfold f_lt, SFltb, SFcompare in Hlt. destruct (Z.compare_spec (-47) e) as [<-|Hc|Hc]; [|done|].
  - change (Pos.compare_cont Eq 8444249301319680 m) with (60 * 2 ^ 47 ?= Z.pos m) in Hlt.
    assert (Z.pos m ≤ 60 * 2 ^ 47) by (destruct (Z.compare_spec (60 * 2 ^ 47) (Z.pos m)) as [Hc|Hc|Hc]; [lia|discriminate|lia]).
    nia.
  - pose proof (P_mono (e + 1) (-47) ltac:(lia)). rewrite P_add in * by lia. pose proof (P_pos e). nia.
Qed.

Lemma above_cap u x : ok x → f_lt (f_of_Z 60) x = true → upto u x → 60 * P 0 ≤ u.
Proof.
  rewrite cap_datum, P_0. pose proof (P_pos (-47) ltac:(lia)).
  destruct x as [s|[]| |[] m e]; try done. intros (He & Hm & Hfull) Hlt [_ Hu]. unfold V in Hu.
  unfold f_lt, SFltb, SFcompare in Hlt. destruct (Z.compare_spec (-47) e) as [<-|Hc|Hc]; [|..|done].
  - change (Pos.compare_cont Eq 8444249301319680 m) with (60 * 2 ^ 47 ?= Z.pos m) in Hlt.
    assert (60 * 2 ^ 47 ≤ Z.pos m) by (destruct (Z.compare_spec (60 * 2 ^ 47) (Z.pos m)) as [Hc|Hc|Hc]; [discriminate|lia|discriminate]).
    nia.
  - pose proof (P_mono (-47 + 1) e ltac:(lia)). rewrite (P_add (-47) 1) in * by lia. specialize (Hfull ltac:(lia)). nia.
Qed.

(** The sum is cut at the capacity. *)
Lemma refill_capped l now b :
  serve_like l → ok (tokens b) → lastCheck b ≤ now → upto (60 * P 0) (refill l now b).
Proof.
  intros Hl Hb Hle. unfold refill. rewrite serve_speed by done. destruct Hl as [-> _].
  destruct (f_lt (f_of_Z 60) _) eqn:Hlt.
  - rewrite cap_datum. split; [lia|]. unfold V. rewrite P_0. lia.
  - apply below_cap; [|done]. apply f_add_ok; [done|]. by apply inflow_facts.
Qed.

(** Refilling adds at most the time since the last check, and the error. *)
Lemma refill_upto l now b v :
  serve_like l → ok (tokens b) → upto v (tokens b) → v ≤ 60 * P 0 → lastCheck b ≤ now →
  ∃ w, upto w (refill l now b) ∧ w ≤ 60 * P 0
    ∧ Second * w ≤ Second * v + (now - lastCheck b) * P 0 + Second * (7 * P (-45)).
Proof.
  intros Hl Hb Hv Hcap Hle. pose proof (refill_capped l now b Hl Hb Hle) as Hrc. pose proof (upto_nonneg _ _ Hv).
  pose proof (P_pos (-45) ltac:(lia)). pose proof (P_pos 0 ltac:(lia)).
  destruct (decide (now - lastCheck b ≤ Minute)) as [Hshort|Hlong].
  2: { exists (60 * P 0). split_and!; [done|done|]. unfold Minute, Second in *. nia. }
  assert (Hsub : Sub now (lastCheck b) = now - lastCheck b)
    by (unfold Sub, min_int64, max_int64, Minute, Second in *; lia).
  revert Hrc. unfold refill. rewrite serve_speed by done. destruct Hl as [-> _]. rewrite Hsub.
  destruct (Seconds_upto (now - lastCheck b) ltac:(lia)) as (w1 & Hw1 & Hb1).
  assert (Hmin : (now - lastCheck b) * P 0 ≤ Minute * P 0) by (apply Z.mul_le_mono_nonneg_r; lia).
  set (gain := (now - lastCheck b) * P 0) in *. clearbody gain.
  set (inflow := f_mul _ one). assert (Hok : ok (f_add (tokens b) inflow)).
  { apply f_add_ok; [done|]. unfold inflow. rewrite <- Hsub. by apply inflow_facts. }
  assert (Hin : upto (w1 + P (-46)) inflow).
  { apply (f_mul_one_upto w1 7); [lia| |done]. unfold Minute, Second in *. in_base. lia. }
  assert (Hsum : upto (v + (w1 + P (-46)) + P (-46)) (f_add (tokens b) inflow)).
  { apply (f_add_upto v _ 7); [lia| |done|done]. unfold Minute, Second in *. in_base. lia. }
  assert (Hfinal : Second * (v + (w1 + P (-46)) + P (-46)) ≤ Second * v + gain + Second * (7 * P (-45)))
    by (unfold Minute, Second in *; in_base; lia).
  destruct (f_lt (f_of_Z 60) _) eqn:Hlt; intros Hrc.
  - exists (60 * P 0). split_and!; [done|done|]. pose proof (above_cap _ _ Hok Hlt Hsum). unfold Second in *. lia.
  - destruct (decide (v + (w1 + P (-46)) + P (-46) ≤ 60 * P 0)); [eexists; split_and!; [exact Hsum|done|done]|].
    exists (60 * P 0). split_and!; [done|done|]. unfold Second in *. lia.
Qed.

(** At time [t] the tokens of [key] are at most [lv]; what has accrued since
    the last check counts. *)
Definition level (l : Limiter) (key : string) (t lv : Z) : Prop :=
  match buckets l !! key with
  | None => 60 * token ≤ lv
  | Some b =>
      ok (tokens b) ∧ lastCheck b ≤ t
      ∧ (60 * token ≤ lv
         ∨ ∃ v, upto v (tokens b) ∧ v ≤ 60 * P 0 ∧ Second * v + (t - lastCheck b) * P 0 ≤ lv)
  end.

Lemma level_nonneg l key t lv : level l key t lv → 0 ≤ lv.
Proof.
  unfold level, token. pose proof (P_pos 0 ltac:(lia)). destruct (buckets l !! key) as [b|]; [|unfold Second; lia].
  intros (_ & Hle & [Hc|(v & Hv & _ & Hs)]); [unfold Second in *; lia|]. apply upto_nonneg in Hv. unfold Second in *. nia.
Qed.

Lemma level_later l key t t' lv : t ≤ t' → level l key t lv → level l key t' (lv + (t' - t) * P 0).
Proof.
  intros Ht. assert (0 ≤ (t' - t) * P 0) by (pose proof (P_pos 0 ltac:(lia)); nia).
  unfold level. destruct (buckets l !! key) as [b|]; [|lia]. intros (Hok & Hle & Hlv).
  split_and!; [done|lia|]. destruct Hlv as [Hc|(v & Hv & Hcap & Hs)]; [left; lia|]. right. exists v.
  split_and!; [done|done|]. lia.
Qed.

(** The tokens a request finds. *)
Lemma found_upto l key t lv :
  serve_like l → level l key t lv →
  ok (found l key t) ∧ ∃ w, upto w (found l key t) ∧ w ≤ 60 * P 0 ∧ Second * w ≤ lv + Second * (7 * P (-45)).
Proof.
  intros Hl. unfold level, found, token. pose proof (P_pos (-45) ltac:(lia)).
  destruct (buckets l !! key) as [b|].
  - intros (Hok & Hle & Hlv). split; [by apply refill_ok|]. destruct Hlv as [Hc|(v & Hv & Hcap & Hs)].
    + exists (60 * P 0). split_and!; [by apply refill_capped|done|unfold Second in *; lia].
    + destruct (refill_upto l t b v) as (w & Hw & Hwc & Hws); [done..|]. exists w. split_and!; [done|done|lia].
  - intros Hc. pose proof Hl as [-> _]. rewrite refill_fresh by done. split; [apply capacity_ok|].
    exists (60 * P 0). split_and!; [|done|unfold Second in *; lia].
    rewrite cap_datum. split; [lia|]. unfold V. rewrite P_0. lia.
Qed.

(** A request that is let through takes a token away. *)
Lemma Allow_level l key t lv :
  serve_like l → level l key t lv →
  level (Allow key t l).2 key t (lv + slack - if (Allow key t l).1 then token else 0).
Proof.
  intros Hl Hlv. destruct (found_upto l key t lv Hl Hlv) as (Hok & w & Hw & Hcap & Hs).
  rewrite Allow_found. cbn [fst snd]. unfold level. simpl. rewrite lookup_insert_eq. cbn [tokens lastCheck].
  pose proof (P_pos (-45) ltac:(lia)). pose proof (P_pos 0 ltac:(lia)). unfold slack, token.
  destruct (f_lt (found l key t) one) eqn:Hlt; cbn [negb].
  - split_and!; [done|done|]. right. exists w. split_and!; [done|done|unfold Second in *; lia].
  - split_and!; [by apply f_sub_one|done|]. right. exists (w - P 0 + P (-46)). split_and!.
    + apply (f_sub_one_upto w 7); [lia| |done|done|done]. in_base. lia.
    + in_base. lia.
    + unfold Second in *. in_base. lia.
Qed.

Lemma Allow_level_other l key k t lv : k ≠ key → level l key t lv → level (Allow k t l).2 key t lv.
Proof. intros Hk. unfold level. by rewrite Allow_other. Qed.

(** ** Spans of time *)

(** How many requests of [key] were let through. *)
Definition allowed (key : string) (out : list (string * bool)) : Z :=
  Z.of_nat (length (filter (λ kb, kb = (key, true)) out)).

Definition call_time (c : limiter_call) : Z := match c with AllowCall _ t | SweepCall t => t end.

Lemma allowed_cons key k b out :
  allowed key ((k, b) :: out) = (if decide (k = key) then if b then 1 else 0 else 0) + allowed key out.
Proof.
  unfold allowed. rewrite filter_cons. repeat case_decide; destruct b; simplify_eq; simpl; try lia; try done.
Qed.

Lemma requests_bound key calls l t lv last :
  serve_like l → Forall is_request calls → chronological t calls → Forall (λ c, call_time c ≤ last) calls →
  t ≤ last → level l key t lv →
  allowed key (run_calls calls l) * token ≤ lv + (last - t) * P 0 + Z.of_nat (length calls) * slack.
Proof.
  pose proof (P_pos 0 ltac:(lia)) as HP. pose proof (P_pos (-45) ltac:(lia)).
  assert (0 ≤ slack) by (unfold slack, Second; lia).
  revert l t lv. induction calls as [|[k t'|t'] calls IH]; intros l t lv Hl Hreq Hchr Hlast Ht Hlv.
  - apply level_nonneg in Hlv. unfold allowed. simpl. nia.
  - apply Forall_cons in Hreq as [_ Hreq]. apply Forall_cons in Hlast as [Hlast1 Hlast]. simpl in Hlast1.
    destruct Hchr as [Htt Hchr]. apply (level_later _ _ _ t') in Hlv; [|done].
    cbn [run_calls]. destruct (Allow k t' l) as [b l1] eqn:Ha.
    assert (Hl1 : serve_like l1).
    { pose proof (Allow_rate k t' l) as [Hr Hw]. rewrite Ha in Hr, Hw. destruct Hl. split; simpl in *; congruence. }
    rewrite allowed_cons. change (length (AllowCall k t' :: calls)) with (S (length calls)).
    case_decide as Hk.
    + subst k. apply Allow_level in Hlv; [|done]. rewrite Ha in Hlv. simpl in Hlv.
      specialize (IH l1 t' _ Hl1 Hreq Hchr Hlast Hlast1 Hlv). destruct b; lia.
    + apply (Allow_level_other _ _ k) in Hlv; [|done]. rewrite Ha in Hlv. simpl in Hlv.
      specialize (IH l1 t' _ Hl1 Hreq Hchr Hlast Hlast1 Hlv). lia.
  - by apply Forall_cons in Hreq as [[] _].
Qed.

(** The limiter after some calls. *)
Fixpoint after (calls : list limiter_call) (l : Limiter) : Limiter :=
  match calls with
  | [] => l
  | AllowCall key t :: rest => after rest (Allow key t l).2
  | SweepCall t :: rest => after rest (gc_sweep t l)
  end.

Lemma after_sim now before calls l l' :
  chronological now (before ++ calls) → sim now l l' →
  ∃ t1 l1', sim t1 (after before l) l1' ∧ chronological t1 calls.
Proof.
  revert now l l'. induction before as [|[k t|t] before IH]; intros now l l'; [by eauto|..];
    intros [Ht Hc] Hs; (eapply IH; [exact Hc|]).
  - by apply (Allow_sim now t l l' k Ht Hs).
  - by eapply gc_sweep_sim.
Qed.

Lemma serve_sim now : sim now serve_limiter serve_limiter.
Proof. split_and!; [done|done|]. intros k. simpl. by rewrite lookup_empty. Qed.

(** Any state that is not ahead of time holds at most 60 tokens per key. *)
Lemma sim_level t t' l l' key : t ≤ t' → sim t l l' → level l' key t' (60 * token).
Proof.
  intros Ht (_ & _ & Hb). specialize (Hb key). unfold level.
  destruct (buckets l' !! key) as [b'|]; [|done]. destruct (buckets l !! key) as [b|]; simpl in Hb.
  - destruct Hb as (-> & Hok & Hle). split_and!; [done|lia|]. by left.
  - destruct Hb as [Hok Hle]. unfold Minute, Second in *. split_and!; [done|lia|]. by left.
Qed.

Lemma chronological_from now t0 calls :
  chronological now calls → Forall (λ c, t0 ≤ call_time c) calls → chronological (Z.max t0 now) calls.
Proof.
  destruct calls as [|[k t|t] calls]; [done|..]; intros [Ht Hc] [H0 _]%Forall_cons; simpl in *; (split; [lia|done]).
Qed.

Lemma chronological_requests now calls : chronological now calls → chronological now (filter is_request calls).
Proof.
  revert now. induction calls as [|[k t|t] calls IH]; intros now; [done|..]; intros [Ht Hc]; rewrite filter_cons.
  - rewrite decide_True by done. split; [done|by apply IH].
  - rewrite decide_False by (by intros []). specialize (IH _ Hc).
    destruct (filter is_request calls) as [|[k' t'|t'] rest]; [done|..]; destruct IH as [Ht' ?]; split; (lia || done).
Qed.

(** The limiter keeps its rate: in any span of [d] nanoseconds, after any
    history, with sweeps anywhere and at times that do not go backwards, a key
    gets fewer than 61 + d / (1 s) requests through, that is at most 60 and
    one more per second, however many it sends (up to 2 ^ 40 in the span) and
    in spite of float64 rounding in every call. *)
Theorem rate_bound now before calls key t0 d :
  chronological now (before ++ calls) → Forall (λ c, t0 ≤ call_time c ≤ t0 + d) calls →
  0 ≤ d → Z.of_nat (length calls) ≤ 2 ^ 40 →
  Second * (allowed key (run_calls calls (after before serve_limiter)) - 60) < d + Second.
Proof.
  intros Hchr Hspan Hd Hn. destruct (after_sim now before calls _ _ Hchr (serve_sim now)) as (t1 & l' & Hs & Hc).
  rewrite (run_calls_sim t1 calls _ l') by done.
  assert (Hspan' : Forall (λ c, t0 ≤ call_time c) calls ∧ Forall (λ c, call_time c ≤ t0 + d) calls)
    by by rewrite <- Forall_and.
  destruct Hspan' as [Hfrom Hto]. destruct calls as [|c calls].
  { unfold allowed, Second. simpl. lia. }
  assert (Hfirst : t1 ≤ t0 + d).
  { apply Forall_cons in Hto as [Hto _]. destruct c; destruct Hc; simpl in *; lia. }
  set (cs := c :: calls) in *.
  assert (Hlen : Z.of_nat (length (filter is_request cs)) ≤ 2 ^ 40)
    by (pose proof (length_filter is_request cs); lia).
  opose proof (requests_bound key (filter is_request cs) l' (Z.max t0 t1) (60 * token) (t0 + d)
                  (proj1 (proj2 Hs)) _ _ _ _ _) as Hb.
  - apply Forall_forall. by intros ? [? _]%list_elem_of_filter.
  - by apply chronological_requests, chronological_from.
  - apply Forall_forall. intros x [_ Hx]%list_elem_of_filter. by eapply (proj1 (Forall_forall _ _) Hto).
  - lia.
  - eapply sim_level; [|exact Hs]. lia.
  - revert Hb Hlen. generalize (allowed key (run_calls (filter is_request cs) l')) (Z.of_nat (length (filter is_request cs))).
    intros a n Hb Hlen. assert (n * slack ≤ 2 ^ 40 * slack) by (apply Z.mul_le_mono_nonneg_r; [|done];
      pose proof (P_pos (-45) ltac:(lia)); unfold slack, Second; lia).
    assert (2 ^ 40 * slack < token) by (unfold slack, token, Second; in_base; lia).
    pose proof (P_pos 0 ltac:(lia)). unfold token in *.
    assert (t0 + d - Z.max t0 t1 ≤ d) by lia. apply (Z.mul_lt_mono_pos_r (P 0)); [done|]. nia.
Qed.

(** ** Service *)

Lemma after_bucket key calls l b :
  buckets (after calls l) !! key = Some b →
  AllowCall key (lastCheck b) ∈ calls ∨ buckets l !! key = Some b.
Proof.
  revert l. induction calls as [|[k t|t] calls IH]; intros l Hb; [by right|..];
    (destruct (IH _ Hb) as [Hin|Hl]; [left; by right|]).
  - rewrite Allow_found in Hl. simpl in Hl. destruct (decide (k = key)) as [->|Hk].
    + rewrite lookup_insert_eq in Hl. injection Hl as <-. left. by left.
    + rewrite lookup_insert_ne in Hl by done. by right.
  - right. unfold gc_sweep in Hl. destruct (stopped l); [done|]. simpl in Hl.
    by apply map_lookup_filter_Some in Hl as [? _].
Qed.

Lemma ge_one_served x : ok x → ge 1 x → f_lt x one = false.
Proof.
  destruct x as [s|[]| |[] m e]; try done. intros (He & Hm & _) Hge. unfold one, f_lt, SFltb, SFcompare.
  destruct (Z.compare_spec e (-52)) as [->|Hc|Hc]; [|..|done].
  - unfold ge, le_val in Hge. rewrite decide_False in Hge by lia.
    destruct (Pos.compare_cont Eq m 4503599627370496) eqn:Hcmp; [done| |done].
    assert (Z.pos m < 4503599627370496) by exact Hcmp. lia.
  - exfalso. unfold ge, le_val in Hge. rewrite decide_False in Hge by lia.
    assert (2 ^ 53 ≤ 2 ^ (- e)) by (apply Z.pow_le_mono_r; lia). lia.
Qed.

(** A patient client is never refused: a request that comes at least a second
    after the key's previous ones is let through, whatever happened before and
    whatever others send. *)
Theorem idle_second_served now before key t :
  chronological now (before ++ [AllowCall key t]) →
  (∀ t', AllowCall key t' ∈ before → t' + Second ≤ t) →
  (Allow key t (after before serve_limiter)).1 = true.
Proof.
  intros Hchr Hidle. destruct (after_sim now before _ _ _ Hchr (serve_sim now)) as (t1 & l' & Hs & [Ht1 _]).
  destruct (found_rel t1 t _ _ key Ht1 Hs) as [_ Hok]. rewrite Allow_found. cbn [fst].
  enough (f_lt (found (after before serve_limiter) key t) one = false) as -> by done.
  destruct Hs as (Hl & _ & Hb). specialize (Hb key). apply ge_one_served; [done|]. revert Hok. unfold found.
  destruct (buckets (after before serve_limiter) !! key) as [b|] eqn:Hkey.
  - destruct (after_bucket _ _ _ _ Hkey) as [Hin|Hl0]; [|by simpl in Hl0; rewrite lookup_empty in Hl0].
    apply Hidle in Hin. destruct (buckets l' !! key) as [b'|]; [|done]. destruct Hb as (-> & Hokb & _).
    unfold refill. rewrite serve_speed by done. destruct Hl as [-> _]. destruct (f_lt _ _); [by vm_compute|].
    intros _. apply f_add_ge; [lia|by apply ok_nn|].
    assert (Hsub : 0 ≤ Sub t (lastCheck b')) by (unfold Sub, min_int64, max_int64, Second in *; lia).
    destruct (Seconds_facts _ Hsub) as [Hnn Hge]. destruct (f_mul_one _ Hnn) as [_ Hmul].
    apply Hmul; [lia|]. apply Hge; [lia|]. unfold Sub, min_int64, max_int64, Second in *. lia.
  - pose proof Hl as [-> _]. rewrite refill_fresh by done. intros _. by vm_compute.
Qed.

(** ** A minute *)

Fixpoint every_second (n : nat) (t : Z) : list limiter_call :=
  match n with O => [] | S n' => AllowCall "user:1" t :: every_second n' (t + Second) end.

(** A full burst, then two requests a second for the rest of a minute. *)
Definition minute_demo : list limiter_call :=
  replicate 60 (AllowCall "user:1" 0)
  ++ (every_second 59 Second ≫= λ c, [c; AllowCall "user:2" (call_time c); c]).

(** In a minute 119 of its requests are let through, as many as the bound
    allows and about twice the nominal rate. *)
Theorem minute_burst :
  allowed "user:1" (run_calls minute_demo serve_limiter) = 119 ∧ Forall (λ c, 0 ≤ call_time c < Minute) minute_demo.
Proof. split; [vm_compute; reflexivity|]. apply (bool_decide_unpack _). vm_compute. exact I. Qed.

Lemma rate_bound_witness :
  allowed "user:1" (run_calls minute_demo (after [] serve_limiter)) = 119
  ∧ Second * (allowed "user:1" (run_calls minute_demo (after [] serve_limiter)) - 60) < 59 * Second + Second.
Proof.
  split; [vm_compute; reflexivity|].
  apply (rate_bound 0 [] minute_demo "user:1" 0 (59 * Second)).
  - vm_compute. repeat split; discriminate.
  - apply (bool_decide_unpack _). vm_compute. exact I.
  - vm_compute. discriminate.
  - vm_compute. discriminate.
Defined.
