(* ===== verification/RateLate.v ===== *)
(** The rate limiter under concurrency.

    Allow reads the clock before it takes the mutex, and so does the sweeper:
    the order in which calls take effect is not the order of their times, and
    tokens can flow back.  Here a call may take effect up to [lag] after it
    read the clock. *)

From Stdlib Require Import SpecFloat.
From S2P Require Import Prelude AesGcm GoLib Net RateLimit Float FloatUp FloatNear RateProps RateBound.

Definition lag : Z := 20 * Second.

(** No call is later than [lag] behind the latest time that an earlier call
    has read. *)
Fixpoint punctual (latest : Z) (calls : list limiter_call) : Prop :=
  match calls with
  | [] => True
  | AllowCall _ t :: rest | SweepCall t :: rest => latest - lag ≤ t ∧ punctual (Z.max latest t) rest
  end.

(** The error of one call; [n] of them are less than a quarter of a token. *)
Definition drift : Z := Second * (6 * P (-45)).

Lemma drift_small n : 0 ≤ n ≤ 2 ^ 40 → 0 ≤ n * drift ∧ 4 * (n * drift) < token.
Proof.
  intros Hn. assert (0 ≤ drift) by (unfold drift; pose proof (P_pos (-45) ltac:(lia)); unfold Second; lia).
  split; [nia|]. assert (n * drift ≤ 2 ^ 40 * drift) by nia.
  assert (4 * (2 ^ 40 * drift) < token); [|lia]. unfold drift, token, Second. in_base. lia.
Qed.

Lemma capacity_value : value (f_of_Z 60) (60 * P 0).
Proof. rewrite cap_datum, P_0. unfold value, V. cbn [cond_Zopp]. lia. Qed.

Lemma one_value : value one (P 0).
Proof. unfold value, one, V. cbn [cond_Zopp]. rewrite (P_base 0), (P_base (-52)) by lia. lia. Qed.

(** ** A bucket *)

(** [latest] is the latest time read so far, [n] the number of calls. *)
Definition sound (latest n : Z) (b : bucket) : Prop :=
  lastCheck b ≤ latest
  ∧ ∃ v, value (tokens b) v ∧ v ≤ 60 * P 0
      ∧ (lastCheck b - latest) * P 0 - n * drift ≤ Second * v
      ∧ - (lag * P 0) - n * drift ≤ Second * v.

Lemma sound_later latest n latest' n' b :
  latest ≤ latest' → 0 ≤ n ≤ n' → sound latest n b → sound latest' n' b.
Proof.
  intros Hl Hn (Hlast & v & Hv & Hcap & Ha & Hb). split; [lia|]. exists v.
  assert (0 ≤ drift) by (unfold drift; pose proof (P_pos (-45) ltac:(lia)); unfold Second; lia).
  pose proof (P_pos 0 ltac:(lia)). split_and!; [done|done|nia|nia].
Qed.

(** Refilling over a time that may be negative. *)
Lemma refill_late l latest n t b :
  serve_like l → sound latest n b → 0 ≤ n ≤ 2 ^ 40 → latest - lag ≤ t →
  ∃ v w, value (tokens b) v ∧ value (refill l t b) w ∧ w ≤ 60 * P 0
    ∧ Second * w ≤ Second * v + (t - lastCheck b) * P 0 + Second * (5 * P (-45))
    ∧ (w = 60 * P 0 ∨ Second * v + (t - lastCheck b) * P 0 - Second * (5 * P (-45)) ≤ Second * w)
    ∧ (100 * Second ≤ t - lastCheck b → refill l t b = f_of_Z 60).
Proof.
  intros Hl (Hlast & v & Hv & Hcap & _ & Hlow) Hn Ht. destruct (drift_small n Hn) as [_ Hd].
  unfold refill. rewrite serve_speed by done. destruct Hl as [-> _].
  pose proof (P_pos 0 ltac:(lia)) as HP0. pose proof (P_pos (-45) ltac:(lia)) as HP45.
  assert (HP : 100 * P (-45) ≤ P 0 ∧ 100 * P (-18) ≤ P 0 ∧ 0 < P (-18) ∧ P 8 = 256 * P 0 ∧ P 35 = 2 ^ 35 * P 0).
  { split_and!; [in_base; lia|rewrite (P_base 0), (P_base (-18)) by lia; pose proof (P_pos (-60) ltac:(lia)); lia
      |apply P_pos; lia|exact (P_add 0 8 ltac:(lia) ltac:(lia))|exact (P_add 0 35 ltac:(lia) ltac:(lia))]. }
  destruct HP as (H1 & H2 & H3 & H4 & H5).
  assert (Hgap : - lag ≤ t - lastCheck b) by lia.
  assert (Hsub : Sub t (lastCheck b) = Z.min max_int64 (t - lastCheck b))
    by (unfold Sub, min_int64, max_int64, lag, Second in *; lia).
  rewrite Hsub. clear Hsub Hlast Ht. set (gap := t - lastCheck b) in *. clearbody gap.
  unfold lag, token in *.
  assert (Hvlow : - (21 * P 0) ≤ v) by (unfold Second in *; lia).
  destruct (decide (100 * Second ≤ gap)) as [Hidle|Hrecent].
  - destruct (inflow_near (Z.min max_int64 gap) 34) as (w1 & Hw1 & Hb1); [lia|unfold max_int64, Second in *; lia|].
    change (34 - 52) with (-18) in Hb1.
    assert (Hw1low : 99 * P 0 ≤ w1 ∧ w1 < 2 ^ 34 * P 0 + P 0).
    { assert (100 * Second * P 0 ≤ Z.min max_int64 gap * P 0 ≤ max_int64 * P 0)
        by (split; apply Z.mul_le_mono_nonneg_r; unfold max_int64, Second in *; lia).
      unfold max_int64, Second in *. lia. }
    destruct (f_add_near 35 (tokens b) (f_mul (Seconds (Z.min max_int64 gap)) one) v w1) as (w2 & Hw2 & Hb2); [lia|done|done|lia|].
    change (35 - 53) with (-18) in Hb2. rewrite (f_lt_value _ _ _ _ capacity_value Hw2), (proj2 (Z.ltb_lt _ _)) by lia.
    assert (100 * Second * P 0 ≤ gap * P 0) by (apply Z.mul_le_mono_nonneg_r; lia).
    exists v, (60 * P 0). split_and!; [done|apply capacity_value|done| |by left|done]. unfold Second in *. lia.
  - rewrite Z.min_r by (unfold max_int64, Second in *; lia).
    destruct (inflow_near gap 7) as (w1 & Hw1 & Hb1); [lia|unfold Second in *; lia|]. change (7 - 52) with (-45) in Hb1.
    assert (Hg : - (20 * Second * P 0) ≤ gap * P 0 ≤ 100 * Second * P 0)
      by (rewrite <- Z.mul_opp_l; split; apply Z.mul_le_mono_nonneg_r; unfold Second in *; lia).
    set (g := gap * P 0) in *. clearbody g.
    destruct (f_add_near 8 (tokens b) (f_mul (Seconds gap) one) v w1) as (w2 & Hw2 & Hb2);
      [lia|done|done|unfold Second in *; lia|]. change (8 - 53) with (-45) in Hb2.
    rewrite (f_lt_value _ _ _ _ capacity_value Hw2).
    destruct (Z.ltb_spec (60 * P 0) w2) as [Hover|Hunder]; [exists v, (60 * P 0)|exists v, w2].
    + split_and!; [done|apply capacity_value|done| |by left|unfold Second in *; lia]. unfold Second in *. lia.
    + split_and!; [done|done|done| |right|unfold Second in *; lia]; unfold Second in *; lia.
Qed.

(** ** With and without the sweeper *)

Definition rel (latest n : Z) (b b' : option bucket) : Prop :=
  match b, b' with
  | None, None => True
  | Some b, Some b' => b = b' ∧ sound latest n b
  | None, Some b' => sound latest n b' ∧ lastCheck b' + 2 * Minute ≤ latest
  | Some _, None => False
  end.

Definition late_sim (latest n : Z) (l l' : Limiter) : Prop :=
  serve_like l ∧ serve_like l' ∧ ∀ k, rel latest n (buckets l !! k) (buckets l' !! k).

Lemma rel_later latest n latest' n' b b' :
  latest ≤ latest' → 0 ≤ n ≤ n' → rel latest n b b' → rel latest' n' b b'.
Proof.
  intros Hl Hn. destruct b, b'; simpl; [|done| |done].
  - intros [-> Hs]. split; [done|]. by eapply sound_later.
  - intros [Hs Hi]. split; [by eapply sound_later|lia].
Qed.

(** What a request finds: the same in both limiters, and not too little for
    its time. *)
Lemma found_late latest n t l l' key :
  late_sim latest n l l' → 0 ≤ n ≤ 2 ^ 40 → latest - lag ≤ t →
  found l key t = found l' key t
  ∧ ∃ w, value (found l key t) w ∧ w ≤ 60 * P 0
      ∧ (t - Z.max latest t) * P 0 - n * drift - Second * (5 * P (-45)) ≤ Second * w.
Proof.
  intros (Hl & Hl' & Hb) Hn Ht. specialize (Hb key). unfold found.
  destruct (drift_small n Hn) as [Hd _]. pose proof (P_pos 0 ltac:(lia)) as HP0. pose proof (P_pos (-45) ltac:(lia)).
  assert (Hpast : (t - Z.max latest t) * P 0 ≤ 0) by nia.
  assert (Hfull : ∃ w, value (f_of_Z 60) w ∧ w ≤ 60 * P 0
      ∧ (t - Z.max latest t) * P 0 - n * drift - Second * (5 * P (-45)) ≤ Second * w).
  { exists (60 * P 0). split_and!; [apply capacity_value|done|unfold Second in *; lia]. }
  assert (Hfresh : ∀ l, serve_like l → refill l t (mk_bucket (f_of_Z (rate l)) t) = f_of_Z 60)
    by (intros l0 Hl0; destruct Hl0 as [Hr ?]; rewrite Hr; by apply refill_fresh).
  destruct (buckets l !! key) as [b|], (buckets l' !! key) as [b'|]; try done; simpl in Hb.
  - destruct Hb as [<- Hs]. split.
    { unfold refill. rewrite !serve_speed by done. by destruct Hl as [-> _], Hl' as [-> _]. }
    destruct (refill_late l latest n t b Hl Hs Hn Ht) as (v & w & Hv & Hw & Hcap & _ & Hlow & _).
    exists w. split_and!; [done|done|]. destruct Hs as (_ & v' & Hv' & _ & Ha & _).
    rewrite <- (value_det _ _ _ Hv Hv') in Ha. destruct Hlow as [->|Hlow]; [unfold Second in *; lia|].
    assert ((t - Z.max latest t) * P 0 ≤ (t - latest) * P 0) by (apply Z.mul_le_mono_nonneg_r; lia).
    rewrite !Z.mul_sub_distr_r in *. unfold Second in *. lia.
  - destruct Hb as [Hs Hidle]. rewrite Hfresh by done. split; [|done]. symmetry.
    destruct (refill_late l' latest n t b' Hl' Hs Hn Ht) as (v & w & _ & _ & _ & _ & _ & Hi).
    apply Hi. unfold lag, Minute, Second in *. lia.
  - rewrite !Hfresh by done. done.
Qed.

(** What a request leaves. *)
Definition remaining (x : float64) : float64 := if f_lt x one then x else f_sub x one.

Lemma remaining_value x w :
  value x w → w ≤ 60 * P 0 →
  ∃ w', value (remaining x) w' ∧ w' ≤ 60 * P 0
    ∧ if f_lt x one then w' = w else P 0 ≤ w ∧ w - P 0 - P (-46) ≤ w' ≤ w - P 0 + P (-46).
Proof.
  intros Hw Hcap. unfold remaining. rewrite (f_lt_value _ _ _ _ Hw one_value).
  destruct (Z.ltb_spec w (P 0)) as [Hlt|Hge]; [by exists w|].
  assert (HP : P 7 = 128 * P 0) by exact (P_add 0 7 ltac:(lia) ltac:(lia)).
  destruct (f_sub_near 7 x one w (P 0)) as (w' & Hw' & Hb); [lia|done|apply one_value|pose proof (P_pos 0 ltac:(lia)); lia|].
  change (7 - 53) with (-46) in Hb. exists w'. pose proof (P_mono (-46) 0 ltac:(lia)).
  split_and!; [done|lia|done|lia|lia].
Qed.

Lemma Allow_remaining key t l :
  Allow key t l = (negb (f_lt (found l key t) one), set_bucket l key (mk_bucket (remaining (found l key t)) t)).
Proof. apply Allow_found. Qed.

Lemma Allow_late latest n t l l' key :
  late_sim latest n l l' → 0 ≤ n ≤ 2 ^ 40 → latest - lag ≤ t →
  (Allow key t l).1 = (Allow key t l').1
  ∧ late_sim (Z.max latest t) (n + 1) (Allow key t l).2 (Allow key t l').2.
Proof.
  intros Hs Hn Ht. destruct (found_late latest n t l l' key Hs Hn Ht) as (Hf & w & Hw & Hcap & Hlow).
  rewrite !Allow_remaining, <- Hf. split; [done|]. destruct Hs as (Hl & Hl' & Hb). split_and!; [done|done|].
  intros k. simpl. destruct (decide (k = key)) as [->|Hk].
  2: { rewrite !lookup_insert_ne by done. eapply rel_later; [..|apply Hb]; lia. }
  rewrite !lookup_insert_eq. split; [done|]. split; [simpl; lia|].
  destruct (remaining_value _ w Hw Hcap) as (w' & Hw' & Hcap' & Hleft). exists w'.
  cbn [tokens lastCheck]. destruct (drift_small n Hn) as [Hd _].
  pose proof (P_pos 0 ltac:(lia)) as HP0.
  assert (HP : P (-46) ≤ P (-45) ∧ 0 < P (-46)) by (split; [apply P_mono; lia|apply P_pos; lia]).
  assert (Hpast : - (lag * P 0) ≤ (t - Z.max latest t) * P 0 ≤ 0).
  { rewrite <- Z.mul_opp_l. split; [apply Z.mul_le_mono_nonneg_r; unfold lag, Second in *; lia|nia]. }
  assert (Ha : (t - Z.max latest t) * P 0 - (n + 1) * drift ≤ Second * w').
  { rewrite Z.mul_add_distr_r. unfold drift at 2. clear Ht. set (past := (t - Z.max latest t) * P 0) in *.
    clearbody past. set (errors := n * drift) in *. clearbody errors. destruct (f_lt (found l key t) one); [subst w'|]; unfold Second in *; lia. }
  split_and!; [done|done|done|lia].
Qed.

Lemma gc_sweep_late latest n t l l' :
  late_sim latest n l l' → 0 ≤ n → late_sim (Z.max latest t) n (gc_sweep t l) l'.
Proof.
  intros (Hl & Hl' & Hb) Hn. unfold gc_sweep. destruct (stopped l).
  { split_and!; [done|done|]. intros k. eapply rel_later; [..|apply Hb]; lia. }
  split_and!; [done|done|]. intros k. simpl. rewrite map_lookup_filter. pose proof (Hb k) as Hk.
  apply (rel_later _ _ (Z.max latest t) n) in Hk; [|lia|lia]. pose proof Hl as [_ ->].
  destruct (buckets l !! k) as [b|]; cbn [mbind option_bind]; [|exact Hk].
  destruct (buckets l' !! k) as [b'|]; [|done]. destruct Hk as [<- Hk].
  case_guard as Hg; simpl in *; [done|]. split; [done|]. lia.
Qed.

Lemma run_calls_late latest n calls l l' :
  punctual latest calls → late_sim latest n l l' → 0 ≤ n → n + Z.of_nat (length calls) ≤ 2 ^ 40 →
  run_calls calls l = run_calls (filter is_request calls) l'.
Proof.
  revert latest n l l'. induction calls as [|[k t|t] calls IH]; intros latest n l l' Hc Hs Hn Hlen; [done|..];
    destruct Hc as [Ht Hc]; rewrite filter_cons; cbn [length] in Hlen.
  - rewrite decide_True by done. cbn [run_calls].
    destruct (Allow_late latest n t l l' k Hs ltac:(lia) Ht) as [Hb Hs'].
    destruct (Allow k t l) as [b l1], (Allow k t l') as [b' l1']. simpl in Hb, Hs'. subst b'. f_equal.
    eapply IH; [done|exact Hs'|lia|lia].
  - rewrite decide_False by (by simpl; auto). cbn [run_calls]. eapply IH; [done|by apply gc_sweep_late|lia|lia].
Qed.

Lemma serve_late latest : late_sim latest 0 serve_limiter serve_limiter.
Proof. split_and!; [done|done|]. intros k. simpl. by rewrite lookup_empty. Qed.

(** C20: Evicting idle buckets is invisible, also when requests and sweeps
    take effect out of order: for every sequence of up to 2 ^ 40 calls, of any
    keys, each of which gets the lock at most 20 seconds after it read the
    clock, the limiter that serve installs decides each request as a limiter
    that never forgets a bucket would, float64 rounding included. *)
Theorem sweeper_invisible_late latest calls :
  punctual latest calls → Z.of_nat (length calls) ≤ 2 ^ 40 →
  run_calls calls serve_limiter = run_calls (filter is_request calls) serve_limiter.
Proof. intros Hc Hlen. eapply run_calls_late; [exact Hc|apply serve_late|lia|lia]. Qed.

(** ** The rate *)

(** What [key] can still spend until the time [last]: its tokens and the
    inflow until then, or a full bucket and the inflow of [d] nanoseconds. *)
Definition potential (last d : Z) (l : Limiter) (key : string) (lv : Z) : Prop :=
  60 * token + d * P 0 ≤ lv
  ∨ ∃ b v, buckets l !! key = Some b ∧ value (tokens b) v ∧ Second * v + (last - lastCheck b) * P 0 ≤ lv.

Lemma late_sim_self latest n l l' : late_sim latest n l l' → late_sim latest n l' l'.
Proof.
  intros (_ & Hl' & Hb). split_and!; [done|done|]. intros k. specialize (Hb k).
  destruct (buckets l !! k) as [b|], (buckets l' !! k) as [b'|]; try done; simpl in *.
  - by destruct Hb as [<- Hs].
  - by destruct Hb.
Qed.

(** A request finds no more than the potential. *)
Lemma found_potential latest n t l key last d lv :
  late_sim latest n l l → 0 ≤ n ≤ 2 ^ 40 → latest - lag ≤ t → last - d ≤ t ≤ last → potential last d l key lv →
  ∀ w, value (found l key t) w → w ≤ 60 * P 0 → Second * w + (last - t) * P 0 ≤ lv + Second * (5 * P (-45)).
Proof.
  intros (Hl & _ & Hb) Hn Ht Hspan Hpot w Hw Hcap. pose proof (P_pos (-45) ltac:(lia)). pose proof (P_pos 0 ltac:(lia)).
  destruct Hpot as [Hfull|(b & v & Hkey & Hv & Hlv)].
  - assert ((last - t) * P 0 ≤ d * P 0) by (apply Z.mul_le_mono_nonneg_r; lia). unfold token, Second in *. lia.
  - specialize (Hb key). unfold found in Hw. rewrite Hkey in *. destruct Hb as [_ Hs].
    destruct (refill_late l latest n t b Hl Hs Hn Ht) as (v' & w' & Hv' & Hw' & _ & Hup & _).
    rewrite (value_det _ _ _ Hv' Hv), (value_det _ _ _ Hw' Hw) in Hup.
    rewrite !Z.mul_sub_distr_r in *. lia.
Qed.

Lemma Allow_potential latest n t l key last d lv :
  late_sim latest n l l → 0 ≤ n ≤ 2 ^ 40 → latest - lag ≤ t → last - d ≤ t ≤ last → potential last d l key lv →
  potential last d (Allow key t l).2 key (lv + drift - if (Allow key t l).1 then token else 0)
  ∧ ((Allow key t l).1 = true → token ≤ lv + drift).
Proof.
  intros Hs Hn Ht Hspan Hpot. destruct (found_late latest n t l l key Hs Hn Ht) as (_ & w & Hw & Hcap & _).
  pose proof (found_potential latest n t l key last d lv Hs Hn Ht Hspan Hpot w Hw Hcap) as Hlv.
  destruct (remaining_value _ w Hw Hcap) as (w' & Hw' & _ & Hleft). rewrite Allow_remaining. cbn [fst snd].
  pose proof (P_pos 0 ltac:(lia)) as HP0. assert (0 ≤ (last - t) * P 0) by nia.
  assert (HP : P (-46) ≤ P (-45) ∧ 0 < P (-46)) by (split; [apply P_mono; lia|apply P_pos; lia]).
  unfold drift, token. split.
  - right. exists (mk_bucket (remaining (found l key t)) t), w'. simpl. rewrite lookup_insert_eq.
    split_and!; [done|done|]. destruct (f_lt (found l key t) one); simpl; [subst w'|]; unfold Second in *; lia.
  - destruct (f_lt (found l key t) one); [done|]. intros _. unfold Second in *. lia.
Qed.

Lemma potential_other last d l key k t lv :
  k ≠ key → potential last d l key lv → potential last d (Allow k t l).2 key lv.
Proof. intros Hk. unfold potential. by rewrite Allow_other. Qed.

Lemma requests_late key last d calls l latest n lv :
  Forall is_request calls → punctual latest calls → Forall (λ c, last - d ≤ call_time c ≤ last) calls →
  late_sim latest n l l → 0 ≤ n → n + Z.of_nat (length calls) ≤ 2 ^ 40 → potential last d l key lv →
  allowed key (run_calls calls l) = 0
  ∨ allowed key (run_calls calls l) * token ≤ lv + Z.of_nat (length calls) * drift.
Proof.
  revert l latest n lv. induction calls as [|[k t|t] calls IH]; intros l latest n lv Hreq Hp Hspan Hs Hn Hlen Hpot.
  - by left.
  - apply Forall_cons in Hreq as [_ Hreq]. apply Forall_cons in Hspan as [Ht0 Hspan]. destruct Hp as [Ht Hp].
    cbn [length] in *. destruct (drift_small 1 ltac:(lia)) as [Hd _].
    assert (Hm : 0 ≤ Z.of_nat (length calls) * drift) by lia.
    destruct (Allow_late latest n t l l k Hs ltac:(lia) Ht) as [_ Hs'].
    pose proof (Allow_potential latest n t l key last d lv Hs ltac:(lia) Ht Ht0 Hpot) as [Hpot1 Hserved].
    pose proof (potential_other last d l key k t lv) as Hother.
    cbn [run_calls]. destruct (Allow k t l) as [b l1] eqn:Ha. cbn [snd] in *. rewrite allowed_cons.
    rewrite Nat2Z.inj_succ, Z.mul_succ_l. case_decide as Hk.
    + subst k. rewrite Ha in Hpot1, Hserved. cbn [fst snd] in *.
      destruct (IH l1 _ (n + 1) _ Hreq Hp Hspan Hs' ltac:(lia) ltac:(lia) Hpot1) as [->|IH'].
      * destruct b; [right; specialize (Hserved eq_refl); lia|by left].
      * right. destruct b; lia.
    + destruct (IH l1 _ (n + 1) lv Hreq Hp Hspan Hs' ltac:(lia) ltac:(lia) (Hother Hk Hpot)) as [->|IH']; [by left|].
      right. lia.
  - by apply Forall_cons in Hreq as [[] _].
Qed.

Lemma punctual_earlier latest latest' calls : latest' ≤ latest → punctual latest calls → punctual latest' calls.
Proof.
  revert latest latest'. induction calls as [|[k t|t] calls IH]; intros latest latest' Hl; [done|..];
    intros [Ht Hc]; (split; [lia|]); (eapply IH; [|exact Hc]); lia.
Qed.

Lemma punctual_requests latest calls : punctual latest calls → punctual latest (filter is_request calls).
Proof.
  revert latest. induction calls as [|[k t|t] calls IH]; intros latest; [done|..]; intros [Ht Hc]; rewrite filter_cons.
  - rewrite decide_True by done. split; [done|by apply IH].
  - rewrite decide_False by (by intros []). eapply punctual_earlier; [|by apply IH]. lia.
Qed.

Lemma after_late latest n before calls l l' :
  punctual latest (before ++ calls) → late_sim latest n l l' → 0 ≤ n → n + Z.of_nat (length before) ≤ 2 ^ 40 →
  ∃ latest1 n1 l1', late_sim latest1 n1 (after before l) l1' ∧ punctual latest1 calls
    ∧ 0 ≤ n1 ≤ n + Z.of_nat (length before).
Proof.
  revert latest n l l'. induction before as [|[k t|t] before IH]; intros latest n l l' Hc Hs Hn Hlen.
  - exists latest, n, l'. split_and!; [done|done|lia|simpl; lia].
  - destruct Hc as [Ht Hc]. cbn [length] in Hlen.
    destruct (Allow_late latest n t l l' k Hs ltac:(lia) Ht) as [_ Hs'].
    destruct (IH _ _ _ _ Hc Hs' ltac:(lia) ltac:(lia)) as (m & n1 & l1 & H1 & H2 & H3).
    exists m, n1, l1. split_and!; [done|done|lia|cbn [length]; lia].
  - destruct Hc as [Ht Hc]. cbn [length] in Hlen.
    destruct (IH _ _ _ _ Hc (gc_sweep_late latest n t l l' Hs Hn) ltac:(lia) ltac:(lia)) as (m & n1 & l1 & H1 & H2 & H3).
    exists m, n1, l1. split_and!; [done|done|lia|cbn [length]; lia].
Qed.

(** C19: The limiter keeps its rate under concurrency: of all the requests of
    a key that read the clock within a span of [d] nanoseconds, in whatever
    order they and those of others then get the lock, up to 20 seconds late,
    with sweeps anywhere and after any history, fewer than 61 + d / (1 s) are
    let through, that is at most 60 and one more per second; for up to 2 ^ 40
    calls, and in spite of float64 rounding in every one. *)
Theorem rate_bound_late latest before calls key t0 d :
  punctual latest (before ++ calls) → Forall (λ c, t0 ≤ call_time c ≤ t0 + d) calls →
  0 ≤ d → Z.of_nat (length (before ++ calls)) ≤ 2 ^ 40 →
  Second * (allowed key (run_calls calls (after before serve_limiter)) - 60) < d + Second.
Proof.
  intros Hc Hspan Hd Hlen. rewrite length_app, Nat2Z.inj_add in Hlen.
  destruct (after_late latest 0 before calls _ _ Hc (serve_late latest) ltac:(lia) ltac:(lia))
    as (m & n & l' & Hs & Hp & Hn).
  rewrite (run_calls_late m n calls _ l') by (done || lia).
  pose proof (length_filter is_request calls) as Hfl. set (reqs := filter is_request calls) in *.
  opose proof (requests_late key (t0 + d) d reqs l' m n (60 * token + d * P 0) _ _ _ _ _ _ _) as Hb.
  - apply Forall_forall. by intros ? [? _]%list_elem_of_filter.
  - by apply punctual_requests.
  - apply Forall_forall. intros x [_ Hx]%list_elem_of_filter. rewrite Forall_forall in Hspan.
    specialize (Hspan x Hx). simpl in Hspan. lia.
  - by eapply late_sim_self.
  - lia.
  - lia.
  - by left.
  - destruct (drift_small (Z.of_nat (length reqs)) ltac:(lia)) as [_ Hsmall].
    pose proof (P_pos 0 ltac:(lia)). apply (Z.mul_lt_mono_pos_r (P 0)); [done|].
    destruct Hb as [->|Hb]; unfold token, Second in *; nia.
Qed.

(** A burst at ten seconds, a request that read the clock ten seconds earlier
    and is refused, and further ones in no order. *)
Definition late_demo : list limiter_call :=
  replicate 60 (AllowCall "user:1" (10 * Second))
  ++ [AllowCall "user:1" 0; SweepCall (5 * Second); AllowCall "user:1" (12 * Second);
      AllowCall "user:2" (4 * Second); AllowCall "user:1" (11 * Second); AllowCall "user:1" (13 * Second)].

(** What that request leaves is negative. *)
Definition owed (calls : list limiter_call) (key : string) : option bool :=
  (λ b, f_lt (tokens b) (f_of_Z (-9))) <$> buckets (after calls serve_limiter) !! key.

Example tokens_flow_back : owed (take 61 late_demo) "user:1" = Some true.
Proof. vm_compute. reflexivity. Qed.

Lemma rate_bound_late_witness :
  allowed "user:1" (run_calls late_demo (after [] serve_limiter)) = 62
  ∧ Second * (allowed "user:1" (run_calls late_demo (after [] serve_limiter)) - 60) < 13 * Second + Second.
Proof.
  split; [vm_compute; reflexivity|].
  apply (rate_bound_late 0 [] late_demo "user:1" 0 (13 * Second)).
  - vm_compute. repeat split; discriminate.
  - apply (bool_decide_unpack _). vm_compute. exact I.
  - vm_compute. discriminate.
  - vm_compute. discriminate.
Defined.

(** The bucket with the negative tokens is evicted, and the next request,
    eleven seconds late, is served. *)
Definition late_sweep_demo : list limiter_call :=
  take 61 late_demo ++ [SweepCall (121 * Second); AllowCall "user:1" (110 * Second)].

Lemma sweeper_invisible_late_witness :
  run_calls late_sweep_demo serve_limiter = run_calls (filter is_request late_sweep_demo) serve_limiter
  ∧ (run_calls late_sweep_demo serve_limiter) !! 60%nat = Some ("user:1", false)
  ∧ (run_calls late_sweep_demo serve_limiter) !! 61%nat = Some ("user:1", true)
  ∧ buckets (after (take 62 late_sweep_demo) serve_limiter) !! "user:1" = None.
Proof.
  split; [|split_and!; vm_compute; reflexivity].
  apply (sweeper_invisible_late 10).
  - vm_compute. repeat split; discriminate.
  - vm_compute. discriminate.
Defined.
