(* ===== verification/JsonEnc.v ===== *)
(** encoding/json's Encoder as [writeJSON] uses it, with HTML escaping, and
    the round trip through the decoder of [Json]. *)

From S2P Require Import Prelude AesGcm GoLib Json.

(** ** Strings *)

Definition bs (s : string) : bytes := bytes_of_string s.

Definition escape_ascii (c : byte) : bytes :=
  if is_quote c || eqc c "\" then [chr "\"; c]
  else if bool_decide (c = Byte.x08) then bs "\b"
  else if bool_decide (c = Byte.x0c) then bs "\f"
  else if bool_decide (c = Byte.x0a) then bs "\n"
  else if bool_decide (c = Byte.x0d) then bs "\r"
  else if bool_decide (c = Byte.x09) then bs "\t"
  else if (code c <? 32) || eqc c "<" || eqc c ">" || eqc c "&"
  then bs "\u00" ++ [hex_char (code c / 16); hex_char (code c mod 16)]
  else [c].

(** A multi-byte rune; U+2028 and U+2029 are escaped. *)
Definition escape_rune (u : bytes) : bytes :=
  if decide (u = [Byte.xe2; Byte.x80; Byte.xa8]) then bs "\u2028"
  else if decide (u = [Byte.xe2; Byte.x80; Byte.xa9]) then bs "\u2029"
  else u.

(** Both walk the text rune by rune; a byte that starts no rune counts as
    U+FFFD. *)
Fixpoint escape_fuel (fuel : nat) (b : bytes) : bytes :=
  match fuel, b with
  | S f, c :: r =>
      if code c <? 128 then escape_ascii c ++ escape_fuel f r
      else match rune_len b with
           | O => bs "\ufffd" ++ escape_fuel f r
           | n => escape_rune (take n b) ++ escape_fuel f (drop n b)
           end
  | _, _ => []
  end.

Fixpoint to_valid_fuel (fuel : nat) (b : bytes) : bytes :=
  match fuel, b with
  | S f, c :: r =>
      match rune_len b with
      | O => replacement ++ to_valid_fuel f r
      | n => take n b ++ to_valid_fuel f (drop n b)
      end
  | _, _ => []
  end.

Definition encode_string (s : bytes) : bytes :=
  Byte.x22 :: escape_fuel (length s) s ++ [Byte.x22].

(** [strings.ToValidUTF8(s, "\uFFFD")] byte by byte: what a decoder sees. *)
Definition to_valid (s : bytes) : bytes := to_valid_fuel (length s) s.

(** ** Values *)

Fixpoint join_comma (l : list bytes) : bytes :=
  match l with
  | [] => []
  | [x] => x
  | x :: r => x ++ chr "," :: join_comma r
  end.

Fixpoint encode (j : json) : bytes :=
  match j with
  | JNull => bs "null"
  | JBool true => bs "true"
  | JBool false => bs "false"
  | JNum raw => raw
  | JStr s => encode_string s
  | JArr l => chr "[" :: join_comma (map encode l) ++ [chr "]"]
  | JObj l => chr "{" :: join_comma (map (λ kv, encode_string kv.1 ++ chr ":" :: encode kv.2) l)
                ++ [chr "}"]
  end.

(** The value a decoder gets: the same with its strings made valid. *)
Fixpoint sanitize (j : json) : json :=
  match j with
  | JStr s => JStr (to_valid s)
  | JArr l => JArr (map sanitize l)
  | JObj l => JObj (map (λ kv, (to_valid kv.1, sanitize kv.2)) l)
  | _ => j
  end.

Definition json_int (z : Z) : json := JNum (bs (pretty z)).
Definition json_string (s : string) : json := JStr (bytes_of_string s).
Definition json_string_ptr (s : option string) : json :=
  match s with Some s => json_string s | None => JNull end.

(** ** One step of the string decoder *)

Lemma escape_ascii_step c f rest :
  code c < 128 →
  parse_string (S f) (escape_ascii c ++ rest)
  = match parse_string f rest with Some (s, r) => Some (c :: s, r) | None => None end.
Proof.
  intros Hc. destruct c; try (exfalso; revert Hc; vm_compute; congruence); reflexivity.
Qed.

(** A rune keeps its length before any suffix, and is not an escape. *)
Lemma rune_len_take b n : rune_len b = S n → rune_len (take (S n) b) = S n ∧ length (take (S n) b) = S n.
Proof.
  unfold rune_len. destruct b as [|x r]; [done|].
  destruct (code x <? 128) eqn:H1; [intros [= <-]; simpl; by rewrite H1|].
  destruct (in_range 194 223 x) eqn:H2.
  { destruct r as [|y r]; [done|]. destruct (cont y) eqn:Hy; intros [= <-]. simpl. by rewrite H1, H2, Hy. }
  destruct (in_range 224 239 x) eqn:H3.
  { destruct r as [|y [|z r]]; [done..|].
    match goal with |- (if ?c then _ else _) = _ → _ => destruct c eqn:Hyz end; intros [= <-].
    simpl. by rewrite H1, H2, H3, Hyz. }
  destruct (in_range 240 244 x) eqn:H4; [|done].
  destruct r as [|y [|z [|t r]]]; [done..|].
  match goal with |- (if ?c then _ else _) = _ → _ => destruct c eqn:Hyz end; intros [= <-].
  simpl. by rewrite H1, H2, H3, H4, Hyz.
Qed.

Lemma rune_step x r f rest :
  128 ≤ code x → rune_len (x :: r) = S (length r) →
  parse_string (S f) ((x :: r) ++ rest)
  = match parse_string f rest with Some (s, r') => Some ((x :: r) ++ s, r') | None => None end.
Proof.
  intros Hx Hr. cbn [parse_string app].
  assert (is_quote x = false) as ->
    by (apply bool_decide_eq_false; intros ->; revert Hx; vm_compute; congruence).
  assert (eqc x "\" = false) as ->
    by (apply bool_decide_eq_false; intros ->; revert Hx; vm_compute; congruence).
  assert ((code x <? 32) = false) as -> by (apply Z.ltb_ge; lia).
  change (x :: r ++ rest) with ((x :: r) ++ rest). rewrite rune_len_app by done.
  change (S (length r)) with (length (x :: r)). by rewrite take_app_length, drop_app_length.
Qed.

Lemma escape_rune_step u f rest :
  (∃ x r, u = x :: r ∧ 128 ≤ code x ∧ rune_len u = S (length r)) →
  parse_string (S f) (escape_rune u ++ rest)
  = match parse_string f rest with Some (s, r') => Some (u ++ s, r') | None => None end.
Proof.
  intros (x & r & -> & Hx & Hr). unfold escape_rune.
  case_decide as H1; [rewrite H1; reflexivity|]. case_decide as H2; [rewrite H2; reflexivity|].
  by apply rune_step.
Qed.

Lemma replacement_step f rest :
  parse_string (S f) (bs "\ufffd" ++ rest)
  = match parse_string f rest with Some (s, r') => Some (replacement ++ s, r') | None => None end.
Proof. reflexivity. Qed.

(** ** Strings come back valid *)

Lemma rune_len_ascii c r : (code c <? 128) = true → rune_len (c :: r) = 1%nat.
Proof. intros H. unfold rune_len. by rewrite H. Qed.

Lemma parse_escape n s f rest :
  (length s ≤ n)%nat → (n < f)%nat →
  parse_string f (escape_fuel n s ++ Byte.x22 :: rest) = Some (to_valid_fuel n s, rest).
Proof.
  revert s f. induction n as [|n IH]; intros s [|f] Hs Hf; try lia.
  { by destruct s. }
  destruct s as [|c r]; [done|]. cbn [escape_fuel to_valid_fuel]. simpl in Hs.
  destruct (code c <? 128) eqn:Hc.
  - rewrite rune_len_ascii by done. cbn [take drop]. rewrite <- app_assoc, escape_ascii_step by lia.
    by rewrite IH by lia.
  - apply Z.ltb_ge in Hc. destruct (rune_len (c :: r)) as [|k] eqn:Hk.
    + rewrite <- app_assoc, replacement_step. by rewrite IH by lia.
    + rewrite <- app_assoc, escape_rune_step.
      * rewrite IH; [done|..]; rewrite ?length_drop; simpl; lia.
      * apply rune_len_take in Hk as [Hk Hl]. exists c, (take k r). split; [done|]. split; [done|].
        rewrite Hk. by injection Hl as ->.
Qed.

Lemma to_valid_fuel_enough n s : (length s ≤ n)%nat → to_valid_fuel n s = to_valid s.
Proof.
  unfold to_valid. remember (length s) as m eqn:Hm. revert n s Hm.
  induction m as [m IH] using lt_wf_ind; intros n s Hm Hn.
  destruct s as [|c r]; [simpl in Hm; subst; by destruct n|]. simpl in Hm. subst m.
  destruct n as [|n]; [lia|]. cbn [to_valid_fuel]. destruct (rune_len (c :: r)) as [|k].
  - rewrite (IH (length r) ltac:(lia) n r eq_refl ltac:(lia)). done.
  - assert (Hd : (length (drop (S k) (c :: r)) ≤ length r)%nat) by (simpl; rewrite length_drop; lia).
    set (t := drop (S k) (c :: r)) in *. rewrite (IH (length t) ltac:(lia) n t eq_refl ltac:(lia)).
    by rewrite (IH (length t) ltac:(lia) (length r) t eq_refl ltac:(lia)).
Qed.

Lemma length_escape_ascii c : (1 ≤ length (escape_ascii c))%nat.
Proof. destruct c; vm_compute; lia. Qed.

Lemma length_escape_rune u : (length u ≤ length (escape_rune u))%nat.
Proof. unfold escape_rune. repeat case_decide; subst; vm_compute; lia. Qed.

Lemma length_escape n s : (length s ≤ n)%nat → (length s ≤ length (escape_fuel n s))%nat.
Proof.
  revert s. induction n as [|n IH]; intros [|c r] Hs; try (simpl in *; lia).
  cbn [escape_fuel]. simpl in Hs. destruct (code c <? 128).
  - rewrite length_app. pose proof (length_escape_ascii c). specialize (IH r). simpl. lia.
  - destruct (rune_len (c :: r)) as [|k] eqn:Hk; rewrite length_app.
    + specialize (IH r). change (length (bs "\ufffd")) with 6%nat. simpl. lia.
    + pose proof (length_escape_rune (take (S k) (c :: r))) as Hr.
      apply rune_len_take in Hk as [_ Hl]. specialize (IH (drop (S k) (c :: r))).
      rewrite length_drop in IH. simpl in *. lia.
Qed.

(** ** Numbers *)

Definition is_num_byte (b : byte) : bool :=
  is_digit b || eqc b "." || eqc b "e" || eqc b "E".

(** What may follow a value. *)
Definition ends (rest : bytes) : Prop :=
  match rest with [] => True | c :: _ => is_num_byte c = false end.

(** An integer literal. *)
Inductive int_literal : bytes → Prop :=
  | lit_zero : int_literal [chr "0"]
  | lit_pos c r : is_digit c = true → c ≠ chr "0" → forallb is_digit r = true → int_literal (c :: r)
  | lit_neg c r : is_digit c = true → c ≠ chr "0" → forallb is_digit r = true → int_literal (chr "-" :: c :: r).

Lemma skip_digits_all r rest : forallb is_digit r = true → ends rest → skip_digits (r ++ rest) = rest.
Proof.
  intros Hr He. induction r as [|c r IH]; simpl in *.
  - destruct rest as [|x rest]; [done|]. simpl in *. unfold is_num_byte in He.
    destruct (is_digit x); [done|]. done.
  - apply andb_true_iff in Hr as [-> Hr]. by apply IH.
Qed.

Lemma number_tail rest : ends rest → (f ← number_frac rest; number_exp f) = Some rest.
Proof.
  destruct rest as [|c rest]; [done|]. simpl. unfold is_num_byte. rewrite !orb_false_iff.
  intros (((Hd & Hp) & He) & HE). rewrite Hp. simpl. by rewrite He, HE.
Qed.

Lemma number_int_lit c r rest :
  is_digit c = true → c ≠ chr "0" → forallb is_digit r = true → ends rest →
  number_int (c :: r ++ rest) = Some rest.
Proof.
  intros Hc H0 Hr He. unfold number_int. unfold eqc. rewrite bool_decide_eq_false_2 by done.
  rewrite Hc. by rewrite skip_digits_all.
Qed.

Lemma parse_number_int raw rest :
  int_literal raw → ends rest → parse_number (raw ++ rest) = Some rest.
Proof.
  intros Hl He. unfold parse_number. destruct Hl as [|c r Hc H0 Hr|c r Hc H0 Hr].
  - simpl. by apply number_tail.
  - cbn [app]. assert (eqc c "-" = false) as ->.
    { apply bool_decide_eq_false. intros ->. by vm_compute in Hc. }
    rewrite number_int_lit by done. by apply number_tail.
  - cbn [app]. change (eqc (chr "-") "-") with true. cbv iota.
    rewrite number_int_lit by done. by apply number_tail.
Qed.

(** Its first byte is a digit or a minus, and no other byte. *)
Lemma int_literal_head raw :
  int_literal raw →
  ∃ c r, raw = c :: r ∧ ∀ x, is_digit x = false → x ≠ chr "-" → bool_decide (c = x) = false.
Proof.
  intros Hl. assert (∃ c r, raw = c :: r ∧ (is_digit c = true ∨ c = chr "-")) as (c & r & -> & Hc).
  { destruct Hl; eauto. }
  exists c, r. split; [done|]. intros x Hx Hm. apply bool_decide_eq_false. intros ->.
  destruct Hc; congruence.
Qed.

Lemma parse_scalar_int raw rest :
  int_literal raw → ends rest → parse_scalar (raw ++ rest) = Some (JNum raw, rest).
Proof.
  intros Hl He. pose proof (parse_number_int raw rest Hl He) as Hp.
  destruct (int_literal_head raw Hl) as (c & r & -> & Hne). unfold parse_scalar, eqc. cbn [app] in *.
  rewrite !Hne by done. rewrite Hp. simpl.
  do 3 f_equal. rewrite length_app.
  change (c :: r ++ rest) with ((c :: r) ++ rest).
  replace (S (length r + length rest) - length rest)%nat with (length (c :: r)) by (simpl; lia).
  apply take_app_length.
Qed.

(** ** Values *)

(** Numbers are integer literals; arrays and objects nest at most [n] deep. *)
#[warnings="-register-all"]
Inductive json_ok : nat → json → Prop :=
  | ok_null n : json_ok n JNull
  | ok_bool n b : json_ok n (JBool b)
  | ok_num n raw : int_literal raw → json_ok n (JNum raw)
  | ok_str n s : json_ok n (JStr s)
  | ok_arr n l : Forall (json_ok n) l → json_ok (S n) (JArr l)
  | ok_obj n l : Forall (λ kv, json_ok n kv.2) l → json_ok (S n) (JObj l).

Lemma skip_ws_head c r : is_ws c = false → skip_ws (c :: r) = c :: r.
Proof. intros H. simpl. by rewrite H. Qed.

(** The first byte of an encoding. *)
Lemma encode_head n j :
  json_ok n j → ∃ c r, encode j = c :: r ∧ is_ws c = false ∧ eqc c "]" = false.
Proof.
  destruct 1 as [|n []|n raw Hl| | |]; simpl; try (eexists _, _; split; [reflexivity|by vm_compute]).
  destruct Hl as [|c r Hc _ _|]; try (eexists _, _; split; [reflexivity|by vm_compute]).
  exists c, r. split; [done|]. destruct c; try discriminate Hc; by vm_compute.
Qed.

Lemma parse_encode_string s f rest :
  (length (encode_string s) ≤ f)%nat →
  parse_string f (escape_fuel (length s) s ++ Byte.x22 :: rest) = Some (to_valid s, rest).
Proof.
  unfold encode_string. intros Hf. apply parse_escape; [done|].
  pose proof (length_escape (length s) s ltac:(lia)) as Hl. simpl in Hf. rewrite length_app in Hf.
  simpl in Hf. lia.
Qed.

(** Values that are no containers. *)
Lemma parse_encode_scalar n j f d rest :
  json_ok n j → match j with JArr _ | JObj _ => False | _ => True end → ends rest →
  (2 * length (encode j ++ rest) < f)%nat →
  parse_value f d (encode j ++ rest) = Some (sanitize j, rest).
Proof.
  intros Hok Hs He Hf. destruct f as [|f]; [lia|].
  destruct Hok as [n|n b|n raw Hl|n s|n l _|n l _]; [reflexivity|by destruct b|..|done|done].
  - cbn [encode parse_value]. cbn [encode sanitize].
    pose proof (parse_scalar_int raw rest Hl He) as Hp.
    destruct (int_literal_head raw Hl) as (c & r & -> & Hne). cbn [app] in *.
    rewrite skip_ws_head.
    2: { apply bool_decide_eq_false. intros Hin. rewrite !elem_of_cons in Hin.
         destruct Hin as [H|[H|[H|[H|H%elem_of_nil]]]]; [apply (bool_decide_eq_true_2 _) in H..|done];
           rewrite Hne in H; done. }
    unfold is_quote, eqc. rewrite !Hne by done.
    done.
  - cbn [encode sanitize]. unfold encode_string. cbn [parse_value app]. rewrite skip_ws_head by done.
    change (is_quote Byte.x22) with true. cbv iota. rewrite <- app_assoc. cbn [app].
    rewrite parse_encode_string; [done|].
    cbn [encode] in Hf. rewrite length_app in Hf. lia.
Qed.

Section nested.
Variable n : nat.
(** Values one level down decode. *)
Hypothesis IH : ∀ j d f rest,
  json_ok n j → d + Z.of_nat n ≤ maxNestingDepth → ends rest → (2 * length (encode j ++ rest) < f)%nat →
  parse_value f d (encode j ++ rest) = Some (sanitize j, rest).

Lemma parse_encode_elements l d f rest :
  Forall (json_ok n) l → l ≠ [] → d + Z.of_nat n ≤ maxNestingDepth →
  (2 * length (join_comma (map encode l) ++ chr "]" :: rest) + 1 < f)%nat →
  parse_elements f d (join_comma (map encode l) ++ chr "]" :: rest) = Some (map sanitize l, rest).
Proof using IH.
  revert f. induction l as [|j l IHl]; intros [|f] Hl Hne Hd Hf; try lia; [done|].
  apply Forall_cons in Hl as [Hj Hl]. cbn [parse_elements].
  destruct l as [|j' l'].
  - cbn [map join_comma] in *. rewrite IH; [|done..|lia]. by rewrite skip_ws_head.
  - change (join_comma (map encode (j :: j' :: l')))
      with (encode j ++ chr "," :: join_comma (map encode (j' :: l'))) in *.
    rewrite <- app_assoc in *. cbn [app] in *. rewrite !length_app in Hf. cbn [length] in Hf.
    rewrite IH; [|done..|rewrite !length_app; cbn [length]; rewrite ?length_app in *; simpl in *; lia].
    rewrite skip_ws_head by done. change (eqc (chr ",") "]") with false.
    change (eqc (chr ",") ",") with true. cbv iota.
    rewrite IHl; [done|done|done|done|rewrite ?length_app in *; simpl in *; lia].
Qed.

Definition encode_member (kv : bytes * json) : bytes := encode_string kv.1 ++ chr ":" :: encode kv.2.
Definition sanitize_member (kv : bytes * json) : bytes * json := (to_valid kv.1, sanitize kv.2).

Lemma parse_encode_member kv d f rest c r :
  json_ok n kv.2 → d + Z.of_nat n ≤ maxNestingDepth → rest = c :: r → is_ws c = false → is_num_byte c = false →
  (2 * length (encode_member kv ++ rest) < S f)%nat →
  parse_members (S f) d (encode_member kv ++ rest)
  = if eqc c "}" then Some ([sanitize_member kv], r)
    else if eqc c "," then
      match parse_members f d r with Some (l, r5) => Some (sanitize_member kv :: l, r5) | None => None end
    else None.
Proof using IH.
  intros Hj Hd -> Hw Hc Hf. destruct kv as [k v]. unfold encode_member in *. cbn [fst snd] in *.
  rewrite <- !app_assoc in *. unfold encode_string at 1. cbn [parse_members app].
  rewrite skip_ws_head by done. change (is_quote Byte.x22) with true. cbv iota.
  rewrite <- app_assoc. cbn [app]. rewrite ?length_app in Hf. cbn [length app] in Hf. rewrite ?length_app in Hf.
  rewrite parse_encode_string by lia. rewrite skip_ws_head by done.
  change (eqc (chr ":") ":") with true. cbv iota.
  rewrite IH; [|done..|rewrite length_app; simpl in *; lia]. by rewrite skip_ws_head.
Qed.

Lemma parse_encode_members l d f rest :
  Forall (λ kv, json_ok n kv.2) l → l ≠ [] → d + Z.of_nat n ≤ maxNestingDepth →
  (2 * length (join_comma (map encode_member l) ++ chr "}" :: rest) < f)%nat →
  parse_members f d (join_comma (map encode_member l) ++ chr "}" :: rest)
  = Some (map sanitize_member l, rest).
Proof using IH.
  revert f. induction l as [|kv l IHl]; intros [|f] Hl Hne Hd Hf; try lia; [done|].
  apply Forall_cons in Hl as [Hj Hl]. destruct l as [|kv' l'].
  - cbn [map join_comma] in *. by rewrite (parse_encode_member kv d f _ (chr "}") rest).
  - change (join_comma (map encode_member (kv :: kv' :: l')))
      with (encode_member kv ++ chr "," :: join_comma (map encode_member (kv' :: l'))) in *.
    rewrite <- app_assoc in *. cbn [app] in *. rewrite (parse_encode_member kv d f _ (chr ",") (join_comma (map encode_member (kv' :: l')) ++ chr "}" :: rest)) by done.
    change (eqc (chr ",") "}") with false. change (eqc (chr ",") ",") with true. cbv iota.
    rewrite length_app in Hf. cbn [length] in Hf.
    rewrite IHl; [done|done|done|done|simpl in *; lia].
Qed.
End nested.

(** Decoding undoes encoding, up to the validity of strings. *)
Lemma parse_encode n j d f rest :
  json_ok n j → d + Z.of_nat n ≤ maxNestingDepth → ends rest → (2 * length (encode j ++ rest) < f)%nat →
  parse_value f d (encode j ++ rest) = Some (sanitize j, rest).
Proof.
  revert j d f rest. induction n as [|n IH]; intros j d f rest Hok Hd He Hf.
  { apply (parse_encode_scalar 0); [done| |done..]. by inversion Hok. }
  destruct j as [|b|raw|s|l|l]; try (by apply (parse_encode_scalar (S n))).
  - inversion Hok as [| | | |? ? Hl|]; subst. destruct f as [|f]; [lia|].
    cbn [encode sanitize]. rewrite <- app_comm_cons, <- app_assoc. cbn [parse_value].
    rewrite skip_ws_head by done. change (is_quote (chr "[")) with false.
    change (eqc (chr "[") "{") with false. change (eqc (chr "[") "[") with true. cbv iota.
    rewrite (proj2 (Z.ltb_ge _ _)) by lia. destruct l as [|j l]; [done|].
    assert (∃ c r, join_comma (map encode (j :: l)) = c :: r ∧ is_ws c = false ∧ eqc c "]" = false)
      as (c & r & Hc & Hw & Hb).
    { apply Forall_cons in Hl as [Hj _]. destruct (encode_head n j Hj) as (c & r & Hc & ? & ?).
      destruct l; simpl; rewrite Hc; eauto. }
    cbn [encode] in Hf. rewrite <- app_comm_cons, <- app_assoc in Hf. cbn [length] in Hf.
    pose proof (parse_encode_elements n IH (j :: l) (d + 1) f rest Hl) as Hp.
    rewrite Hc in *. cbn [app] in *. rewrite skip_ws_head, Hb by done.
    rewrite Hp; [done|done|lia|simpl in *; lia].
  - inversion Hok as [| | | | |? ? Hl]; subst. destruct f as [|f]; [lia|].
    cbn [encode sanitize]. change (λ kv, encode_string kv.1 ++ chr ":" :: encode kv.2) with encode_member.
    change (λ kv, (to_valid kv.1, sanitize kv.2)) with sanitize_member.
    rewrite <- app_comm_cons, <- app_assoc. cbn [parse_value].
    rewrite skip_ws_head by done. change (is_quote (chr "{")) with false.
    change (eqc (chr "{") "{") with true. cbv iota.
    rewrite (proj2 (Z.ltb_ge _ _)) by lia. destruct l as [|kv l]; [done|].
    assert (∃ r, join_comma (map encode_member (kv :: l)) = Byte.x22 :: r) as (r & Hc).
    { destruct l; simpl; unfold encode_member, encode_string; eauto. }
    cbn [encode] in Hf. change (λ kv, encode_string kv.1 ++ chr ":" :: encode kv.2) with encode_member in Hf.
    rewrite <- app_comm_cons, <- app_assoc in Hf. cbn [length] in Hf.
    pose proof (parse_encode_members n IH (kv :: l) (d + 1) f rest Hl) as Hp.
    rewrite Hc in *. cbn [app] in *. rewrite skip_ws_head by done.
    change (eqc Byte.x22 "}") with false. cbv iota.
    rewrite Hp; [done|done|lia|simpl in *; lia].
Qed.

(** ** Decimal integers are literals *)

Lemma pretty_N_char_is_digit x :
  is_digit (chr (pretty_N_char x)) = true ∧ ((0 < x)%N → chr (pretty_N_char x) ≠ chr "0").
Proof.
  unfold pretty_N_char. destruct x as [|p]; [split; [done|lia]|].
  repeat (first [by split|case_match]).
Qed.

Lemma pretty_N_go_literal x s :
  (0 < x)%N → forallb is_digit (bs s) = true →
  ∃ c r, bs (pretty_N_go x s) = c :: r ∧ is_digit c = true ∧ c ≠ chr "0" ∧ forallb is_digit r = true.
Proof.
  revert s. induction (N.lt_wf_0 x) as [x _ IH]; intros s Hx Hs.
  rewrite pretty_N_go_step by done.
  destruct (decide (x < 10)%N) as [Hlt|Hge].
  - rewrite N.div_small, N.mod_small, pretty_N_go_0 by done.
    exists (chr (pretty_N_char x)), (bs s). destruct (pretty_N_char_is_digit x). auto.
  - apply IH; [by apply N.div_lt|apply N.div_str_pos; lia|].
    change (bs (String ?c s)) with (chr c :: bs s). cbn [forallb].
    by rewrite (proj1 (pretty_N_char_is_digit _)).
Qed.

Lemma pretty_int_literal (z : Z) : int_literal (bs (pretty z)).
Proof.
  assert (Hp : ∀ p, ∃ c r, bs (pretty_N_go (Npos p) "") = c :: r ∧ is_digit c = true ∧ c ≠ chr "0"
    ∧ forallb is_digit r = true) by (intros p; by apply pretty_N_go_literal).
  destruct z as [|p|p]; [constructor|..]; destruct (Hp p) as (c & r & Hb & Hc & H0 & Hr).
  - change (pretty (Z.pos p)) with (pretty_N_go (Npos p) ""). rewrite Hb. by constructor.
  - change (pretty (Z.neg p)) with (String "-" (pretty_N_go (Npos p) "")).
    change (bs (String "-" (pretty_N_go (Npos p) ""))) with (chr "-" :: bs (pretty_N_go (Npos p) "")).
    rewrite Hb. by constructor.
Qed.

(** ** Valid UTF-8 *)

Inductive valid_utf8 : bytes → Prop :=
  | valid_nil : valid_utf8 []
  | valid_rune x r s :
      rune_len (x :: r) = S (length r) → valid_utf8 s → valid_utf8 ((x :: r) ++ s).

Lemma to_valid_id s : valid_utf8 s → to_valid s = s.
Proof.
  unfold to_valid. induction 1 as [|x r s Hr Hs IH]; [done|].
  rewrite length_app. cbn [length Nat.add app to_valid_fuel].
  change (x :: r ++ s) with ((x :: r) ++ s). rewrite rune_len_app by done.
  change (S (length r)) with (length (x :: r)). rewrite take_app_length, drop_app_length.
  rewrite to_valid_fuel_enough by lia. unfold to_valid. by rewrite IH.
Qed.
