(* ===== verification/Http.v ===== *)
(** The HTTP server: the parts of net/http the program uses, the middleware
    chain (src/internal/server/middleware), the limiter's and the
    authenticator's middleware, and the server that composes them
    (src/internal/server/server.go).

    A handler is a function of the request and of the state it acts on: the
    response writer, the log, the limiter and the store's world.  The
    response writer is the connection below a stack of status recorders, the
    way the middleware wraps it.  Writes to the connection do not fail. *)

From S2P Require Import Prelude GoTime Env Store AesGcm GoLib Json JsonEnc Auth Api Net RateLimit.

(** ** Requests *)

(** Canonical header name to its first value. *)
Abbreviation header := (gmap string string).
Definition Get (h : header) (k : string) : string := default "" (h !! k).

(** What reading a request body yields: its bytes, then the end or an error. *)
Record body_stream := mk_body { b_data : bytes; b_err : option error }.

Record Req := mk_Req {
  r_Method : string;
  r_Path : string;                 (* r.URL.Path *)
  r_EscapedPath : string;          (* r.URL.EscapedPath() *)
  r_RawQuery : string;
  r_Header : header;
  r_RemoteAddr : string;
  r_Body : option body_stream;     (* None is nil *)
  r_user : option User;            (* the context's ctxUserKey *)
  r_requestID : option string;     (* the context's requestIDKey *)
}.

Definition with_body (r : Req) (b : option body_stream) : Req :=
  mk_Req (r_Method r) (r_Path r) (r_EscapedPath r) (r_RawQuery r) (r_Header r) (r_RemoteAddr r) b
    (r_user r) (r_requestID r).
Definition with_remote (r : Req) (a : string) : Req :=
  mk_Req (r_Method r) (r_Path r) (r_EscapedPath r) (r_RawQuery r) (r_Header r) a (r_Body r)
    (r_user r) (r_requestID r).
Definition with_user (r : Req) (u : User) : Req :=
  mk_Req (r_Method r) (r_Path r) (r_EscapedPath r) (r_RawQuery r) (r_Header r) (r_RemoteAddr r)
    (r_Body r) (Some u) (r_requestID r).
Definition with_requestID (r : Req) (id : string) : Req :=
  mk_Req (r_Method r) (r_Path r) (r_EscapedPath r) (r_RawQuery r) (r_Header r) (r_RemoteAddr r)
    (r_Body r) (r_user r) (Some id).

(** auth.UserFromContext. *)
Definition UserFromContext (r : Req) : option User := r_user r.

(** ** The connection *)

Record conn := mk_conn {
  c_head : bool;                   (* the request is HEAD: no body is sent *)
  c_header : header;               (* w.Header() *)
  c_sent : option (Z * header);    (* the status line and headers sent *)
  c_body : bytes;
}.

Definition bodyAllowed (status : Z) : bool :=
  negb ((100 <=? status) && (status <=? 199)) && negb (status =? 204) && negb (status =? 304).

Definition conn_WriteHeader (code : Z) (c : conn) : conn :=
  match c_sent c with
  | Some _ => c
  | None => mk_conn (c_head c) (c_header c) (Some (code, c_header c)) (c_body c)
  end.

(** The count of bytes accepted, and the connection. *)
Definition conn_Write (p : bytes) (c : conn) : nat * conn :=
  let c := conn_WriteHeader 200 c in
  let status := match c_sent c with Some (code, _) => code | None => 200 end in
  if bodyAllowed status
  then (length p, mk_conn (c_head c) (c_header c) (c_sent c) (if c_head c then c_body c else c_body c ++ p))
  else (0%nat, c).

(** What the client receives once the handler has returned. *)
Definition reply (c : conn) : Z * header * bytes :=
  match c_sent c with
  | Some (code, h) => (code, h, c_body c)
  | None => (200, c_header c, c_body c)
  end.

(** ** statusRecorder (middleware.go) *)

Record statusRecorder := mk_statusRecorder { sr_status : Z; sr_bytes : Z; sr_wroteHeader : bool }.

(** The recorders around a connection, innermost wrapper first. *)
Fixpoint rec_WriteHeader (code : Z) (recs : list statusRecorder) (c : conn)
    : list statusRecorder * conn :=
  match recs with
  | [] => ([], conn_WriteHeader code c)
  | s :: below =>
      if sr_wroteHeader s then (recs, c)
      else let '(below', c') := rec_WriteHeader code below c in
           (mk_statusRecorder code (sr_bytes s) true :: below', c')
  end.

Fixpoint rec_Write (p : bytes) (recs : list statusRecorder) (c : conn)
    : nat * list statusRecorder * conn :=
  match recs with
  | [] => let '(n, c') := conn_Write p c in (n, [], c')
  | s :: below =>
      let s1 := if sr_wroteHeader s then s else mk_statusRecorder 200 (sr_bytes s) true in
      let '(n, below', c') := rec_Write p below c in
      (n, mk_statusRecorder (sr_status s1) (sr_bytes s1 + Z.of_nat n) (sr_wroteHeader s1) :: below', c')
  end.

(** Flush goes down to the connection, which sends its header if it has not;
    the recorders do not notice. *)
Definition conn_Flush (c : conn) : conn := conn_WriteHeader 200 c.
Fixpoint rec_Flush (recs : list statusRecorder) (c : conn) : conn :=
  match recs with
  | [] => conn_Flush c
  | _ :: below => rec_Flush below c
  end.

(** ** Handlers *)

Inductive panic_value := ErrAbortHandler | PanicValue (ty msg : string).

(** How a handler ended; [Pending] has not returned yet. *)
Inductive flow := Done | Panicking (v : panic_value) | Pending.

Inductive log_entry :=
  | LAccess (method path : string) (status : Z) (duration_ms bytes : Z)
            (remote_ip request_id user_agent : string)
  | LPanic (request_id method path panic_type panic : string)   (* and the stack *)
  | LUnauthorized
  | LAuthorized (user_id : Z) (user_name : string)
  | LRateLimited (key_type : string)
  | LApi (l : LogRecord).

(** What the system gives to one request: 16 random bytes or none, the time for
    the fallback of a request ID, the monotonic clock at the limiter, and the
    request's duration. *)
Record Ambient := mk_Ambient {
  am_rand : option bytes;
  am_time : Time;
  am_now : Z;
  am_duration_ms : Z;
}.

Section server.
Context {W : Type} {ES : EncryptedStore W}.

Record hstate := mk_hstate {
  h_recs : list statusRecorder;
  h_conn : conn;
  h_log : list log_entry;
  h_lim : Limiter;
  h_world : W;
}.

Definition HandlerFunc : Type := Req → hstate → flow * hstate.
Definition Middleware : Type := HandlerFunc → HandlerFunc.

Definition set_writer (s : hstate) (recs : list statusRecorder) (c : conn) : hstate :=
  mk_hstate recs c (h_log s) (h_lim s) (h_world s).

(** [w.Header().Set(k, v)]. *)
Definition SetHeader (k v : string) (s : hstate) : hstate :=
  let c := h_conn s in
  set_writer s (h_recs s) (mk_conn (c_head c) (<[k := v]> (c_header c)) (c_sent c) (c_body c)).

Definition WriteHeader (code : Z) (s : hstate) : hstate :=
  let '(recs, c) := rec_WriteHeader code (h_recs s) (h_conn s) in set_writer s recs c.

Definition Write (p : bytes) (s : hstate) : hstate :=
  let '(_, recs, c) := rec_Write p (h_recs s) (h_conn s) in set_writer s recs c.

Definition Flush (s : hstate) : hstate := set_writer s (h_recs s) (rec_Flush (h_recs s) (h_conn s)).

Definition LogAttrs (l : log_entry) (s : hstate) : hstate :=
  mk_hstate (h_recs s) (h_conn s) (h_log s ++ [l]) (h_lim s) (h_world s).

Definition push_recorder (rec : statusRecorder) (s : hstate) : hstate :=
  set_writer s (rec :: h_recs s) (h_conn s).
Definition pop_recorder (s : hstate) : hstate := set_writer s (tail (h_recs s)) (h_conn s).
Definition top_recorder (s : hstate) : statusRecorder :=
  default (mk_statusRecorder 0 0 false) (head (h_recs s)).

Definition text_plain : string := "text/plain; charset=utf-8".
Definition application_json : string := "application/json; charset=utf-8".

(** Headers, a status line and a body, in the order the code writes them. *)
Definition respond (hs : list (string * string)) (code : Z) (body : bytes) (s : hstate) : hstate :=
  Write body (WriteHeader code (foldl (λ s kv, SetHeader kv.1 kv.2 s) s hs)).

Definition newline : bytes := [Byte.x0a].

(** ** The middleware *)

Definition Chain (h : HandlerFunc) (mws : list (option Middleware)) : HandlerFunc :=
  foldr (λ mw h, match mw with Some f => f h | None => h end) h mws.

Definition security_headers : list (string * string) :=
  [("X-Content-Type-Options", "nosniff"); ("Referrer-Policy", "no-referrer");
   ("Cache-Control", "no-store"); ("Content-Security-Policy", "frame-ancestors 'none'");
   ("X-Frame-Options", "DENY")].

Definition SecurityHeaders : Middleware := λ next r s,
  next r (foldl (λ s kv, SetHeader kv.1 kv.2 s) s security_headers).

Definition cors_headers : list (string * string) :=
  [("Access-Control-Allow-Origin", "*");
   ("Access-Control-Allow-Methods", "GET, HEAD, POST, PATCH, PUT, DELETE, OPTIONS");
   ("Access-Control-Allow-Headers", "Authorization, Content-Type, X-Request-Id");
   ("Access-Control-Max-Age", "600")].

Definition CORS : Middleware := λ next r s,
  let s := foldl (λ s kv, SetHeader kv.1 kv.2 s) s cors_headers in
  if decide (r_Method r = "OPTIONS") then (Done, WriteHeader 204 s)
  else next r s.

Definition defaultTrustedProxyCIDRs : list string :=
  ["127.0.0.0/8"; "::1/128"; "10.0.0.0/8"; "172.16.0.0/12"; "192.168.0.0/16"; "fc00::/7"].

Definition isTrusted (nets : list IPNet) (addr : string) : bool :=
  let host := match SplitHostPort addr with Some (host, _) => host | None => addr end in
  match ParseIP host with
  | None => false
  | Some ip => existsb (λ n, Contains n ip) nets
  end.

(** [strings.TrimSpace(strings.Split(xff, ",")[0])]. *)
Definition first_hop (xff : string) : string :=
  match split_byte (chr ",") (bytes_of_string xff) with
  | hop :: _ => TrimSpace (string_of_bytes hop)
  | [] => ""
  end.

Definition trusted_proxy (nets : list IPNet) : Middleware := λ next r s,
  let xff := Get (r_Header r) "X-Forwarded-For" in
  if bool_decide (xff = "") || negb (isTrusted nets (r_RemoteAddr r)) then next r s
  else
    let client := first_hop xff in
    match ParseIP client with
    | None => next r s
    | Some _ => next (with_remote r (JoinHostPort client "0")) s
    end.

(** [None] is the error of a CIDR that does not parse. *)
Definition TrustedProxy (cidrs : option (list string)) : option Middleware :=
  trusted_proxy <$> mapM ParseCIDR (default defaultTrustedProxyCIDRs cidrs).

Definition HeaderRequestID : string := "X-Request-Id".

(** [^[A-Za-z0-9._-]{1,64}$]. *)
Definition requestIDPattern (id : string) : bool :=
  (1 <=? slen id) && (slen id <=? 64)
  && forallb (λ b, is_upper b || is_lower b || is_digit b || bool_decide (b ∈ [chr "."; chr "_"; chr "-"]))
       (bytes_of_string id).

(** [t.UTC().Format("20060102T150405.000000000")]. *)
Definition Format_compact (t : Time) : string :=
  let days := t `div` (day_seconds * GoTime.Second) in
  let ns := t `mod` (day_seconds * GoTime.Second) in
  let c := civil_of_days days in
  let s := ns `div` GoTime.Second in
  fmt_year (c_year c) +:+ digits 2 (c_month c) +:+ digits 2 (c_day c) +:+ "T"
  +:+ digits 2 (s `div` 3600) +:+ digits 2 (s `div` 60 `mod` 60) +:+ digits 2 (s `mod` 60)
  +:+ "." +:+ digits 9 (ns `mod` GoTime.Second).

Definition newRequestID (a : Ambient) : string :=
  match am_rand a with
  | Some buf => EncodeToString buf
  | None => "ts-" +:+ Format_compact (am_time a)
  end.

Definition RequestID (a : Ambient) : Middleware := λ next r s,
  let id := Get (r_Header r) HeaderRequestID in
  let id := if negb (requestIDPattern id) then newRequestID a else id in
  next (with_requestID r id) (SetHeader HeaderRequestID id s).

Definition FromContext (r : Req) : string * bool :=
  match r_requestID r with
  | Some v => (v, bool_decide (v ≠ ""))
  | None => ("", false)
  end.
Definition MustFromContext (r : Req) : string := (FromContext r).1.

Definition remoteIP (remoteAddr : string) : string :=
  if decide (remoteAddr = "") then ""
  else match SplitHostPort remoteAddr with None => remoteAddr | Some (host, _) => host end.

Definition AccessLog (a : Ambient) : Middleware := λ next r s,
  match next r (push_recorder (mk_statusRecorder 200 0 false) s) with
  | (Done, s') =>
      let rec := top_recorder s' in
      (Done, LogAttrs (LAccess (r_Method r) (r_Path r) (sr_status rec) (am_duration_ms a) (sr_bytes rec)
                         (remoteIP (r_RemoteAddr r)) (MustFromContext r) (Get (r_Header r) "User-Agent"))
               (pop_recorder s'))
  | (f, s') => (f, pop_recorder s')
  end.

Definition Recover : Middleware := λ next r s,
  match next r (push_recorder (mk_statusRecorder 0 0 false) s) with
  | (Panicking (PanicValue ty msg), s') =>
      let s' := LogAttrs (LPanic (MustFromContext r) (r_Method r) (r_Path r) ty msg) s' in
      if sr_wroteHeader (top_recorder s') then (Done, pop_recorder s')
      else (Done, pop_recorder (respond [("Content-Type", text_plain)] 500
                                  (bs "internal server error" ++ newline) s'))
  | (f, s') => (f, pop_recorder s')
  end.

Definition DefaultMaxBodyBytes : Z := Z.shiftl 2 20.

(** [io.ReadAll(io.LimitReader(body, limit+1))]: the error shows only when it
    comes before the limit. *)
Definition read_limited (limit : Z) (b : body_stream) : bytes * option error :=
  if limit + 1 <=? Z.of_nat (length (b_data b)) then (take (Z.to_nat (limit + 1)) (b_data b), None)
  else (b_data b, b_err b).

Definition MaxBodyBytes (limit : Z) : Middleware := λ next r s,
  let limit := if limit <? 0 then 0 else limit in
  match r_Body r with
  | None => next r s
  | Some b =>
      match read_limited limit b with
      | (_, Some _) => (Done, respond [("Content-Type", text_plain)] 400 (bs "invalid request body" ++ newline) s)
      | (buf, None) =>
          if limit <? Z.of_nat (length buf)
          then (Done, respond [("Content-Type", text_plain)] 413 (bs "request body too large" ++ newline) s)
          else next (with_body r (Some (mk_body buf None))) s
      end
  end.

(** ** Authentication and rate limiting *)

Definition quote : string := string_of_bytes [Byte.x22].
Definition error_body (code : string) : bytes :=
  bs ("{" +:+ quote +:+ "error" +:+ quote +:+ ":" +:+ quote +:+ code +:+ quote +:+ "}") ++ newline.

Definition writeUnauthorized (s : hstate) : hstate :=
  respond [("Content-Type", application_json);
           ("WWW-Authenticate", "Bearer realm=" +:+ quote +:+ "tabby-sync" +:+ quote)]
    401 (error_body "unauthorized") s.

(** auth.Bearer(store, logger), with the snapshot in force. *)
Definition BearerMW (snap : userSnapshot) : Middleware := λ next r s,
  match Bearer snap (Get (r_Header r) "Authorization") with
  | None => (Done, writeUnauthorized (LogAttrs LUnauthorized s))
  | Some user => next (with_user r user) (LogAttrs (LAuthorized (u_ID user) (u_Name user)) s)
  end.

Definition auth_None : Middleware := λ next, next.

Definition routeAwareAuth (authMW : option Middleware) : Middleware := λ next r s,
  let guarded := default auth_None authMW next in
  if bool_decide (r_Path r = "/healthz")
     && (bool_decide (r_Method r = "GET") || bool_decide (r_Method r = "HEAD"))
  then next r s
  else guarded r s.

Definition set_limiter (s : hstate) (l : Limiter) : hstate :=
  mk_hstate (h_recs s) (h_conn s) (h_log s) l (h_world s).

(** [strconv.Itoa(int(window.Seconds()))]. *)
Definition retry_after (l : Limiter) : string := pretty (f_trunc (Seconds (window l))).

(** ratelimit.Middleware. *)
Definition RateLimitMW (a : Ambient) : Middleware := λ next r s,
  let user := u_ID <$> UserFromContext r in
  let '(ok, lim) := Allow (extractKey user (r_RemoteAddr r)) (am_now a) (h_lim s) in
  let s := set_limiter s lim in
  if negb ok then
    (Done, respond [("Content-Type", application_json); ("Retry-After", retry_after lim)] 429
             (error_body "rate limit exceeded") (LogAttrs (LRateLimited (keyType user)) s))
  else next r s.
End server.
