(* ===== verification/Server.v ===== *)
(** The server: routing (net/http's ServeMux for the patterns that
    server.New and api.New register), the API handlers behind it, and the
    handler chain (src/internal/server/server.go, src/internal/api/api.go). *)

From S2P Require Import Prelude GoTime Env Store AesGcm GoLib Json JsonEnc Auth Api Net RateLimit Config Http.

(** ** Paths *)

Definition slash : byte := chr "/".

(** path.Clean of a rooted path, on its segments. *)
Fixpoint clean_segments (kept : list bytes) (segs : list bytes) : list bytes :=
  match segs with
  | [] => rev kept
  | s :: rest =>
      if bool_decide (s = []) || bool_decide (s = bs ".") then clean_segments kept rest
      else if decide (s = bs "..") then clean_segments (tail kept) rest
      else clean_segments (s :: kept) rest
  end.

Fixpoint rooted (segs : list bytes) : bytes :=
  match segs with
  | [] => []
  | s :: rest => slash :: s ++ rooted rest
  end.

Definition cleanPath (p : bytes) : bytes :=
  match p with
  | [] => [slash]
  | _ =>
      let p := if decide (head p = Some slash) then p else slash :: p in
      let segs := clean_segments [] (split_byte slash p) in
      match segs with
      | [] => [slash]
      | _ => rooted segs ++ (if decide (last p = Some slash) then [slash] else [])
      end
  end.

(** url.PathUnescape; an invalid escape leaves the segment as it is. *)
Fixpoint unescape (b : bytes) : option bytes :=
  match b with
  | [] => Some []
  | c :: r =>
      if decide (c = chr "%") then
        match r with
        | x :: y :: r' =>
            h ← hex_value x; l ← hex_value y; t ← unescape r'; Some (byte_of_Z (16 * h + l) :: t)
        | _ => None
        end
      else t ← unescape r; Some (c :: t)
  end.
Definition pathUnescape (b : bytes) : bytes := default b (unescape b).

(** The segments of a rooted path, unescaped; a trailing slash is a last
    segment of its own. *)
Inductive segment := Seg (s : string) | Slash.

Fixpoint segments_of (segs : list bytes) : list segment :=
  match segs with
  | [] => []
  | [[]] => [Slash]
  | s :: rest => Seg (string_of_bytes (pathUnescape s)) :: segments_of rest
  end.
Definition segments (p : bytes) : list segment :=
  match p with
  | c :: r => if decide (c = slash) then segments_of (split_byte slash r) else []
  | [] => []
  end.

(** ** Routes *)

Inductive route :=
  | RHealthz
  | RApi (ep : Endpoint) (id : string)
  | RRedirect
  | RMethodNotAllowed (allow : string)
  | RNotFound.

Definition is_get (m : string) : bool := bool_decide (m = "GET") || bool_decide (m = "HEAD").

(** The patterns of api.New. *)
Definition api_route (m : string) (segs : list segment) : route :=
  match segs with
  | [Seg "api"; Seg "1"; Seg "user"] =>
      if is_get m then RApi GetUser "" else RMethodNotAllowed "GET, HEAD"
  | [Seg "api"; Seg "1"; Seg "configs"] =>
      if is_get m then RApi ListConfigs ""
      else if decide (m = "POST") then RApi CreateConfigEP ""
      else RMethodNotAllowed "GET, HEAD, POST"
  | [Seg "api"; Seg "1"; Seg "configs"; Seg id] =>
      if is_get m then RApi GetConfigEP id
      else if decide (m = "PATCH") then RApi PatchConfigEP id
      else if decide (m = "DELETE") then RApi DeleteConfigEP id
      else RMethodNotAllowed "DELETE, GET, HEAD, PATCH"
  | _ => RNotFound
  end.

(** The patterns of server.New, with the API mounted at /api/1/ when there is
    one. *)
Definition server_route (api : bool) (m : string) (epath : string) : route :=
  let raw := bytes_of_string epath in
  let p := if decide (m = "CONNECT") then raw else cleanPath raw in
  match segments p with
  | [Seg "api"; Seg "1"] =>
      if api then RRedirect else if decide (p = raw) then RNotFound else RRedirect
  | segs =>
      if negb (bool_decide (p = raw)) then RRedirect
      else
        match segs with
        | [Seg "healthz"] => if is_get m then RHealthz else RMethodNotAllowed "GET, HEAD"
        | Seg "api" :: Seg "1" :: _ => if api then api_route m segs else RNotFound
        | _ => RNotFound
        end
  end.

(** ** Response bodies *)

Definition config_json (r : configResponse) : json :=
  JObj [(bs "id", json_int (cr_ID r)); (bs "name", json_string (cr_Name r));
        (bs "content", json_string (cr_Content r));
        (bs "last_used_with_version", json_string_ptr (cr_LastUsedWithVersion r));
        (bs "created_at", json_string (cr_CreatedAt r)); (bs "modified_at", json_string (cr_ModifiedAt r))].

Definition body_json (b : Body) : json :=
  match b with
  | BUser r => JObj [(bs "id", json_int (ur_ID r)); (bs "name", json_string (ur_Name r));
                     (bs "active_config", match ur_ActiveConfig r with
                                          | Some i => json_int i
                                          | None => JNull
                                          end)]
  | BConfigs l => JArr (config_json <$> l)
  | BConfig r => config_json r
  | BError code => JObj [(bs "error", json_string code)]
  | BEmpty => JNull
  end.

(** json.NewEncoder(w).Encode(body). *)
Definition body_bytes (b : Body) : bytes := encode (body_json b) ++ newline.

Section server.
Context {W : Type} {ES : EncryptedStore W}.
(** The Location of a redirect to the canonical form of a request's URL, and
    its HTML body: net/http's text. *)
Variable redirect_url : Req → string.
Variable redirect_page : Req → bytes.

Abbreviation hstate := (@hstate W).
Abbreviation HandlerFunc := (@HandlerFunc W).
Abbreviation Middleware := (@Middleware W).

(** writeJSON, or WriteHeader alone for an empty body. *)
Definition write_response (resp : Response) (s : hstate) : hstate :=
  match rs_body resp with
  | BEmpty => WriteHeader (rs_status resp) s
  | b => respond [("Content-Type", application_json)] (rs_status resp) (body_bytes b) s
  end.

(** The request as the API handlers read it. *)
Definition api_request (r : Req) (id : string) : Request :=
  mk_Request (UserFromContext r) id (b_data <$> r_Body r).

Definition api_handler (rounds : nat) (ep : Endpoint) (id : string) : HandlerFunc := λ r s,
  match serve rounds ep (api_request r id) (h_world s) with
  | (None, w) => (Pending, mk_hstate (h_recs s) (h_conn s) (h_log s) (h_lim s) w)
  | (Some (resp, logs), w) =>
      (Done, write_response resp
               (mk_hstate (h_recs s) (h_conn s) (h_log s ++ (LApi <$> logs)) (h_lim s) w))
  end.

(** [http.Error]. *)
Definition http_Error (hs : list (string * string)) (msg : string) (code : Z) (s : hstate) : hstate :=
  respond (hs ++ [("Content-Type", text_plain); ("X-Content-Type-Options", "nosniff")]) code
    (bs msg ++ newline) s.

Definition healthz : HandlerFunc := λ r s,
  (Done, respond [("Content-Type", text_plain)] 200 (bs "ok" ++ newline) s).

(** [http.Redirect] with 301. *)
Definition redirect : HandlerFunc := λ r s,
  let s := SetHeader "Location" (redirect_url r) s in
  let s := if is_get (r_Method r) then SetHeader "Content-Type" "text/html; charset=utf-8" s else s in
  let s := WriteHeader 301 s in
  (Done, if decide (r_Method r = "GET") then Write (redirect_page r) s else s).

(** The mux of server.New with the API at /api/1/. *)
Definition server_mux (rounds : nat) (api : bool) : HandlerFunc := λ r s,
  if decide (r_EscapedPath r = "*") then (Done, WriteHeader 400 (SetHeader "Connection" "close" s))
  else
    match server_route api (r_Method r) (r_EscapedPath r) with
    | RHealthz => healthz r s
    | RApi ep id => api_handler rounds ep id r s
    | RRedirect => redirect r s
    | RMethodNotAllowed allow => (Done, http_Error [("Allow", allow)] "Method Not Allowed" 405 s)
    | RNotFound => (Done, http_Error [] "404 page not found" 404 s)
    end.

(** [None] is the panic on default CIDRs that do not parse. *)
Definition buildHandler (a : Ambient) (mux : HandlerFunc) (authMW : option Middleware) (limiter : bool)
    : option HandlerFunc :=
  match TrustedProxy None with
  | None => None
  | Some trustedProxy =>
      Some (Chain mux
        ([Some SecurityHeaders; Some CORS; Some trustedProxy; Some (RequestID a); Some (AccessLog a);
          Some Recover; Some (MaxBodyBytes DefaultMaxBodyBytes); Some (routeAwareAuth authMW)]
         ++ if limiter then [Some (RateLimitMW a)] else []))
  end.

(** ** server.New *)

Record http_Server := mk_http_Server {
  srv_Addr : string;
  srv_Handler : HandlerFunc;
  srv_ReadHeaderTimeout : Z;
  srv_ReadTimeout : Z;
  srv_WriteTimeout : Z;
  srv_IdleTimeout : Z;
  srv_MaxHeaderBytes : Z;
}.

Definition defaultReadHeaderTimeout : Z := 5 * Second.
Definition defaultReadTimeout : Z := 15 * Second.
Definition defaultWriteTimeout : Z := 30 * Second.
Definition defaultIdleTimeout : Z := 60 * Second.
Definition defaultMaxHeaderBytes : Z := Z.shiftl 1 20.

Definition NewServer (a : Ambient) (cfg : config.Config) (authMW : option Middleware) (rounds : nat)
    (api : bool) (limiter : bool) : option http_Server :=
  h ← buildHandler a (server_mux rounds api) (Some (default auth_None authMW)) limiter;
  Some (mk_http_Server (config.Addr cfg) h defaultReadHeaderTimeout defaultReadTimeout defaultWriteTimeout
          defaultIdleTimeout defaultMaxHeaderBytes).

(** The handler of the server that runServe starts: bearer authentication,
    the API, a limiter. *)
Definition serve_http (a : Ambient) (snap : userSnapshot) (rounds : nat) (r : Req) (s : hstate)
    : flow * hstate :=
  match buildHandler a (server_mux rounds true) (Some (BearerMW snap)) true with
  | Some h => h r s
  | None => (Panicking (PanicValue "string" "server: default trusted-proxy CIDRs failed to parse"), s)
  end.
End server.
