(* ===== verification/ServerLaws.v ===== *)
(** Laws of the handler chain: what reaches the store, which headers are on
    the response, what the recorders count. *)

From S2P Require Import Prelude GoTime Env Store AesGcm GoLib Json JsonEnc Auth Api Net RateLimit Http Server.

(** ** The chain, written out *)

Definition default_nets : list IPNet :=
  Eval vm_compute in default [] (mapM ParseCIDR defaultTrustedProxyCIDRs).

Lemma default_nets_parse : mapM ParseCIDR defaultTrustedProxyCIDRs = Some default_nets.
Proof. vm_compute. reflexivity. Qed.

(** Setting [k] to [v] overrides none of the headers [hs]. *)
Definition compat (hs : list (string * string)) (k v : string) : bool :=
  forallb (λ kv, negb (bool_decide (kv.1 = k)) || bool_decide (kv.2 = v)) hs.

Section laws.
Context {W : Type} {ES : EncryptedStore W}.
Variable redirect_url : Req → string.
Variable redirect_page : Req → bytes.
Abbreviation hstate := (@hstate W).
Abbreviation HandlerFunc := (@HandlerFunc W).
Abbreviation serve_http := (serve_http redirect_url redirect_page).
Abbreviation server_mux := (server_mux redirect_url redirect_page).
Implicit Types (s : hstate) (r : Req) (f : flow) (next h : HandlerFunc).

(** What runs inside Recover. *)
Definition inner (a : Ambient) (snap : userSnapshot) (mux : HandlerFunc) : HandlerFunc :=
  MaxBodyBytes DefaultMaxBodyBytes (routeAwareAuth (Some (BearerMW snap)) (RateLimitMW a mux)).

(** What runs inside RequestID. *)
Definition logged (a : Ambient) (snap : userSnapshot) (mux : HandlerFunc) : HandlerFunc :=
  AccessLog a (Recover (inner a snap mux)).

(** The chain around any handler. *)
Definition chain (a : Ambient) (snap : userSnapshot) (mux : HandlerFunc) : HandlerFunc :=
  SecurityHeaders (CORS (trusted_proxy default_nets (RequestID a (logged a snap mux)))).

(** buildHandler does not panic. *)
Lemma buildHandler_chain a snap mux :
  buildHandler a mux (Some (BearerMW snap)) true = Some (chain a snap mux).
Proof using.
  unfold buildHandler, TrustedProxy.
  change (default defaultTrustedProxyCIDRs None) with defaultTrustedProxyCIDRs.
  by rewrite default_nets_parse.
Qed.

Lemma serve_http_chain a snap n r s :
  serve_http a snap n r s = chain a snap (server_mux n true) r s.
Proof using. unfold Server.serve_http. by rewrite buildHandler_chain. Qed.

(** ** What reaches the store *)

(** A handler changes the world only in steps of [E]. *)
Definition effect (h : HandlerFunc) (E : Req → W → W → Prop) : Prop :=
  ∀ r s f s', h r s = (f, s') → h_world s' = h_world s ∨ E r (h_world s) (h_world s').

(** Requests that differ only in address, body and request ID. *)
Definition same_target (r r' : Req) : Prop :=
  r_Method r' = r_Method r ∧ r_Path r' = r_Path r ∧ r_EscapedPath r' = r_EscapedPath r
  ∧ r_Header r' = r_Header r ∧ r_user r' = r_user r.

Definition stable (E : Req → W → W → Prop) : Prop :=
  ∀ r r' w w', same_target r r' → E r' w w' → E r w w'.

Lemma SetHeader_world k v s : h_world (SetHeader k v s) = h_world s.
Proof. done. Qed.
Lemma SetHeaders_world hs s : h_world (foldl (λ s kv, SetHeader kv.1 kv.2 s) s hs) = h_world s.
Proof. revert s. induction hs as [|kv hs IH]; intros s; [done|]. simpl. by rewrite IH. Qed.
Lemma WriteHeader_world code s : h_world (WriteHeader code s) = h_world s.
Proof. unfold WriteHeader. by destruct (rec_WriteHeader _ _ _). Qed.
Lemma Write_world p s : h_world (Write p s) = h_world s.
Proof. unfold Write. by destruct (rec_Write _ _ _) as [[] ?]. Qed.
Lemma respond_world hs code b s : h_world (respond hs code b s) = h_world s.
Proof. unfold respond. by rewrite Write_world, WriteHeader_world, SetHeaders_world. Qed.

Lemma respond_log hs code b s : h_log (respond hs code b s) = h_log s.
Proof.
  unfold respond, Write, WriteHeader. destruct (rec_WriteHeader _ _ _). destruct (rec_Write _ _ _) as [[] ?]. simpl.
  induction hs as [|kv hs IH] using rev_ind; [done|]. by rewrite foldl_app.
Qed.

(** Writing a response leaves the limiter alone. *)
Lemma WriteHeader_lim code s : h_lim (WriteHeader code s) = h_lim s.
Proof. unfold WriteHeader. by destruct (rec_WriteHeader _ _ _). Qed.
Lemma respond_lim hs code b s : h_lim (respond hs code b s) = h_lim s.
Proof.
  unfold respond, Write. destruct (rec_Write _ _ _) as [[n recs] c]. simpl. rewrite WriteHeader_lim.
  induction hs as [|kv hs IH] using rev_ind; [done|]. by rewrite foldl_app.
Qed.

Lemma effect_security next E : effect next E → effect (SecurityHeaders next) E.
Proof.
  intros H r s f s' Hr. apply H in Hr. by rewrite SetHeaders_world in Hr.
Qed.

Lemma effect_cors next E : effect next E → effect (CORS next) E.
Proof.
  intros H r s f s'. unfold CORS. case_decide.
  - intros [= <- <-]. left. by rewrite WriteHeader_world.
  - intros Hr%H. by rewrite SetHeaders_world in Hr.
Qed.

Lemma effect_forward next E g :
  stable E → effect next E → (∀ r, same_target r (g r)) → effect (λ r s, next (g r) s) E.
Proof. intros HE H Hg r s f s' [Hr|Hr]%H; [by left|right]. by eapply HE. Qed.

Lemma effect_proxy nets next E : stable E → effect next E → effect (trusted_proxy nets next) E.
Proof.
  intros HE H r s f s'. unfold trusted_proxy. destruct (_ || _); [apply H|].
  destruct (ParseIP _); [|apply H]. by apply (effect_forward next E (λ r, with_remote r _)).
Qed.

Lemma effect_requestID a next E : stable E → effect next E → effect (RequestID a next) E.
Proof.
  intros HE H r s f s'. unfold RequestID.
  intros Hr%(effect_forward next E (λ r, with_requestID r _) HE H); [|done].
  by rewrite SetHeader_world in Hr.
Qed.

Lemma effect_accessLog a next E : effect next E → effect (AccessLog a next) E.
Proof.
  intros H r s f s'. unfold AccessLog. destruct (next r _) as [f1 s1] eqn:Hn. apply H in Hn.
  destruct f1; by intros [= <- <-].
Qed.

Lemma effect_recover next E : effect next E → effect (Recover next) E.
Proof.
  intros H r s f s'. unfold Recover. destruct (next r _) as [f1 s1] eqn:Hn. apply H in Hn.
  destruct f1 as [|[|ty msg]|]; try (by intros [= <- <-]).
  destruct (sr_wroteHeader _); intros [= <- <-]; [done|].
  unfold pop_recorder. simpl. by rewrite respond_world.
Qed.

Lemma effect_maxBody limit next E : stable E → effect next E → effect (MaxBodyBytes limit next) E.
Proof.
  intros HE H r s f s'. unfold MaxBodyBytes. destruct (r_Body r) as [b|]; [|apply H].
  destruct (read_limited _ b) as [buf [e|]].
  { intros [= <- <-]. left. apply respond_world. }
  destruct (_ <? _); [intros [= <- <-]; left; apply respond_world|].
  by apply (effect_forward next E (λ r, with_body r _)).
Qed.

Lemma effect_auth snap next E :
  effect next E →
  effect (routeAwareAuth (Some (BearerMW snap)) next)
    (λ r w w', E r w w'
       ∨ ∃ u, Bearer snap (Get (r_Header r) "Authorization") = Some u ∧ E (with_user r u) w w').
Proof.
  intros H r s f s'. unfold routeAwareAuth. destruct (_ && _).
  - intros [Hr|Hr]%H; auto.
  - simpl. unfold BearerMW. destruct (Bearer snap _) as [u|] eqn:Hb.
    + intros [Hr|Hr]%H; [by left|]. right. right. by exists u.
    + intros [= <- <-]. left. unfold writeUnauthorized. by rewrite respond_world.
Qed.

Lemma effect_rateLimit a next E : effect next E → effect (RateLimitMW a next) E.
Proof.
  intros H r s f s'. unfold RateLimitMW. destruct (Allow _ _ _) as [ok lim]. destruct ok; simpl.
  - intros Hr%H. exact Hr.
  - intros [= <- <-]. left. by rewrite respond_world.
Qed.

(** The mux serves one API call, or leaves the store alone. *)
Definition api_call (n : nat) (r : Req) (w w' : W) : Prop :=
  ∃ ep id body o, server_route true (r_Method r) (r_EscapedPath r) = RApi ep id
    ∧ serve n ep (mk_Request (r_user r) id body) w = (o, w').

Lemma effect_mux n : effect (server_mux n true) (api_call n).
Proof using.
  intros r s f s'. unfold Server.server_mux. case_decide.
  { intros [= <- <-]. left. by rewrite WriteHeader_world. }
  destruct (server_route true (r_Method r) (r_EscapedPath r)) as [|ep id| |allow|] eqn:Hroute.
  - intros [= <- <-]. left. apply respond_world.
  - unfold api_handler. destruct (serve n ep _ _) as [[[resp logs]|] w] eqn:Hs; intros [= <- <-].
    + right. exists ep, id, (b_data <$> r_Body r), (Some (resp, logs)). split; [done|].
      unfold write_response.
      destruct (rs_body resp); rewrite ?respond_world, ?WriteHeader_world; simpl; exact Hs.
    + right. exists ep, id, (b_data <$> r_Body r), None. done.
  - intros [= <- <-]. left. repeat case_match; by rewrite ?Write_world, ?WriteHeader_world.
  - intros [= <- <-]. left. apply respond_world.
  - intros [= <- <-]. left. apply respond_world.
Qed.

(** Without a user the API leaves the store alone. *)
Lemma serve_anonymous n ep id body w o w' :
  serve n ep (mk_Request None id body) w = (o, w') → w' = w.
Proof. by destruct ep; intros [= _ <-]. Qed.

(** The whole server: a request changes the store only through one API call as
    the user its Authorization header names. *)
Lemma serve_http_effect a snap n r s f s' :
  r_user r = None → serve_http a snap n r s = (f, s') →
  h_world s' = h_world s
  ∨ ∃ u ep id body o, Bearer snap (Get (r_Header r) "Authorization") = Some u
      ∧ server_route true (r_Method r) (r_EscapedPath r) = RApi ep id
      ∧ serve n ep (mk_Request (Some u) id body) (h_world s) = (o, h_world s').
Proof using.
  intros Hu. rewrite serve_http_chain.
  set (E := λ r w w', api_call n r w w'
    ∨ ∃ u, Bearer snap (Get (r_Header r) "Authorization") = Some u ∧ api_call n (with_user r u) w w').
  assert (HE : stable E).
  { intros r1 r2 w w' (Hm & _ & Hp & Hh & Hu'). unfold E, api_call. simpl.
    rewrite Hm, Hp, Hh, Hu'. done. }
  intros [Hw|[Hc|(u & Hb & Hc)]]%(effect_security _ E).
  - by left.
  - destruct Hc as (ep & id & body & o & _ & Hs). rewrite Hu in Hs. left. by eapply serve_anonymous.
  - destruct Hc as (ep & id & body & o & Hr & Hs). right. by exists u, ep, id, body, o.
  - apply effect_cors, effect_proxy, effect_requestID, effect_accessLog, effect_recover,
      effect_maxBody, effect_auth, effect_rateLimit, effect_mux; done.
Qed.

(** ** Headers stay on the response *)

(** The headers [hs] are set, and sent if anything was. *)
Definition shown (hs : list (string * string)) (c : conn) : Prop :=
  ∀ k v, (k, v) ∈ hs → c_header c !! k = Some v
    ∧ (∀ code (hd : header), c_sent c = Some (code, hd) → hd !! k = Some v).

Definition keeps (hs : list (string * string)) (h : HandlerFunc) : Prop :=
  ∀ r s f s', h r s = (f, s') → shown hs (h_conn s) → shown hs (h_conn s').

Lemma shown_SetHeader hs k v s :
  compat hs k v = true → shown hs (h_conn s) → shown hs (h_conn (SetHeader k v s)).
Proof.
  intros Hc H k' v' Hin. destruct (H k' v' Hin) as [Hh Hsent]. split; [|exact Hsent]. simpl.
  unfold compat in Hc. rewrite forallb_forall in Hc. apply list_elem_of_In in Hin as Hin'.
  specialize (Hc _ Hin'). simpl in Hc. destruct (decide (k' = k)) as [->|Hne].
  - rewrite bool_decide_true in Hc by done. simpl in Hc. apply bool_decide_eq_true in Hc as ->.
    apply lookup_insert_eq.
  - by rewrite lookup_insert_ne.
Qed.

Lemma shown_SetHeaders hs l s :
  forallb (λ kv, compat hs kv.1 kv.2) l = true → shown hs (h_conn s) →
  shown hs (h_conn (foldl (λ s kv, SetHeader kv.1 kv.2 s) s l)).
Proof.
  revert s. induction l as [|kv l IH]; intros s; simpl; [done|].
  intros [Hc Hl]%andb_true_iff H. apply IH; [done|]. by apply shown_SetHeader.
Qed.

Lemma shown_conn_WriteHeader hs code c : shown hs c → shown hs (conn_WriteHeader code c).
Proof.
  intros H k v Hin. destruct (H k v Hin) as [Hh Hsent]. unfold conn_WriteHeader.
  destruct (c_sent c) as [p|] eqn:Hc; [split; [done|]; intros code' hd Hs; apply (Hsent code' hd); congruence|].
  split; [done|]. by intros ?? [= <- <-].
Qed.

Lemma shown_WriteHeader hs code s : shown hs (h_conn s) → shown hs (h_conn (WriteHeader code s)).
Proof.
  unfold WriteHeader. intros H.
  assert (Hr : ∀ recs, shown hs (rec_WriteHeader code recs (h_conn s)).2).
  { induction recs as [|x recs IH]; simpl; [by apply shown_conn_WriteHeader|].
    destruct (sr_wroteHeader x); [done|]. by destruct (rec_WriteHeader code recs _). }
  specialize (Hr (h_recs s)). by destruct (rec_WriteHeader _ _ _).
Qed.

Lemma shown_Write hs p s : shown hs (h_conn s) → shown hs (h_conn (Write p s)).
Proof.
  unfold Write. intros H.
  assert (Hr : ∀ recs, shown hs (rec_Write p recs (h_conn s)).2).
  { induction recs as [|x recs IH]; cbn [rec_Write].
    - apply (shown_conn_WriteHeader hs 200) in H. unfold conn_Write.
      by destruct (bodyAllowed _).
    - by destruct (rec_Write p recs _) as [[n below] c']. }
  specialize (Hr (h_recs s)). by destruct (rec_Write _ _ _) as [[n recs] c'].
Qed.

Lemma shown_respond hs l code b s :
  forallb (λ kv, compat hs kv.1 kv.2) l = true → shown hs (h_conn s) →
  shown hs (h_conn (respond l code b s)).
Proof. intros Hl H. unfold respond. by apply shown_Write, shown_WriteHeader, shown_SetHeaders. Qed.

(** The headers that the chain inside RequestID may set. *)
Definition inner_headers : list string :=
  ["Content-Type"; "WWW-Authenticate"; "Retry-After"; "Allow"; "Location"; "Connection"].

(** [hs] has none of them, and nothing against nosniff. *)
Definition outer (hs : list (string * string)) : Prop :=
  (∀ k, k ∈ inner_headers → ∀ v, compat hs k v = true)
  ∧ compat hs "X-Content-Type-Options" "nosniff" = true.

Lemma outer_respond hs l code b s :
  outer hs → Forall (λ kv, kv.1 ∈ inner_headers ∨ kv = ("X-Content-Type-Options", "nosniff")) l →
  shown hs (h_conn s) → shown hs (h_conn (respond l code b s)).
Proof.
  intros [Ho Hn] Hl. apply shown_respond. apply forallb_forall. intros kv Hin%list_elem_of_In.
  rewrite Forall_forall in Hl. destruct (Hl kv Hin) as [Hk|Hk]; [by apply Ho|]. by rewrite Hk.
Qed.

Ltac outer_respond := apply outer_respond; [done|repeat constructor; auto; left; repeat constructor|].

Lemma keeps_mux hs n : outer hs → keeps hs (server_mux n true).
Proof using.
  intros Ho r s f s'. unfold Server.server_mux. case_decide as Hstar.
  { intros [= <- <-] H. apply shown_WriteHeader, shown_SetHeader; [|done]. apply Ho. by repeat constructor. }
  destruct (server_route _ _ _) as [|ep id| |allow|].
  - intros [= <- <-] H. by outer_respond.
  - unfold api_handler. destruct (serve n ep _ _) as [[[resp logs]|] w]; intros [= <- <-] H; [|done].
    unfold write_response. destruct (rs_body resp); try (by apply shown_WriteHeader); by outer_respond.
  - intros [= <- <-] H.
    assert (H1 : shown hs (h_conn (SetHeader "Location" (redirect_url r) s))).
    { apply shown_SetHeader; [|done]. apply Ho. by repeat constructor. }
    set (s1 := SetHeader "Location" _ s) in *. destruct (is_get (r_Method r)).
    + assert (H2 : shown hs (h_conn (SetHeader "Content-Type" "text/html; charset=utf-8" s1))).
      { apply shown_SetHeader; [|done]. apply Ho. by repeat constructor. }
      case_decide; [apply shown_Write|]; by apply shown_WriteHeader.
    + case_decide; [apply shown_Write|]; by apply shown_WriteHeader.
  - intros [= <- <-] H. by outer_respond.
  - intros [= <- <-] H. by outer_respond.
Qed.

Lemma keeps_inner hs a snap mux : outer hs → keeps hs mux → keeps hs (inner a snap mux).
Proof using.
  intros Ho Hmux. unfold inner.
  assert (Hrl : keeps hs (RateLimitMW a mux)).
  { intros r s f s'. unfold RateLimitMW. destruct (Allow _ _ _) as [[] lim]; simpl.
    - intros Hr H. by eapply Hmux.
    - intros [= <- <-] H. by outer_respond. }
  assert (Hau : keeps hs (routeAwareAuth (Some (BearerMW snap)) (RateLimitMW a mux))).
  { intros r s f s'. unfold routeAwareAuth. destruct (_ && _); [apply Hrl|]. simpl. unfold BearerMW.
    destruct (Bearer snap _); [intros Hr H; by eapply Hrl|].
    intros [= <- <-] H. unfold writeUnauthorized. by outer_respond. }
  intros r s f s'. unfold MaxBodyBytes. destruct (r_Body r) as [b|]; [|apply Hau].
  destruct (read_limited _ b) as [buf [e|]]; [intros [= <- <-] H; by outer_respond|].
  destruct (_ <? _); [intros [= <- <-] H; by outer_respond|apply Hau].
Qed.

Lemma keeps_logged hs a snap mux : outer hs → keeps hs mux → keeps hs (logged a snap mux).
Proof using.
  intros Ho Hmux r s f s'. unfold logged, AccessLog.
  destruct (Recover _ r _) as [f1 s1] eqn:Hr. intros Heq H.
  assert (H1 : shown hs (h_conn s1)).
  { unfold Recover in Hr. destruct (inner a snap mux r _) as [f2 s2] eqn:Hi.
    pose proof (keeps_inner hs a snap mux Ho Hmux _ _ _ _ Hi H) as Hk.
    destruct f2 as [|[|ty msg]|]; try (by injection Hr as <- <-).
    destruct (sr_wroteHeader _); injection Hr as <- <-; [done|]. simpl. by outer_respond. }
  destruct f1; by injection Heq as <- <-.
Qed.

Lemma shown_reply hs c k v :
  shown hs c → (k, v) ∈ hs → (reply c).1.2 !! k = Some v.
Proof.
  intros H Hin. destruct (H k v Hin) as [Hh Hs]. unfold reply.
  destruct (c_sent c) as [[code h]|] eqn:Hc; [|done]. by eapply Hs.
Qed.

(** ** Recorders agree with the connection *)

(** A recorder made with status [init] before anything was written. *)
Definition rec_ok (c : conn) (init : Z) (x : statusRecorder) : Prop :=
  match c_sent c with
  | Some (code, _) => sr_wroteHeader x = true ∧ sr_status x = code
  | None => sr_wroteHeader x = false ∧ sr_status x = init
  end
  ∧ (c_head c = false → sr_bytes x = Z.of_nat (length (c_body c))).

(** Nothing of a body is sent in answer to HEAD. *)
Definition bodyless (hd : bool) (c : conn) : Prop := c_head c = hd ∧ (hd = true → c_body c = []).

Definition synced (hd : bool) (inits : list Z) s : Prop :=
  Forall2 (rec_ok (h_conn s)) inits (h_recs s) ∧ bodyless hd (h_conn s).
Definition fresh s : Prop := c_sent (h_conn s) = None ∧ c_body (h_conn s) = [].

(** Started before anything was written, a handler leaves the recorders in
    step with the connection. *)
Definition records (h : HandlerFunc) : Prop :=
  ∀ hd inits r s f s', h r s = (f, s') → fresh s → synced hd inits s → synced hd inits s'.

Lemma rec_WriteHeader_ok code inits recs c :
  Forall2 (rec_ok c) inits recs →
  (rec_WriteHeader code recs c).2 = conn_WriteHeader code c
  ∧ Forall2 (rec_ok (conn_WriteHeader code c)) inits (rec_WriteHeader code recs c).1.
Proof.
  intros HF. unfold conn_WriteHeader. destruct (c_sent c) as [[code' h']|] eqn:Hc.
  - destruct HF as [|init x inits recs Hx HF]; simpl.
    + unfold conn_WriteHeader. by rewrite Hc.
    + pose proof Hx as [Hw _]. rewrite Hc in Hw. destruct Hw as [-> _]. split; [done|]. by constructor.
  - induction HF as [|init x inits recs Hx HF IH]; simpl.
    + unfold conn_WriteHeader. by rewrite Hc.
    + pose proof Hx as [Hw Hb]. rewrite Hc in Hw. destruct Hw as [-> _].
      destruct (rec_WriteHeader code recs c) as [below c']. destruct IH as [IH1 IH2]. simpl in *.
      split; [done|]. constructor; [|done]. by split.
Qed.

Lemma rec_Write_ok p inits recs c :
  Forall2 (rec_ok c) inits recs →
  (rec_Write p recs c).1.1 = (conn_Write p c).1 ∧ (rec_Write p recs c).2 = (conn_Write p c).2
  ∧ Forall2 (rec_ok (conn_Write p c).2) inits (rec_Write p recs c).1.2.
Proof.
  induction 1 as [|init x inits recs Hx HF (IH1 & IH2 & IH3)]; cbn [rec_Write].
  { destruct (conn_Write p c). simpl. by repeat constructor. }
  destruct (rec_Write p recs c) as [[n below] c']. simpl in *. subst n c'. split_and!; [done..|].
  constructor; [|done]. destruct Hx as [Hw Hb]. unfold rec_ok, conn_Write, conn_WriteHeader.
  destruct (c_sent c) as [[code' h']|] eqn:Hc; rewrite ?Hc; destruct Hw as [Hw Hst]; rewrite Hw; simpl.
  - destruct (bodyAllowed code') eqn:Ha; simpl; rewrite ?Hc; (split; [done|]).
    + intros Hh. rewrite Hh, length_app, (Hb Hh). lia.
    + intros Hh. rewrite (Hb Hh). lia.
  - split; [done|]. intros Hh. rewrite Hh, length_app, (Hb Hh). lia.
Qed.

Lemma bodyless_WriteHeader hd code c : bodyless hd c → bodyless hd (conn_WriteHeader code c).
Proof. unfold conn_WriteHeader. by destruct (c_sent c). Qed.
Lemma bodyless_Write hd p c : bodyless hd c → bodyless hd (conn_Write p c).2.
Proof.
  intros H. apply (bodyless_WriteHeader hd 200) in H. unfold conn_Write.
  set (c1 := conn_WriteHeader 200 c) in *. destruct (bodyAllowed _); [|done].
  destruct H as [<- Hb]. split; [done|]. intros Hh. simpl. by rewrite Hh, Hb.
Qed.

Lemma synced_SetHeader hd inits k v s : synced hd inits s → synced hd inits (SetHeader k v s).
Proof. intros H. exact H. Qed.
Lemma synced_SetHeaders hd inits hs s :
  synced hd inits s → synced hd inits (foldl (λ s kv, SetHeader kv.1 kv.2 s) s hs).
Proof. revert s. induction hs as [|kv hs IH]; intros s H; [done|]. simpl. by apply IH. Qed.
Lemma synced_WriteHeader hd inits code s : synced hd inits s → synced hd inits (WriteHeader code s).
Proof.
  intros [H Hh]. apply (rec_WriteHeader_ok code) in H as [H1 H2]. unfold synced, WriteHeader.
  destruct (rec_WriteHeader _ _ _) as [recs c]. simpl in *. subst c. split; [done|]. by apply bodyless_WriteHeader.
Qed.
Lemma synced_Write hd inits p s : synced hd inits s → synced hd inits (Write p s).
Proof.
  intros [H Hh]. apply (rec_Write_ok p) in H as (_ & H1 & H2). unfold synced, Write.
  destruct (rec_Write _ _ _) as [[n recs] c]. simpl in *. subst c. split; [done|]. by apply bodyless_Write.
Qed.
Lemma synced_respond hd inits hs code b s : synced hd inits s → synced hd inits (respond hs code b s).
Proof. intros H. by apply synced_Write, synced_WriteHeader, synced_SetHeaders. Qed.

Lemma fresh_SetHeaders hs s : fresh s → fresh (foldl (λ s kv, SetHeader kv.1 kv.2 s) s hs).
Proof. revert s. induction hs as [|kv hs IH]; intros s H; [done|]. simpl. by apply IH. Qed.

Lemma records_mux n : records (server_mux n true).
Proof using.
  intros hd inits r s f s'. unfold Server.server_mux. case_decide as Hstar.
  { intros [= <- <-] _ H. by apply synced_WriteHeader, synced_SetHeader. }
  destruct (server_route _ _ _) as [|ep id| |allow|].
  - intros [= <- <-] _ H. by apply synced_respond.
  - unfold api_handler. destruct (serve n ep _ _) as [[[resp logs]|] w]; intros [= <- <-] _ H; [|done].
    unfold write_response. destruct (rs_body resp); try (by apply synced_WriteHeader); by apply synced_respond.
  - intros [= <- <-] _ H. destruct (is_get (r_Method r)); case_decide;
      try apply synced_Write; by apply synced_WriteHeader.
  - intros [= <- <-] _ H. by apply synced_respond.
  - intros [= <- <-] _ H. by apply synced_respond.
Qed.

Lemma records_inner a snap mux : records mux → records (inner a snap mux).
Proof using.
  intros Hmux. assert (Hrl : records (RateLimitMW a mux)).
  { intros hd inits r s f s'. unfold RateLimitMW. destruct (Allow _ _ _) as [[] lim]; simpl.
    - intros Hr Hf H. by eapply Hmux.
    - intros [= <- <-] Hf H. by apply synced_respond. }
  assert (Hau : records (routeAwareAuth (Some (BearerMW snap)) (RateLimitMW a mux))).
  { intros hd inits r s f s'. unfold routeAwareAuth. destruct (_ && _); [apply Hrl|]. simpl. unfold BearerMW.
    destruct (Bearer snap _); [intros Hr Hf H; by eapply Hrl|].
    intros [= <- <-] Hf H. by apply synced_respond. }
  intros hd inits r s f s'. unfold inner, MaxBodyBytes. destruct (r_Body r) as [b|]; [|apply Hau].
  destruct (read_limited _ b) as [buf [e|]]; [intros [= <- <-] Hf H; by apply synced_respond|].
  destruct (_ <? _); [intros [= <- <-] Hf H; by apply synced_respond|apply Hau].
Qed.

Lemma synced_push hd inits init s :
  fresh s → synced hd inits s → synced hd (init :: inits) (push_recorder (mk_statusRecorder init 0 false) s).
Proof.
  intros [Hs Hb] [H Hh]. split; [|done]. constructor; [|exact H]. unfold rec_ok. simpl. rewrite Hs, Hb. done.
Qed.
Lemma synced_pop hd inits init s : synced hd (init :: inits) s → synced hd inits (pop_recorder s).
Proof. unfold synced, pop_recorder. intros [H Hh]. inversion H; subst. simpl. done. Qed.

Lemma records_recover next : records next → records (Recover next).
Proof.
  intros Hn hd inits r s f s'. unfold Recover. destruct (next r _) as [f1 s1] eqn:Hr. intros Heq Hf H.
  assert (H1 : synced hd (0 :: inits) s1) by (eapply Hn; [done|done|by apply synced_push]).
  destruct f1 as [|[|ty msg]|]; try (injection Heq as <- <-; by eapply synced_pop).
  destruct (sr_wroteHeader _); injection Heq as <- <-; [by eapply synced_pop|].
  eapply synced_pop, synced_respond. exact H1.
Qed.

(** The record that AccessLog writes. *)
Lemma accessLog_record a next hd r s s' :
  records next → fresh s → h_recs s = [] → c_head (h_conn s) = hd → AccessLog a next r s = (Done, s') →
  ∃ before status bytes, h_log s' = before ++ [LAccess (r_Method r) (r_Path r) status (am_duration_ms a) bytes
      (remoteIP (r_RemoteAddr r)) (MustFromContext r) (Get (r_Header r) "User-Agent")]
    ∧ status = (reply (h_conn s')).1.1
    ∧ if hd then (reply (h_conn s')).2 = [] else bytes = Z.of_nat (length (reply (h_conn s')).2).
Proof.
  intros Hn Hf Hrecs Hhd. unfold AccessLog. destruct (next r _) as [f1 s1] eqn:Hr.
  assert (H1 : synced hd [200] s1).
  { eapply Hn; [done|done|]. apply synced_push; [done|]. split; [rewrite Hrecs; constructor|].
    split; [done|]. by destruct Hf. }
  destruct f1; [|done..]. intros [= <-].
  eexists _, _, _. split; [reflexivity|]. destruct H1 as [H1 [Hc He]]. unfold top_recorder.
  inversion H1 as [|init x inits recs [Hw Hb] HF Hi Hx]; subst. inversion HF; subst. simpl.
  unfold reply. destruct (c_sent (h_conn s1)) as [[code h']|]; simpl; (split; [by destruct Hw|]);
    (rewrite Hc in Hb; destruct (c_head (h_conn s)); [by apply He|by apply Hb]).
Qed.

(** ** The first response written *)

Definition insert_headers (h : header) (hs : list (string * string)) : header :=
  foldl (λ (m : header) kv, <[kv.1 := kv.2]> m) h hs.

(** Nothing was written, and no recorder saw anything. *)
Definition unwritten s : Prop := fresh s ∧ Forall (λ x, sr_wroteHeader x = false) (h_recs s).

Lemma SetHeaders_conn hs s :
  h_conn (foldl (λ s kv, SetHeader kv.1 kv.2 s) s hs)
  = mk_conn (c_head (h_conn s)) (insert_headers (c_header (h_conn s)) hs) (c_sent (h_conn s)) (c_body (h_conn s)).
Proof.
  revert s. induction hs as [|kv hs IH]; intros s; simpl; [by destruct (h_conn s)|]. by rewrite IH.
Qed.

Lemma SetHeaders_recs hs s : h_recs (foldl (λ s kv, SetHeader kv.1 kv.2 s) s hs) = h_recs s.
Proof. revert s. induction hs as [|kv hs IH]; intros s; [done|]. simpl. by rewrite IH. Qed.

Lemma rec_WriteHeader_unwritten code recs c :
  Forall (λ x, sr_wroteHeader x = false) recs → (rec_WriteHeader code recs c).2 = conn_WriteHeader code c.
Proof.
  induction 1 as [|x recs Hx HF IH]; simpl; [done|]. rewrite Hx. by destruct (rec_WriteHeader code recs c).
Qed.

Lemma rec_Write_conn p recs c : (rec_Write p recs c).2 = (conn_Write p c).2.
Proof.
  induction recs as [|x recs IH]; simpl; [by destruct (conn_Write p c)|].
  by destruct (rec_Write p recs c) as [[n below] c'].
Qed.

(** A response onto a connection that may have been flushed already, with no
    recorder having noticed. *)
Lemma respond_onto hs code b s :
  Forall (λ x, sr_wroteHeader x = false) (h_recs s) → bodyAllowed code = true →
  let text := if c_head (h_conn s) then [] else b in
  reply (h_conn (respond hs code b s))
  = match c_sent (h_conn s) with
    | None => (code, insert_headers (c_header (h_conn s)) hs, c_body (h_conn s) ++ text)
    | Some (code', headers) => (code', headers, c_body (h_conn s) ++ if bodyAllowed code' then text else [])
    end.
Proof.
  intros Hr Ha. unfold respond, Write.
  pose proof (rec_Write_conn b (h_recs (WriteHeader code (foldl (λ s kv, SetHeader kv.1 kv.2 s) s hs)))
    (h_conn (WriteHeader code (foldl (λ s kv, SetHeader kv.1 kv.2 s) s hs)))) as Hw.
  destruct (rec_Write _ _ _) as [[n recs] c]. simpl in Hw. subst c. simpl.
  unfold WriteHeader. rewrite SetHeaders_recs, SetHeaders_conn.
  pose proof (rec_WriteHeader_unwritten code (h_recs s)
    (mk_conn (c_head (h_conn s)) (insert_headers (c_header (h_conn s)) hs) (c_sent (h_conn s)) (c_body (h_conn s))) Hr) as Hh.
  destruct (rec_WriteHeader _ _ _) as [recs' c']. simpl in Hh. subst c'. simpl.
  unfold conn_WriteHeader. simpl. destruct (c_sent (h_conn s)) as [[code' hd']|];
    unfold conn_Write, conn_WriteHeader; simpl.
  - destruct (bodyAllowed code'); unfold reply; simpl; [|by rewrite app_nil_r].
    destruct (c_head (h_conn s)); by rewrite ?app_nil_r.
  - rewrite Ha. unfold reply. simpl. destruct (c_head (h_conn s)); by rewrite ?app_nil_r.
Qed.

Lemma respond_reply hs code b s :
  unwritten s → bodyAllowed code = true →
  reply (h_conn (respond hs code b s))
  = (code, insert_headers (c_header (h_conn s)) hs, if c_head (h_conn s) then [] else b).
Proof. intros [[Hs Hb] Hr] Ha. rewrite respond_onto by done. by rewrite Hs, Hb. Qed.

(** ** Up to the access log *)

Definition request_id (a : Ambient) (r : Req) : string :=
  let id := Get (r_Header r) HeaderRequestID in
  if negb (requestIDPattern id) then newRequestID a else id.

(** The headers that are on every response. *)
Definition common_headers : list (string * string) := security_headers ++ cors_headers.

Lemma chain_inside a snap mux r s :
  r_Method r ≠ "OPTIONS" →
  ∃ r1, chain a snap mux r s
      = logged a snap mux r1 (foldl (λ s kv, SetHeader kv.1 kv.2 s) s
                                (common_headers ++ [(HeaderRequestID, request_id a r)]))
    ∧ same_target r r1 ∧ r_Body r1 = r_Body r ∧ r_requestID r1 = Some (request_id a r).
Proof using.
  intros Hm. unfold chain, SecurityHeaders, CORS. rewrite decide_False by done.
  unfold trusted_proxy, RequestID, request_id, common_headers. rewrite !foldl_app.
  destruct (_ || _); [by eexists|]. destruct (ParseIP _); by eexists.
Qed.

(** A preflight is answered by CORS. *)
Lemma chain_preflight a snap mux r s :
  r_Method r = "OPTIONS" →
  chain a snap mux r s = (Done, WriteHeader 204 (foldl (λ s kv, SetHeader kv.1 kv.2 s) s common_headers)).
Proof using.
  intros Hm. unfold chain, SecurityHeaders, CORS, common_headers. rewrite decide_True by done. by rewrite foldl_app.
Qed.

Lemma unwritten_push init s :
  unwritten s → unwritten (push_recorder (mk_statusRecorder init 0 false) s).
Proof. intros [Hf Hr]. split; [exact Hf|]. by constructor. Qed.

(** Recover and AccessLog pass on what the chain inside them did, unless it
    panicked. *)
Lemma logged_passes a snap mux r s f s1 :
  inner a snap mux r (push_recorder (mk_statusRecorder 0 0 false) (push_recorder (mk_statusRecorder 200 0 false) s))
  = (f, s1) → f = Done ∨ f = Pending →
  ∃ s', logged a snap mux r s = (f, s') ∧ h_conn s' = h_conn s1 ∧ h_lim s' = h_lim s1 ∧ h_world s' = h_world s1.
Proof using.
  intros Hi Hf. unfold logged, AccessLog, Recover. rewrite Hi. destruct Hf as [-> | ->]; by eexists.
Qed.

(** A response that the chain inside Recover writes at once is the reply. *)
Lemma logged_reply a snap mux r s hs code b (pre : hstate → hstate) :
  unwritten s → bodyAllowed code = true →
  (∀ s, unwritten s → inner a snap mux r s = (Done, respond hs code b (pre s))) →
  (∀ s, h_conn (pre s) = h_conn s ∧ h_recs (pre s) = h_recs s ∧ h_lim (pre s) = h_lim s ∧ h_world (pre s) = h_world s) →
  ∃ s', logged a snap mux r s = (Done, s') ∧ h_world s' = h_world s ∧ h_lim s' = h_lim s
    ∧ reply (h_conn s') = (code, insert_headers (c_header (h_conn s)) hs, if c_head (h_conn s) then [] else b).
Proof using.
  intros Hu Ha Hi Hpre.
  set (s2 := push_recorder (mk_statusRecorder 0 0 false) (push_recorder (mk_statusRecorder 200 0 false) s)).
  assert (Hu2 : unwritten s2) by (by apply unwritten_push, unwritten_push).
  destruct (logged_passes a snap mux r s _ _ (Hi s2 Hu2) (or_introl eq_refl)) as (s' & Hs' & Hc' & Hl' & Hw').
  exists s'. destruct (Hpre s2) as (Hc & Hr & Hl & Hw).
  assert (Hu3 : unwritten (pre s2)).
  { destruct Hu2 as [[Hf1 Hf2] Hr2]. split; [split; by rewrite Hc|by rewrite Hr]. }
  rewrite Hw', Hl', Hc', respond_world, respond_lim, (respond_reply hs code b _ Hu3 Ha), Hc, Hw. done.
Qed.

Definition admissible (r : Req) : Prop :=
  match r_Body r with
  | None => True
  | Some b => Z.of_nat (length (b_data b)) ≤ DefaultMaxBodyBytes ∧ b_err b = None
  end.

(** The path that needs no credentials. *)
Definition is_healthz (r : Req) : bool :=
  bool_decide (r_Path r = "/healthz") && (bool_decide (r_Method r = "GET") || bool_decide (r_Method r = "HEAD")).

Lemma maxBody_admissible next r s :
  admissible r →
  ∃ r', same_target r r' ∧ b_data <$> r_Body r' = b_data <$> r_Body r ∧ r_RemoteAddr r' = r_RemoteAddr r
    ∧ MaxBodyBytes DefaultMaxBodyBytes next r s = next r' s.
Proof.
  unfold admissible, MaxBodyBytes. destruct (r_Body r) as [b|] eqn:Hb; [|by exists r; rewrite Hb].
  intros [Hlen Herr]. unfold DefaultMaxBodyBytes, read_limited in *.
  change (Z.shiftl 2 20) with 2097152 in *. cbn [Z.ltb Z.compare].
  rewrite (proj2 (Z.leb_gt _ _)) by lia. rewrite Herr.
  rewrite (proj2 (Z.ltb_ge _ _)) by lia. by exists (with_body r (Some (mk_body (b_data b) None))).
Qed.

Lemma inner_denied a snap mux r s :
  Bearer snap (Get (r_Header r) "Authorization") = None → is_healthz r = false → admissible r →
  inner a snap mux r s = (Done, writeUnauthorized (LogAttrs LUnauthorized s)).
Proof using.
  intros Hb Hz Hadm. unfold inner.
  destruct (maxBody_admissible (routeAwareAuth (Some (BearerMW snap)) (RateLimitMW a mux)) r s Hadm)
    as (r' & (Hm & Hp & _ & Hh & _) & _ & _ & ->).
  unfold routeAwareAuth. unfold is_healthz in Hz. rewrite Hp, Hm, Hz. simpl.
  unfold BearerMW. by rewrite Hh, Hb.
Qed.

(** What MaxBodyBytes answers to a body that it refuses. *)
Definition body_refusal (r : Req) : option (Z * string) :=
  match r_Body r with
  | None => None
  | Some b =>
      if decide (2097152 < Z.of_nat (length (b_data b))) then Some (413, "request body too large")
      else match b_err b with Some _ => Some (400, "invalid request body") | None => None end
  end.

Lemma body_refusal_code r code msg : body_refusal r = Some (code, msg) → code = 413 ∨ code = 400.
Proof.
  unfold body_refusal. destruct (r_Body r) as [b|]; [|done]. case_decide; [intros [= <- _]; by left|].
  destruct (b_err b); intros [= <- _]. by right.
Qed.

Lemma refusal_admissible r : body_refusal r = None → admissible r.
Proof.
  unfold body_refusal, admissible. destruct (r_Body r) as [b|]; [|done]. case_decide; [done|].
  destruct (b_err b); [done|]. intros _. split; [|done]. unfold DefaultMaxBodyBytes.
  change (Z.shiftl 2 20) with 2097152. lia.
Qed.

Lemma inner_refused a snap mux r s code msg :
  body_refusal r = Some (code, msg) →
  inner a snap mux r s = (Done, respond [("Content-Type", text_plain)] code (bs msg ++ newline) s).
Proof using.
  unfold body_refusal, inner, MaxBodyBytes. destruct (r_Body r) as [b|]; [|done].
  unfold DefaultMaxBodyBytes, read_limited in *. change (Z.shiftl 2 20) with 2097152 in *.
  cbn [Z.ltb Z.compare]. case_decide as Hlen.
  - intros [= <- <-]. rewrite (proj2 (Z.leb_le _ _)) by lia.
    rewrite length_take. rewrite (proj2 (Z.ltb_lt _ _)) by lia. done.
  - rewrite (proj2 (Z.leb_gt _ _)) by lia. by destruct (b_err b); intros [= <- <-].
Qed.

(** A refused body ends the request at once: neither the store nor the
    limiter is asked. *)
Lemma chain_refused a snap mux r s code msg :
  r_Method r ≠ "OPTIONS" → body_refusal r = Some (code, msg) → bodyAllowed code = true → unwritten s →
  ∃ s', chain a snap mux r s = (Done, s') ∧ h_world s' = h_world s ∧ h_lim s' = h_lim s
    ∧ reply (h_conn s')
      = (code, insert_headers (c_header (h_conn s))
                 (common_headers ++ [(HeaderRequestID, request_id a r); ("Content-Type", text_plain)]),
         if c_head (h_conn s) then [] else bs msg ++ newline).
Proof using.
  intros Hm Hb Ha [Hf Hr]. destruct (chain_inside a snap mux r s Hm) as (r1 & -> & _ & Hb1 & _).
  set (s1 := foldl _ _ _).
  destruct (logged_reply a snap mux r1 s1 [("Content-Type", text_plain)] code (bs msg ++ newline) (λ s, s))
    as (s' & Hs' & Hw & Hl & Hrep).
  - split; [by apply fresh_SetHeaders|]. unfold s1. by rewrite SetHeaders_recs.
  - done.
  - intros s0 _. apply inner_refused. unfold body_refusal in *. by rewrite Hb1.
  - done.
  - exists s'. split; [done|]. split; [rewrite Hw; apply SetHeaders_world|]. split; [by rewrite Hl|].
    rewrite Hrep. unfold s1. rewrite SetHeaders_conn. cbn [c_header c_head].
    unfold insert_headers. by rewrite <- foldl_app, <- app_assoc.
Qed.
End laws.
