(* ===== verification/ServerProps.v ===== *)
(** Properties of the whole HTTP server over the encrypted SQLite stack. *)

From S2P Require Import Prelude GoTime Env Store Sql Sqlite AesGcm Crypto Encrypted History Stack.
From S2P Require Import GoLib Json JsonEnc FS Auth Api ApiLaws Net RateLimit Http Server ServerLaws.

(** ** What the store sees *)

Section stack.
Context {DB : Type} {E : SqlEngine DB} {HK : HKDF}.
Variable redirect_url : Req → string.
Variable redirect_page : Req → bytes.
Implicit Types (others : nat → DB → DB) (key : bytes) (r : Req).

(** The server that runServe starts, over the stack. *)
Definition server others key (a : Ambient) (snap : userSnapshot) (n : nat) r (s : @hstate (World DB))
    : flow * hstate :=
  @serve_http (World DB) (stack others key) redirect_url redirect_page a snap n r s.

(** C1: Nobody touches another user's configurations: whatever a request to
    the server is (method, path, headers, body, source address), whatever it
    answers and whatever other goroutines do meanwhile, a property of user
    [v]'s rows that those goroutines keep survives every request whose
    Authorization header does not carry the token of [v], enabled. *)
Theorem server_isolation others key a snap n r v s f s' (Q : gmap Z PRow → Prop) :
  r_user r = None →
  (∀ u, Bearer snap (Get (r_Header r) "Authorization") = Some u → u_ID u ≠ v) →
  (∀ i d, Q (pt_own v (opened key <$> view (committed d))) →
          Q (pt_own v (opened key <$> view (committed (others i d))))) →
  server others key a snap n r s = (f, s') →
  Q (pt_own v (stack_rows key (h_world s))) → Q (pt_own v (stack_rows key (h_world s'))).
Proof using.
  intros Hu Hne HQ Hrun HQs. unfold server in Hrun.
  destruct (serve_http_effect (ES := stack others key) redirect_url redirect_page a snap n r s f s' Hu Hrun)
    as [Hw|(u & ep & id & body & o & Hb & _ & Hs)]; [by rewrite Hw|].
  revert HQs. refine (serve_own_rows (Sp := stack_spec others key) _ _ _ _ _ _ _ _ _ _ Hs).
  - intros u' [= <-]. by apply Hne.
  - by apply (outer_rely_preserves others key (λ m, Q (pt_own v m))).
Qed.
End stack.

Section responses.
Context {W : Type} {ES : EncryptedStore W}.
Variable redirect_url : Req → string.
Variable redirect_page : Req → bytes.
Abbreviation hstate := (@hstate W).
Abbreviation serve_http := (serve_http redirect_url redirect_page).
Implicit Types (s : hstate) (r : Req).

(** A request's connection before its handler runs. *)
Definition new_conn (r : Req) : conn := mk_conn (bool_decide (r_Method r = "HEAD")) ∅ None [].
Definition accepted (r : Req) (lim : Limiter) (w : W) : hstate := mk_hstate [] (new_conn r) [] lim w.

Lemma accepted_unwritten r lim w hs :
  unwritten (foldl (λ s kv, SetHeader kv.1 kv.2 s) (accepted r lim w) hs).
Proof.
  split; [by apply fresh_SetHeaders|]. by rewrite SetHeaders_recs.
Qed.

(** C8: Every failed authentication gets the same answer.  A request without
    valid credentials that is neither a preflight (OPTIONS) nor a GET or HEAD of
    /healthz is answered, whatever its path, its other methods, its headers and
    the reason of the failure: with 401, the common headers, the request's ID
    and a fixed body, unless its body is refused first, with 413 when it has
    more than 2 MiB and with 400 when reading it fails.  In all cases neither
    the store nor the limiter is touched. *)
Theorem unauthenticated_uniform a snap n r lim w :
  Bearer snap (Get (r_Header r) "Authorization") = None →
  r_Method r ≠ "OPTIONS" → is_healthz r = false →
  let '(code, headers, body) :=
    match body_refusal r with
    | Some (code, msg) => (code, [("Content-Type", text_plain)], bs msg ++ newline)
    | None => (401, [("Content-Type", application_json);
                     ("WWW-Authenticate", "Bearer realm=" +:+ quote +:+ "tabby-sync" +:+ quote)],
               error_body "unauthorized")
    end in
  ∃ s', serve_http a snap n r (accepted r lim w) = (Done, s')
    ∧ h_world s' = w ∧ h_lim s' = lim
    ∧ reply (h_conn s')
      = (code, insert_headers ∅ (common_headers ++ (HeaderRequestID, request_id a r) :: headers),
         if bool_decide (r_Method r = "HEAD") then [] else body).
Proof using.
  intros Hb Hm Hz. rewrite serve_http_chain.
  destruct (body_refusal r) as [[code msg]|] eqn:Href.
  { apply (chain_refused a snap (server_mux redirect_url redirect_page n true) r (accepted r lim w) code msg Hm Href);
      [|apply (accepted_unwritten r lim w [])]. by destruct (body_refusal_code _ _ _ Href) as [-> | ->]. }
  apply refusal_admissible in Href as Hadm.
  destruct (chain_inside a snap (server_mux redirect_url redirect_page n true) r (accepted r lim w) Hm)
    as (r1 & -> & (Hm1 & Hp1 & _ & Hh1 & _) & Hb1 & _).
  set (s1 := foldl _ _ _).
  destruct (logged_reply a snap (server_mux redirect_url redirect_page n true) r1 s1
    [("Content-Type", application_json);
     ("WWW-Authenticate", "Bearer realm=" +:+ quote +:+ "tabby-sync" +:+ quote)]
    401 (error_body "unauthorized") (LogAttrs LUnauthorized)) as (s' & Hs' & Hw & Hl & Hr).
  - apply accepted_unwritten.
  - done.
  - intros s _. apply inner_denied; [by rewrite Hh1|by unfold is_healthz in *; rewrite Hp1, Hm1|].
    unfold admissible in *. by rewrite Hb1.
  - done.
  - exists s'. split; [done|]. split; [rewrite Hw; subst s1; by rewrite SetHeaders_world|].
    split; [rewrite Hl; done|]. rewrite Hr. subst s1. rewrite SetHeaders_conn. cbn [c_header c_head].
    unfold insert_headers. by rewrite <- foldl_app, <- app_assoc.
Qed.

(** What the server promises to put on every response. *)
Definition promised_headers : list (string * string) :=
  [("X-Content-Type-Options", "nosniff");
   ("Referrer-Policy", "no-referrer");
   ("Cache-Control", "no-store");
   ("Content-Security-Policy", "frame-ancestors 'none'");
   ("X-Frame-Options", "DENY");
   ("Access-Control-Allow-Origin", "*");
   ("Access-Control-Allow-Methods", "GET, HEAD, POST, PATCH, PUT, DELETE, OPTIONS");
   ("Access-Control-Allow-Headers", "Authorization, Content-Type, X-Request-Id");
   ("Access-Control-Max-Age", "600")].

Lemma outer_promised : outer promised_headers.
Proof.
  split; [|done]. intros k Hk v. repeat (apply elem_of_cons in Hk as [->|Hk]; [reflexivity|]).
  by apply elem_of_nil in Hk.
Qed.

Lemma promised_set s :
  c_sent (h_conn s) = None →
  shown promised_headers (h_conn (foldl (λ s kv, SetHeader kv.1 kv.2 s) s common_headers)).
Proof.
  intros Hs k v Hin. rewrite SetHeaders_conn. simpl. rewrite Hs. split; [|done].
  unfold promised_headers in Hin. unfold insert_headers, common_headers, security_headers, cors_headers.
  cbn [app foldl fst snd].
  repeat (apply elem_of_cons in Hin as [[= -> ->]|Hin];
    [repeat (rewrite lookup_insert_ne by done); apply lookup_insert_eq|]).
  by apply elem_of_nil in Hin.
Qed.

(** C9: The five security headers and the four CORS headers, with the values
    of [promised_headers], are on every response: success, error, preflight, refused
    body, failed authentication, exhausted limit and redirect alike.  That
    holds of the server's own mux, and of the chain around any other handler
    that does not itself overwrite one of these headers, one that panics after
    any prefix of its work included. *)
Theorem security_headers_everywhere a snap n mux r s :
  mux = server_mux redirect_url redirect_page n true ∨ keeps promised_headers mux →
  c_sent (h_conn s) = None →
  ∃ h, buildHandler a mux (Some (BearerMW snap)) true = Some h
    ∧ ∀ f s', h r s = (f, s') →
      Forall (λ kv, (reply (h_conn s')).1.2 !! kv.1 = Some kv.2) promised_headers.
Proof using.
  intros Hmux Hs. exists (chain a snap mux). split; [apply buildHandler_chain|]. intros f s' Hrun.
  assert (Hk : keeps promised_headers mux).
  { destruct Hmux as [-> |Hk]; [apply keeps_mux, outer_promised|done]. }
  apply Forall_forall. intros [k v]. simpl. apply shown_reply.
  destruct (decide (r_Method r = "OPTIONS")) as [Hm|Hm].
  - rewrite chain_preflight in Hrun by done. injection Hrun as <- <-. by apply shown_WriteHeader, promised_set.
  - destruct (chain_inside a snap mux r s Hm) as (r1 & Heq & _). rewrite Heq in Hrun.
    eapply keeps_logged; [apply outer_promised|exact Hk|exact Hrun|].
    rewrite foldl_app. simpl foldl at 1. apply shown_SetHeader; [reflexivity|]. by apply promised_set.
Qed.

End responses.

Section middleware.
Context {W : Type}.
Implicit Types (s : @hstate W) (r : Req) (next : @HandlerFunc W).

(** C39: What Recover does with each end of the handler inside it.  One that
    returns, or has not returned yet, is passed on unchanged.  After a panic
    with any value but ErrAbortHandler the request ends normally and the panic
    is logged with the request's ID, method and path; the client gets 500 with
    a fixed text, which does not depend on the panic, if nothing was sent, and
    keeps what it has if the handler wrote a status or body itself; if the
    handler only flushed, which the recorder does not see, the client keeps
    the status and headers it was sent and the text is appended.  ErrAbortHandler
    goes on to the server, which drops the connection, with nothing logged and
    nothing added to the response. *)
Theorem panic_contained next r s f1 s1 :
  next r (push_recorder (mk_statusRecorder 0 0 false) s) = (f1, s1) →
  ∃ f s', Recover next r s = (f, s') ∧ h_world s' = h_world s1
    ∧ match f1 with
      | Panicking (PanicValue ty msg) =>
          f = Done ∧ h_log s' = h_log s1 ++ [LPanic (MustFromContext r) (r_Method r) (r_Path r) ty msg]
          ∧ let text := if c_head (h_conn s1) then [] else bs "internal server error" ++ newline in
            if sr_wroteHeader (top_recorder s1) then h_conn s' = h_conn s1
            else Forall (λ x, sr_wroteHeader x = false) (h_recs s1) →
              reply (h_conn s')
              = match c_sent (h_conn s1) with
                | None => (500, <["Content-Type" := text_plain]> (c_header (h_conn s1)), c_body (h_conn s1) ++ text)
                | Some (code, headers) =>
                    (code, headers, c_body (h_conn s1) ++ if bodyAllowed code then text else [])
                end
      | _ => f = f1 ∧ h_log s' = h_log s1 ∧ h_conn s' = h_conn s1
      end.
Proof using.
  intros Hn. unfold Recover. rewrite Hn. destruct f1 as [|[|ty msg]|]; [by eexists _, _..| |by eexists _, _].
  set (s2 := LogAttrs _ s1). change (top_recorder s2) with (top_recorder s1).
  destruct (sr_wroteHeader (top_recorder s1)) eqn:Hw; eexists _, _; (split; [reflexivity|]); (split; [by simpl; rewrite ?respond_world|]).
  - done.
  - split; [done|]. split; [simpl; by rewrite respond_log|]. intros Hu.
    exact (respond_onto [("Content-Type", text_plain)] 500 _ s2 Hu eq_refl).
Qed.

(** A client can choose the address it is logged and limited under only
    from behind a trusted proxy: behind one, it is the first address of
    X-Forwarded-For when that is an address; in every other case it is the
    address of the connection. *)
Theorem forwarded_address next r s :
  ∃ r', trusted_proxy default_nets next r s = next r' s ∧ same_target r r' ∧ r_Body r' = r_Body r
    ∧ let xff := Get (r_Header r) "X-Forwarded-For" in
      if bool_decide (xff ≠ "") && isTrusted default_nets (r_RemoteAddr r)
         && bool_decide (is_Some (ParseIP (first_hop xff)))
      then remoteIP (r_RemoteAddr r') = first_hop xff
           ∧ extractKey None (r_RemoteAddr r') = "ip:" +:+ first_hop xff
      else r_RemoteAddr r' = r_RemoteAddr r.
Proof using.
  unfold trusted_proxy. set (xff := Get _ _). set (client := first_hop xff).
  destruct (decide (xff = "")) as [Hx|Hx]; [rewrite bool_decide_true, bool_decide_false by tauto; by eexists|].
  rewrite bool_decide_false, (bool_decide_true (xff ≠ "")) by done. cbn [orb andb].
  destruct (isTrusted _ _); cbn [negb andb]; [|by eexists].
  destruct (ParseIP client) as [ip|] eqn:Hip.
  - rewrite bool_decide_true by by eexists. eexists. split; [reflexivity|]. split; [done|]. split; [done|].
    apply ParseIP_plain, split_join in Hip as Hsj.
    assert (Hne : JoinHostPort client "0" ≠ "").
    { intros He. rewrite He in Hsj. by vm_compute in Hsj. }
    unfold remoteIP, extractKey, rl_remoteIP. cbn [r_RemoteAddr with_remote].
    rewrite !decide_False by done. by rewrite Hsj.
  - rewrite bool_decide_false by (by intros [? ?]). by eexists.
Qed.
End middleware.

(** ** Response bodies *)

Lemma config_json_ok r : json_ok 1 (config_json r).
Proof.
  constructor. repeat constructor; try apply pretty_int_literal.
  simpl. destruct (cr_LastUsedWithVersion r); constructor.
Qed.

Lemma body_json_ok b : json_ok 2 (body_json b).
Proof.
  destruct b as [r|l|r|code|]; simpl.
  - constructor. repeat constructor; try apply pretty_int_literal.
    simpl. destruct (ur_ActiveConfig r); constructor. apply pretty_int_literal.
  - constructor. apply Forall_fmap, Forall_true. intros r. apply config_json_ok.
  - constructor. repeat constructor; try apply pretty_int_literal.
    simpl. destruct (cr_LastUsedWithVersion r); constructor.
  - constructor. by repeat constructor.
  - constructor.
Qed.

(** What decoding gives for a string: the string itself if it is UTF-8. *)
Definition text (s : string) : json := sanitize (json_string s).

(** The members of a configuration, as the clients read them. *)
Definition wire_config (r : configResponse) : json :=
  JObj [(bs "id", json_int (cr_ID r)); (bs "name", text (cr_Name r)); (bs "content", text (cr_Content r));
        (bs "last_used_with_version",
           match cr_LastUsedWithVersion r with Some v => text v | None => JNull end);
        (bs "created_at", text (cr_CreatedAt r)); (bs "modified_at", text (cr_ModifiedAt r))].

Lemma sanitize_config r : sanitize (config_json r) = wire_config r.
Proof. unfold config_json, wire_config. simpl. by destruct (cr_LastUsedWithVersion r). Qed.

Lemma sanitize_body b :
  sanitize (body_json b)
  = match b with
    | BUser u =>
        JObj [(bs "id", json_int (ur_ID u)); (bs "name", text (ur_Name u));
              (bs "active_config", match ur_ActiveConfig u with Some i => json_int i | None => JNull end)]
    | BConfigs l => JArr (wire_config <$> l)
    | BConfig r => wire_config r
    | BError code => JObj [(bs "error", text code)]
    | BEmpty => JNull
    end.
Proof.
  destruct b as [u|l|r|code|]; [|simpl; f_equal|apply sanitize_config|done|done].
  - simpl. by destruct (ur_ActiveConfig u).
  - induction l as [|r l IH]; [done|]. cbn [fmap list_fmap map]. f_equal; [apply sanitize_config|apply IH].
Qed.

(** C26: What the API sends is JSON with the members that the clients know.  The
    body of every response parses, with nothing after it but the newline: a
    user has exactly "id", "name" and "active_config", a configuration exactly
    "id", "name", "content", "last_used_with_version", "created_at" and
    "modified_at", an error exactly "error", each with the value of its field,
    null for one that is not set; a list is the array of its configurations.
    Text in valid UTF-8 comes back unchanged (any other byte as U+FFFD). *)
Theorem response_roundtrip b :
  parse_json (body_bytes b)
  = Some (match b with
          | BUser u =>
              JObj [(bs "id", json_int (ur_ID u)); (bs "name", text (ur_Name u));
                    (bs "active_config", match ur_ActiveConfig u with Some i => json_int i | None => JNull end)]
          | BConfigs l => JArr (wire_config <$> l)
          | BConfig r => wire_config r
          | BError code => JObj [(bs "error", text code)]
          | BEmpty => JNull
          end, newline)
  ∧ ∀ s, valid_utf8 (bytes_of_string s) → text s = JStr (bytes_of_string s).
Proof.
  split.
  - unfold parse_json, body_bytes. rewrite (parse_encode 2); [|apply body_json_ok|done|done|lia].
    f_equal. f_equal. apply sanitize_body.
  - intros s Hs. unfold text, json_string. simpl. by rewrite to_valid_id.
Qed.

(** ** A running server *)

Module Live.
Definition alice : User := Eval vm_compute in mk_User 1 "alice" "tbs_alice" (token_hash "tbs_alice_1") false.
Definition bob : User := Eval vm_compute in mk_User 2 "bob" "tbs_bob" (token_hash "tbs_bob_1") false.
Definition users : userSnapshot := default (mk_userSnapshot ∅ []) (newUserSnapshot [alice; bob]).
Definition ambient : Ambient := mk_Ambient (Some (replicate 16 Byte.x2a)) 0 0 3.
Definition request (method path authz : string) (body : option body_stream) : Req :=
  mk_Req method path path "" {[ "Authorization" := authz ]} "203.0.113.9:4711" body None None.
Definition url (r : Req) : string := r_Path r.
Definition page (r : Req) : bytes := [].

(** bob asks for the deletion of alice's configuration. *)
Definition foreign_delete : Req := request "DELETE" "/api/1/configs/1" "Bearer tbs_bob_1" None.
Definition probe : Req := request "GET" "/api/1/user" "Bearer nobody" None.
Definition own_get : Req := request "GET" "/api/1/configs/1" "bearer tbs_alice_1" None.

Definition start (r : Req) : hstate := accepted r serve_limiter Demo.after_create.
Definition answer (r : Req) : flow * hstate :=
  server url page alone Demo.key ambient users 1 r (start r).
End Live.

Lemma server_isolation_witness :
  (reply (h_conn (Live.answer Live.foreign_delete).2)).1.1 = 404
  ∧ pt_own 1 (stack_rows Demo.key (h_world (Live.answer Live.foreign_delete).2))
    = pt_own 1 (stack_rows Demo.key Demo.after_create).
Proof.
  split; [vm_compute; reflexivity|].
  apply (server_isolation Live.url Live.page alone Demo.key Live.ambient Live.users 1 Live.foreign_delete 1
    (Live.start Live.foreign_delete) (Live.answer Live.foreign_delete).1 _
    (λ m, m = pt_own 1 (stack_rows Demo.key Demo.after_create))).
  - reflexivity.
  - intros u Hu.
    assert (Hb : Bearer Live.users (Get (r_Header Live.foreign_delete) "Authorization") = Some Live.bob)
      by (vm_compute; reflexivity).
    rewrite Hb in Hu. injection Hu as <-. simpl. lia.
  - intros i d H. exact H.
  - apply surjective_pairing.
  - reflexivity.
Defined.

(** A body that is too large, without writing it down. *)
Definition large : body_stream := mk_body (replicate (Z.to_nat 2097153) Byte.x20) None.
Definition flood : Req := Live.request "POST" "/api/1/configs" "Bearer nobody" (Some large).

Lemma flood_refused : body_refusal flood = Some (413, "request body too large").
Proof.
  unfold body_refusal, flood, Live.request, large. cbn [r_Body b_data].
  rewrite length_replicate, Z2Nat.id by lia. by rewrite decide_True by lia.
Qed.

Lemma unauthenticated_uniform_witness :
  (∃ s', serve_http (ES := stack alone Demo.key) Live.url Live.page Live.ambient Live.users 1 Live.probe
          (Live.start Live.probe) = (Done, s')
    ∧ h_world s' = Demo.after_create ∧ (reply (h_conn s')).1.1 = 401)
  ∧ ∃ s', serve_http (ES := stack alone Demo.key) Live.url Live.page Live.ambient Live.users 1 flood
          (Live.start flood) = (Done, s')
    ∧ h_world s' = Demo.after_create ∧ (reply (h_conn s')).1.1 = 413.
Proof.
  split.
  - destruct (unauthenticated_uniform (ES := stack alone Demo.key) Live.url Live.page Live.ambient Live.users 1
      Live.probe serve_limiter Demo.after_create) as (s' & Hrun & Hw & _ & Hr).
    + vm_compute. reflexivity.
    + discriminate.
    + reflexivity.
    + exists s'. split; [exact Hrun|]. split; [exact Hw|]. by rewrite Hr.
  - pose proof (unauthenticated_uniform (ES := stack alone Demo.key) Live.url Live.page Live.ambient Live.users 1
      flood serve_limiter Demo.after_create) as H. rewrite flood_refused in H.
    destruct H as (s' & Hrun & Hw & _ & Hr).
    + vm_compute. reflexivity.
    + discriminate.
    + reflexivity.
    + exists s'. split; [exact Hrun|]. split; [exact Hw|]. by rewrite Hr.
Defined.

(** A handler that sets a header of its own and then panics. *)
Definition nil_dereference : @HandlerFunc (World Table.db) := λ r s,
  (Panicking (PanicValue "runtime.errorString" "invalid memory address"), SetHeader "Content-Type" "text/html" s).

Lemma nil_dereference_keeps : keeps promised_headers nil_dereference.
Proof. intros r s f s' [= <- <-] H. apply shown_SetHeader; [reflexivity|exact H]. Qed.

Definition around (mux : @HandlerFunc (World Table.db)) (r : Req) : flow * hstate :=
  default (Pending, Live.start r)
    (h ← buildHandler Live.ambient mux (Some (BearerMW Live.users)) true; Some (h r (Live.start r))).

(** On a success, and on the 500 after a panic of the handler. *)
Lemma security_headers_everywhere_witness :
  (reply (h_conn (around (server_mux (ES := stack alone Demo.key) Live.url Live.page 1 true) Live.own_get).2)).1.2
    !! "Cache-Control" = Some "no-store"
  ∧ (reply (h_conn (around nil_dereference Live.own_get).2)).1.1 = 500
  ∧ (reply (h_conn (around nil_dereference Live.own_get).2)).1.2 !! "X-Frame-Options" = Some "DENY".
Proof.
  split; [|split].
  - destruct (security_headers_everywhere (ES := stack alone Demo.key) Live.url Live.page Live.ambient Live.users 1
      (server_mux (ES := stack alone Demo.key) Live.url Live.page 1 true) Live.own_get (Live.start Live.own_get)
      (or_introl eq_refl) eq_refl) as (h & Hh & H).
    unfold around. rewrite Hh. exact (proj1 (Forall_forall _ _) (H _ _ (surjective_pairing _)) ("Cache-Control", "no-store")
      ltac:(by do 2 apply list_elem_of_further; apply list_elem_of_here)).
  - vm_compute. reflexivity.
  - destruct (security_headers_everywhere (ES := stack alone Demo.key) Live.url Live.page Live.ambient Live.users 1
      nil_dereference Live.own_get (Live.start Live.own_get) (or_intror nil_dereference_keeps) eq_refl) as (h & Hh & H).
    unfold around. rewrite Hh. exact (proj1 (Forall_forall _ _) (H _ _ (surjective_pairing _)) ("X-Frame-Options", "DENY")
      ltac:(by do 4 apply list_elem_of_further; apply list_elem_of_here)).
Defined.


Lemma panic_contained_witness :
  ∃ s', Recover nil_dereference Live.probe (Live.start Live.probe) = (Done, s')
    ∧ (reply (h_conn s')).1.1 = 500.
Proof.
  destruct (panic_contained nil_dereference Live.probe (Live.start Live.probe) _ _ eq_refl)
    as (f & s' & Hrun & _ & -> & _ & Hr).
  exists s'. split; [exact Hrun|]. cbn in Hr. rewrite Hr; [reflexivity|]. repeat constructor.
Defined.

(** A handler that flushes its headers, as one that streams would, and then
    panics. *)
Definition flushed_panic : @HandlerFunc (World Table.db) := λ r s,
  (Panicking (PanicValue "runtime.errorString" "invalid memory address"), Flush s).
Definition flushed_answer : flow * hstate :=
  AccessLog Live.ambient (Recover flushed_panic) Live.probe (Live.start Live.probe).

(** The recorders do not notice a Flush: Recover takes the response for
    unwritten, and appends its error text to the response with status 200 that
    the client has already received, and the access log says 500. *)
Theorem flush_unrecorded :
  (reply (h_conn flushed_answer.2)).1.1 = 200
  ∧ (reply (h_conn flushed_answer.2)).2 = bs "internal server error" ++ newline
  ∧ ∃ lines, h_log flushed_answer.2 = lines ++ [LAccess "GET" "/api/1/user" 500 3 22 "203.0.113.9" "" ""].
Proof. split_and!; [vm_compute; reflexivity..|]. eexists [_]. vm_compute. reflexivity. Qed.
