(* ===== verification/Lifecycle.v ===== *)
(** The life of a server process: server.Run (src/internal/server/server.go)
    as a step relation.

    Two goroutines share a channel of capacity one: [Run] itself, which
    waits for the context or for Serve and then shuts the server down, and
    the one that runs Serve.  Around them are net/http's connections.
    Shutdown closes the listener that Serve registered, then polls: idle
    connections are closed, and while a request is in flight it waits for
    the poll timer (at most 550 ms) or for the deadline.  Clients connect,
    send and disconnect as they please, and the context may be canceled at
    any time. *)

From S2P Require Import Prelude.

(** What Serve returns, and what Run returns when it is not nil. *)
Inductive serve_error := ErrServerClosed | ServeFailed (msg : string).
Inductive run_error := RunServe (msg : string) | RunListenerClose (msg : string) | RunDeadlineExceeded.

(** The goroutine: before Serve registers the listener, in its accept loop,
    about to send its result, done. *)
Inductive goroutine := GStarting | GServing | GSending (e : serve_error) | GDone.

(** Run: in its select, in Shutdown (polling, waiting for the timer), at the
    second receive, returned. *)
Inductive run_pc := PSelect | PPoll | PWait | PDrain | PReturned (r : option run_error).

Record run_state := mk_run_state {
  rs_canceled : bool;              (* ctx *)
  rs_pc : run_pc;
  rs_go : goroutine;
  rs_chan : option serve_error;    (* serveErr *)
  rs_listener : bool;              (* ln is open *)
  rs_lnerr : option string;        (* what closing it in Shutdown will report *)
  rs_inShutdown : bool;
  rs_idle : nat;                   (* connections between requests *)
  rs_active : nat;                 (* connections Shutdown waits for: a request in flight, or not yet
                                      sent on a connection younger than five seconds *)
  rs_elapsed : Z;                (* ms since Shutdown was called *)
}.

Definition defaultShutdownTimeout : Z := 10000.
Definition max_poll_interval : Z := 550.

Definition run_init (lnerr : option string) : run_state :=
  mk_run_state false PSelect GStarting None true lnerr false 0 0 0.

(** [if err != nil && !errors.Is(err, http.ErrServerClosed) { return err }]. *)
Definition serve_result (e : serve_error) : option run_error :=
  match e with ErrServerClosed => None | ServeFailed msg => Some (RunServe msg) end.

Definition set_pc (s : run_state) (pc : run_pc) : run_state :=
  mk_run_state (rs_canceled s) pc (rs_go s) (rs_chan s) (rs_listener s) (rs_lnerr s) (rs_inShutdown s)
    (rs_idle s) (rs_active s) (rs_elapsed s).
Definition set_go (s : run_state) (g : goroutine) (listener : bool) : run_state :=
  mk_run_state (rs_canceled s) (rs_pc s) g (rs_chan s) listener (rs_lnerr s) (rs_inShutdown s)
    (rs_idle s) (rs_active s) (rs_elapsed s).
Definition set_conns (s : run_state) (idle active : nat) : run_state :=
  mk_run_state (rs_canceled s) (rs_pc s) (rs_go s) (rs_chan s) (rs_listener s) (rs_lnerr s) (rs_inShutdown s)
    idle active (rs_elapsed s).
Definition set_chan (s : run_state) (c : option serve_error) : run_state :=
  mk_run_state (rs_canceled s) (rs_pc s) (rs_go s) c (rs_listener s) (rs_lnerr s) (rs_inShutdown s)
    (rs_idle s) (rs_active s) (rs_elapsed s).
Definition set_elapsed (s : run_state) (t : Z) : run_state :=
  mk_run_state (rs_canceled s) (rs_pc s) (rs_go s) (rs_chan s) (rs_listener s) (rs_lnerr s) (rs_inShutdown s)
    (rs_idle s) (rs_active s) t.

(** srv.Shutdown up to its first poll: only a registered listener is closed,
    and only that can report an error. *)
Definition begin_shutdown (s : run_state) : run_state :=
  let tracked := match rs_go s with GServing => true | _ => false end in
  mk_run_state (rs_canceled s) PPoll (rs_go s) (rs_chan s)
    (if tracked then false else rs_listener s) (if tracked then rs_lnerr s else None) true
    (rs_idle s) (rs_active s) 0.

(** The statements of Run. *)
Inductive run_main : run_state → run_state → Prop :=
  | main_canceled s :
      rs_pc s = PSelect → rs_canceled s = true → run_main s (begin_shutdown s)
  | main_served s e :
      rs_pc s = PSelect → rs_chan s = Some e →
      run_main s (set_chan (set_pc s (PReturned (serve_result e))) None)
  | main_poll_done s :
      rs_pc s = PPoll → rs_active s = 0%nat →
      run_main s (set_conns (set_pc s (match rs_lnerr s with
                                       | Some msg => PReturned (Some (RunListenerClose msg))
                                       | None => PDrain
                                       end)) 0 0)
  | main_poll_busy s :
      rs_pc s = PPoll → rs_active s ≠ 0%nat → run_main s (set_conns (set_pc s PWait) 0 (rs_active s))
  | main_timer s d :
      rs_pc s = PWait → 1 ≤ d ≤ max_poll_interval → rs_elapsed s + d ≤ defaultShutdownTimeout →
      run_main s (set_elapsed (set_pc s PPoll) (rs_elapsed s + d))
  | main_deadline s d :
      rs_pc s = PWait → 1 ≤ d ≤ max_poll_interval → defaultShutdownTimeout < rs_elapsed s + d →
      run_main s (set_elapsed (set_pc s (PReturned (Some RunDeadlineExceeded))) defaultShutdownTimeout)
  | main_drain s e :
      rs_pc s = PDrain → rs_chan s = Some e →
      run_main s (set_chan (set_pc s (PReturned (serve_result e))) None).

(** The goroutine that runs Serve; it closes the listener when it returns. *)
Inductive run_serve : run_state → run_state → Prop :=
  | serve_track s :
      rs_go s = GStarting → rs_inShutdown s = false → run_serve s (set_go s GServing (rs_listener s))
  | serve_late s :
      rs_go s = GStarting → rs_inShutdown s = true → run_serve s (set_go s (GSending ErrServerClosed) false)
  | serve_closed s :
      rs_go s = GServing → rs_inShutdown s = true → run_serve s (set_go s (GSending ErrServerClosed) false)
  | serve_failed s msg :
      rs_go s = GServing → rs_inShutdown s = false → run_serve s (set_go s (GSending (ServeFailed msg)) false)
  | serve_send s e :
      rs_go s = GSending e → rs_chan s = None → run_serve s (set_chan (set_go s GDone (rs_listener s)) (Some e)).

(** Clients and the context.  A connection that finishes its request while
    the server shuts down is closed. *)
Inductive run_env : run_state → run_state → Prop :=
  | env_cancel s :
      rs_canceled s = false →
      run_env s (mk_run_state true (rs_pc s) (rs_go s) (rs_chan s) (rs_listener s) (rs_lnerr s) (rs_inShutdown s)
                   (rs_idle s) (rs_active s) (rs_elapsed s))
  | env_connect s :
      rs_go s = GServing → rs_inShutdown s = false → run_env s (set_conns s (S (rs_idle s)) (rs_active s))
  | env_request s n :
      rs_idle s = S n → run_env s (set_conns s n (S (rs_active s)))
  | env_response s n :
      rs_active s = S n →
      run_env s (set_conns s (if rs_inShutdown s then rs_idle s else S (rs_idle s)) n)
  | env_disconnect s n :
      rs_idle s = S n → run_env s (set_conns s n (rs_active s)).

Inductive run_step (s s' : run_state) : Prop :=
  | step_main : run_main s s' → run_step s s'
  | step_serve : run_serve s s' → run_step s s'
  | step_env : run_env s s' → run_step s s'.

Definition run_reachable (s : run_state) : Prop := ∃ lnerr, rtc run_step (run_init lnerr) s.

Create HintDb life discriminated.
#[export] Hint Constructors run_main run_serve run_env run_step : life.

(** ** The invariant *)

(** The result of Serve, wherever it is. *)
Definition result_of (s : run_state) : option serve_error :=
  match rs_go s with GSending e => Some e | _ => rs_chan s end.

Record run_inv (s : run_state) : Prop := {
  (* the channel is empty until the goroutine has sent *)
  inv_chan : rs_go s ≠ GDone → rs_chan s = None;
  (* the listener is open only before Serve returns and before Shutdown *)
  inv_open : rs_listener s = true → rs_go s = GStarting ∨ (rs_go s = GServing ∧ rs_inShutdown s = false);
  inv_young : rs_go s = GStarting →
    rs_idle s = 0%nat ∧ rs_active s = 0%nat ∧ (rs_inShutdown s = true → rs_lnerr s = None);
  (* ErrServerClosed is Shutdown's doing, and Shutdown is Run's *)
  inv_closed : result_of s = Some ErrServerClosed → rs_inShutdown s = true;
  inv_shutdown : rs_inShutdown s = true → rs_canceled s = true;
  inv_pc :
    match rs_pc s with
    | PSelect => rs_inShutdown s = false
    | PPoll => rs_inShutdown s = true ∧ 0 ≤ rs_elapsed s ≤ defaultShutdownTimeout
    | PWait => rs_inShutdown s = true ∧ 0 ≤ rs_elapsed s ≤ defaultShutdownTimeout ∧ rs_go s ≠ GStarting
    | PDrain => rs_inShutdown s = true ∧ rs_idle s = 0%nat ∧ rs_active s = 0%nat
    | PReturned None =>
        rs_inShutdown s = true ∧ rs_go s = GDone ∧ rs_idle s = 0%nat ∧ rs_active s = 0%nat
    | PReturned (Some (RunServe _)) => rs_go s = GDone
    | PReturned (Some (RunListenerClose msg)) =>
        rs_inShutdown s = true ∧ rs_lnerr s = Some msg ∧ rs_idle s = 0%nat ∧ rs_active s = 0%nat
    | PReturned (Some RunDeadlineExceeded) =>
        rs_inShutdown s = true ∧ rs_elapsed s = defaultShutdownTimeout ∧ rs_go s ≠ GStarting
    end;
  (* until Run has received it, the result is not lost *)
  inv_waiting : (∀ r, rs_pc s ≠ PReturned r) → rs_go s = GDone → is_Some (rs_chan s);
}.

Lemma run_init_inv lnerr : run_inv (run_init lnerr).
Proof. split; naive_solver. Qed.

(** Splits a state into its fields, and the cases of its program counters. *)
Ltac explode s := destruct s as [cancel pc go ch ln lnerr sd idle act t].
Ltac life := unfold result_of, defaultShutdownTimeout, max_poll_interval in *; simpl in *; subst; simpl in *; try done; try naive_solver lia.

Lemma run_main_inv s s' : run_main s s' → run_inv s → run_inv s'.
Proof.
  intros Hs [Hch Hop Hyo Hcl Hsd Hpc Hw]. destruct Hs; explode s; simpl in *; subst; simpl in *.
  - split; destruct go; life.
  - split; destruct go, e; life.
  - split; destruct go, lnerr; life.
  - split; destruct go; life.
  - split; destruct go; life.
  - split; destruct go; life.
  - split; destruct go, e; life.
Qed.

Lemma run_serve_inv s s' : run_serve s s' → run_inv s → run_inv s'.
Proof.
  intros Hs [Hch Hop Hyo Hcl Hsd Hpc Hw]. destruct Hs; explode s; simpl in *; subst; simpl in *.
  all: split; destruct pc as [| | | |[[]|]]; life.
Qed.

Lemma run_env_inv s s' : run_env s s' → run_inv s → run_inv s'.
Proof.
  intros Hs [Hch Hop Hyo Hcl Hsd Hpc Hw]. destruct Hs; explode s; simpl in *; subst; simpl in *.
  all: split; destruct pc as [| | | |[[]|]]; try destruct go; life.
Qed.

Lemma run_step_inv s s' : run_step s s' → run_inv s → run_inv s'.
Proof. intros []; eauto using run_main_inv, run_serve_inv, run_env_inv. Qed.

Lemma run_reachable_inv s : run_reachable s → run_inv s.
Proof.
  intros [lnerr H]. apply rtc_ind_r with (P := run_inv) in H; eauto using run_init_inv, run_step_inv.
Qed.

(** ** Termination *)

Definition pc_rank (s : run_state) : nat :=
  match rs_pc s with
  | PSelect => 0
  | PPoll => Z.to_nat (2 * (defaultShutdownTimeout - rs_elapsed s)) + 5
  | PWait => Z.to_nat (2 * (defaultShutdownTimeout - rs_elapsed s)) + 4
  | PDrain => 1
  | PReturned _ => 0
  end.
Definition go_rank (g : goroutine) : nat :=
  match g with GStarting => 3 | GServing => 2 | GSending _ => 1 | GDone => 0 end.

(** How many steps a server that shuts down can take at most. *)
Definition run_measure (s : run_state) : nat :=
  pc_rank s + go_rank (rs_go s) + 2 * rs_idle s + rs_active s.

Lemma shutdown_decreases s s' :
  run_inv s → rs_inShutdown s = true → run_step s s' →
  (run_measure s' < run_measure s)%nat ∧ rs_inShutdown s' = true.
Proof.
  intros [Hch Hop Hyo Hcl Hsd Hpc Hw] Hin Hs. unfold run_measure, pc_rank.
  set (rest := λ t, Z.to_nat (2 * (defaultShutdownTimeout - t))).
  assert (Hrest : ∀ t d, 1 ≤ d → t + d ≤ defaultShutdownTimeout → (rest (t + d)%Z + 2 ≤ rest t)%nat)
    by (intros; unfold rest; lia).
  change (Z.to_nat (2 * (defaultShutdownTimeout - rs_elapsed s))) with (rest (rs_elapsed s)).
  change (Z.to_nat (2 * (defaultShutdownTimeout - rs_elapsed s'))) with (rest (rs_elapsed s')). clearbody rest.
  destruct Hs as [Hs|Hs|Hs]; destruct Hs; explode s; simpl in *; subst; simpl in *; try congruence;
    (split; [|done]); try lia.
  - destruct lnerr; simpl; lia.
  - specialize (Hrest t d ltac:(lia) ltac:(lia)). lia.
Qed.

(** A server that shuts down is never stuck before Run returns. *)
Lemma shutdown_progress s :
  run_inv s → rs_inShutdown s = true → (∀ r, rs_pc s ≠ PReturned r) → ∃ s', run_step s s'.
Proof.
  intros [Hch Hop Hyo Hcl Hsd Hpc Hw] Hin Hnr. specialize (Hw Hnr).
  destruct (rs_pc s) eqn:Epc.
  - congruence.
  - destruct (decide (rs_active s = 0%nat)); eauto with life.
  - destruct (decide (rs_elapsed s + 1 ≤ defaultShutdownTimeout)).
    + eexists. apply step_main, (main_timer _ 1); unfold max_poll_interval; auto; lia.
    + eexists. apply step_main, (main_deadline _ 1); unfold max_poll_interval; auto; lia.
  - destruct (rs_go s) eqn:Ego; [eauto with life..|]. destruct (Hw eq_refl) as [e He]. eauto with life.
  - by destruct (Hnr r).
Qed.

Lemma returned_closed s r : run_inv s → rs_pc s = PReturned r → rs_listener s = false.
Proof.
  intros [_ Hop Hyo _ _ Hpc _] Hr. rewrite Hr in Hpc. destruct (rs_listener s); [|done].
  destruct (Hop eq_refl) as [Hg|[Hg Hs]].
  - destruct r as [[]|]; intuition congruence.
  - destruct r as [[]|]; intuition congruence.
Qed.

(** ** Properties *)

(** All steps that can be taken are taken: an execution stops only where no
    step is possible. *)
Definition execution (f : nat → run_state) : Prop :=
  (∃ lnerr, f 0%nat = run_init lnerr)
  ∧ ∀ i, run_step (f i) (f (S i)) ∨ (f (S i) = f i ∧ ∀ s', ¬ run_step (f i) s').

(** Run is scheduled: it does not stay in its select for ever although the
    context is canceled. *)
Definition select_fair (f : nat → run_state) : Prop :=
  ∀ i, ∃ j, (i ≤ j)%nat ∧ ¬ (rs_pc (f j) = PSelect ∧ rs_canceled (f j) = true).

Lemma execution_inv f i : execution f → run_inv (f i).
Proof.
  intros [[lnerr H0] Hf]. induction i as [|i IH]; [rewrite H0; apply run_init_inv|].
  destruct (Hf i) as [Hs|[-> _]]; [by eapply run_step_inv|done].
Qed.

Lemma canceled_stays f i j : execution f → (i ≤ j)%nat → rs_canceled (f i) = true → rs_canceled (f j) = true.
Proof.
  intros [_ Hf] Hle Hc. induction Hle as [|j Hle IH]; [done|].
  destruct (Hf j) as [Hs|[-> _]]; [|done]. by destruct Hs as [Hs|Hs|Hs]; destruct Hs; simpl.
Qed.

Lemma shutdown_returns f i :
  execution f → rs_inShutdown (f i) = true →
  ∃ n r, (n ≤ run_measure (f i))%nat ∧ rs_pc (f (i + n)%nat) = PReturned r.
Proof.
  intros Hex. remember (run_measure (f i)) as m eqn:Hm. revert i Hm.
  induction m as [m IH] using lt_wf_ind. intros i Hm Hin.
  destruct (rs_pc (f i)) as [| | | |r] eqn:Hpc; [..|by exists 0%nat, r; rewrite Nat.add_0_r; split; [lia|]];
  (assert (∃ s', run_step (f i) s') as [s' Hs'] by (apply shutdown_progress; [by apply execution_inv|done|congruence]);
   destruct (proj2 Hex i) as [Hstep|[_ Hstuck]]; [|by destruct (Hstuck s')];
   destruct (shutdown_decreases _ _ (execution_inv f i Hex) Hin Hstep) as [Hlt Hin'];
   destruct (IH _ ltac:(rewrite Hm; exact Hlt) (S i) eq_refl Hin') as (n & r & Hn & Hr);
   exists (S n), r; split; [lia|]; by rewrite Nat.add_succ_r).
Qed.

(** C15: Once the context is canceled the server stops: in every execution in
    which Run's goroutine is scheduled, whatever clients do and however the
    steps interleave, Run returns and the listener is closed.  From the moment
    the shutdown begins, the number of steps until then is bounded by the
    deadline and the connections open at that moment. *)
Theorem run_returns f i :
  execution f → select_fair f → rs_canceled (f i) = true →
  ∃ n r, rs_pc (f n) = PReturned r ∧ rs_listener (f n) = false
    ∧ ∀ k, rs_inShutdown (f k) = true → ∃ n', (n' ≤ run_measure (f k))%nat ∧ ∃ r', rs_pc (f (k + n')%nat) = PReturned r'.
Proof.
  intros Hex Hfair Hc. destruct (Hfair i) as (j & Hij & Hj).
  assert (Hcj : rs_canceled (f j) = true) by by eapply canceled_stays.
  assert (∃ n r, rs_pc (f n) = PReturned r) as (n & r & Hn).
  { destruct (execution_inv f j Hex) as [_ _ _ _ _ Hpc _].
    destruct (rs_pc (f j)) as [| | | |r] eqn:Epc; [by destruct Hj| | | |by exists j, r].
    all: destruct (shutdown_returns f j Hex) as (n & r & _ & Hn); [by apply Hpc|by exists (j + n)%nat, r]. }
  exists n, r. split_and!; [done| |].
  - eapply returned_closed; [by apply execution_inv|done].
  - intros k Hk. destruct (shutdown_returns f k Hex Hk) as (n' & r' & Hle & Hr). eauto.
Qed.

(** A finite run of the process, up to its [n]-th state. *)
Definition run_path (f : nat → run_state) (n : nat) : Prop :=
  (∃ lnerr, f 0%nat = run_init lnerr) ∧ ∀ i, (i < n)%nat → run_step (f i) (f (S i)).

(** What Serve has returned by then, if it has. *)
Fixpoint reported (f : nat → run_state) (n : nat) : option serve_error :=
  match rs_go (f n) with
  | GSending e => Some e
  | _ => match n with O => None | S n => reported f n end
  end.

(** Where Serve's result goes: through the channel, once, to Run. *)
Definition delivered (o : option serve_error) (s : run_state) : Prop :=
  (∀ e, rs_chan s = Some e → o = Some e)
  ∧ match rs_pc s with
    | PReturned None => o = Some ErrServerClosed
    | PReturned (Some (RunServe msg)) => o = Some (ServeFailed msg)
    | _ => True
    end.

Lemma delivered_step o s s' :
  run_inv s → run_step s s' → (∀ e, rs_go s = GSending e → o = Some e) → delivered o s →
  delivered (match rs_go s' with GSending e => Some e | _ => o end) s'.
Proof.
  intros [Hch _ _ _ _ Hpc _] Hs Hgo [Hc Hp]. unfold delivered.
  destruct Hs as [Hs|Hs|Hs]; destruct Hs; explode s; simpl in *; subst; simpl in *;
    try (destruct go; naive_solver);
    try (destruct pc as [| | | |[[]|]]; naive_solver);
    try (destruct go, e; naive_solver);
    destruct go, lnerr; naive_solver.
Qed.

Lemma run_path_inv f n : run_path f n → run_reachable (f n).
Proof.
  intros [[lnerr H0] Hf]. exists lnerr. rewrite <- H0. clear H0.
  induction n as [|n IH]; [done|]. eapply rtc_r; [apply IH; auto with lia|auto].
Qed.

Lemma run_path_delivered f n : run_path f n → delivered (reported f n) (f n).
Proof.
  induction n as [|n IH]; intros [[lnerr H0] Hf].
  { rewrite H0. simpl. rewrite H0. done. }
  assert (Hpath : run_path f n) by (split; [by exists lnerr|auto]).
  apply (delivered_step (reported f n) (f n)); [by apply run_reachable_inv, run_path_inv|auto| |auto].
  intros e He. destruct n; simpl; by rewrite He.
Qed.

(** C16: What Run returns is what happened: nil only after the context was
    canceled, when Serve has returned ErrServerClosed and no connection is
    left, so no request was cut off; an error of Serve exactly with the message
    of an error that Serve returned, which is not ErrServerClosed;
    context.DeadlineExceeded only when the full ten seconds have passed; the
    error of closing the listener only when closing it reported that.  Whatever
    it is, the listener is closed, and the goroutine that runs Serve is never
    blocked on the channel. *)
Theorem run_result f n r :
  run_path f n → rs_pc (f n) = PReturned r →
  rs_listener (f n) = false
  ∧ (∀ e, rs_go (f n) = GSending e → rs_chan (f n) = None)
  ∧ match r with
    | None =>
        reported f n = Some ErrServerClosed
        ∧ rs_canceled (f n) = true ∧ rs_go (f n) = GDone ∧ rs_idle (f n) = 0%nat ∧ rs_active (f n) = 0%nat
    | Some (RunServe msg) => reported f n = Some (ServeFailed msg) ∧ rs_go (f n) = GDone
    | Some RunDeadlineExceeded => rs_canceled (f n) = true ∧ rs_elapsed (f n) = 10000
    | Some (RunListenerClose msg) =>
        rs_canceled (f n) = true ∧ rs_lnerr (f n) = Some msg ∧ rs_active (f n) = 0%nat
    end.
Proof.
  intros Hpath Hr. destruct (run_path_delivered f n Hpath) as [_ Hd].
  apply run_path_inv, run_reachable_inv in Hpath as Hinv. pose proof (returned_closed _ _ Hinv Hr).
  destruct Hinv as [Hch _ _ _ Hsd Hpc _]. rewrite Hr in Hpc, Hd. split_and!.
  - done.
  - intros e He. apply Hch. congruence.
  - destruct r as [[]|]; naive_solver.
Qed.

(** ** A run *)

Module Graceful.
(** One client connects and sends a request; the context is canceled while it
    is served; the response is sent between two polls. *)
Definition serving : run_state := set_go (run_init None) GServing true.
Definition busy : run_state := set_conns serving 0 1.
Definition canceled : run_state := mk_run_state true PSelect GServing None true None false 0 1 0.
Definition waiting : run_state := set_pc (begin_shutdown canceled) PWait.
Definition answered : run_state := set_conns waiting 0 0.
Definition polled : run_state := set_elapsed (set_pc answered PPoll) 100.
Definition draining : run_state := set_pc polled PDrain.
Definition sending : run_state := set_go draining (GSending ErrServerClosed) false.
Definition sent : run_state := set_chan (set_go sending GDone false) (Some ErrServerClosed).
Definition returned : run_state := set_chan (set_pc sent (PReturned None)) None.

Definition trace : list run_state :=
  [run_init None; serving; set_conns serving 1 0; busy; canceled; begin_shutdown canceled; waiting;
   answered; polled; draining; sending; sent].
Definition run (n : nat) : run_state := default returned (trace !! n).

Lemma stuck s' : ¬ run_step returned s'.
Proof. intros [H|H|H]; inversion H; discriminate. Qed.

Lemma run_execution : execution run.
Proof.
  split; [by exists None|]. intros i.
  destruct (decide (i < 12)%nat) as [Hi|Hi].
  - left. destruct i as [|[|[|[|[|[|[|[|[|[|[|[|i]]]]]]]]]]]]; [..|lia].
    + exact (step_serve _ _ (serve_track (run 0) eq_refl eq_refl)).
    + exact (step_env _ _ (env_connect (run 1) eq_refl eq_refl)).
    + exact (step_env _ _ (env_request (run 2) 0 eq_refl)).
    + exact (step_env _ _ (env_cancel (run 3) eq_refl)).
    + exact (step_main _ _ (main_canceled (run 4) eq_refl eq_refl)).
    + refine (step_main _ _ (main_poll_busy (run 5) eq_refl _)). done.
    + exact (step_env _ _ (env_response (run 6) 0 eq_refl)).
    + refine (step_main _ _ (main_timer (run 7) 100 eq_refl _ _)); done.
    + exact (step_main _ _ (main_poll_done (run 8) eq_refl eq_refl)).
    + exact (step_serve _ _ (serve_closed (run 9) eq_refl eq_refl)).
    + exact (step_serve _ _ (serve_send (run 10) _ eq_refl eq_refl)).
    + exact (step_main _ _ (main_drain (run 11) _ eq_refl eq_refl)).
  - assert (Hend : ∀ j, (12 ≤ j)%nat → run j = returned).
    { intros j Hj. unfold run. by rewrite lookup_ge_None_2 by (simpl; lia). }
    right. rewrite !Hend by lia. split; [done|apply stuck].
Qed.

Lemma run_fair : select_fair run.
Proof.
  intros i. exists (i + 12)%nat. split; [lia|]. unfold run. rewrite lookup_ge_None_2 by (simpl; lia).
  by intros [? _].
Qed.

Lemma run_is_path : run_path run 12.
Proof.
  split; [by exists None|]. intros i Hi. destruct (proj2 run_execution i) as [Hs|[He _]]; [done|].
  exfalso. revert He. destruct i as [|[|[|[|[|[|[|[|[|[|[|[|i]]]]]]]]]]]]; [discriminate..|lia].
Qed.

Lemma run_reaches : run_reachable (run 12).
Proof. apply run_path_inv, run_is_path. Qed.
End Graceful.

Lemma run_returns_witness :
  ∃ n r, rs_pc (Graceful.run n) = PReturned r ∧ rs_listener (Graceful.run n) = false.
Proof.
  destruct (run_returns Graceful.run 4 Graceful.run_execution Graceful.run_fair eq_refl) as (n & r & Hr & Hl & _).
  exists n, r. split; [exact Hr|exact Hl].
Defined.

(** The listener fails under the server. *)
Module Broken.
Definition failing : run_state := set_go (run_init None) GServing true.
Definition sending : run_state := set_go failing (GSending (ServeFailed "accept: too many open files")) false.
Definition sent : run_state := set_chan (set_go sending GDone false) (Some (ServeFailed "accept: too many open files")).
Definition returned : run_state :=
  set_chan (set_pc sent (PReturned (Some (RunServe "accept: too many open files")))) None.
Definition run (n : nat) : run_state := default returned ([run_init None; failing; sending; sent] !! n).

Lemma broken_is_path : run_path run 4.
Proof.
  split; [by exists None|]. intros i Hi. destruct i as [|[|[|[|i]]]]; [..|lia].
  - exact (step_serve _ _ (serve_track (run 0) eq_refl eq_refl)).
  - exact (step_serve _ _ (serve_failed (run 1) _ eq_refl eq_refl)).
  - exact (step_serve _ _ (serve_send (run 2) _ eq_refl eq_refl)).
  - exact (step_main _ _ (main_served (run 3) _ eq_refl eq_refl)).
Qed.
End Broken.

Lemma run_result_witness :
  (rs_pc (Graceful.run 12) = PReturned None
   ∧ reported Graceful.run 12 = Some ErrServerClosed ∧ rs_active (Graceful.run 12) = 0%nat)
  ∧ reported Broken.run 4 = Some (ServeFailed "accept: too many open files").
Proof.
  split.
  - split; [reflexivity|].
    destruct (run_result Graceful.run 12 None Graceful.run_is_path eq_refl) as (_ & _ & Hg & _ & _ & _ & Ha).
    split; [exact Hg|exact Ha].
  - destruct (run_result Broken.run 4 _ Broken.broken_is_path eq_refl) as (_ & _ & H & _). exact H.
Defined.
