(* ===== verification/Cli.v ===== *)
(** The command line (src/internal/cli): user management over the users
    file, the non-interactive bootstrap, and the scrubbing of paths.

    yaml.v3's Marshal and Unmarshal and strings.EqualFold's Unicode tables
    are parameters.  A command reads the environment and the arguments,
    acts on the file system and ends with an exit code and what it printed,
    or with a panic. *)

From S2P Require Import Prelude AesGcm GoLib Net Filepath Strconv Config FS Auth.

(** ** Output *)

Record exit := mk_exit { x_code : Z; x_stdout : string; x_stderr : string }.
Inductive ended := Exit (x : exit) | Crashed (msg : string).

Definition nl : string := string_of_bytes [Byte.x0a].
(** [fmt.Fprintln]. *)
Definition ln (s : string) : string := s +:+ nl.

(** [err.Error()]. *)
Definition sentinel_text (s : sentinel) : string :=
  match s with
  | ErrConfigNotFound => "store: config not found"
  | ErrInvalidPatch => "store: invalid update patch"
  | ErrConfigChanged => "store: config changed"
  | ErrDecrypt => "crypto: decryption failed"
  | ErrNoRows => "sql: no rows in result set"
  | ErrUnauthorized => "auth: unauthorized"
  | ErrInvalidLength => "keys: master key has wrong length"
  | ErrMissing => "keys: master key not configured"
  | ErrNotExist => "no such file or directory"
  | Canceled => "context canceled"
  | DeadlineExceeded => "context deadline exceeded"
  end.
Fixpoint error_text (e : error) : string :=
  match e with
  | ErrSentinel s => sentinel_text s
  | ErrNew msg | ErrExternal msg => msg
  | ErrWrap pre e' post => pre +:+ error_text e' +:+ post
  end.

(** ** Scrubbing (cli.go) *)

Definition redactPath (v : string) : string := if decide (v = "") then "<unset>" else "<set>".

(** [strings.ReplaceAll(b, old, new)], [old] not empty. *)
Fixpoint replace_all_fuel (fuel : nat) (old new b : bytes) : bytes :=
  match fuel, b with
  | S f, c :: r =>
      match strip_prefix old b with
      | Some rest => new ++ replace_all_fuel f old new rest
      | None => c :: replace_all_fuel f old new r
      end
  | _, _ => []
  end.
Definition ReplaceAll (old new b : bytes) : bytes := replace_all_fuel (length b) old new b.

Definition longer (a b : bytes) : Prop := (length b ≤ length a)%nat.
#[global] Instance longer_dec a b : Decision (longer a b).
Proof. unfold longer. apply _. Defined.

Definition redacted : bytes := bytes_of_string "<redacted>".

Definition scrub_bytes (msg : bytes) (secrets : list bytes) : bytes :=
  foldl (λ m s, if decide (s = []) then m else ReplaceAll s redacted m) msg (merge_sort longer secrets).

Definition scrubPaths (msg : string) (secrets : list string) : string :=
  string_of_bytes (scrub_bytes (bytes_of_string msg) (bytes_of_string <$> secrets)).

(** ** Log levels *)

Inductive Level := LevelDebug | LevelInfo | LevelWarn | LevelError.
Definition parseLogLevel (s : string) : Level :=
  let s := lower_ascii s in
  if decide (s = "error") then LevelError
  else if decide (s = "warn") then LevelWarn
  else if decide (s = "debug") then LevelDebug
  else LevelInfo.

(** ** Users (usercmd.go) *)

Definition tokenBytes : nat := 32.
Definition tokenPrefixStr : string := "tbs_".

(** The same fields as the server's entry. *)
Definition usersFileEntry : Type := userEntry.

Definition resolveUsersFile (getenv : string → string) : option path :=
  if decide (getenv "TABBY_SYNC_USERS_FILE" ≠ "") then Some (path_of (getenv "TABBY_SYNC_USERS_FILE"))
  else if decide (getenv "TABBY_SYNC_DATA_DIR" ≠ "")
  then Some (join_path (getenv "TABBY_SYNC_DATA_DIR") "users.yml")
  else None.

(** Plaintext, hash and prefix. *)
Definition token_of (buf : bytes) : string * string * string :=
  let plaintext := tokenPrefixStr +:+ EncodeToString buf in
  (plaintext, EncodeToString (Sum256 (bytes_of_string plaintext)), str_take 12 plaintext).

(** An error is that of the random source, on which the code panics. *)
Definition generateToken : M FS (string * string * string) := λ s,
  match fs_read_rand tokenBytes s with
  | (Ok buf, s') => (Ok (token_of buf), s')
  | (Err err, s') => (Err err, s')
  end.

(** Filling and closing the temporary file. *)
Definition fill_temp (tmp : path) (data : bytes) (mode : Z) : OS unit :=
  os_bind (Chmod tmp mode) (λ _, os_bind (WriteTo tmp data) (λ _, os_bind (Sync tmp) (λ _, CloseFile tmp))).

Definition writeFileAtomic (p : path) (data : bytes) (mode : Z) : OS unit := λ s,
  match CreateTemp (p_dir p) ("." +:+ p_base p +:+ ".tmp-") s with
  | (inl e, s1) => (inl e, s1)
  | (inr tmp, s1) =>
      match fill_temp tmp data mode s1 with
      | (inl e, s2) => (inl e, (Remove tmp (CloseFile tmp s2).2).2)
      | (inr _, s2) =>
          match Rename tmp p s2 with
          | (inl e, s3) => (inl e, (Remove tmp s3).2)
          | (inr _, s3) => (inr tt, s3)
          end
      end
  end.

Section commands.
Variable yaml_Unmarshal : bytes → result (list usersFileEntry).
Variable yaml_Marshal : list usersFileEntry → result bytes.
Variable EqualFold : string → string → bool.

Definition loadUsersYAML (p : path) : M FS (list usersFileEntry) := λ s,
  match ReadFile p s with
  | (inl e, s') => (Err (ErrWrap "cannot read users file: " (os_err e) ""), s')
  | (inr data, s') =>
      match yaml_Unmarshal data with
      | Err err => (Err (ErrWrap "cannot parse users file: " err ""), s')
      | Ok users => (Ok users, s')
      end
  end.

Definition saveUsersYAML (p : path) (users : list usersFileEntry) : M FS unit := λ s,
  match yaml_Marshal users with
  | Err err => (Err (ErrWrap "cannot marshal users file: " err ""), s)
  | Ok data =>
      match writeFileAtomic p data 384 s with
      | (inl e, s') => (Err (ErrWrap "cannot write users file: " (os_err e) ""), s')
      | (inr _, s') => (Ok tt, s')
      end
  end.

(** The position of the first entry that satisfies [P]. *)
Fixpoint find_index (P : usersFileEntry → bool) (users : list usersFileEntry) : option nat :=
  match users with
  | [] => None
  | u :: rest => if P u then Some 0%nat else S <$> find_index P rest
  end.

Definition findUser (users : list usersFileEntry) (target : string) : option nat :=
  let by_id := match ParseInt target with
               | Some id => find_index (λ u, e_ID u =? id) users
               | None => None
               end in
  match by_id with
  | Some i => Some i
  | None => find_index (λ u, EqualFold (e_Name u) target) users
  end.

Definition usage (msg : string) : ended := Exit (mk_exit 2 "" (ln msg)).
Definition failure (msg : string) : ended := Exit (mk_exit 1 "" (ln ("error: " +:+ msg))).
Definition no_entropy (err : error) : ended := Crashed ("crypto/rand failed: " +:+ error_text err).

(** The highest ID, or 0. *)
Definition max_id (users : list usersFileEntry) : Z :=
  foldl (λ m u, if m <? e_ID u then e_ID u else m) 0 users.

Definition runUserAdd (args : list string) (getenv : string → string) (s : FS) : ended * FS :=
  match args !! 3%nat with
  | None => (usage "Usage: tabby-sync user add <name>", s)
  | Some arg =>
      let name := TrimSpace arg in
      if decide (name = "") then (usage "error: name must not be empty", s)
      else
        match resolveUsersFile getenv with
        | None => (usage "error: cannot determine users file path (set TABBY_SYNC_USERS_FILE or TABBY_SYNC_DATA_DIR)", s)
        | Some p =>
            match loadUsersYAML p s with
            | (Err err, s1) => (failure (error_text err), s1)
            | (Ok users, s1) =>
                match List.find (λ u, EqualFold (e_Name u) name) users with
                | Some u => (failure ("user " +:+ Quote name +:+ " already exists (id=" +:+ pretty (e_ID u) +:+ ")"), s1)
                | None =>
                    let newID := wrap64 (max_id users + 1) in
                    match generateToken s1 with
                    | (Err err, s2) => (no_entropy err, s2)
                    | (Ok (token, hash, prefix), s2) =>
                        match saveUsersYAML p (users ++ [mk_userEntry newID name prefix hash false]) s2 with
                        | (Err err, s3) => (failure (error_text err), s3)
                        | (Ok _, s3) =>
                            (Exit (mk_exit 0
                               (ln "user added:" +:+ ln ("  id:    " +:+ pretty newID)
                                +:+ ln ("  name:  " +:+ name) +:+ ln ("  token: " +:+ token)
                                +:+ ln (nl +:+ "Save this token now — it will NOT be shown again.")
                                +:+ ln "Restart the server to pick up the new user.") ""), s3)
                        end
                    end
                end
            end
        end
  end.

(** --force anywhere, and the first other argument. *)
Definition rm_arguments (args : list string) : bool * string :=
  foldl (λ '(force, target) arg,
           if bool_decide (arg = "--force") || bool_decide (arg = "-f") then (true, target)
           else if decide (target = "") then (force, TrimSpace arg) else (force, target))
        (false, "") args.

(** [answer] is what the confirmation reads; [None] is a failing read. *)
Definition runUserRm (args : list string) (getenv : string → string) (answer : option string) (s : FS)
    : ended * FS :=
  if (length args <? 4)%nat then (usage "Usage: tabby-sync user rm [--force] <name|id>", s)
  else
    let '(force, target) := rm_arguments (drop 3 args) in
    if decide (target = "") then (usage "Usage: tabby-sync user rm [--force] <name|id>", s)
    else
      match resolveUsersFile getenv with
      | None => (usage "error: cannot determine users file path", s)
      | Some p =>
          match loadUsersYAML p s with
          | (Err err, s1) => (failure (error_text err), s1)
          | (Ok users, s1) =>
              match findUser users target with
              | None => (failure ("user " +:+ Quote target +:+ " not found"), s1)
              | Some idx =>
                  match users !! idx with
                  | None => (Crashed "index out of range", s1)
                  | Some removed =>
                      let who := e_Name removed +:+ " (id=" +:+ pretty (e_ID removed) +:+ ")" in
                      let prompt := if force then "" else
                        ln ("about to remove user " +:+ who +:+ ". This cannot be undone.")
                        +:+ "Continue? [y/N] " in
                      let confirmed := force || match answer with
                                                | Some a => bool_decide (lower_ascii (TrimSpace a) = "y")
                                                | None => false
                                                end in
                      if negb confirmed then (Exit (mk_exit 0 (prompt +:+ ln "aborted.") ""), s1)
                      else
                        match saveUsersYAML p (take idx users ++ drop (S idx) users) s1 with
                        | (Err err, s2) => (Exit (mk_exit 1 prompt (ln ("error: " +:+ error_text err))), s2)
                        | (Ok _, s2) =>
                            (Exit (mk_exit 0 (prompt +:+ ln ("user removed: " +:+ who)
                                              +:+ ln "Restart the server to apply changes.") ""), s2)
                        end
                  end
              end
          end
      end.

Definition with_token (u : usersFileEntry) (hash prefix : string) : usersFileEntry :=
  mk_userEntry (e_ID u) (e_Name u) prefix hash (e_Disabled u).

Definition runUserRotate (args : list string) (getenv : string → string) (s : FS) : ended * FS :=
  match args !! 3%nat with
  | None => (usage "Usage: tabby-sync user rotate <name|id>", s)
  | Some arg =>
      let target := TrimSpace arg in
      match resolveUsersFile getenv with
      | None => (usage "error: cannot determine users file path", s)
      | Some p =>
          match loadUsersYAML p s with
          | (Err err, s1) => (failure (error_text err), s1)
          | (Ok users, s1) =>
              match findUser users target with
              | None => (failure ("user " +:+ Quote target +:+ " not found"), s1)
              | Some idx =>
                  match generateToken s1 with
                  | (Err err, s2) => (no_entropy err, s2)
                  | (Ok (token, hash, prefix), s2) =>
                      match users !! idx with
                      | None => (Crashed "index out of range", s2)
                      | Some u =>
                          match saveUsersYAML p (<[idx := with_token u hash prefix]> users) s2 with
                          | (Err err, s3) => (failure (error_text err), s3)
                          | (Ok _, s3) =>
                              (Exit (mk_exit 0
                                 (ln ("token rotated for user " +:+ e_Name u +:+ " (id=" +:+ pretty (e_ID u) +:+ "):")
                                  +:+ ln ("  token: " +:+ token)
                                  +:+ ln (nl +:+ "Save this token now — it will NOT be shown again.")
                                  +:+ ln "The old token is immediately invalid after server restart.") ""), s3)
                          end
                      end
                  end
              end
          end
      end
  end.

Definition user_usage : string := "Usage: tabby-sync user <add|rm|rotate> <name|id>".

Definition runUser (args : list string) (getenv : string → string) (answer : option string) (s : FS)
    : ended * FS :=
  match args !! 2%nat with
  | None => (usage user_usage, s)
  | Some subcmd =>
      if decide (subcmd = "add") then runUserAdd args getenv s
      else if decide (subcmd = "rm" ∨ subcmd = "remove") then runUserRm args getenv answer s
      else if decide (subcmd = "rotate") then runUserRotate args getenv s
      else (Exit (mk_exit 2 "" (ln ("unknown user subcommand: " +:+ subcmd) +:+ ln user_usage)), s)
  end.

Definition token_path (dataDir : string) : path := join_path dataDir "token.txt".

Definition runBootstrap (args : list string) (getenv : string → string) (s : FS) : ended * FS :=
  match args with
  | [_; _; arg] =>
      let name := TrimSpace arg in
      if decide (name = "") then (usage "error: name must not be empty", s)
      else
        let dataDir := getenv "TABBY_SYNC_DATA_DIR" in
        if decide (dataDir = "") then (usage "error: TABBY_SYNC_DATA_DIR is required", s)
        else
          match resolveUsersFile getenv with
          | None => (usage "error: cannot determine users file path", s)
          | Some p =>
              match MkdirAll dataDir 488 s with
              | (inl _, s1) => (failure "cannot create data directory", s1)
              | (inr _, s1) =>
                  match MkdirAll (p_dir p) 488 s1 with
                  | (inl _, s2) => (failure "cannot create users-file directory", s2)
                  | (inr _, s2) =>
                      match Stat p s2 with
                      | (inr _, s3) =>
                          (Exit (mk_exit 0 (ln "bootstrap skipped: users file already exists") ""), s3)
                      | (inl e, s3) =>
                          if negb (errors_is (os_err e) ErrNotExist)
                          then (failure "cannot inspect users file", s3)
                          else
                          match generateToken s3 with
                          | (Err err, s4) => (no_entropy err, s4)
                          | (Ok (token, hash, prefix), s4) =>
                              match writeFileAtomic (token_path dataDir) (bytes_of_string (ln token)) 384 s4 with
                              | (inl _, s5) => (failure "cannot write bootstrap token", s5)
                              | (inr _, s5) =>
                                  match saveUsersYAML p [mk_userEntry 1 name prefix hash false] s5 with
                                  | (Err _, s6) =>
                                      (failure "cannot write bootstrap users file", (Remove (token_path dataDir) s6).2)
                                  | (Ok _, s6) => (Exit (mk_exit 0 (ln "bootstrap credentials created") ""), s6)
                                  end
                              end
                          end
                      end
                  end
              end
          end
  | _ => (usage "Usage: tabby-sync bootstrap <name>", s)
  end.
End commands.
