(* ===== verification/CliProps.v ===== *)
(** Properties of the command line. *)

From S2P Require Import Prelude AesGcm GoLib Net Filepath FS Auth AuthProps Cli.

(** ** Scrubbing *)

Definition occurs (t b : bytes) : Prop := ∃ x y, b = x ++ t ++ y.

(** An occurrence does not cross a byte that it does not have. *)
Lemma occurs_split c t u v : c ∉ t → occurs t (u ++ c :: v) → occurs t u ∨ occurs t v.
Proof.
  intros Hc (x & y & H). symmetry in H.
  apply List.app_eq_app in H as [l [[-> H]|[-> H]]].
  - destruct l as [|c' l]; simpl in H.
    + destruct t as [|d t]; [left; by exists u, []; rewrite app_nil_r|]. injection H as -> _.
      by destruct Hc; left.
    + injection H as <- ->. right. by exists l, y.
  - symmetry in H. apply List.app_eq_app in H as [k [[-> H]|[-> H]]].
    + left. by exists x, k.
    + destruct k as [|c' k]; simpl in H.
      * left. exists x, []. by rewrite !app_nil_r.
      * injection H as <- _. destruct Hc. apply elem_of_app. right. by left.
Qed.

(** Pieces with [sep] between them. *)
Fixpoint join_with (sep : bytes) (segs : list bytes) : bytes :=
  match segs with
  | [] => []
  | [s] => s
  | s :: rest => s ++ sep ++ join_with sep rest
  end.

(** ReplaceAll exchanges the separators of a splitting whose pieces do not
    have them. *)
Lemma replace_all_pieces n old new b :
  old ≠ [] → (length b ≤ n)%nat →
  ∃ seg segs, replace_all_fuel n old new b = join_with new (seg :: segs)
    ∧ b = join_with old (seg :: segs) ∧ Forall (λ s, ¬ occurs old s) (seg :: segs).
Proof.
  intros Hold. revert b. induction n as [|n IH]; intros b Hb.
  { destruct b; [|simpl in Hb; lia]. exists [], []. split_and!; [done..|]. constructor; [|constructor].
    intros (x & y & H). symmetry in H. apply app_nil in H as [_ H]. by apply app_nil in H as [? _]. }
  destruct b as [|c r].
  { exists [], []. split_and!; [done..|]. constructor; [|constructor].
    intros (x & y & H). symmetry in H. apply app_nil in H as [_ H]. by apply app_nil in H as [? _]. }
  cbn [replace_all_fuel]. simpl in Hb. destruct (strip_prefix old (c :: r)) as [rest|] eqn:Hs.
  - apply strip_prefix_some in Hs as Heq.
    destruct (IH rest) as (seg & segs & Hr & Hd & Hf).
    { apply (f_equal length) in Heq. rewrite length_app in Heq. destruct old; [done|]. simpl in Heq. lia. }
    exists [], (seg :: segs). split_and!.
    + by rewrite Hr.
    + by rewrite Heq, Hd.
    + constructor; [|done]. intros (x & y & H). symmetry in H. apply app_nil in H as [_ H].
      by apply app_nil in H as [? _].
  - destruct (IH r) as (seg & segs & Hr & Hd & Hf); [lia|].
    exists (c :: seg), segs. split_and!.
    + rewrite Hr. by destruct segs.
    + rewrite Hd. by destruct segs.
    + apply Forall_cons in Hf as [Hseg Hf]. constructor; [|done]. intros (x & y & H).
      destruct x as [|c' x]; [|injection H as <- ->; apply Hseg; by exists x, y].
      simpl in H. assert (Hpre : ∃ k, c :: r = old ++ k).
      { exists (y ++ drop (length seg) r). rewrite app_assoc, <- H. simpl. f_equal. rewrite Hd.
        destruct segs; simpl; [by rewrite drop_all, app_nil_r|by rewrite drop_app_length]. }
      destruct Hpre as [k Hk]. rewrite Hk in Hs. clear -Hs.
      induction old as [|o old IH]; [done|]. simpl in Hs. rewrite decide_True in Hs by done. by apply IH.
Qed.

Lemma occurs_join t segs :
  chr "<" ∉ t → chr ">" ∉ t → ¬ occurs t (bytes_of_string "redacted") →
  occurs t (join_with redacted segs) → segs ≠ [] → ∃ s, s ∈ segs ∧ occurs t s.
Proof.
  intros Hl Hg Hr. induction segs as [|s segs IH]; [done|]. intros Ho _.
  destruct segs as [|s' segs]; [exists s; by split; [left|]|].
  change (join_with redacted (s :: s' :: segs))
    with (s ++ chr "<" :: bytes_of_string "redacted" ++ chr ">" :: join_with redacted (s' :: segs)) in Ho.
  apply (occurs_split _ _ _ _ Hl) in Ho as [Ho|Ho]; [exists s; by split; [left|]|].
  apply (occurs_split _ _ _ _ Hg) in Ho as [Ho|Ho]; [done|].
  destruct (IH Ho) as (x & Hx & Hox); [done|]. exists x. split; [by right|done].
Qed.

Lemma occurs_piece sep segs s t : s ∈ segs → occurs t s → occurs t (join_with sep segs).
Proof.
  induction segs as [|a segs IH]; intros Hs Ho; [by apply elem_of_nil in Hs|].
  apply elem_of_cons in Hs as [->|Hs].
  - destruct Ho as (x & y & ->). destruct segs as [|b segs]; [by exists x, y|].
    exists x, (y ++ sep ++ join_with sep (b :: segs)).
    change (join_with sep ((x ++ t ++ y) :: b :: segs)) with ((x ++ t ++ y) ++ sep ++ join_with sep (b :: segs)).
    by rewrite <- !app_assoc.
  - destruct (IH Hs Ho) as (x & y & H). destruct segs as [|b segs]; [by apply elem_of_nil in Hs|].
    exists (a ++ sep ++ x), y. change (join_with sep (a :: b :: segs)) with (a ++ sep ++ join_with sep (b :: segs)).
    rewrite H. by rewrite <- !app_assoc.
Qed.

(** A path: it has a slash and no angle brackets. *)
Definition path_like (t : bytes) : Prop := (chr "/" ∈ t) ∧ (chr "<" ∉ t) ∧ (chr ">" ∉ t).

Lemma path_like_not_redacted t : path_like t → ¬ occurs t (bytes_of_string "redacted").
Proof.
  intros (Hs & _) (x & y & H).
  assert (Hin : chr "/" ∈ bytes_of_string "redacted") by (rewrite H; rewrite !elem_of_app; auto).
  revert Hin. not_in.
Qed.

Lemma ReplaceAll_path t old b :
  path_like t → old ≠ [] → occurs t (ReplaceAll old redacted b) → t ≠ old ∧ occurs t b.
Proof.
  intros Ht Hold. unfold ReplaceAll.
  destruct (replace_all_pieces (length b) old redacted b Hold) as (seg & segs & -> & Hb & Hf); [lia|].
  intros Ho. pose proof Ht as (_ & Hl & Hg).
  destruct (occurs_join t (seg :: segs) Hl Hg (path_like_not_redacted t Ht) Ho) as (s & Hs & Hos); [done|].
  split.
  - intros ->. rewrite Forall_forall in Hf. by apply (Hf s Hs).
  - rewrite Hb. by eapply occurs_piece.
Qed.

Lemma scrub_hides msg secrets t :
  t ∈ secrets → path_like (bytes_of_string t) →
  ¬ occurs (bytes_of_string t) (bytes_of_string (scrubPaths msg secrets)).
Proof.
  intros Hin Ht. unfold scrubPaths. rewrite bytes_string_roundtrip. unfold scrub_bytes.
  assert (Hin' : bytes_of_string t ∈ merge_sort longer (bytes_of_string <$> secrets)).
  { rewrite merge_sort_Permutation. by apply list_elem_of_fmap_2. }
  revert Hin'. generalize (merge_sort longer (bytes_of_string <$> secrets)) as l.
  generalize (bytes_of_string msg) as m. generalize (bytes_of_string t) as b, Ht. clear.
  intros b Hb m l. assert (Hne : b ≠ []) by (destruct Hb as [Hs _]; intros ->; by apply elem_of_nil in Hs).
  revert m. induction l as [|s l IH] using rev_ind; intros m Hin; [by apply elem_of_nil in Hin|].
  rewrite foldl_app. simpl. intros Ho. case_decide as Hs.
  - apply elem_of_app in Hin as [Hin|Hin]; [by apply (IH m Hin)|].
    apply list_elem_of_singleton in Hin. congruence.
  - apply ReplaceAll_path in Ho as [Hbs Ho]; [|done|done].
    apply elem_of_app in Hin as [Hin|Hin]; [by apply (IH m Hin)|].
    apply list_elem_of_singleton in Hin. congruence.
Qed.

(** Scrubbed messages show no configured path: whatever an error message
    says, wherever the paths stand in it and however they contain or overlap
    one another, a secret that is a path (it has a slash, and no angle
    brackets) does not occur in the scrubbed text. *)
Theorem scrub_hides_paths msg secrets t :
  t ∈ secrets → path_like (bytes_of_string t) →
  ¬ occurs (bytes_of_string t) (bytes_of_string (scrubPaths msg secrets)).
Proof. apply scrub_hides. Qed.

(** ** Writing files atomically *)

(** Filling touches only the temporary file, and completes it or fails. *)
Lemma fill_temp_run tmp data mode s r s' :
  fs_files s !! tmp = Some (mk_file [] 384) → fill_temp tmp data mode s = (r, s') →
  only tmp s s' ∧ match r with inr _ => fs_files s' !! tmp = Some (mk_file data mode) | inl _ => True end.
Proof.
  intros Htmp. unfold fill_temp.
  intros [(e & H1%Chmod_run & ->)|([] & s1 & H1%Chmod_run & H)]%os_bind_run; [by destruct H1|].
  destruct H1 as [Ho1 (f1 & Hf1 & H1)]. rewrite Htmp in Hf1. injection Hf1 as <-. simpl in H1.
  apply os_bind_run in H as [(e & H2%WriteTo_run & ->)|([] & s2 & H2%WriteTo_run & H)];
    [destruct H2; split; [by etrans|done]|].
  destruct H2 as [Ho2 H2]. specialize (H2 _ H1). simpl in H2.
  apply os_bind_run in H as [(e & H3%Sync_pure & ->)|([] & s3 & H3%Sync_pure & H)];
    [split; [etrans; [|by apply same_files_only]; by etrans|done]|].
  apply CloseFile_pure in H. unfold same_files in *.
  split; [intros q Hq; rewrite H, H3; by rewrite Ho2, Ho1|]. destruct r; [done|]. by rewrite H, H3.
Qed.

(** The temporary name is longer than the target's. *)
Lemma temp_longer d b x : mk_path d b ≠ mk_path d (("." +:+ b +:+ ".tmp-") +:+ x).
Proof.
  intros [= H]. apply (f_equal (λ s, length (bytes_of_string s))) in H.
  rewrite !bytes_of_string_app, !length_app in H. simpl in H. lia.
Qed.

(** The names that the temporary file for [p] can have. *)
Definition temp_of (p q : path) : Prop := ∃ x, q = mk_path (p_dir p) (("." +:+ p_base p +:+ ".tmp-") +:+ x).

(** Success installs the whole content; failure leaves the target as it was;
    no other path changes, but for temporary files that did not exist. *)
Lemma writeFileAtomic_run p data mode s r s' :
  writeFileAtomic p data mode s = (r, s') →
  (∀ q, q ≠ p → is_Some (fs_files s !! q) ∨ ¬ temp_of p q → fs_files s' !! q = fs_files s !! q)
  ∧ match r with
    | inr _ => fs_files s' !! p = Some (mk_file data mode)
    | inl _ => fs_files s' !! p = fs_files s !! p
    end.
Proof.
  unfold writeFileAtomic. destruct (CreateTemp _ _ s) as [[e|tmp] s1] eqn:H1; apply CreateTemp_run in H1.
  { intros [= <- <-]. unfold same_files in H1. by rewrite H1. }
  destruct H1 as ([x Hx] & Hnew & Ho1 & Htmp).
  assert (Hp : p ≠ tmp) by (destruct p; rewrite Hx; apply temp_longer).
  assert (Hold : ∀ q, is_Some (fs_files s !! q) ∨ ¬ temp_of p q → q ≠ tmp).
  { intros q [[f Hf]|Hq] ->; [congruence|]. apply Hq. by exists x. }
  destruct (fill_temp tmp data mode s1) as [[e|[]] s2] eqn:H2; apply fill_temp_run in H2 as [Ho2 H2]; try done.
  - destruct (CloseFile tmp s2) as [xc s3] eqn:Hc. apply CloseFile_pure in Hc.
    destruct (Remove tmp (xc, s3).2) as [xr s4] eqn:Hr. apply Remove_run in Hr as [Ho4 _].
    intros [= <- <-]. unfold same_files in Hc. simpl in *.
    assert (Hall : ∀ q, q ≠ tmp → fs_files s4 !! q = fs_files s !! q)
      by (intros q Hq; by rewrite Ho4, Hc, Ho2, Ho1).
    split; [intros q _ Hq; by apply Hall, Hold|by apply Hall].
  - destruct (Rename tmp p s2) as [[e|[]] s3] eqn:H3; apply Rename_run in H3.
    + destruct (Remove tmp s3) as [xr s4] eqn:Hr. apply Remove_run in Hr as [Ho4 _].
      intros [= <- <-]. unfold same_files in H3. simpl.
      assert (Hall : ∀ q, q ≠ tmp → fs_files s4 !! q = fs_files s !! q)
        by (intros q Hq; by rewrite Ho4, H3, Ho2, Ho1).
      split; [intros q _ Hq; by apply Hall, Hold|by apply Hall].
    + destruct H3 as (f & Hf & H3). rewrite H2 in Hf. injection Hf as <-. intros [= <- <-]. rewrite H3. split.
      * intros q Hqp Hq. rewrite lookup_insert_ne, lookup_delete_ne by (done || by symmetry; apply Hold).
        rewrite Ho2, Ho1; [done|by apply Hold..].
      * apply lookup_insert_eq.
Qed.

(** ** Generated tokens *)

Lemma hex_char_ok n : 0 ≤ n < 16 →
  graphic (hex_char n) = true ∧ is_hex_lower (hex_char n) = true ∧ lower_byte (hex_char n) = hex_char n.
Proof.
  intros H. assert (n = 0 ∨ n = 1 ∨ n = 2 ∨ n = 3 ∨ n = 4 ∨ n = 5 ∨ n = 6 ∨ n = 7 ∨ n = 8 ∨ n = 9 ∨ n = 10
    ∨ n = 11 ∨ n = 12 ∨ n = 13 ∨ n = 14 ∨ n = 15) as Hn by lia.
  by repeat (destruct Hn as [->|Hn]; [done|]); subst n.
Qed.

Lemma code_range x : 0 ≤ code x / 16 < 16 ∧ 0 ≤ code x mod 16 < 16.
Proof. destruct x; vm_compute; repeat split; congruence. Qed.

(** Hexadecimal text: all its bytes are printable lowercase digits. *)
Lemma EncodeToString_bytes b :
  Forall (λ c, graphic c = true ∧ is_hex_lower c = true ∧ lower_byte c = c) (bytes_of_string (EncodeToString b))
  ∧ length (bytes_of_string (EncodeToString b)) = (2 * length b)%nat.
Proof.
  unfold EncodeToString. rewrite bytes_string_roundtrip. induction b as [|x b [IH1 IH2]]; [done|].
  cbn [mbind list_bind app]. split.
  - destruct (code_range x). constructor; [by apply hex_char_ok|]. constructor; [by apply hex_char_ok|]. exact IH1.
  - simpl. change (list_bind _ _ _ b) with (b ≫= λ x, [hex_char (code x / 16); hex_char (code x mod 16)]).
    rewrite IH2. lia.
Qed.

Lemma lower_ascii_hex b : lower_ascii (EncodeToString b) = EncodeToString b.
Proof.
  unfold lower_ascii. destruct (EncodeToString_bytes b) as [H _].
  rewrite <- (string_bytes_roundtrip (EncodeToString b)) at 2. f_equal.
  induction H as [|c l Hc H IH]; [done|]. rewrite fmap_cons, IH. by destruct Hc as (_ & _ & ->).
Qed.

Lemma TrimSpace_hex b : TrimSpace (EncodeToString b) = EncodeToString b.
Proof.
  apply TrimSpace_graphic. destruct (EncodeToString_bytes b) as [H _].
  apply forallb_forall. intros c Hc%list_elem_of_In. rewrite Forall_forall in H. by apply H.
Qed.

Lemma hashPattern_hex b : length b = 32%nat → hashPattern (EncodeToString b) = true.
Proof.
  intros Hb. destruct (EncodeToString_bytes b) as [H Hl]. unfold hashPattern, slen. rewrite Hl, Hb. simpl.
  apply forallb_forall. intros c Hc%list_elem_of_In. rewrite Forall_forall in H. by apply H.
Qed.

Lemma Sum256_length b : length (Sum256 b) = 32%nat.
Proof.
  assert (Hr : ∀ l s, length s = 8%nat → length (foldl sha_round s l) = 8%nat).
  { induction l as [|kw l IH]; intros s Hs; [done|]. simpl. apply IH.
    do 8 (destruct s as [|? s]; [done|]). by destruct s. }
  assert (Hb : ∀ bl h, length h = 8%nat → length (foldl sha_block h bl) = 8%nat).
  { induction bl as [|x bl IH]; intros h Hh; [done|]. simpl. apply IH. unfold sha_block.
    by rewrite length_zip_with, Hr, Hh. }
  unfold Sum256. set (l := foldl sha_block sha_H0 _). assert (Hl : length l = 8%nat) by by apply Hb.
  clearbody l. do 8 (destruct l as [|? l]; [done|]). destruct l; [|done].
  cbn [mbind list_bind]. by rewrite !length_app, !be_bytes_length.
Qed.

Lemma token_of_facts buf :
  length buf = tokenBytes →
  let '(token, hash, prefix) := token_of buf in
  hash = token_hash token ∧ hashPattern hash = true ∧ lower_ascii (TrimSpace hash) = hash
  ∧ TrimSpace prefix = prefix ∧ prefix ≠ "".
Proof.
  intros Hb. unfold token_of. cbn [fst snd].
  set (token := tokenPrefixStr +:+ EncodeToString buf).
  assert (Ht : bytes_of_string token = bytes_of_string tokenPrefixStr ++ bytes_of_string (EncodeToString buf))
    by apply bytes_of_string_app.
  destruct (EncodeToString_bytes buf) as [Hx Hl]. split_and!; [done| | | |].
  - by apply hashPattern_hex, Sum256_length.
  - by rewrite TrimSpace_hex, lower_ascii_hex.
  - apply TrimSpace_graphic. unfold str_take. rewrite bytes_string_roundtrip, Ht.
    rewrite take_app. apply forallb_forall. intros c Hc%list_elem_of_In.
    apply elem_of_app in Hc as [Hc|Hc]; apply elem_of_take in Hc as (i & Hc & _).
    + apply list_elem_of_lookup_2 in Hc. revert c Hc. apply Forall_forall. by repeat constructor.
    + apply list_elem_of_lookup_2 in Hc. rewrite Forall_forall in Hx. by apply Hx.
  - intros He. apply (f_equal (λ s, length (bytes_of_string s))) in He. unfold str_take in He.
    rewrite bytes_string_roundtrip, Ht, length_take, length_app in He. simpl in He. lia.
Qed.

Lemma generateToken_run s r s' :
  generateToken s = (r, s') →
  same_files s s' ∧ match r with Ok t => ∃ buf, length buf = tokenBytes ∧ t = token_of buf | Err _ => True end.
Proof.
  unfold generateToken, fs_read_rand, same_files. destruct (fs_rand s _) as [g|]; intros [= <- <-]; [|done].
  split; [done|]. exists (g <$> seq 0 tokenBytes). split; [|done]. by rewrite length_fmap, length_seq.
Qed.

Section commands.
Variable yaml_Unmarshal : bytes → result (list usersFileEntry).
Variable yaml_Marshal : list usersFileEntry → result bytes.
Variable EqualFold : string → string → bool.

Abbreviation loadUsersYAML := (loadUsersYAML yaml_Unmarshal).
Abbreviation saveUsersYAML := (saveUsersYAML yaml_Marshal).
Abbreviation runUser := (runUser yaml_Unmarshal yaml_Marshal EqualFold).
Abbreviation runUserAdd := (runUserAdd yaml_Unmarshal yaml_Marshal EqualFold).
Abbreviation runUserRm := (runUserRm yaml_Unmarshal yaml_Marshal EqualFold).
Abbreviation runUserRotate := (runUserRotate yaml_Unmarshal yaml_Marshal EqualFold).

Lemma loadUsersYAML_run p s r s' :
  loadUsersYAML p s = (r, s') →
  same_files s s' ∧ match r with
                    | Ok users => ∃ f, fs_files s !! p = Some f ∧ yaml_Unmarshal (f_data f) = Ok users
                    | Err _ => True
                    end.
Proof using.
  unfold Cli.loadUsersYAML. destruct (ReadFile p s) as [[e|data] s1] eqn:Hr; apply ReadFile_run in Hr as [Hs Hr].
  - by intros [= <- <-].
  - destruct Hr as (f & Hf & <-). destruct (yaml_Unmarshal (f_data f)) eqn:Hy; intros [= <- <-]; eauto.
Qed.

(** The users file after a command: as it was, or written whole. *)
Definition file_written (p : path) (users : list usersFileEntry) (s' : FS) : Prop :=
  ∃ data, yaml_Marshal users = Ok data ∧ fs_files s' !! p = Some (mk_file data 384).
Definition others_kept (p : path) (s s' : FS) : Prop :=
  ∀ q, q ≠ p → is_Some (fs_files s !! q) → fs_files s' !! q = fs_files s !! q.

Lemma saveUsersYAML_run p users s r s' :
  saveUsersYAML p users s = (r, s') →
  others_kept p s s' ∧ match r with
                       | Ok _ => file_written p users s'
                       | Err _ => fs_files s' !! p = fs_files s !! p
                       end.
Proof using.
  unfold Cli.saveUsersYAML. destruct (yaml_Marshal users) as [data|e] eqn:Hm; [|by intros [= <- <-]].
  destruct (writeFileAtomic p data 384 s) as [[e|[]] s1] eqn:Hw; apply writeFileAtomic_run in Hw as [Ho Hw];
    (assert (others_kept p s s1) by (intros q Hq Hs; apply Ho; auto)); intros [= <- <-]; split; [done..|].
  by exists data.
Qed.

(** What a command did to the file system. *)
Definition user_effect (p : path) (s : FS) (e : ended) (s' : FS) : Prop :=
  others_kept p s s'
  ∧ (fs_files s' !! p = fs_files s !! p
     ∨ ∃ x users, e = Exit x ∧ x_code x = 0 ∧ file_written p users s').

Lemma user_effect_same p s e s' : same_files s s' → user_effect p s e s'.
Proof using. intros H. unfold same_files in H. split; [intros q _ _|left]; by rewrite H. Qed.

Lemma user_effect_saved p users s s1 s' x :
  saveUsersYAML p users s1 = (Ok tt, s') → same_files s s1 → x_code x = 0 → user_effect p s (Exit x) s'.
Proof using.
  unfold same_files, user_effect, others_kept. intros [Ho Hr]%saveUsersYAML_run Hs Hx.
  unfold others_kept in Ho. rewrite Hs in Ho. split; [done|]. right. by exists x, users.
Qed.

Lemma user_effect_unsaved p users s s1 s' err e :
  saveUsersYAML p users s1 = (Err err, s') → same_files s s1 → user_effect p s e s'.
Proof using.
  unfold same_files, user_effect, others_kept. intros [Ho Hr]%saveUsersYAML_run Hs.
  unfold others_kept in Ho. rewrite Hs in Ho. split; [done|]. left. by rewrite Hr, Hs.
Qed.

(** Ends the branches that leave the file system alone. *)
Ltac untouched := by intros [= <- <-]; apply user_effect_same.

Lemma runUserAdd_effect args getenv p s e s' :
  resolveUsersFile getenv = Some p → runUserAdd args getenv s = (e, s') → user_effect p s e s'.
Proof using.
  intros Hp. unfold Cli.runUserAdd. destruct (args !! 3%nat) as [arg|]; [|untouched].
  case_decide; [untouched|]. rewrite Hp.
  destruct (loadUsersYAML p s) as [[users|err] s1] eqn:Hl; apply loadUsersYAML_run in Hl as [Hs1 _];
    [|untouched].
  case_match; [untouched|].
  destruct (generateToken s1) as [[[[token hash] prefix]|err] s2] eqn:Hg; apply generateToken_run in Hg as [Hs2 _];
    (assert (Hs : same_files s s2) by (unfold same_files in *; congruence));
    [|untouched].
  destruct (saveUsersYAML p _ s2) as [[[]|err] s3] eqn:Hsv; intros [= <- <-];
    [by eapply user_effect_saved|by eapply user_effect_unsaved].
Qed.

Lemma runUserRm_effect args getenv answer p s e s' :
  resolveUsersFile getenv = Some p → runUserRm args getenv answer s = (e, s') → user_effect p s e s'.
Proof using.
  intros Hp. unfold Cli.runUserRm. destruct (_ <? _)%nat; [untouched|].
  destruct (rm_arguments _) as [force target]. case_decide; [untouched|]. rewrite Hp.
  destruct (loadUsersYAML p s) as [[users|err] s1] eqn:Hl; apply loadUsersYAML_run in Hl as [Hs1 _]; [|untouched].
  destruct (findUser _ users target) as [idx|]; [|untouched].
  destruct (users !! idx) as [removed|]; [|untouched]. destruct (negb _); [untouched|].
  destruct (saveUsersYAML p _ s1) as [[[]|err] s2] eqn:Hsv; intros [= <- <-];
    [by eapply user_effect_saved|by eapply user_effect_unsaved].
Qed.

Lemma runUserRotate_effect args getenv p s e s' :
  resolveUsersFile getenv = Some p → runUserRotate args getenv s = (e, s') → user_effect p s e s'.
Proof using.
  intros Hp. unfold Cli.runUserRotate. destruct (args !! 3%nat) as [arg|]; [|untouched]. rewrite Hp.
  destruct (loadUsersYAML p s) as [[users|err] s1] eqn:Hl; apply loadUsersYAML_run in Hl as [Hs1 _]; [|untouched].
  destruct (findUser _ users _) as [idx|]; [|untouched].
  destruct (generateToken s1) as [[[[token hash] prefix]|err] s2] eqn:Hg; apply generateToken_run in Hg as [Hs2 _];
    (assert (Hs : same_files s s2) by (unfold same_files in *; congruence)); [|untouched].
  destruct (users !! idx) as [u|]; [|untouched].
  destruct (saveUsersYAML p _ s2) as [[[]|err] s3] eqn:Hsv; intros [= <- <-];
    [by eapply user_effect_saved|by eapply user_effect_unsaved].
Qed.

(** C36: User commands are all or nothing: whatever arguments they get and
    whichever system call fails, afterwards the users file is byte for byte as
    it was, or the command exited with 0 and the file is the complete
    encoding of a user list, with mode 0600; no other file that existed has
    changed. *)
Theorem users_file_atomic args getenv answer p s e s' :
  resolveUsersFile getenv = Some p → runUser args getenv answer s = (e, s') → user_effect p s e s'.
Proof using.
  intros Hp. unfold Cli.runUser. destruct (args !! 2%nat) as [sub|]; [|untouched].
  repeat case_decide; [by apply runUserAdd_effect|by apply runUserRm_effect|by apply runUserRotate_effect|].
  untouched.
Qed.
End commands.

(** ** A concrete encoding of users files *)

#[global] Instance userEntry_eq_dec : EqDecision userEntry.
Proof. solve_decision. Defined.
#[global] Instance userEntry_countable : Countable userEntry.
Proof.
  refine (inj_countable' (λ e, (e_ID e, e_Name e, e_TokenPrefix e, e_TokenHash e, e_Disabled e))
    (λ '(i, n, p, h, d), mk_userEntry i n p h d) _). by intros [].
Defined.

Module Codec.
Fixpoint bits (p : positive) : bytes :=
  match p with
  | xH => []
  | xO q => Byte.x00 :: bits q
  | xI q => Byte.x01 :: bits q
  end.
Fixpoint of_bits (b : bytes) : positive :=
  match b with
  | [] => xH
  | Byte.x00 :: r => xO (of_bits r)
  | _ :: r => xI (of_bits r)
  end.

Definition marshal (users : list userEntry) : result bytes := Ok (bits (encode users)).
Definition unmarshal (raw : bytes) : result (list userEntry) :=
  match decode (of_bits raw) with
  | Some users => Ok users
  | None => Err (ErrExternal "yaml: cannot unmarshal")
  end.

Lemma of_bits_bits p : of_bits (bits p) = p.
Proof. induction p as [p IH|p IH|]; simpl; by rewrite ?IH. Qed.

Lemma unmarshal_marshal users data : marshal users = Ok data → unmarshal data = Ok users.
Proof. intros [= <-]. unfold unmarshal. by rewrite of_bits_bits, decode_encode. Qed.

(** alice and bob, and no failing calls. *)
Definition alice : userEntry := Eval vm_compute in
  let '(_, h, p) := token_of (replicate 32 Byte.x0a) in mk_userEntry 1 "alice" p h false.
Definition bob : userEntry := Eval vm_compute in
  let '(_, h, p) := token_of (replicate 32 Byte.x0b) in mk_userEntry 2 "bob" p h false.
Definition getenv (k : string) : string := if decide (k = "TABBY_SYNC_DATA_DIR") then "/data" else "".
Definition users_path : path := mk_path "/data" "users.yml".
Definition users_file (users : list userEntry) : file := mk_file (bits (encode users)) 384.
Definition disk (users : list userEntry) : FS :=
  mk_FS {[ users_path := users_file users ]} {[ "/data" := 488 ]} 0 (λ _, None) (λ _, 0%nat) pretty (λ _, Some (λ i, Byte.x0c)).

Definition user (args : list string) (s : FS) : ended * FS :=
  runUser unmarshal marshal equal_fold_ascii (["tabby-sync"; "user"] ++ args) getenv None s.
Definition code (r : ended * FS) : option Z := match r.1 with Exit x => Some (x_code x) | Crashed _ => None end.
Definition users_after (r : ended * FS) : option (list userEntry) :=
  f ← fs_files r.2 !! users_path; match unmarshal (f_data f) with Ok us => Some us | Err _ => None end.

Definition without_bob : ended * FS := user ["rm"; "--force"; "bob"] (disk [alice; bob]).
Definition with_carol : ended * FS := user ["add"; "carol"] without_bob.2.
End Codec.

(** A removed user's ID is handed to the next user: `user rm` keeps the
    configurations, and `user add` takes the highest ID in the file plus one,
    so the user added after the removal of the last one gets that one's ID and
    with it, in the database, that one's configurations. *)
Theorem removed_id_reused :
  Codec.code Codec.without_bob = Some 0 ∧ Codec.code Codec.with_carol = Some 0
  ∧ (fmap (M := list) (λ u, (e_Name u, e_ID u)) <$> Codec.users_after Codec.without_bob) = Some [("alice", 1)]
  ∧ (fmap (M := list) (λ u, (e_Name u, e_ID u)) <$> Codec.users_after Codec.with_carol)
    = Some [("alice", 1); ("carol", e_ID Codec.bob)].
Proof. vm_compute. repeat split; reflexivity. Qed.

Lemma scrub_hides_paths_witness :
  scrubPaths "open /data/tabby-sync.db: in /data/x" ["/data"; "/data/tabby-sync.db"]
    = "open <redacted>: in <redacted>/x"
  ∧ ¬ occurs (bytes_of_string "/data")
        (bytes_of_string (scrubPaths "open /data/tabby-sync.db: in /data/x" ["/data"; "/data/tabby-sync.db"])).
Proof.
  split; [vm_compute; reflexivity|].
  apply (scrub_hides_paths "open /data/tabby-sync.db: in /data/x" ["/data"; "/data/tabby-sync.db"] "/data").
  - by left.
  - split; [by left|]. split; not_in.
Defined.

Lemma users_file_atomic_witness :
  user_effect Codec.marshal Codec.users_path (Codec.disk [Codec.alice; Codec.bob])
    Codec.without_bob.1 Codec.without_bob.2.
Proof.
  apply (users_file_atomic Codec.unmarshal Codec.marshal equal_fold_ascii
    ["tabby-sync"; "user"; "rm"; "--force"; "bob"] Codec.getenv None).
  - vm_compute. reflexivity.
  - apply surjective_pairing.
Defined.
