(* ===== verification/UserProps.v ===== *)
(** The life of a credential: what `user add`, `user rotate`, `user rm` and
    `bootstrap` do to who can log in.

    Validation is characterised first ([validate_iff]); with it, what the
    server makes of a users file is a function of its entries ([accepts]),
    and each command is an equation on entries. *)

From S2P Require Import Prelude AesGcm GoLib Net Filepath Config FS Auth AuthProps Cli CliProps.

(** ** What the server accepts *)

Definition normalise (e : userEntry) : User :=
  mk_User (e_ID e) (TrimSpace (e_Name e)) (TrimSpace (e_TokenPrefix e))
    (lower_ascii (TrimSpace (e_TokenHash e))) (e_Disabled e).

Definition entry_ok (e : userEntry) : Prop :=
  1 ≤ e_ID e ∧ TrimSpace (e_Name e) ≠ "" ∧ TrimSpace (e_TokenPrefix e) ≠ ""
  ∧ hashPattern (lower_ascii (TrimSpace (e_TokenHash e))) = true.

Definition entries_ok (es : list userEntry) : Prop :=
  NoDup (e_ID <$> es) ∧ NoDup ((λ e, TrimSpace (e_Name e)) <$> es) ∧ Forall entry_ok es.

Lemma validate_from_iff i ids names es us :
  validate_from i ids names es = Ok us ↔
  entries_ok es ∧ us = normalise <$> es
  ∧ Forall (λ e, (e_ID e ∉ ids) ∧ (TrimSpace (e_Name e) ∉ names)) es.
Proof.
  revert i ids names us. induction es as [|e es IH]; intros i ids names us; cbn [validate_from].
  { split; [intros [= <-]; split; [split_and!; constructor|done]|]. by intros (_ & -> & _). }
  unfold entries_ok. rewrite !fmap_cons, !NoDup_cons, !Forall_cons. unfold entry_ok at 1. split.
  - destruct (Z.ltb_spec (e_ID e) 1); [done|]. do 4 (case_decide; [done|]).
    destruct (hashPattern _) eqn:Hh; [|done]. cbn [negb].
    destruct (validate_from _ _ _ es) as [us'|] eqn:Hv; [|done]. intros [= <-].
    apply IH in Hv as ((Hi & Hn & Hf) & -> & Hfresh). rewrite Forall_forall in Hfresh.
    split_and!; try done.
    + intros (u & Hu & Hin)%list_elem_of_fmap. destruct (Hfresh u Hin) as [Hx _]. set_solver.
    + intros (u & Hu & Hin)%list_elem_of_fmap. destruct (Hfresh u Hin) as [_ Hx]. set_solver.
    + apply Forall_forall. intros u Hin. destruct (Hfresh u Hin). set_solver.
  - intros (([Hi1 Hi] & [Hn1 Hn] & (Hid & Hne & Hp & Hh) & Hf) & -> & [Hids Hnames] & Hfresh).
    rewrite (proj2 (Z.ltb_ge _ _)) by lia. do 4 (rewrite decide_False by done). rewrite Hh. cbn [negb].
    rewrite (proj2 (IH _ _ _ (normalise <$> es))); [done|]. split; [done|]. split; [done|].
    rewrite Forall_forall in Hfresh |- *. intros u Hin. destruct (Hfresh u Hin) as [Hx Hy].
    rewrite !elem_of_union, !elem_of_singleton. split; (intros [Heq|?]; [|done]).
    + apply Hi1, list_elem_of_fmap. by exists u.
    + apply Hn1, list_elem_of_fmap. by exists u.
Qed.

(** Validation accepts exactly the well-formed lists, and normalises them. *)
Lemma validate_iff es us :
  validateAndNormalise es = Ok us ↔ entries_ok es ∧ us = normalise <$> es.
Proof.
  unfold validateAndNormalise. rewrite validate_from_iff. split; [tauto|]. intros [Hok Hus].
  split_and!; [done|done|]. apply Forall_forall. intros e _. split; apply not_elem_of_empty.
Qed.

(** The users whose files the server accepts. *)
Definition acceptable (es : list userEntry) : Prop :=
  entries_ok es ∧ NoDup (u_TokenHash <$> (normalise <$> es)).

Section server.
Variable yaml_decode : bytes → result (list userEntry).

Lemma accepts raw es :
  yaml_decode raw = Ok es →
  (∀ snap, LoadUsersFile yaml_decode (inr raw) = Returned (Ok snap) →
     acceptable es ∧ snapshot_of (normalise <$> es) snap)
  ∧ (acceptable es → ∃ snap, LoadUsersFile yaml_decode (inr raw) = Returned (Ok snap)
                             ∧ snapshot_of (normalise <$> es) snap).
Proof using.
  intros Hy. unfold LoadUsersFile. rewrite Hy. pose proof (newUserSnapshot_run (normalise <$> es)) as Hn. split.
  - intros snap. destruct (validateAndNormalise es) as [us|] eqn:Hv; [|done].
    apply validate_iff in Hv as [Hok ->]. destruct (newUserSnapshot _) as [snap0|]; [|done].
    intros [= <-]. split; [|done]. split; [done|]. by destruct Hn as (_ & ? & _).
  - intros [Hok Hnd]. rewrite (proj2 (validate_iff es (normalise <$> es))) by done.
    destruct (newUserSnapshot _) as [snap|]; [|done]. eauto.
Qed.
End server.

(** Who logs in with a token. *)
Lemma Lookup_entries es snap t v :
  snapshot_of (normalise <$> es) snap →
  Lookup snap t = Ok v ↔
  ∃ e, e ∈ es ∧ v = normalise e ∧ u_TokenHash v = token_hash t ∧ e_Disabled e = false.
Proof.
  intros Hs. rewrite (Lookup_Ok _ _ _ _ Hs), list_elem_of_fmap. split.
  - intros ((e & -> & He) & Hh & Hd). by exists e.
  - intros (e & He & -> & Hh & Hd). eauto.
Qed.

(** ** Changing and removing one entry *)

(** Whom the argument of `user rm` and `user rotate` names: the user with that
    ID; if it is not a number, or no user has it as ID, the first user whose
    name it is, up to case. *)
Definition named (EqualFold : string → string → bool) (users : list userEntry) (target : string) (i : nat)
    (u : userEntry) : Prop :=
  users !! i = Some u
  ∧ (ParseInt target = Some (e_ID u)
     ∨ (∀ v, v ∈ users → ParseInt target ≠ Some (e_ID v))
       ∧ EqualFold (e_Name u) target = true
       ∧ ∀ j v, (j < i)%nat → users !! j = Some v → EqualFold (e_Name v) target = false).

Lemma find_index_spec P users i :
  find_index P users = Some i →
  ∃ u, users !! i = Some u ∧ P u = true ∧ ∀ j v, (j < i)%nat → users !! j = Some v → P v = false.
Proof.
  revert i. induction users as [|u users IH]; intros i; simpl; [done|].
  destruct (P u) eqn:HP; [intros [= <-]; exists u; split_and!; [done|done|lia]|].
  destruct (find_index P users) as [k|]; [|done]. intros [= <-].
  destruct (IH k eq_refl) as (v & Hv & HPv & Hfirst). exists v. split_and!; [done|done|].
  intros [|j] w Hj Hw; [simpl in Hw; congruence|]. apply (Hfirst j); [lia|done].
Qed.

Lemma find_index_none P users : find_index P users = None → ∀ u, u ∈ users → P u = false.
Proof.
  induction users as [|v users IH]; simpl; [by intros _ u ?%elem_of_nil|]. destruct (P v) eqn:HP; [done|].
  destruct (find_index P users) as [k|]; [done|]. intros _ u [->|Hu]%elem_of_cons; [done|]. by apply IH.
Qed.

Lemma findUser_spec EqualFold users target i :
  findUser EqualFold users target = Some i → ∃ u, named EqualFold users target i u.
Proof.
  unfold findUser, named. set (by_id := match ParseInt target with Some _ => _ | None => _ end).
  destruct by_id as [j|] eqn:Hid; unfold by_id in Hid.
  - intros [= <-]. destruct (ParseInt target) as [id|]; [|done].
    apply find_index_spec in Hid as (u & Hu & Heq%Z.eqb_eq & _). exists u. rewrite Heq. auto.
  - intros (u & Hu & HP & Hfirst)%find_index_spec. exists u. split; [done|]. right. split_and!; [|done|done].
    intros v Hv. destruct (ParseInt target) as [id|]; [|done]. intros [= Heq].
    apply (find_index_none _ _ Hid) in Hv. rewrite Heq in Hv. by rewrite Z.eqb_refl in Hv.
Qed.

Lemma NoDup_insert_fresh {A} (l : list A) i x : NoDup l → x ∉ l → NoDup (<[i := x]> l).
Proof.
  intros Hl Hx. apply NoDup_alt. intros j k y Hj Hk.
  assert (Hcase : ∀ j, <[i := x]> l !! j = Some y → (j = i ∧ y = x) ∨ (j ≠ i ∧ l !! j = Some y)).
  { intros j0. destruct (decide (j0 = i)) as [->|Hne]; [|rewrite list_lookup_insert_ne by done; auto].
    intros Hj0. left. split; [done|]. destruct (decide (i < length l)%nat) as [Hlt|Hge].
    - rewrite list_lookup_insert_eq in Hj0 by done. by injection Hj0.
    - rewrite list_insert_ge in Hj0 by lia. apply lookup_lt_Some in Hj0. lia. }
  destruct (Hcase j Hj) as [[-> ->]|[Hji Hj']], (Hcase k Hk) as [[-> Hy]|[Hki Hk']]; [done|..].
  - by apply list_elem_of_lookup_2 in Hk'.
  - subst y. by apply list_elem_of_lookup_2 in Hj'.
  - by eapply NoDup_lookup.
Qed.

Section one_entry.
Context (es : list userEntry) (i : nat) (e : userEntry).
Context (Hids : NoDup (e_ID <$> es)) (He : es !! i = Some e).

(** IDs being distinct, the entries other than the [i]-th are those with
    another ID. *)
Lemma other_entries e' : (∃ j, j ≠ i ∧ es !! j = Some e') ↔ e' ∈ es ∧ e_ID e' ≠ e_ID e.
Proof using Hids He.
  split.
  - intros (j & Hji & Hj). split; [by eapply list_elem_of_lookup_2|]. intros Heq. apply Hji.
    eapply (NoDup_lookup _ _ _ (e_ID e) Hids); rewrite list_lookup_fmap; [rewrite Hj|by rewrite He].
    simpl. by rewrite Heq.
  - intros [(j & Hj)%list_elem_of_lookup Hne]. exists j. split; [|done]. intros ->. congruence.
Qed.

Lemma elem_of_rotated e' x : e' ∈ <[i := x]> es ↔ e' = x ∨ (e' ∈ es ∧ e_ID e' ≠ e_ID e).
Proof using Hids He.
  rewrite <- other_entries, list_elem_of_lookup. pose proof (lookup_lt_Some _ _ _ He) as Hlt. split.
  - intros (j & Hj). destruct (decide (j = i)) as [->|Hne].
    + rewrite list_lookup_insert_eq in Hj by done. left. by injection Hj.
    + rewrite list_lookup_insert_ne in Hj by done. eauto.
  - intros [->|(j & Hji & Hj)]; [exists i; by apply list_lookup_insert_eq|].
    exists j. by rewrite list_lookup_insert_ne.
Qed.

Lemma elem_of_removed e' : e' ∈ delete i es ↔ e' ∈ es ∧ e_ID e' ≠ e_ID e.
Proof using Hids He.
  rewrite <- other_entries, list_elem_of_lookup. split.
  - intros (j & Hj). destruct (decide (j < i)%nat) as [Hlt|Hge].
    + rewrite list_lookup_delete_lt in Hj by done. exists j. split; [lia|done].
    + rewrite list_lookup_delete_ge in Hj by lia. exists (S j). split; [lia|done].
  - intros (j & Hji & Hj). destruct (decide (j < i)%nat) as [Hlt|Hge].
    + exists j. by rewrite list_lookup_delete_lt.
    + exists (pred j). rewrite list_lookup_delete_ge by lia. by replace (S (pred j)) with j by lia.
Qed.
End one_entry.

(** A new token for one entry keeps the list well-formed. *)
Lemma rotate_acceptable (es : list userEntry) i (e : userEntry) hash prefix :
  acceptable es → es !! i = Some e → hashPattern hash = true → lower_ascii (TrimSpace hash) = hash →
  TrimSpace prefix = prefix → prefix ≠ "" → hash ∉ u_TokenHash <$> (normalise <$> es) →
  acceptable (<[i := with_token e hash prefix]> es).
Proof.
  intros [(Hid & Hn & Hf) Hnd] He Hpat Hlow Hp Hpne Hfresh. unfold acceptable, entries_ok.
  rewrite !list_fmap_insert. split; [split_and!|].
  - rewrite list_insert_id; [done|]. by rewrite list_lookup_fmap, He.
  - rewrite list_insert_id; [done|]. by rewrite list_lookup_fmap, He.
  - apply Forall_insert; [done|]. destruct (proj1 (Forall_lookup _ _) Hf i e He) as (? & ? & _).
    unfold entry_ok. simpl. by rewrite Hp, Hlow.
  - simpl. rewrite Hlow. by apply NoDup_insert_fresh.
Qed.

Lemma removed_acceptable es i : acceptable es → acceptable (delete i es).
Proof.
  intros [(Hid & Hn & Hf) Hnd]. pose proof (sublist_delete es i) as Hsub.
  split; [split_and!|].
  - by eapply sublist_NoDup; [exact Hid|apply fmap_sublist].
  - by eapply sublist_NoDup; [exact Hn|apply fmap_sublist].
  - by apply Forall_delete.
  - eapply sublist_NoDup; [exact Hnd|]. by apply fmap_sublist, fmap_sublist.
Qed.

(** One more entry, with a new ID, name and token, keeps it well-formed. *)
Lemma added_acceptable (es : list userEntry) (e : userEntry) :
  acceptable es → entry_ok e → (∀ e', e' ∈ es → e_ID e' ≠ e_ID e) →
  (∀ e', e' ∈ es → TrimSpace (e_Name e') ≠ TrimSpace (e_Name e)) →
  u_TokenHash (normalise e) ∉ u_TokenHash <$> (normalise <$> es) → acceptable (es ++ [e]).
Proof.
  assert (Hsnoc : ∀ {B} (f : userEntry → B), NoDup (f <$> es) → (∀ e', e' ∈ es → f e' ≠ f e) → NoDup (f <$> es ++ [e])).
  { intros B f Hnd Hne. rewrite fmap_app. apply NoDup_app. split_and!; [done| |apply NoDup_singleton].
    intros x (e' & -> & He')%list_elem_of_fmap Hx%list_elem_of_singleton. by apply (Hne e'). }
  intros [(Hid & Hn & Hf) Hnd] He Hnid Hnname Hfresh. rewrite <- list_fmap_compose in Hnd, Hfresh. split; [split_and!|].
  - by apply Hsnoc.
  - by apply (Hsnoc _ (λ e, TrimSpace (e_Name e))).
  - apply Forall_app. by rewrite Forall_singleton.
  - rewrite <- list_fmap_compose. apply Hsnoc; [done|]. intros e' He' Heq. apply Hfresh, list_elem_of_fmap.
    exists e'. split; [|done]. symmetry. exact Heq.
Qed.

(** The highest ID. *)
Lemma max_id_foldl (users : list usersFileEntry) m :
  m ≤ foldl (λ m u, if m <? e_ID u then e_ID u else m) m users
  ∧ ∀ u, u ∈ users → e_ID u ≤ foldl (λ m u, if m <? e_ID u then e_ID u else m) m users.
Proof.
  revert m. induction users as [|v users IH]; intros m; simpl.
  { split; [lia|]. by intros u Hu%elem_of_nil. }
  destruct (IH (if m <? e_ID v then e_ID v else m)) as [H1 H2].
  assert (m ≤ (if m <? e_ID v then e_ID v else m) ∧ e_ID v ≤ (if m <? e_ID v then e_ID v else m))
    by (destruct (Z.ltb_spec m (e_ID v)); lia).
  split; [lia|]. intros u [->|Hu]%elem_of_cons; [lia|by apply H2].
Qed.

Lemma max_id_spec users : 0 ≤ max_id users ∧ ∀ u, u ∈ users → e_ID u ≤ max_id users.
Proof. apply (max_id_foldl users 0). Qed.

(** ** The commands *)

(** The token in the output of `user add`. *)
Lemma shown_token a b c t rest :
  a +:+ b +:+ c +:+ ln ("  token: " +:+ t) +:+ rest = (a +:+ b +:+ c +:+ "  token: ") +:+ t +:+ (nl +:+ rest).
Proof. unfold ln. by rewrite !str_app_assoc. Qed.

(** Ends the branches in which the command refused. *)
Ltac refused :=
  match goal with
  | H : (_, _) = (Exit ?x, _), Hx : x_code ?x = 0 |- _ =>
      unfold usage, failure in H; injection H as <- <-; discriminate Hx
  end.

Section commands.
Variable yaml_Unmarshal : bytes → result (list usersFileEntry).
Variable yaml_Marshal : list usersFileEntry → result bytes.
Variable EqualFold : string → string → bool.
(** The server's decoder, with KnownFields. *)
Variable yaml_decode : bytes → result (list userEntry).
(** KnownFields only adds errors; what Marshal writes can be read back;
    EqualFold is reflexive. *)
Hypothesis decode_strict : ∀ raw users, yaml_decode raw = Ok users → yaml_Unmarshal raw = Ok users.
Hypothesis decode_marshal : ∀ users data, yaml_Marshal users = Ok data → yaml_decode data = Ok users.
Hypothesis fold_refl : ∀ s, EqualFold s s = true.

Abbreviation load raw := (LoadUsersFile yaml_decode (inr raw)).

(** What a successful `user add` did: it appended one entry, with a fresh
    token, to the users it read. *)
Lemma runUserAdd_ok args getenv p s x s' :
  resolveUsersFile getenv = Some p →
  runUserAdd yaml_Unmarshal yaml_Marshal EqualFold args getenv s = (Exit x, s') → x_code x = 0 →
  ∃ arg f users buf data before after, args !! 3%nat = Some arg ∧ TrimSpace arg ≠ "" ∧ length buf = tokenBytes
    ∧ fs_files s !! p = Some f ∧ yaml_Unmarshal (f_data f) = Ok users
    ∧ (∀ u, u ∈ users → EqualFold (e_Name u) (TrimSpace arg) = false)
    ∧ let '(token, hash, prefix) := token_of buf in
      yaml_Marshal (users ++ [mk_userEntry (wrap64 (max_id users + 1)) (TrimSpace arg) prefix hash false]) = Ok data
      ∧ fs_files s' !! p = Some (mk_file data 384)
      ∧ x_stdout x = before +:+ token +:+ after.
Proof using.
  intros Hp Hrun Hx. unfold runUserAdd in Hrun. destruct (args !! 3%nat) as [arg|]; [|refused].
  case_decide as Hname; [refused|]. rewrite Hp in Hrun.
  destruct (loadUsersYAML yaml_Unmarshal p s) as [[users|err] s1] eqn:Hl;
    apply loadUsersYAML_run in Hl as [Hs1 Hl]; [|refused].
  destruct Hl as (f & Hf & Hu).
  destruct (List.find (λ u : userEntry, EqualFold (e_Name u) (TrimSpace arg)) users) eqn:Hfind; [refused|].
  destruct (generateToken s1) as [[[[token hash] prefix]|err] s2] eqn:Hg; [|done].
  apply generateToken_run in Hg as [Hs2 (buf & Hbuf & Htok)].
  match type of Hrun with context [saveUsersYAML ?m ?q ?us ?fs] =>
    destruct (saveUsersYAML m q us fs) as [[[]|err] s3] eqn:Hsv end; [|refused].
  injection Hrun as <- <-. apply saveUsersYAML_run in Hsv as (_ & data & Hm & Hf').
  eexists arg, f, users, buf, data, _, _. rewrite <- Htok. split_and!; try done.
  - intros u Hu'%list_elem_of_In. exact (find_none _ _ Hfind _ Hu').
  - cbn [x_stdout]. apply shown_token.
Qed.

(** C29: An added user can log in, and nobody else's access changes: after a
    successful `user add` on a users file that the server accepts (names
    trimmed, IDs below the int64 limit), the server accepts the new file too,
    in which the printed token authenticates the new user, whose ID is above
    all others, and every other token authenticates whom it did before, or
    nobody as before; the only exception is a token whose hash is already in
    the file. *)
Theorem added_user_can_log_in args getenv p s x s' f snap entries :
  resolveUsersFile getenv = Some p →
  runUserAdd yaml_Unmarshal yaml_Marshal EqualFold args getenv s = (Exit x, s') → x_code x = 0 →
  fs_files s !! p = Some f → load (f_data f) = Returned (Ok snap) → yaml_decode (f_data f) = Ok entries →
  max_id entries < max_int64 → Forall (λ u, TrimSpace (e_Name u) = e_Name u) entries →
  ∃ arg token user f' before after, args !! 3%nat = Some arg ∧ u_Name user = TrimSpace arg
    ∧ x_stdout x = before +:+ token +:+ after ∧ fs_files s' !! p = Some f' ∧ f_mode f' = 384
    ∧ ((∃ v, v ∈ ordered snap ∧ u_TokenHash v = token_hash token)
       ∨ ∃ snap', load (f_data f') = Returned (Ok snap')
           ∧ (∀ v, v ∈ ordered snap → u_ID v < u_ID user)
           ∧ ∀ t v, Lookup snap' t = Ok v ↔
               Lookup snap t = Ok v ∨ (token_hash t = token_hash token ∧ v = user)).
Proof using decode_strict decode_marshal fold_refl.
  intros Hp Hrun Hx Hf Hload Hy Hmax Htrim. destruct (accepts _ _ _ Hy) as [Hacc _].
  destruct (Hacc _ Hload) as [Hok Hsnap]. pose proof Hsnap as (Hord & _).
  destruct (runUserAdd_ok _ _ _ _ _ _ Hp Hrun Hx)
    as (arg & f0 & users & buf & data & before & after & Harg & Hname & Hbuf & Hf0 & Hu & Hfold & Hdone).
  assert (f0 = f) as -> by congruence. rewrite (decode_strict _ _ Hy) in Hu. injection Hu as <-.
  pose proof (token_of_facts buf Hbuf) as Hfacts. destruct (token_of buf) as [[token hash] prefix].
  destruct Hfacts as (Hhash & Hpat & Hlow & Hpre & Hpne). destruct Hdone as (Hm & Hf' & Hout).
  destruct (max_id_spec entries) as [Hm0 Hmall]. set (id := wrap64 _) in Hm. set (e := mk_userEntry _ _ _ _ _) in Hm.
  assert (Hid : id = max_id entries + 1) by (unfold id, wrap64, max_int64 in *; rewrite Z.mod_small; lia).
  assert (Hnorm : normalise e = mk_User id (TrimSpace arg) prefix hash false)
    by (unfold normalise, e; cbn [e_ID e_Name e_TokenPrefix e_TokenHash e_Disabled]; by rewrite TrimSpace_idem, Hlow, Hpre).
  exists arg, token, (normalise e), (mk_file data 384), before, after. rewrite Hnorm.
  split_and!; [done..|]. destruct (decide (hash ∈ u_TokenHash <$> (normalise <$> entries))) as [Hin|Hin].
  { left. apply list_elem_of_fmap in Hin as (v & -> & Hv). exists v. by rewrite Hord, <- Hhash. }
  right. assert (Hok' : acceptable (entries ++ [e])).
  { apply added_acceptable; [done| | | |by rewrite Hnorm].
    - unfold entry_ok, e. cbn [e_ID e_Name e_TokenPrefix e_TokenHash]. rewrite TrimSpace_idem, Hpre, Hlow.
      split_and!; [lia|done..].
    - intros e' He'%Hmall. simpl. lia.
    - intros e' He'. rewrite Forall_forall in Htrim. unfold e. cbn [e_Name]. rewrite (Htrim e' He'), TrimSpace_idem.
      intros Heq. specialize (Hfold e' He'). by rewrite Heq, fold_refl in Hfold. }
  destruct (proj2 (accepts yaml_decode data _ (decode_marshal _ _ Hm)) Hok') as (snap' & Hl' & Hsnap').
  exists snap'. split_and!; [done| |].
  - intros v Hv. rewrite Hord in Hv. apply list_elem_of_fmap in Hv as (e' & -> & He'%Hmall). simpl. lia.
  - intros t v. rewrite (Lookup_entries _ _ _ _ Hsnap'), (Lookup_entries _ _ _ _ Hsnap).
    setoid_rewrite elem_of_app. setoid_rewrite list_elem_of_singleton. split.
    + intros (e' & [He'| ->] & -> & Hh & Hd); [by eauto 10|]. right. rewrite Hnorm in *. simpl in Hh.
      split; [congruence|done].
    + intros [(e' & He' & -> & Hh & Hd)|[Hh Hv]]; [by eauto 10|]. subst v. exists e. split; [by right|].
      rewrite Hnorm. split_and!; [done| |done]. simpl. congruence.
Qed.

(** What a successful `user rotate` did. *)
Lemma runUserRotate_ok args getenv p s x s' :
  resolveUsersFile getenv = Some p →
  runUserRotate yaml_Unmarshal yaml_Marshal EqualFold args getenv s = (Exit x, s') → x_code x = 0 →
  ∃ arg f users i u buf data before after, args !! 3%nat = Some arg ∧ length buf = tokenBytes
    ∧ fs_files s !! p = Some f ∧ yaml_Unmarshal (f_data f) = Ok users
    ∧ findUser EqualFold users (TrimSpace arg) = Some i ∧ users !! i = Some u
    ∧ let '(token, hash, prefix) := token_of buf in
      yaml_Marshal (<[i := with_token u hash prefix]> users) = Ok data
      ∧ fs_files s' !! p = Some (mk_file data 384)
      ∧ x_stdout x = before +:+ token +:+ after.
Proof using.
  intros Hp Hrun Hx. unfold runUserRotate in Hrun. destruct (args !! 3%nat) as [arg|]; [|refused].
  rewrite Hp in Hrun. destruct (loadUsersYAML yaml_Unmarshal p s) as [[users|err] s1] eqn:Hl;
    apply loadUsersYAML_run in Hl as [Hs1 Hl]; [|refused].
  destruct Hl as (f & Hf & Hu). destruct (findUser EqualFold users (TrimSpace arg)) as [i|] eqn:Hi; [|refused].
  destruct (generateToken s1) as [[[[token hash] prefix]|err] s2] eqn:Hg; [|done].
  apply generateToken_run in Hg as [Hs2 (buf & Hbuf & Htok)].
  destruct (users !! i) as [u|] eqn:Hui; [|done].
  match type of Hrun with context [saveUsersYAML ?m ?q ?us ?fs] =>
    destruct (saveUsersYAML m q us fs) as [[[]|err] s3] eqn:Hsv end; [|refused].
  injection Hrun as <- <-. apply saveUsersYAML_run in Hsv as (_ & data & Hm & Hf').
  eexists arg, f, users, i, u, buf, data, _, _. rewrite <- Htok. split_and!; try done.
  cbn [x_stdout]. unfold ln at 2. rewrite (str_app_assoc _ nl).
  rewrite (str_app_assoc "  token: "). rewrite str_app_assoc. reflexivity.
Qed.

(** C30: Rotation replaces one credential and no other: after a successful
    `user rotate` on a users file that the server accepts, the server accepts
    the new file, in which the printed token authenticates exactly the user
    that the argument named (unless it is disabled), that user's old token is
    refused, and every other token authenticates whom it did before; the only
    exception is a token whose hash is already in the file.  The argument names
    a user by ID first, and by name only if no user has that ID. *)
Theorem rotated_token_only args getenv p s x s' f snap entries :
  resolveUsersFile getenv = Some p →
  runUserRotate yaml_Unmarshal yaml_Marshal EqualFold args getenv s = (Exit x, s') → x_code x = 0 →
  fs_files s !! p = Some f → load (f_data f) = Returned (Ok snap) → yaml_decode (f_data f) = Ok entries →
  ∃ arg i e hash prefix token f' before after, args !! 3%nat = Some arg
    ∧ named EqualFold entries (TrimSpace arg) i e
    ∧ x_stdout x = before +:+ token +:+ after ∧ fs_files s' !! p = Some f' ∧ f_mode f' = 384
    ∧ ((∃ v, v ∈ ordered snap ∧ u_TokenHash v = token_hash token)
       ∨ ∃ snap', load (f_data f') = Returned (Ok snap')
           ∧ ∀ t v, Lookup snap' t = Ok v ↔
               (u_ID v ≠ e_ID e ∧ Lookup snap t = Ok v)
               ∨ (token_hash t = token_hash token ∧ e_Disabled e = false
                  ∧ v = normalise (with_token e hash prefix))).
Proof using decode_strict decode_marshal.
  intros Hp Hrun Hx Hf Hload Hy. destruct (accepts _ _ _ Hy) as [Hacc _]. destruct (Hacc _ Hload) as [Hok Hsnap].
  destruct (runUserRotate_ok _ _ _ _ _ _ Hp Hrun Hx)
    as (arg & f0 & users & i & u & buf & data & before & after & Harg & Hbuf & Hf0 & Hu & Hi & Hui & Hdone).
  assert (f0 = f) as -> by congruence. rewrite (decode_strict _ _ Hy) in Hu. injection Hu as <-.
  pose proof (token_of_facts buf Hbuf) as Hfacts. destruct (token_of buf) as [[token hash] prefix].
  destruct Hfacts as (Hhash & Hpat & Hlow & Hpre & Hpne). destruct Hdone as (Hm & Hf' & Hout).
  apply findUser_spec in Hi as (u' & Hnamed). pose proof Hnamed as [Hu' _].
  unfold usersFileEntry in *. rewrite Hui in Hu'. injection Hu' as <-.
  exists arg, i, u, hash, prefix, token, (mk_file data 384), before, after.
  split_and!; [done..|].
  destruct (decide (hash ∈ u_TokenHash <$> (normalise <$> entries))) as [Hin|Hin].
  { left. apply list_elem_of_fmap in Hin as (v & -> & Hv). exists v. pose proof Hsnap as (-> & _). by rewrite <- Hhash. }
  right. pose proof (rotate_acceptable entries i u hash prefix Hok Hui Hpat Hlow Hpre Hpne Hin) as Hok'.
  destruct (proj2 (accepts yaml_decode data _ (decode_marshal _ _ Hm)) Hok') as (snap' & Hl' & Hsnap').
  exists snap'. split; [done|]. intros t v. rewrite (Lookup_entries _ _ _ _ Hsnap'), (Lookup_entries _ _ _ _ Hsnap).
  setoid_rewrite (elem_of_rotated entries i u (proj1 (proj1 Hok)) Hui). split.
  - intros (e & [->|[He Hne]] & -> & Hh & Hd); [|by eauto 10]. right. simpl in *. rewrite Hlow in Hh.
    split_and!; [congruence|done|done].
  - intros [(Hne & e & He & -> & Hh & Hd)|(Hh & Hd & ->)]; [by eauto 10|].
    eexists. split; [by left|]. split_and!; [done| |done]. simpl. rewrite Hlow. congruence.
Qed.

(** --force, or the answer y. *)
Definition confirmed (force : bool) (answer : option string) : Prop :=
  force = true ∨ ∃ a, answer = Some a ∧ lower_ascii (TrimSpace a) = "y".

(** What a successful `user rm` did. *)
Lemma runUserRm_ok args getenv answer p s x s' :
  resolveUsersFile getenv = Some p →
  runUserRm yaml_Unmarshal yaml_Marshal EqualFold args getenv answer s = (Exit x, s') → x_code x = 0 →
  ∃ force target f users i u, rm_arguments (drop 3 args) = (force, target)
    ∧ fs_files s !! p = Some f ∧ yaml_Unmarshal (f_data f) = Ok users
    ∧ findUser EqualFold users target = Some i ∧ users !! i = Some u
    ∧ ((¬ confirmed force answer ∧ same_files s s')
       ∨ (confirmed force answer ∧ ∃ data, yaml_Marshal (delete i users) = Ok data
          ∧ fs_files s' !! p = Some (mk_file data 384))).
Proof using.
  intros Hp Hrun Hx. unfold runUserRm in Hrun. destruct (_ <? _)%nat; [refused|].
  destruct (rm_arguments _) as [force target]. case_decide; [refused|]. rewrite Hp in Hrun.
  destruct (loadUsersYAML yaml_Unmarshal p s) as [[users|err] s1] eqn:Hl;
    apply loadUsersYAML_run in Hl as [Hs1 Hl]; [|refused].
  destruct Hl as (f & Hf & Hu). destruct (findUser EqualFold users target) as [i|] eqn:Hi; [|refused].
  destruct (users !! i) as [u|] eqn:Hui; [|done].
  exists force, target, f, users, i, u. split_and!; try done.
  set (c := force || _) in Hrun. assert (Hc : c = true ↔ confirmed force answer).
  { unfold c, confirmed. rewrite orb_true_iff. destruct answer as [a|].
    - rewrite bool_decide_eq_true. naive_solver.
    - naive_solver. }
  clearbody c. destruct c; simpl in Hrun.
  - right. split; [by apply Hc|]. rewrite <- delete_take_drop in Hrun.
    destruct (saveUsersYAML yaml_Marshal p (delete i users) s1) as [[[]|err] s2] eqn:Hsv; [|refused].
    injection Hrun as <- <-. by apply saveUsersYAML_run in Hsv as (_ & data & Hm & Hf'); eauto.
  - left. split; [by intros ?%Hc|]. by injection Hrun as _ <-.
Qed.


(** ** Bootstrap *)

(** One entry with a fresh token. *)
Lemma first_user_acceptable name buf :
  length buf = tokenBytes → TrimSpace name ≠ "" →
  let '(token, hash, prefix) := token_of buf in
  let e := mk_userEntry 1 (TrimSpace name) prefix hash false in
  acceptable [e] ∧ normalise e = mk_User 1 (TrimSpace name) prefix (token_hash token) false.
Proof using.
  intros Hbuf Hname. pose proof (token_of_facts buf Hbuf) as Hfacts.
  destruct (token_of buf) as [[token hash] prefix]. destruct Hfacts as (<- & Hpat & Hlow & Hpre & Hpne).
  cbn zeta. unfold acceptable, entries_ok, normalise, entry_ok. cbn [fmap list_fmap e_ID e_Name e_TokenPrefix e_TokenHash e_Disabled u_TokenHash].
  rewrite TrimSpace_idem, Hlow, Hpre.
  split_and!; try apply NoDup_singleton; [|done]. constructor; [|constructor]. cbn [e_ID e_Name e_TokenPrefix e_TokenHash].
  by rewrite TrimSpace_idem, Hlow, Hpre.
Qed.

(** No output of the command is as long as a token. *)
Definition terse (e : ended) : Prop :=
  match e with
  | Exit x => (length (bytes_of_string (x_stdout x +:+ x_stderr x)) < 68)%nat
  | Crashed msg => (length (bytes_of_string msg) < 68)%nat
  end.

Lemma token_length buf : length buf = tokenBytes → length (bytes_of_string (token_of buf).1.1) = 68%nat.
Proof using.
  intros Hb. unfold token_of. cbn [fst]. rewrite bytes_of_string_app, length_app.
  destruct (EncodeToString_bytes buf) as [_ ->]. by rewrite Hb.
Qed.

Definition printed (e : ended) : string :=
  match e with Exit x => x_stdout x +:+ x_stderr x | Crashed msg => msg end.

Lemma terse_no_token e buf :
  terse e → length buf = tokenBytes → ¬ occurs (bytes_of_string (token_of buf).1.1) (bytes_of_string (printed e)).
Proof using.
  intros He Hb%token_length (x & y & H). apply (f_equal length) in H. rewrite !length_app, Hb in H.
  destruct e; simpl in *; lia.
Qed.

Abbreviation runBootstrap := (runBootstrap yaml_Marshal).

(** The command did not succeed. *)
Definition refused (e : ended) : Prop := match e with Exit x => x_code x ≠ 0 | Crashed _ => True end.

(** Ends the branches that change no file. *)
Ltac nothing := by intros [= <- <-]; split; [vm_compute; lia|left].

Lemma Stat_directory p s s' : Stat p s = (inr Directory, s') → is_dir (path_string p) s' = true.
Proof using.
  unfold Stat, syscall. destruct (fs_fault s _); [done|]. destruct (fs_files _ !! p); [done|].
  destruct (is_dir _ _) eqn:Hd; [|done]. by intros [= <-].
Qed.

(** What a bootstrap did: its output is terse, and it changed nothing, or
    failed with the users file as it was, or created both files. *)
Lemma runBootstrap_run args getenv p s e s' :
  let tok := token_path (getenv "TABBY_SYNC_DATA_DIR") in
  resolveUsersFile getenv = Some p → p ≠ tok → ¬ temp_of tok p → runBootstrap args getenv s = (e, s') →
  terse e
  ∧ ((refused e ∧ same_files s s')
     ∨ (e = Exit (mk_exit 0 (ln "bootstrap skipped: users file already exists") "")
        ∧ same_files s s' ∧ (is_Some (fs_files s !! p) ∨ is_dir (path_string p) s' = true))
     ∨ (fs_files s !! p = None
        ∧ ((∃ msg, e = failure msg ∧ fs_files s' !! p = None)
           ∨ ∃ prog cmd arg buf data, args = [prog; cmd; arg] ∧ TrimSpace arg ≠ "" ∧ length buf = tokenBytes
             ∧ e = Exit (mk_exit 0 (ln "bootstrap credentials created") "")
             ∧ let '(token, hash, prefix) := token_of buf in
               fs_files s' !! tok = Some (mk_file (bytes_of_string (ln token)) 384)
               ∧ yaml_Marshal [mk_userEntry 1 (TrimSpace arg) prefix hash false] = Ok data
               ∧ fs_files s' !! p = Some (mk_file data 384)))).
Proof using.
  intros tok Hp Hne Htmp. unfold Cli.runBootstrap. fold tok.
  destruct args as [|prog [|cmd [|arg [|? ?]]]]; try nothing.
  case_decide as Hname; [nothing|]. case_decide; [nothing|]. rewrite Hp.
  destruct (MkdirAll _ 488 s) as [[?|[]] s1] eqn:H1; apply MkdirAll_pure in H1; [nothing|].
  destruct (MkdirAll (p_dir p) 488 s1) as [[?|[]] s2] eqn:H2; apply MkdirAll_pure in H2;
    (assert (Hs2 : same_files s s2) by (unfold same_files in *; congruence)); [nothing|].
  destruct (Stat p s2) as [[e0|info] s3] eqn:H3; pose proof H3 as H3'; apply Stat_run in H3 as [H3 Hst];
    (assert (Hs3 : same_files s s3) by (unfold same_files in *; congruence)).
  2: { intros [= <- <-]. split; [vm_compute; lia|]. right. left. split_and!; [done|done|].
       destruct info as [size mode|]; [left; destruct Hst as (f & Hf & _); unfold same_files in *; rewrite <- Hs2, Hf; eauto|].
       right. by apply Stat_directory in H3'. }
  destruct (errors_is _ _); [|nothing]. specialize (Hst eq_refl). cbn [negb].
  destruct (generateToken s3) as [r s4] eqn:Hg. pose proof Hg as Hg'. apply generateToken_run in Hg' as [Hs4 Htok].
  assert (Hs : same_files s s4) by (unfold same_files in *; congruence).
  assert (Hnone : fs_files s4 !! p = None) by (unfold same_files in *; congruence).
  destruct r as [[[token hash] prefix]|err].
  2: { unfold generateToken, fs_read_rand in Hg. destruct (fs_rand s3 _); [done|].
       injection Hg as <- _. nothing. }
  destruct Htok as (buf & Hbuf & Htok).
  destruct (writeFileAtomic tok _ 384 s4) as [[?|[]] s5] eqn:Hw; apply writeFileAtomic_run in Hw as [Ho Hw].
  all: assert (Hs5 : fs_files s5 !! p = None) by (rewrite Ho; auto).
  { intros [= <- <-]. split; [vm_compute; lia|]. right. right. split; [unfold same_files in *; congruence|]. left. eauto. }
  destruct (saveUsersYAML yaml_Marshal p _ s5) as [[[]|err] s6] eqn:Hsv; apply saveUsersYAML_run in Hsv as [Ho6 Hsv].
  - intros [= <- <-]. split; [vm_compute; lia|]. right. right. split; [unfold same_files in *; congruence|]. right.
    destruct Hsv as (data & Hm & Hf). exists prog, cmd, arg, buf, data. rewrite <- Htok. split_and!; try done.
    rewrite Ho6; [done|by symmetry|by eexists].
  - destruct (Remove tok s6) as [xr s7] eqn:Hr. apply Remove_run in Hr as [Hr _].
    intros [= <- <-]. split; [vm_compute; lia|]. right. right. split; [unfold same_files in *; congruence|]. left.
    eexists. split; [done|]. simpl. by rewrite Hr, Hsv.
Qed.

(** The users that a bootstrap puts in service: exactly the new token logs
    the new user in. *)
Lemma bootstrap_outcome args getenv p s e s' :
  let tok := token_path (getenv "TABBY_SYNC_DATA_DIR") in
  resolveUsersFile getenv = Some p → p ≠ tok → ¬ temp_of tok p → runBootstrap args getenv s = (e, s') →
  same_files s s'
  ∨ (fs_files s !! p = None
     ∧ (fs_files s' !! p = None
        ∨ ∃ arg buf data snap user, args !! 2%nat = Some arg ∧ length buf = tokenBytes
            ∧ e = Exit (mk_exit 0 (ln "bootstrap credentials created") "")
            ∧ fs_files s' !! tok = Some (mk_file (bytes_of_string (ln (token_of buf).1.1)) 384)
            ∧ fs_files s' !! p = Some (mk_file data 384)
            ∧ load data = Returned (Ok snap) ∧ u_ID user = 1 ∧ u_Name user = TrimSpace arg
            ∧ ∀ t v, Lookup snap t = Ok v ↔ token_hash t = token_hash (token_of buf).1.1 ∧ v = user)).
Proof using decode_marshal.
  intros tok Hp Hne Htmp Hrun. destruct (runBootstrap_run _ _ _ _ _ _ Hp Hne Htmp Hrun) as [_ Hcase].
  destruct Hcase as [[_ Hs]|[(_ & Hs & _)|(Hnone & [(msg & _ & Hf)|(prog & cmd & arg & buf & data & -> & Hname & Hbuf & -> & Hdone)])]];
    [by left|by left|by right; auto|].
  right. split; [done|]. right. exists arg, buf, data. pose proof (first_user_acceptable arg buf Hbuf Hname) as Hacc.
  destruct (token_of buf) as [[token hash] prefix]. destruct Hdone as (Htok & Hm & Hf), Hacc as [Hacc Hnorm].
  destruct (proj2 (accepts yaml_decode data _ (decode_marshal _ _ Hm)) Hacc) as (snap & Hl & Hsnap).
  exists snap, (mk_User 1 (TrimSpace arg) prefix (token_hash token) false). cbn [fst].
  split_and!; [done..|]. intros t v. rewrite (Lookup_entries _ _ _ _ Hsnap).
  setoid_rewrite list_elem_of_singleton. split.
  + intros (u & -> & -> & Hh & _). by rewrite Hnorm in Hh |- *.
  + intros [Ht ->]. eexists. split; [done|]. by rewrite Hnorm.
Qed.

(** C32: Bootstrap creates the first user once and in secret.  When it reports
    success, either something was at the path of the users file and no file has
    changed, or there was nothing and now there are both files, of mode 0600: a
    users file that the server accepts, in which the token in token.txt, and no
    other, logs the one user in, under the trimmed name.  When it fails or
    crashes the users file is as it was: if there was none, there is none.  In
    no case is a users file that exists, or any other file beside it, changed,
    and no token occurs in what is printed.  (The users file is neither
    token.txt nor a temporary file for it.) *)
Theorem bootstrap_first_user args getenv p s e s' :
  let tok := token_path (getenv "TABBY_SYNC_DATA_DIR") in
  resolveUsersFile getenv = Some p → p ≠ tok → ¬ temp_of tok p → runBootstrap args getenv s = (e, s') →
  (∀ buf, length buf = tokenBytes → ¬ occurs (bytes_of_string (token_of buf).1.1) (bytes_of_string (printed e)))
  ∧ (is_Some (fs_files s !! p) → same_files s s')
  ∧ (refused e → fs_files s' !! p = fs_files s !! p)
  ∧ (¬ refused e →
     (same_files s s' ∧ (is_Some (fs_files s !! p) ∨ is_dir (path_string p) s' = true))
     ∨ (fs_files s !! p = None
        ∧ ∃ arg token user data snap, args !! 2%nat = Some arg
          ∧ fs_files s' !! tok = Some (mk_file (bytes_of_string (ln token)) 384)
          ∧ fs_files s' !! p = Some (mk_file data 384)
          ∧ load data = Returned (Ok snap) ∧ u_ID user = 1 ∧ u_Name user = TrimSpace arg
          ∧ ∀ t v, Lookup snap t = Ok v ↔ token_hash t = token_hash token ∧ v = user)).
Proof using decode_marshal.
  intros tok Hp Hne Htmp Hrun.
  destruct (runBootstrap_run _ _ _ _ _ _ Hp Hne Htmp Hrun) as [Hterse Hcase].
  split; [intros buf; by apply terse_no_token|].
  destruct Hcase as [[Href Hs]|[(-> & Hs & Hthere)|(Hnone & Hcase)]].
  - split_and!; [done|by rewrite Hs|by intros []].
  - split_and!; [done|by rewrite Hs|]. intros _. by left.
  - rewrite Hnone. split; [by intros []|].
    destruct Hcase as [(msg & -> & Hf)|(prog & cmd & arg0 & buf0 & data0 & _ & _ & _ & -> & Hdone)].
    { split; [done|]. intros []. done. }
    assert (Hsome : fs_files s' !! p = Some (mk_file data0 384)).
    { destruct (token_of buf0) as [[token hash] prefix]. by destruct Hdone as (_ & _ & ?). }
    split; [by intros []|]. intros _. right. split; [done|].
    destruct (bootstrap_outcome _ _ _ _ _ _ Hp Hne Htmp Hrun)
      as [Hs|(_ & [Hf|(arg & buf & data & snap & user & Harg & _ & _ & H)])].
    + unfold same_files in Hs. congruence.
    + congruence.
    + exists arg, (token_of buf).1.1, user, data, snap. split_and!; [done|apply H..].
Qed.
End commands.

(** ** Examples: alice, bob and an empty directory *)

Definition added : ended * FS :=
  runUserAdd Codec.unmarshal Codec.marshal equal_fold_ascii ["tabby-sync"; "user"; "add"; " carol"]
    Codec.getenv (Codec.disk [Codec.alice; Codec.bob]).
Definition added_exit : exit := match added.1 with Exit x => x | Crashed _ => mk_exit 1 "" "" end.
Definition served : userSnapshot :=
  match LoadUsersFile Codec.unmarshal (inr (f_data (Codec.users_file [Codec.alice; Codec.bob]))) with
  | Returned (Ok snap) => snap
  | _ => mk_userSnapshot ∅ []
  end.

Lemma added_user_can_log_in_witness :
  ∃ token user, u_Name user = "carol"
    ∧ ((∃ v, v ∈ ordered served ∧ u_TokenHash v = token_hash token)
       ∨ ∃ snap', Lookup snap' token = Ok user ∧ ∀ t v, Lookup served t = Ok v → Lookup snap' t = Ok v).
Proof.
  destruct (added_user_can_log_in Codec.unmarshal Codec.marshal equal_fold_ascii Codec.unmarshal
    (λ raw users H, H) Codec.unmarshal_marshal (λ s, bool_decide_eq_true_2 _ eq_refl)
    ["tabby-sync"; "user"; "add"; " carol"] Codec.getenv Codec.users_path
    (Codec.disk [Codec.alice; Codec.bob]) added_exit added.2
    (Codec.users_file [Codec.alice; Codec.bob]) served [Codec.alice; Codec.bob])
    as (arg & token & user & f' & before & after & Harg & Hname & _ & _ & _ & H).
  - vm_compute. reflexivity.
  - change (added = (Exit added_exit, added.2)). apply run_fst. vm_compute. reflexivity.
  - vm_compute. reflexivity.
  - reflexivity.
  - vm_compute. reflexivity.
  - apply Codec.unmarshal_marshal. reflexivity.
  - vm_compute. reflexivity.
  - repeat constructor; vm_compute; reflexivity.
  - exists token, user. injection Harg as <-. split; [rewrite Hname; vm_compute; reflexivity|].
    destruct H as [H|(snap' & _ & _ & Hall)]; [left; exact H|right].
    exists snap'. split; [apply Hall; right; done|]. intros t v Ht. apply Hall. left. exact Ht.
Defined.

(** bob has ID 2, and another user the name 2. *)
Definition two : userEntry := mk_userEntry 3 "2" "tbs_two" (token_hash "tbs_two_1") false.
Definition all : list userEntry := [Codec.alice; two; Codec.bob].
Definition all_served : userSnapshot :=
  match LoadUsersFile Codec.unmarshal (inr (f_data (Codec.users_file all))) with
  | Returned (Ok snap) => snap
  | _ => mk_userSnapshot ∅ []
  end.
Definition exit_of (r : ended * FS) : exit := match r.1 with Exit x => x | Crashed _ => mk_exit 1 "" "" end.
Definition rotated : ended * FS :=
  runUserRotate Codec.unmarshal Codec.marshal equal_fold_ascii ["tabby-sync"; "user"; "rotate"; " BOB"]
    Codec.getenv (Codec.disk all).
Definition removed : ended * FS :=
  runUserRm Codec.unmarshal Codec.marshal equal_fold_ascii ["tabby-sync"; "user"; "rm"; "2"]
    Codec.getenv (Some "Y") (Codec.disk all).
Definition empty_disk : FS :=
  mk_FS ∅ {[ "/" := 493 ]} 0 (λ _, None) (λ _, 0%nat) pretty (λ _, Some (λ i, Byte.x0c)).
Definition bootstrapped : ended * FS :=
  runBootstrap Codec.marshal ["tabby-sync"; "bootstrap"; " alice "] Codec.getenv empty_disk.

(** Both arguments name bob. *)
Lemma names_bob i e target :
  target ∈ ["BOB"; "2"] → named equal_fold_ascii all target i e → e = Codec.bob.
Proof.
  intros Ht [He Hn]. destruct i as [|[|[|i]]]; [injection He as <-..|done]; [..|done];
    repeat (apply elem_of_cons in Ht as [->|Ht]; [exfalso; revert Hn|]); try (by apply elem_of_nil in Ht).
  all: intros [Hid|(Hno & Hname & _)]; [vm_compute in Hid; discriminate Hid|].
  all: vm_compute in Hname; try discriminate Hname. apply (Hno Codec.bob); [|reflexivity].
  by do 2 apply list_elem_of_further; apply list_elem_of_here.
Qed.

Lemma rotated_token_only_witness :
  ∃ e token snap', e_Name e = "bob"
    ∧ ((∃ v, v ∈ ordered all_served ∧ u_TokenHash v = token_hash token)
       ∨ ∀ t v, Lookup snap' t = Ok v → u_ID v = 2 → token_hash t = token_hash token).
Proof.
  destruct (rotated_token_only Codec.unmarshal Codec.marshal equal_fold_ascii Codec.unmarshal
    (λ raw users H, H) Codec.unmarshal_marshal ["tabby-sync"; "user"; "rotate"; " BOB"] Codec.getenv
    Codec.users_path (Codec.disk all) (exit_of rotated) rotated.2 (Codec.users_file all) all_served all)
    as (arg & i & e & hash & prefix & token & f' & before & after & Harg & Hnamed & _ & _ & _ & H).
  - vm_compute. reflexivity.
  - change (rotated = (Exit (exit_of rotated), rotated.2)). apply run_fst. vm_compute. reflexivity.
  - vm_compute. reflexivity.
  - reflexivity.
  - vm_compute. reflexivity.
  - apply Codec.unmarshal_marshal. reflexivity.
  - injection Harg as <-. apply names_bob in Hnamed as ->; [|vm_compute; by left].
    exists Codec.bob, token. destruct H as [H|(snap' & _ & H)].
    + exists all_served. split; [reflexivity|]. left. exact H.
    + exists snap'. split; [reflexivity|]. right. intros t v Hl Hid.
      apply H in Hl as [[Hne _]|[Ht _]]; [|exact Ht]. destruct Hne. exact Hid.
Defined.


Lemma bootstrap_first_user_witness :
  ∃ token user snap, u_Name user = "alice" ∧ Lookup snap token = Ok user
    ∧ fs_files bootstrapped.2 !! mk_path "/data" "token.txt" = Some (mk_file (bytes_of_string (ln token)) 384).
Proof.
  destruct (bootstrap_first_user Codec.marshal Codec.unmarshal Codec.unmarshal_marshal
    ["tabby-sync"; "bootstrap"; " alice "] Codec.getenv Codec.users_path empty_disk bootstrapped.1 bootstrapped.2)
    as (_ & _ & _ & H).
  - vm_compute. reflexivity.
  - vm_compute. discriminate.
  - intros [x Hx]. vm_compute in Hx. discriminate Hx.
  - apply surjective_pairing.
  - destruct H as [[_ [H|H]]|(_ & arg & token & user & data & snap & Harg & Htok & _ & _ & _ & Hname & H)].
    + vm_compute. intros H. by apply H.
    + exfalso. destruct H as [f H]. vm_compute in H. discriminate H.
    + exfalso. vm_compute in H. discriminate H.
    + injection Harg as <-. exists token, user, snap. split; [rewrite Hname; vm_compute; reflexivity|].
      split; [apply H; split; reflexivity|]. exact Htok.
Defined.

(** `user add` can make a file that the server refuses from one that it
    accepts: it compares names as they stand in the file, which the server
    trims, and counts an ID up from the highest int64 to the lowest. *)
Definition add_to (e : userEntry) (name : string) : ended * FS :=
  Codec.user ["add"; name] (Codec.disk [e]).
Definition accepted_file (f : option file) : bool :=
  match f with
  | Some f => match LoadUsersFile Codec.unmarshal (inr (f_data f)) with Returned (Ok _) => true | _ => false end
  | None => false
  end.
Definition padded : userEntry :=
  mk_userEntry 1 "alice " (e_TokenPrefix Codec.alice) (e_TokenHash Codec.alice) false.
Definition last_id : userEntry :=
  mk_userEntry max_int64 "alice" (e_TokenPrefix Codec.alice) (e_TokenHash Codec.alice) false.

Theorem add_breaks_file e name :
  (e, name) ∈ [(padded, "alice"); (last_id, "bob")] →
  accepted_file (Some (Codec.users_file [e])) = true
  ∧ Codec.code (add_to e name) = Some 0
  ∧ accepted_file (fs_files (add_to e name).2 !! Codec.users_path) = false.
Proof.
  intros H. apply elem_of_cons in H as [[= -> ->]|[[= -> ->]|H%elem_of_nil]%elem_of_cons]; [| |done];
    vm_compute; repeat split; reflexivity.
Qed.
