(* ===== verification/EndToEnd.v ===== *)
(** From the wire to the store: the whole chain of a running server, on
    requests with valid credentials, is authentication, then the limiter,
    then the API handler; and the first login after a bootstrap. *)

From S2P Require Import Prelude GoTime Env Store Sql Sqlite AesGcm Crypto Encrypted History Stack.
From S2P Require Import GoLib Json JsonEnc FS Auth Api Net RateLimit Http Server ServerLaws ServerProps.
From S2P Require Import Cli CliProps UserProps.

(** Every response with a body has a status that allows one. *)
Lemma serve_status {W} {ES : EncryptedStore W} n ep q (w : W) resp logs w' :
  serve n ep q w = (Some (resp, logs), w') → rs_body resp = BEmpty ∨ bodyAllowed (rs_status resp) = true.
Proof.
  intros H.
  destruct ep; unfold serve, handleGetUser, handleListConfigs, handleCreateConfig, handleGetConfig,
    handlePatchConfig, handleDeleteConfig, currentUser, parseConfigID, decodeJSON in H;
    repeat case_match; simplify_eq; unfold writeStoreError, writeError, writeJSON in *;
    repeat case_match; simplify_eq/=; auto.
Qed.

Section chain.
Context {W : Type} {ES : EncryptedStore W}.
Variable redirect_url : Req → string.
Variable redirect_page : Req → bytes.
Abbreviation hstate := (@hstate W).
Abbreviation serve_http := (serve_http redirect_url redirect_page).
Abbreviation server_mux := (server_mux redirect_url redirect_page).
Implicit Types (s : hstate) (r : Req) (w : W).

(** What the client gets for an answer of the API, when the connection's
    header is [hd]. *)
Definition api_reply (head : bool) (hd : header) (resp : Response) : Z * header * bytes :=
  match rs_body resp with
  | BEmpty => (rs_status resp, hd, [])
  | b => (rs_status resp, <["Content-Type" := application_json]> hd, if head then [] else body_bytes b)
  end.

Lemma write_response_reply resp s :
  unwritten s → rs_body resp = BEmpty ∨ bodyAllowed (rs_status resp) = true →
  reply (h_conn (write_response resp s)) = api_reply (c_head (h_conn s)) (c_header (h_conn s)) resp.
Proof using.
  intros Hu Hb. unfold write_response, api_reply.
  destruct (rs_body resp); try (destruct Hb as [|Hb]; [done|]; by rewrite respond_reply).
  destruct Hu as [[Hs Hc] Hr]. unfold WriteHeader.
  pose proof (rec_WriteHeader_unwritten (rs_status resp) (h_recs s) (h_conn s) Hr) as Hw.
  destruct (rec_WriteHeader _ _ _) as [recs c]. simpl in *. subst c.
  unfold conn_WriteHeader, reply. rewrite Hs. simpl. by rewrite Hc.
Qed.

Lemma write_response_rest resp s :
  h_lim (write_response resp s) = h_lim s ∧ h_world (write_response resp s) = h_world s.
Proof using.
  split; unfold write_response; destruct (rs_body resp);
    rewrite ?respond_world, ?WriteHeader_world, ?respond_lim, ?WriteHeader_lim; done.
Qed.

(** A request with credentials: the limiter decides, then the mux serves it
    as the user. *)
Lemma inner_authorised a snap n r s u :
  Bearer snap (Get (r_Header r) "Authorization") = Some u → is_healthz r = false → admissible r →
  ∃ r', same_target (with_user r u) r' ∧ b_data <$> r_Body r' = b_data <$> r_Body r
    ∧ let '(ok, lim') := Allow (extractKey (Some (u_ID u)) (r_RemoteAddr r)) (am_now a) (h_lim s) in
      let s1 := set_limiter (LogAttrs (LAuthorized (u_ID u) (u_Name u)) s) lim' in
      inner a snap (server_mux n true) r s
      = if ok then server_mux n true r' s1
        else (Done, respond [("Content-Type", application_json); ("Retry-After", retry_after lim')] 429
                      (error_body "rate limit exceeded") (LogAttrs (LRateLimited "user") s1)).
Proof using.
  intros Hb Hz Hadm. unfold inner.
  assert (Hau : ∀ r1, same_target r r1 →
    routeAwareAuth (Some (BearerMW snap)) (RateLimitMW a (server_mux n true)) r1 s
    = RateLimitMW a (server_mux n true) (with_user r1 u) (LogAttrs (LAuthorized (u_ID u) (u_Name u)) s)).
  { intros r1 (Hm & Hp & _ & Hh & _). unfold routeAwareAuth. unfold is_healthz in Hz. rewrite Hp, Hm, Hz. simpl.
    unfold BearerMW. by rewrite Hh, Hb. }
  destruct (maxBody_admissible (routeAwareAuth (Some (BearerMW snap)) (RateLimitMW a (server_mux n true))) r s Hadm)
    as (r1 & Ht & Hd & Ha & ->).
  exists (with_user r1 u). rewrite (Hau r1 Ht).
  destruct Ht as (Hm & Hp & He & Hh & _). split; [done|]. split; [done|].
  unfold RateLimitMW. simpl. rewrite ?Ha. destruct (Allow _ _ _) as [[] lim']; done.
Qed.

(** An API route: not a preflight, not the asterisk. *)
Lemma api_route_target m p ep id : server_route true m p = RApi ep id → p ≠ "*" ∧ m ≠ "OPTIONS".
Proof using.
  intros H. split.
  - intros ->. unfold server_route in H. case_decide; vm_compute in H; discriminate H.
  - intros ->. unfold server_route, api_route, is_get in H. repeat (case_match; simplify_eq/=).
Qed.

Lemma mux_api n r s ep id :
  server_route true (r_Method r) (r_EscapedPath r) = RApi ep id →
  server_mux n true r s = api_handler n ep id r s.
Proof using.
  intros H. unfold Server.server_mux. destruct (api_route_target _ _ _ _ H) as [Hp _].
  by rewrite decide_False, H.
Qed.

(** The headers that are on every answer to [r]. *)
Definition common (a : Ambient) (r : Req) : header :=
  insert_headers ∅ (common_headers ++ [(HeaderRequestID, request_id a r)]).

(** What the chain inside Recover does with an API request that it lets
    through, from a state in which nothing was written. *)
Lemma inner_answers a snap n r s u ep id :
  Bearer snap (Get (r_Header r) "Authorization") = Some u →
  server_route true (r_Method r) (r_EscapedPath r) = RApi ep id →
  is_healthz r = false → admissible r → unwritten s →
  let '(ok, lim') := Allow (extractKey (Some (u_ID u)) "") (am_now a) (h_lim s) in
  let hd := c_header (h_conn s) in
  ∃ f s', inner a snap (server_mux n true) r s = (f, s') ∧ h_lim s' = lim'
    ∧ if ok then
        match serve n ep (mk_Request (Some u) id (b_data <$> r_Body r)) (h_world s) with
        | (Some (resp, _), w') =>
            f = Done ∧ h_world s' = w' ∧ reply (h_conn s') = api_reply (c_head (h_conn s)) hd resp
        | (None, w') => f = Pending ∧ h_world s' = w'
        end
      else f = Done ∧ h_world s' = h_world s
           ∧ reply (h_conn s')
             = (429, <["Retry-After" := retry_after lim']> (<["Content-Type" := application_json]> hd),
                if c_head (h_conn s) then [] else error_body "rate limit exceeded").
Proof using.
  intros Hb Hroute Hz Hadm Hu.
  destruct (inner_authorised a snap n r s u Hb Hz Hadm) as (r' & (Hm & _ & Hp & _ & Huser) & Hd & Hi).
  change (extractKey (Some (u_ID u)) (r_RemoteAddr r)) with (extractKey (Some (u_ID u)) "") in Hi.
  destruct (Allow (extractKey (Some (u_ID u)) "") (am_now a) (h_lim s)) as [ok lim']. rewrite Hi. destruct ok.
  - rewrite (mux_api n r' _ ep id) by (by rewrite Hm, Hp).
    unfold api_handler, api_request, UserFromContext. rewrite Huser, Hd. simpl.
    destruct (serve n ep _ _) as [[[resp logs]|] w'] eqn:Hs; do 2 eexists; (split; [done|]); [|done].
    destruct (write_response_rest resp (mk_hstate (h_recs s) (h_conn s)
      ((h_log s ++ [LAuthorized (u_ID u) (u_Name u)]) ++ (LApi <$> logs)) lim' w')) as [Hl Hw].
    split; [exact Hl|]. split; [done|]. split; [exact Hw|].
    apply (write_response_reply resp (mk_hstate _ _ _ _ _)); [exact Hu|]. by eapply serve_status.
  - do 2 eexists. split; [done|]. rewrite respond_lim, respond_world. split; [done|]. split; [done|].
    split; [done|]. rewrite respond_reply; [done|exact Hu|done].
Qed.

(** The same through the whole chain, from any state in which nothing was
    written. *)
Lemma serve_http_answers a snap n r s u ep id :
  Bearer snap (Get (r_Header r) "Authorization") = Some u →
  server_route true (r_Method r) (r_EscapedPath r) = RApi ep id →
  is_healthz r = false → admissible r → unwritten s →
  let '(ok, lim') := Allow (extractKey (Some (u_ID u)) (r_RemoteAddr r)) (am_now a) (h_lim s) in
  let hd := insert_headers (c_header (h_conn s)) (common_headers ++ [(HeaderRequestID, request_id a r)]) in
  ∃ f s', serve_http a snap n r s = (f, s') ∧ h_lim s' = lim'
    ∧ if ok then
        match serve n ep (mk_Request (Some u) id (b_data <$> r_Body r)) (h_world s) with
        | (Some (resp, _), w') =>
            f = Done ∧ h_world s' = w' ∧ reply (h_conn s') = api_reply (c_head (h_conn s)) hd resp
        | (None, w') => f = Pending ∧ h_world s' = w'
        end
      else f = Done ∧ h_world s' = h_world s
           ∧ reply (h_conn s')
             = (429, <["Retry-After" := retry_after lim']> (<["Content-Type" := application_json]> hd),
                if c_head (h_conn s) then [] else error_body "rate limit exceeded").
Proof using.
  intros Hb Hroute Hz Hadm [Hfr Hrec]. destruct (api_route_target _ _ _ _ Hroute) as [_ Hm].
  rewrite serve_http_chain. destruct (chain_inside a snap (server_mux n true) r s Hm)
    as (r1 & -> & (Hm1 & Hp1 & He1 & Hh1 & _) & Hb1 & _).
  set (s1 := foldl _ _ _).
  set (s2 := push_recorder (mk_statusRecorder 0 0 false) (push_recorder (mk_statusRecorder 200 0 false) s1)).
  assert (Hu : unwritten s2).
  { apply unwritten_push, unwritten_push. split; [by apply fresh_SetHeaders|]. unfold s1. by rewrite SetHeaders_recs. }
  pose proof (inner_answers a snap n r1 s2 u ep id) as Hin.
  rewrite Hh1, Hm1, He1, Hb1 in Hin. unfold is_healthz, admissible in *. rewrite Hm1, Hp1, Hb1 in Hin.
  specialize (Hin Hb Hroute Hz Hadm Hu).
  change (h_lim s2) with (h_lim s) in Hin. change (h_world s2) with (h_world s) in Hin.
  change (c_head (h_conn s2)) with (c_head (h_conn s)) in Hin.
  change (extractKey (Some (u_ID u)) (r_RemoteAddr r)) with (extractKey (Some (u_ID u)) "").
  destruct (Allow _ _ _) as [ok lim']. destruct Hin as (f & s3 & Hi & Hl & Hans).
  destruct (logged_passes a snap (server_mux n true) r1 s1 f s3 Hi) as (s' & Hs' & Hc' & Hl' & Hw').
  { destruct ok; [|left; by destruct Hans]. destruct (serve n ep _ _) as [[[]|] ?]; destruct Hans; auto. }
  exists f, s'. rewrite Hc', Hl', Hw'. done.
Qed.

(** C4: A request with valid credentials for an API path is answered by
    exactly the API handler, run as the user that its token names.  First its
    body is read: one over 2 MiB is answered 413, one whose reading fails 400,
    and then neither the limiter nor the store is asked.  Otherwise the limiter
    is asked once, with that user's key: if it lets the request through, the
    client receives the handler's status and JSON body with the common headers,
    and the store is as the handler left it; if not, it receives 429 with
    Retry-After and the store is not touched.  The chain adds and removes
    nothing else.  ([is_healthz] can only hold of a request whose decoded and
    escaped paths disagree.) *)
Theorem request_answered a snap n r lim w u ep id :
  Bearer snap (Get (r_Header r) "Authorization") = Some u →
  server_route true (r_Method r) (r_EscapedPath r) = RApi ep id →
  is_healthz r = false →
  let head := bool_decide (r_Method r = "HEAD") in
  ∃ f s', serve_http a snap n r (accepted r lim w) = (f, s')
    ∧ match body_refusal r with
      | Some (code, msg) =>
          f = Done ∧ h_lim s' = lim ∧ h_world s' = w
          ∧ reply (h_conn s')
            = (code, <["Content-Type" := text_plain]> (common a r), if head then [] else bs msg ++ newline)
      | None =>
          let '(ok, lim') := Allow (extractKey (Some (u_ID u)) (r_RemoteAddr r)) (am_now a) lim in
          h_lim s' = lim'
          ∧ if ok then
              match serve n ep (mk_Request (Some u) id (b_data <$> r_Body r)) w with
              | (Some (resp, _), w') =>
                  f = Done ∧ h_world s' = w' ∧ reply (h_conn s') = api_reply head (common a r) resp
              | (None, w') => f = Pending ∧ h_world s' = w'
              end
            else f = Done ∧ h_world s' = w
                 ∧ reply (h_conn s')
                   = (429, <["Retry-After" := retry_after lim']>
                             (<["Content-Type" := application_json]> (common a r)),
                      if head then [] else error_body "rate limit exceeded")
      end.
Proof using.
  intros Hb Hroute Hz head. destruct (body_refusal r) as [[code msg]|] eqn:Href.
  - destruct (api_route_target _ _ _ _ Hroute) as [_ Hm].
    destruct (chain_refused a snap (server_mux n true) r (accepted r lim w) code msg Hm Href)
      as (s' & Hs' & Hw & Hl & Hr).
    { by destruct (body_refusal_code _ _ _ Href) as [-> | ->]. }
    { apply (accepted_unwritten r lim w []). }
    exists Done, s'. rewrite serve_http_chain. split_and!; [done..|]. rewrite Hr.
    unfold common, insert_headers. by rewrite !foldl_app.
  - apply refusal_admissible in Href as Hadm.
    pose proof (serve_http_answers a snap n r (accepted r lim w) u ep id Hb Hroute Hz Hadm
      (accepted_unwritten r lim w [])) as H.
    change (h_lim (accepted r lim w)) with lim in H.
    destruct (Allow _ _ _) as [ok lim']. destruct H as (f & s' & Hs' & H). by exists f, s'.
Qed.

(** A fresh limiter lets the first request of a key through. *)
Lemma fresh_allows key now : (Allow key now serve_limiter).1 = true.
Proof using.
  unfold Allow, refill, Sub. cbn [serve_limiter NewLimiter buckets]. rewrite lookup_empty.
  cbn [lastCheck tokens]. rewrite Z.sub_diag.
  match goal with |- context [if ?c then (false, _) else _] => by replace c with false by (vm_compute; reflexivity) end.
Qed.
End chain.

(** ** From bootstrap to the first request *)

(** A generated token has no white space in it. *)
Lemma token_graphic buf :
  contains_any (token_of buf).1.1 [chr " "; Byte.x09; Byte.x0d; Byte.x0a] = false ∧ (token_of buf).1.1 ≠ "".
Proof.
  split; [|done]. unfold token_of, contains_any. cbn [fst]. rewrite bytes_of_string_app, existsb_app.
  apply orb_false_iff. split; [by vm_compute|]. destruct (EncodeToString_bytes buf) as [H _].
  induction H as [|c l (Hc & _) _ IH]; [done|]. cbn [existsb]. rewrite IH, orb_false_r.
  apply bool_decide_eq_false. intros Hin.
  repeat (apply elem_of_cons in Hin as [->|Hin]; [discriminate Hc|]). by apply not_elem_of_nil in Hin.
Qed.

(** The header that carries a token. *)
Lemma Bearer_token snap token u :
  contains_any token [chr " "; Byte.x09; Byte.x0d; Byte.x0a] = false → token ≠ "" →
  Lookup snap token = Ok u → Bearer snap (bearerPrefix +:+ token) = Some u.
Proof.
  intros Hc He Hl. unfold Bearer, slen, str_take, str_drop. rewrite bytes_of_string_app.
  change 7%nat with (length (bytes_of_string bearerPrefix)). rewrite take_app_length, drop_app_length.
  rewrite !string_bytes_roundtrip, length_app, Hc, Hl. rewrite (proj2 (Z.ltb_ge _ _)) by lia.
  unfold equal_fold_ascii. rewrite (bool_decide_true (_ = lower_ascii _)) by done. simpl. by rewrite bool_decide_false.
Qed.

Section login.
Context {W : Type} {ES : EncryptedStore W}.
Variable redirect_url : Req → string.
Variable redirect_page : Req → bytes.
Variable yaml_Marshal : list usersFileEntry → result bytes.
Variable yaml_decode : bytes → result (list userEntry).
(** The server's decoder reads what Marshal writes. *)
Hypothesis decode_marshal : ∀ users data, yaml_Marshal users = Ok data → yaml_decode data = Ok users.

(** GET /api/1/user with a token. *)
Definition login_request (token : string) (r : Req) : Prop :=
  r_Method r = "GET" ∧ r_Path r = "/api/1/user" ∧ r_EscapedPath r = "/api/1/user"
  ∧ Get (r_Header r) "Authorization" = bearerPrefix +:+ token ∧ admissible r.

(** C33: The first login works.  If a bootstrap changed the users file, the
    server loads that file, and the first request GET /api/1/user with the
    token that the bootstrap left in token.txt, from any address and with any
    other headers, is answered 200 with the JSON of user 1 under the trimmed
    name that the operator gave, and leaves the store alone. *)
Theorem first_login args getenv p s e s' :
  let tok := token_path (getenv "TABBY_SYNC_DATA_DIR") in
  resolveUsersFile getenv = Some p → p ≠ tok → ¬ temp_of tok p →
  runBootstrap yaml_Marshal args getenv s = (e, s') → fs_files s' !! p ≠ fs_files s !! p →
  ∃ arg token data snap, args !! 2%nat = Some arg
    ∧ fs_files s' !! tok = Some (mk_file (bytes_of_string (ln token)) 384)
    ∧ fs_files s' !! p = Some (mk_file data 384)
    ∧ LoadUsersFile yaml_decode (inr data) = Returned (Ok snap)
    ∧ ∀ a n r (w : W), login_request token r →
        ∃ st, serve_http redirect_url redirect_page a snap n r (accepted r serve_limiter w) = (Done, st)
          ∧ h_world st = w
          ∧ reply (h_conn st)
            = (200, <["Content-Type" := application_json]> (common a r),
               encode (JObj [(bs "id", json_int 1); (bs "name", json_string (TrimSpace arg));
                             (bs "active_config", JNull)]) ++ newline).
Proof using decode_marshal.
  intros tok Hp Hne Htmp Hrun Hch.
  destruct (bootstrap_outcome _ _ decode_marshal _ _ _ _ _ _ Hp Hne Htmp Hrun)
    as [Hs|(Hnone & [Hf|(arg & buf & data & snap & user & Harg & Hbuf & _ & Htok & Hf & Hl & Hid & Hname & Hlook)])].
  { destruct Hch. by rewrite Hs. }
  { destruct Hch. by rewrite Hnone. }
  exists arg, (token_of buf).1.1, data, snap. split_and!; [done..|].
  intros a n r w (Hm & Hpath & Hesc & Hauth & Hadm). destruct (token_graphic buf) as [Hg Hne'].
  pose proof (serve_http_answers redirect_url redirect_page a snap n r (accepted r serve_limiter w) user GetUser "") as H.
  rewrite Hauth, Hm, Hesc in H. unfold is_healthz in H. rewrite Hpath in H.
  specialize (H (Bearer_token _ _ _ Hg Hne' (proj2 (Hlook _ _) (conj eq_refl eq_refl))) eq_refl eq_refl Hadm (accepted_unwritten r serve_limiter w [])).
  pose proof (fresh_allows (extractKey (Some (u_ID user)) (r_RemoteAddr r)) (am_now a)) as Hok.
  change (h_lim (accepted r serve_limiter w)) with serve_limiter in H.
  destruct (Allow _ _ _) as [ok lim']. simpl in Hok. subst ok.
  destruct H as (f & st & Hst & _ & -> & Hw & Hr). exists st. split; [done|]. split; [done|]. rewrite Hr.
  unfold api_reply. simpl. by rewrite Hm, Hid, Hname.
Qed.
End login.

(** ** Witnesses *)

Lemma request_answered_witness :
  ∃ f s', serve_http (ES := stack alone Demo.key) Live.url Live.page Live.ambient Live.users 1 Live.own_get
            (Live.start Live.own_get) = (f, s')
    ∧ (reply (h_conn s')).1.1 = 200.
Proof.
  destruct (request_answered (ES := stack alone Demo.key) Live.url Live.page Live.ambient Live.users 1
    Live.own_get serve_limiter Demo.after_create Live.alice GetConfigEP "1") as (f & s' & Hrun & H).
  - vm_compute. reflexivity.
  - vm_compute. reflexivity.
  - reflexivity.
  - exists f, s'. split; [exact Hrun|]. revert H. clear Hrun.
    assert (Hok : (Allow (extractKey (Some (u_ID Live.alice)) (r_RemoteAddr Live.own_get)) (am_now Live.ambient)
                     serve_limiter).1 = true) by (vm_compute; reflexivity).
    assert (Hs : match (serve (ES := stack alone Demo.key) 1 GetConfigEP
                          (mk_Request (Some Live.alice) "1" (b_data <$> r_Body Live.own_get)) Demo.after_create).1 with
                 | Some (resp, _) => rs_status resp = 200
                 | None => False
                 end) by (vm_compute; reflexivity).
    replace (body_refusal Live.own_get) with (@None (Z * string)) by reflexivity.
    destruct (Allow _ _ _) as [ok lim']. cbn [fst] in Hok. subst ok.
    destruct (serve _ _ _ _) as [[[resp logs]|] w']; cbn [fst] in Hs; [|destruct Hs].
    intros (_ & _ & _ & ->). unfold api_reply. destruct (rs_body resp); exact Hs.
Defined.

Lemma first_login_witness :
  ∃ token snap st, fs_files bootstrapped.2 !! mk_path "/data" "token.txt" = Some (mk_file (bytes_of_string (ln token)) 384)
    ∧ serve_http (ES := stack alone Demo.key) Live.url Live.page Live.ambient snap 1
        (Live.request "GET" "/api/1/user" (bearerPrefix +:+ token) None)
        (Live.start (Live.request "GET" "/api/1/user" (bearerPrefix +:+ token) None)) = (Done, st)
    ∧ (reply (h_conn st)).1.1 = 200.
Proof.
  destruct (first_login (ES := stack alone Demo.key) Live.url Live.page Codec.marshal Codec.unmarshal
    Codec.unmarshal_marshal ["tabby-sync"; "bootstrap"; " alice "] Codec.getenv Codec.users_path empty_disk
    bootstrapped.1 bootstrapped.2) as (arg & token & data & snap & Harg & Htok & _ & _ & H).
  - vm_compute. reflexivity.
  - vm_compute. discriminate.
  - intros [x Hx]. vm_compute in Hx. discriminate Hx.
  - apply surjective_pairing.
  - vm_compute. discriminate.
  - destruct (H Live.ambient 1%nat (Live.request "GET" "/api/1/user" (bearerPrefix +:+ token) None) Demo.after_create)
      as (st & Hst & _ & Hr).
    + split_and!; reflexivity || exact I.
    + exists token, snap, st. split; [exact Htok|]. split; [exact Hst|]. rewrite Hr. reflexivity.
Defined.
