(* ===== verification/Startup.v ===== *)
(** `tabby-sync serve`: the startup sequence of runServe
    (src/internal/cli/cli.go).

    The process acts on the machine ([Host]), binds a listener and writes to
    stderr: plain text before there is a logger, then log records.  Serving
    itself is server.Run; its end is a state of [Lifecycle]. *)

From S2P Require Import Prelude GoTime Env Store Sql Sqlite AesGcm Crypto Encrypted Stack.
From S2P Require Import GoLib Net Filepath FS Auth Config Keys Migrations Open.
From S2P Require Import RateLimit Http Server ServerProps Lifecycle Cli CliProps.

(** ** Logging *)

Inductive line :=
  | Text (s : string)
  | Record (level : Level) (msg : string) (attrs : list (string * string)).

Definition level_value (l : Level) : Z :=
  match l with LevelDebug => -4 | LevelInfo => 0 | LevelWarn => 4 | LevelError => 8 end.

(** [logger.Error], [logger.Warn], [logger.Info]: a record below the handler's
    level is dropped. *)
Definition emit (min : Level) (l : Level) (msg : string) (attrs : list (string * string)) (out : list line)
    : list line :=
  if level_value min <=? level_value l then out ++ [Record l msg attrs] else out.

(** [err.Error()] of what Run returned. *)
Definition run_error_text (e : run_error) : string :=
  match e with
  | RunServe msg | RunListenerClose msg => msg
  | RunDeadlineExceeded => "context deadline exceeded"
  end.

(** ** The process *)

Section serve.
Context {DB : Type} {E : SqlEngine DB} {HK : HKDF} {schema : Type} {D : SqlDriver}.
Variable run_sql : string → schema → option schema.
Variable yaml_decode : bytes → result (list userEntry).
(** What other goroutines do to the database while a request waits for it. *)
Variable others : nat → DB → DB.
Variable redirect_url : Req → string.
Variable redirect_page : Req → bytes.
(** How often an update may retry. *)
Variable rounds : nat.
(** The build's version and commit. *)
Variable Version Commit : string.
(** The environment of the process, which the key provider reads itself. *)
Variable os_Getenv : string → string.
(** net.Listen: the address bound, or an error. *)
Variable net_Listen : string → result string.
(** What closing the database handle reports at the end. *)
Variable close_result : result unit.
(** The state in which Run has returned, or not yet. *)
Variable life : run_state.

(** The server for the requests of one connection. *)
Definition started : Type := Ambient → option (http_Server (W := World DB)).

(** The buffers that hold key bytes, and the local slice masterKey of runServe,
    once it is set. *)
Record keymem := mk_keymem { k_buffers : list bytes; k_local : option nat }.
Definition no_keys : keymem := mk_keymem [] None.

Record Proc := mk_Proc {
  pr_host : Host (schema := schema);
  pr_listener : bool;                 (* a listener of the process is open *)
  pr_bound : list string;             (* the addresses it has bound *)
  pr_stderr : list line;
  pr_keys : keymem;
  pr_server : option started;
}.

(** What runServe's local slice reads. *)
Definition pr_masterKey (p : Proc) : option bytes := k ← k_local (pr_keys p); k_buffers (pr_keys p) !! k.

Inductive serve_end :=
  | Exited (code : Z)
  | Panicked_ (msg : string)
  | Serving_.

Definition set_host (p : Proc) (h : Host) : Proc :=
  mk_Proc h (pr_listener p) (pr_bound p) (pr_stderr p) (pr_keys p) (pr_server p).
Definition log (min l : Level) (msg : string) (attrs : list (string * string)) (p : Proc) : Proc :=
  mk_Proc (pr_host p) (pr_listener p) (pr_bound p) (emit min l msg attrs (pr_stderr p)) (pr_keys p) (pr_server p).
Definition set_keys (p : Proc) (k : keymem) : Proc :=
  mk_Proc (pr_host p) (pr_listener p) (pr_bound p) (pr_stderr p) k (pr_server p).
Definition set_buffers (p : Proc) (bufs : list bytes) : Proc :=
  set_keys p (mk_keymem bufs (k_local (pr_keys p))).

(** The slice that keys.LoadFromConfig returns. *)
Definition alloc_key (p : Proc) (key : bytes) : Proc :=
  let bufs := k_buffers (pr_keys p) in set_keys p (mk_keymem (bufs ++ [key]) (Some (length bufs))).


(** The deferred [encStore.Close()]. *)
Definition close_encrypted (min : Level) (dbPath : string) (enc : StorePtr (W := World DB)) (p : Proc) : Proc :=
  let p := set_buffers p (wipe (ptr_masterKey enc) (k_buffers (pr_keys p))) in
  let p := set_host p (close_handle dbPath (pr_host p)) in
  match close_result with
  | Ok _ => p
  | Err cerr => log min LevelError "failed to close encrypted store" [("err", error_text cerr)] p
  end.

(** From net.Listen to the end; the deferred close runs on every return. *)
Definition listen_and_run (min : Level) (cfg : config.Config) (dbPath : string) (enc : StorePtr (W := World DB))
    (srv : started) (p : Proc)
    : serve_end * Proc :=
  match net_Listen (config.Addr cfg) with
  | Err err =>
      (Exited 1, close_encrypted min dbPath enc
         (log min LevelError "failed to bind listener" [("addr", config.Addr cfg); ("err", error_text err)] p))
  | Ok bound =>
      let p := mk_Proc (pr_host p) true (pr_bound p ++ [bound]) (pr_stderr p) (pr_keys p) (pr_server p) in
      let p := log min LevelInfo "starting tabby-sync"
                 [("version", Version); ("commit", Commit); ("addr", config.Addr cfg);
                  ("config", config.String (Some cfg))] p in
      let p := mk_Proc (pr_host p) (pr_listener p) (pr_bound p) (pr_stderr p) (pr_keys p) (Some srv) in
      let p := log min LevelInfo "tabby-sync ready" [("listen", bound)] p in
      match rs_pc life with
      | PReturned r =>
          let p := mk_Proc (pr_host p) (rs_listener life) (pr_bound p) (pr_stderr p) (pr_keys p) (pr_server p) in
          match r with
          | Some RunDeadlineExceeded =>
              (Exited 1, close_encrypted min dbPath enc
                 (log min LevelWarn "tabby-sync shutdown timed out, forcing close"
                    [("err", run_error_text RunDeadlineExceeded)] p))
          | Some e =>
              (Exited 1, close_encrypted min dbPath enc
                 (log min LevelError "tabby-sync exited with error" [("err", run_error_text e)] p))
          | None => (Exited 0, close_encrypted min dbPath enc (log min LevelInfo "tabby-sync stopped" [] p))
          end
      | _ => (Serving_, p)
      end
  end.

(** From the loaded key on: wrap the store, wipe the local slice, assemble the
    server.  What the server reads as its key is what is in the wrapper's
    buffer after the wipe. *)
Definition assemble_and_run (min : Level) (cfg : config.Config) (dbPath masterKeyPath : string)
    (snap : userSnapshot) (masterKey : nat) (p : Proc) : serve_end * Proc :=
  let '(encStore, bufs) := New (Some (sqlite_store others)) masterKey (k_buffers (pr_keys p)) in
  let p := set_buffers p (wipe masterKey bufs) in
  match encStore with
  | Err err =>
      (Exited 1, set_host
         (log min LevelError "failed to wrap store with encryption"
            [("provider", config.MasterKeyProvider cfg);
             ("err", scrubPaths (error_text err) [masterKeyPath; dbPath; config.UsersFile cfg; config.DataDir cfg])] p)
         (close_handle dbPath (pr_host p)))
  | Ok enc =>
      let server := at_buffers enc (k_buffers (pr_keys p)) in
      listen_and_run min cfg dbPath enc
        (λ a, NewServer (ES := encrypted_store server) redirect_url redirect_page a cfg (Some (BearerMW snap)) rounds true true) p
  end.

Definition runServe (getenv : string → string) (p : Proc) : serve_end * Proc :=
  match config.Load (Some getenv) with
  | Err err =>
      (Exited 2, mk_Proc (pr_host p) (pr_listener p) (pr_bound p)
                   (pr_stderr p ++ [Text (ln ("error: " +:+ error_text err))]) (pr_keys p) (pr_server p))
  | Ok cfg =>
      let min := parseLogLevel (config.LogLevel cfg) in
      let dbPath := Join (config.DataDir cfg) "tabby-sync.db" in
      let masterKeyPath := Join (config.DataDir cfg) MasterKeyFilename in
      match Open run_sql dbPath (pr_host p) with
      | (Err err, h) =>
          (Exited 1, log min LevelError "failed to open sqlite store"
             [("data_dir", redactPath (config.DataDir cfg));
              ("err", scrubPaths (error_text err) [dbPath; masterKeyPath; config.DataDir cfg])] (set_host p h))
      | (Ok _, h) =>
          let p := log min LevelInfo "sqlite store opened" [("data_dir", redactPath (config.DataDir cfg))] (set_host p h) in
          let '(file, fs1) := ReadFile (path_of (config.UsersFile cfg)) (ho_fs h) in
          let p := set_host p (mk_Host fs1 (ho_db h) (ho_open h)) in
          match LoadUsersFile yaml_decode file with
          | Panicked msg => (Panicked_ msg, p)
          | Returned (Err err) =>
              (Exited 1, set_host
                 (log min LevelError "failed to load users file"
                    [("users_file", redactPath (config.UsersFile cfg));
                     ("err", scrubPaths (error_text err) [config.UsersFile cfg; masterKeyPath; config.DataDir cfg])] p)
                 (close_handle dbPath (pr_host p)))
          | Returned (Ok snap) =>
              let p := log min LevelInfo "users file loaded"
                         [("users_file", redactPath (config.UsersFile cfg)); ("user_count", pretty (UserCount snap))] p in
              let '(loaded, fs2) := LoadFromConfig os_Getenv (Some cfg) (ho_fs (pr_host p)) in
              let p := set_host p (mk_Host fs2 (ho_db (pr_host p)) (ho_open (pr_host p))) in
              match loaded with
              | Err err =>
                  (Exited 1, set_host
                     (log min LevelError "failed to load master key"
                        [("provider", config.MasterKeyProvider cfg);
                         ("err", scrubPaths (error_text err)
                                   [masterKeyPath; dbPath; config.UsersFile cfg; config.DataDir cfg])] p)
                     (close_handle dbPath (pr_host p)))
              | Ok (_, masterKey) =>
                  assemble_and_run min cfg dbPath masterKeyPath snap (length (k_buffers (pr_keys p)))
                    (log min LevelInfo "master key loaded" [("provider", config.MasterKeyProvider cfg)]
                       (alloc_key p masterKey))
              end
          end
      end
  end.
End serve.
