(* ===== verification/StartupProps.v ===== *)
(** Properties of `tabby-sync serve`. *)

From S2P Require Import Prelude GoTime Env Store Sql Sqlite AesGcm Crypto Encrypted Stack.
From S2P Require Import GoLib Net Filepath FS Auth AuthProps Config Keys Migrations Open.
From S2P Require Import RateLimit JsonEnc Http Server ServerProps Lifecycle Cli CliProps Startup.

(** ** Text without slashes *)

(** Text without a slash shows no path. *)
Lemma no_slash_hides t v : chr "/" ∉ v → path_like t → ¬ occurs t v.
Proof.
  intros Hv (Hs & _) (x & y & ->). apply Hv. rewrite !elem_of_app. auto.
Qed.

Lemma digits_no_slash l : forallb is_digit l = true → chr "/" ∉ l.
Proof. intros H Hin. apply list_elem_of_In in Hin. rewrite forallb_forall in H. discriminate (H _ Hin). Qed.

Lemma pretty_no_slash (z : Z) : chr "/" ∉ bytes_of_string (pretty z).
Proof.
  pose proof (pretty_int_literal z) as H. unfold bs in H.
  inversion H as [Hz|c r Hc _ Hr Hz|c r Hc _ Hr Hz]; [not_in|apply (digits_no_slash (c :: r)); simpl; by rewrite Hc|].
  assert (chr "/" ∉ c :: r) by (apply digits_no_slash; simpl; by rewrite Hc).
  intros [?|?]%elem_of_cons; done.
Qed.

(** ** What startup says *)

Definition line_hides (t : string) (l : line) : Prop :=
  match l with
  | Text s => ¬ occurs (bytes_of_string t) (bytes_of_string s)
  | Record _ _ attrs => Forall (λ kv, ¬ occurs (bytes_of_string t) (bytes_of_string kv.2)) attrs
  end.

(** The data directory and the key file in it. *)
Definition secret_paths (getenv : string → string) : list string :=
  [getenv config.EnvDataDir; Join (getenv config.EnvDataDir) MasterKeyFilename].

Definition discreet (getenv : string → string) (l : line) : Prop :=
  ∀ t, t ∈ secret_paths getenv → path_like (bytes_of_string t) → line_hides t l.

(** The output is extended by discreet lines. *)
Definition said (getenv : string → string) (out out' : list line) : Prop :=
  ∃ new, out' = out ++ new ∧ Forall (discreet getenv) new.

#[global] Instance said_preorder getenv : PreOrder (said getenv).
Proof.
  split; [intros o; exists []; by rewrite app_nil_r|].
  intros o1 o2 o3 (n1 & -> & H1) (n2 & -> & H2). exists (n1 ++ n2). rewrite app_assoc. split; [done|].
  by apply Forall_app.
Qed.

(** An attribute that startup may log: text without slashes, or a message
    scrubbed of the secret paths. *)
Definition safe_value (getenv : string → string) (v : string) : Prop :=
  (chr "/" ∉ bytes_of_string v)
  ∨ ∃ msg secrets, v = scrubPaths msg secrets ∧ secret_paths getenv ⊆ secrets.

Lemma emit_said getenv min l msg attrs out :
  Forall (λ kv, safe_value getenv kv.2) attrs → said getenv out (emit min l msg attrs out).
Proof.
  intros Hs. unfold emit. destruct (_ <=? _); [|reflexivity]. eexists. split; [done|].
  apply Forall_singleton. intros t Ht Hp. simpl. apply (Forall_impl _ _ _ Hs).
  intros kv [Hn|(m & secrets & -> & Hsub)]; [by apply no_slash_hides|]. apply scrub_hides; auto.
Qed.

Lemma load_error_safe getenv err :
  config.Load (Some getenv) = Err err → chr "/" ∉ bytes_of_string (ln ("error: " +:+ error_text err)).
Proof.
  unfold config.Load. cbv zeta. repeat (case_decide; [intros [= <-]; not_in|]).
  destruct (config.contains config.allowedMasterKeyProviders _); [|intros [= <-]; not_in].
  destruct (config.contains config.allowedLogLevels _); [done|intros [= <-]; not_in].
Qed.

Lemma redactPath_safe getenv v : safe_value getenv (redactPath v).
Proof. left. unfold redactPath. case_decide; not_in. Qed.

Lemma provider_safe getenv cfg : config.wf cfg → safe_value getenv (config.MasterKeyProvider cfg).
Proof. intros (_ & _ & _ & [-> | ->] & _); left; not_in. Qed.

Lemma scrubbed_safe getenv msg secrets :
  secret_paths getenv ⊆ secrets → safe_value getenv (scrubPaths msg secrets).
Proof. right. eauto. Qed.

Lemma pretty_safe getenv (z : Z) : safe_value getenv (pretty z).
Proof. left. apply pretty_no_slash. Qed.

#[export] Hint Resolve redactPath_safe provider_safe scrubbed_safe pretty_safe : tabby.

(** Every attribute is safe. *)
Ltac safe_attrs Hsec :=
  repeat (apply Forall_cons_2;
    [cbn [snd]; first [by auto with tabby | apply scrubbed_safe; rewrite Hsec; set_solver]|]);
  apply Forall_nil_2.

Section serve.
Context {DB : Type} {E : SqlEngine DB} {HK : HKDF} {schema : Type} {D : SqlDriver}.
Variable run_sql : string → schema → option schema.
Variable yaml_decode : bytes → result (list userEntry).
Variable others : nat → DB → DB.
Variable redirect_url : Req → string.
Variable redirect_page : Req → bytes.
Variable rounds : nat.
Variable Version Commit : string.
Variable os_Getenv : string → string.
Variable net_Listen : string → result string.
Variable close_result : result unit.
Variable life : run_state.

Abbreviation Proc := (Proc (DB := DB) (schema := schema)).
Abbreviation runServe := (runServe run_sql yaml_decode others redirect_url redirect_page rounds Version Commit
  os_Getenv net_Listen close_result life).
Abbreviation listen_and_run := (listen_and_run Version Commit net_Listen close_result life).
Abbreviation assemble_and_run := (assemble_and_run others redirect_url redirect_page rounds Version Commit
  net_Listen close_result life).

(** Nothing has been bound or started, and what was said is discreet. *)
Definition quiet (getenv : string → string) (p p' : Proc) : Prop :=
  pr_listener p' = pr_listener p ∧ pr_bound p' = pr_bound p ∧ pr_server p' = pr_server p
  ∧ said getenv (pr_stderr p) (pr_stderr p').

#[local] Instance quiet_preorder getenv : PreOrder (quiet getenv).
Proof using.
  split; [by intros p|]. intros p1 p2 p3 (H1 & H2 & H3 & H4) (K1 & K2 & K3 & K4).
  unfold quiet. rewrite K1, K2, K3. split_and!; [done..|]. by etrans.
Qed.

Lemma log_quiet getenv min l msg attrs (p : Proc) :
  Forall (λ kv, safe_value getenv kv.2) attrs → quiet getenv p (log min l msg attrs p).
Proof using. intros H. split_and!; [done..|]. by apply emit_said. Qed.

Lemma set_host_quiet getenv (p : Proc) h : quiet getenv p (set_host p h).
Proof using. done. Qed.

Definition db_path (cfg : config.Config) : string := Join (config.DataDir cfg) "tabby-sync.db".

(** Everything that startup loads has been loaded. *)
Definition ready (getenv : string → string) (p : Proc) (cfg : config.Config) (snap : userSnapshot) (key : bytes)
    (p1 : Proc) : Prop :=
  config.Load (Some getenv) = Ok cfg
  ∧ (∃ h f fs1 prov fs2, Open run_sql (db_path cfg) (pr_host p) = (Ok tt, h)
      ∧ fs_files (ho_fs h) !! path_of (config.UsersFile cfg) = Some f
      ∧ LoadUsersFile yaml_decode (inr (f_data f)) = Returned (Ok snap)
      ∧ same_files (ho_fs h) fs1
      ∧ LoadFromConfig os_Getenv (Some cfg) fs1 = (Ok (prov, key), fs2)
      ∧ pr_host p1 = mk_Host fs2 (ho_db h) (ho_open h))
  ∧ length key = KeySize ∧ pr_masterKey p1 = Some (zero key).

(** The server over the stack with this key. *)
Definition the_server (cfg : config.Config) (snap : userSnapshot) (key : bytes) : started (DB := DB) := λ a,
  NewServer (ES := stack others key) redirect_url redirect_page a cfg (Some (BearerMW snap)) rounds true true.

(** No buffer holds key bytes any more. *)
Definition wiped (p : Proc) : Prop := Forall (λ b, zero b = b) (k_buffers (pr_keys p)).

Lemma wiped_snoc b0 key : Forall (λ b, zero b = b) b0 → Forall (λ b, zero b = b) (b0 ++ [zero key]).
Proof using. intros H. apply Forall_app. split; [done|]. apply Forall_singleton, zero_zero. Qed.

(** A step of startup has failed, and the database is closed again. *)
Definition failed (getenv : string → string) (p : Proc) (e : serve_end) (p' : Proc) : Prop :=
  quiet getenv p p' ∧ ((∃ code, e = Exited code ∧ code ≠ 0 ∧ ho_open (pr_host p') = ho_open (pr_host p)
                                ∧ (wiped p → wiped p'))
                       ∨ ∃ msg, e = Panicked_ msg).

Lemma secret_paths_cfg getenv cfg :
  config.Load (Some getenv) = Ok cfg →
  config.wf cfg ∧ secret_paths getenv = [config.DataDir cfg; Join (config.DataDir cfg) MasterKeyFilename].
Proof using. intros (Hwf & _ & Hd & _)%config.load_exact. unfold secret_paths. by rewrite Hd. Qed.

(** The local slice is wiped, and the wrapper's copy is not. *)
Lemma wipe_local b0 key rest : wipe (length b0) (b0 ++ key :: rest) = b0 ++ zero key :: rest.
Proof using. unfold wipe. replace (length b0) with (length b0 + 0)%nat by lia. by rewrite alter_app_r. Qed.

Lemma wipe_copy b0 z key : wipe (S (length b0)) (b0 ++ [z; key]) = b0 ++ [z; zero key].
Proof using. unfold wipe. replace (S (length b0)) with (length b0 + 1)%nat by lia. by rewrite alter_app_r. Qed.

(** From the loaded key on: a key of the wrong length, or the listener. *)
Lemma assemble_run getenv min cfg snap b0 key (p : Proc) e p' :
  config.Load (Some getenv) = Ok cfg → k_buffers (pr_keys p) = b0 ++ [key] →
  assemble_and_run min cfg (db_path cfg) (Join (config.DataDir cfg) MasterKeyFilename) snap (length b0) p = (e, p') →
  (quiet getenv p p' ∧ e = Exited 1 ∧ pr_host p' = close_handle (db_path cfg) (pr_host p)
   ∧ k_buffers (pr_keys p') = b0 ++ [zero key])
  ∨ (length key = KeySize
     ∧ listen_and_run min cfg (db_path cfg) (mk_StorePtr (sqlite_store others) (S (length b0)))
         (the_server cfg snap key) (set_buffers p (b0 ++ [zero key; key])) = (e, p')).
Proof using run_sql yaml_decode os_Getenv.
  intros Hl Hb. destruct (secret_paths_cfg _ _ Hl) as [Hwf Hsec]. unfold assemble_and_run, New. rewrite Hb.
  assert (Hkey : buffer (b0 ++ [key]) (length b0) = key) by (unfold buffer; by rewrite list_lookup_middle).
  rewrite Hkey. destruct (Nat.eqb_spec (length key) KeySize) as [Hk|Hk]; cbn [negb].
  - rewrite <- app_assoc. cbn [app]. rewrite wipe_local, length_app, Nat.add_comm.
    assert (Hat : at_buffers (mk_StorePtr (sqlite_store others) (S (length b0))) (b0 ++ [zero key; key])
            = stack_store others key).
    { unfold at_buffers, buffer. cbn [ptr_masterKey ptr_inner]. rewrite lookup_app_r by lia.
      by replace (S (length b0) - length b0)%nat with 1%nat by lia. }
    cbn [length Nat.add set_buffers set_keys pr_keys k_buffers]. rewrite Hat. intros Hrun. by right.
  - rewrite wipe_local. intros [= <- <-]. left. split_and!; [|done..].
    transitivity (set_buffers p (b0 ++ [zero key])); [done|]. etrans; [|apply set_host_quiet]. apply log_quiet.
    safe_attrs Hsec.
Qed.

Lemma runServe_effect getenv (p : Proc) e p' :
  runServe getenv p = (e, p') →
  failed getenv p e p'
  ∨ ∃ cfg snap key enc p1, ready getenv p cfg snap key p1 ∧ quiet getenv p p1
      ∧ (wiped p → Forall (λ b, zero b = b) (wipe (ptr_masterKey enc) (k_buffers (pr_keys p1))))
      ∧ listen_and_run (parseLogLevel (config.LogLevel cfg)) cfg (db_path cfg) enc (the_server cfg snap key) p1
        = (e, p').
Proof using.
  unfold Startup.runServe. destruct (config.Load (Some getenv)) as [cfg|err] eqn:Hl.
  2: { intros [= <- <-]. left. split; [|left; by exists 2]. split_and!; [done..|]. eexists. split; [done|].
       apply Forall_singleton. intros t _ Ht. by eapply no_slash_hides, Ht; apply (load_error_safe getenv). }
  destruct (secret_paths_cfg _ _ Hl) as [Hwf Hsec]. fold (db_path cfg).
  destruct (Open run_sql (db_path cfg) (pr_host p)) as [[[]|err] h] eqn:Hopen;
    pose proof (Open_run _ _ _ _ _ Hopen) as [_ Ho].
  2: { intros [= <- <-]. left. split; [|left; by exists 1]. etrans; [apply set_host_quiet|]. apply log_quiet.
       safe_attrs Hsec. }
  set (p2 := log _ _ _ _ _). assert (Hq2 : quiet getenv p p2).
  { etrans; [apply set_host_quiet|]. apply log_quiet. safe_attrs Hsec. }
  destruct (ReadFile _ (ho_fs h)) as [file fs1] eqn:Hr. apply ReadFile_run in Hr as [Hfs1 Hr]. cbv zeta.
  set (p3 := set_host p2 _). assert (Hq3 : quiet getenv p p3) by (etrans; [exact Hq2|apply set_host_quiet]).
  destruct Ho as [Ho _].
  destruct (LoadUsersFile yaml_decode file) as [[snap|err]|msg] eqn:Hu.
  3: { intros [= <- <-]. left. split; [done|right; eauto]. }
  2: { intros [= <- <-]. left. split; [|left; exists 1; split_and!; [done|done|simpl; by rewrite Ho|done]].
       etrans; [exact Hq3|]. etrans; [|apply set_host_quiet]. apply log_quiet. safe_attrs Hsec. }
  assert (∃ f, file = inr (f_data f) ∧ fs_files (ho_fs h) !! path_of (config.UsersFile cfg) = Some f) as (f & -> & Hf).
  { destruct file as [os|raw]; [by destruct os|]. destruct Hr as (f & Hf & <-). eauto. }
  set (p4 := log _ _ _ _ p3). assert (Hq4 : quiet getenv p p4).
  { etrans; [exact Hq3|]. apply log_quiet. safe_attrs Hsec. }
  destruct (LoadFromConfig os_Getenv (Some cfg) _) as [[[prov key]|err] fs2] eqn:Hk.
  2: { intros [= <- <-]. left. split; [|left; exists 1; split_and!; [done|done|simpl; by rewrite Ho|done]].
       etrans; [exact Hq4|]. etrans; [apply set_host_quiet|]. etrans; [|apply set_host_quiet].
       apply log_quiet. safe_attrs Hsec. }
  intros Ha. eapply (assemble_run getenv) in Ha; [|exact Hl|reflexivity].
  set (p5 := log _ _ _ _ _) in Ha. assert (Hq5 : quiet getenv p p5).
  { etrans; [exact Hq4|]. etrans; [|apply log_quiet; safe_attrs Hsec]. done. }
  destruct Ha as [(Hq & -> & Hh & Hb)|[Hlen Ha]].
  - left. split; [by etrans|]. left. exists 1. split_and!; [done|done|rewrite Hh; simpl; by rewrite Ho|].
    intros Hw. unfold wiped. rewrite Hb. by apply wiped_snoc.
  - right. set (p6 := set_buffers _ _) in Ha. set (enc := mk_StorePtr _ _) in Ha.
    exists cfg, snap, key, enc, p6. split_and!; [|by etrans; [exact Hq5|]| |exact Ha].
    + split_and!; [done| |done|].
      { exists h, f, fs1, prov, fs2. by split_and!. }
      unfold pr_masterKey. simpl. by rewrite list_lookup_middle.
    + intros Hw. unfold p6, enc. cbn [ptr_masterKey set_buffers set_keys pr_keys k_buffers]. rewrite wipe_copy.
      apply Forall_app. split; [exact Hw|]. repeat constructor; apply zero_zero.
Qed.

(** Wiping one buffer leaves a wiped one wiped, be it the same or not. *)
Lemma wiped_stays k k' bufs b : bufs !! k' = Some (zero b) → wipe k bufs !! k' = Some (zero b).
Proof using.
  intros H. destruct (decide (k = k')) as [-> |Hne]; [|by rewrite wipe_other].
  rewrite (wipe_same _ _ _ H). by rewrite zero_zero.
Qed.

(** ** From the listener on *)

Lemma log_stderr min l msg attrs (p : Proc) :
  ∃ new, pr_stderr (log min l msg attrs p) = pr_stderr p ++ new.
Proof using.
  simpl. unfold emit. destruct (_ <=? _); [eauto|]. exists []. by rewrite app_nil_r.
Qed.

(** Closing the store: one handle less, its key wiped, perhaps one more line. *)
Lemma close_encrypted_run min dbPath enc (p : Proc) :
  let p' := close_encrypted close_result min dbPath enc p in
  pr_host p' = close_handle dbPath (pr_host p) ∧ pr_listener p' = pr_listener p ∧ pr_bound p' = pr_bound p
  ∧ pr_server p' = pr_server p
  ∧ pr_keys p' = mk_keymem (wipe (ptr_masterKey enc) (k_buffers (pr_keys p))) (k_local (pr_keys p))
  ∧ ∃ new, pr_stderr p' = pr_stderr p ++ new.
Proof using.
  unfold close_encrypted. destruct close_result; [|split_and!; [done..|exact (log_stderr _ _ _ _ (set_host (set_buffers p _) _))]].
  split_and!; [done..|]. exists []. by rewrite app_nil_r.
Qed.

(** The exit code for what Run returned. *)
Definition exit_code (r : option run_error) : Z := match r with None => 0 | Some _ => 1 end.

Lemma listen_run min cfg dbPath enc srv (p : Proc) e p' :
  listen_and_run min cfg dbPath enc srv p = (e, p') →
  (∃ new, pr_stderr p' = pr_stderr p ++ new)
  ∧ pr_keys p' = match e with
                 | Exited _ => mk_keymem (wipe (ptr_masterKey enc) (k_buffers (pr_keys p))) (k_local (pr_keys p))
                 | _ => pr_keys p
                 end
  ∧ match net_Listen (config.Addr cfg) with
    | Err _ => e = Exited 1 ∧ pr_listener p' = pr_listener p ∧ pr_server p' = pr_server p
               ∧ pr_bound p' = pr_bound p ∧ pr_host p' = close_handle dbPath (pr_host p)
    | Ok bound =>
        pr_server p' = Some srv ∧ pr_bound p' = pr_bound p ++ [bound]
        ∧ match rs_pc life with
          | PReturned r => e = Exited (exit_code r) ∧ pr_listener p' = rs_listener life
                           ∧ pr_host p' = close_handle dbPath (pr_host p)
          | _ => e = Serving_ ∧ pr_listener p' = true ∧ pr_host p' = pr_host p
          end
    end.
Proof using.
  unfold Startup.listen_and_run. destruct (net_Listen (config.Addr cfg)) as [bound|err].
  2: { intros [= <- <-]. match goal with |- context [close_encrypted _ ?m ?d ?c ?q] =>
         destruct (close_encrypted_run m d c q) as (-> & -> & -> & -> & -> & (n2 & ->)) end.
       destruct (log_stderr min LevelError "failed to bind listener"
         [("addr", config.Addr cfg); ("err", error_text err)] p) as [n1 ->].
       split_and!; [|done..]. rewrite <- app_assoc. eauto. }
  cbv zeta. set (p1 := log min LevelInfo "starting tabby-sync" _ _).
  set (p2 := log min LevelInfo "tabby-sync ready" _ _).
  assert (∃ n2, pr_stderr p2 = pr_stderr p ++ n2) as [n2 H2].
  { destruct (log_stderr min LevelInfo "tabby-sync ready" [("listen", bound)]
      (mk_Proc (pr_host p1) (pr_listener p1) (pr_bound p1) (pr_stderr p1) (pr_keys p1) (Some srv))) as [b Hb].
    destruct (log_stderr min LevelInfo "starting tabby-sync"
      [("version", Version); ("commit", Commit); ("addr", config.Addr cfg); ("config", config.String (Some cfg))]
      (mk_Proc (pr_host p) true (pr_bound p ++ [bound]) (pr_stderr p) (pr_keys p) (pr_server p))) as [a Ha].
    exists (a ++ b). unfold p2. rewrite Hb. cbn [pr_stderr]. unfold p1. rewrite Ha. cbn [pr_stderr].
    by rewrite app_assoc. }
  destruct (rs_pc life) as [| | | |r]; [intros [= <- <-]; split_and!; eauto..|].
  set (p3 := mk_Proc _ _ _ _ _ _). assert (H3 : pr_stderr p3 = pr_stderr p ++ n2) by done.
  assert (Hend : ∀ l msg attrs, let q := close_encrypted close_result min dbPath enc (log min l msg attrs p3) in
    (∃ new, pr_stderr q = pr_stderr p ++ new)
    ∧ pr_keys q = mk_keymem (wipe (ptr_masterKey enc) (k_buffers (pr_keys p))) (k_local (pr_keys p))
    ∧ pr_server q = Some srv
    ∧ pr_bound q = pr_bound p ++ [bound] ∧ pr_listener q = rs_listener life
    ∧ pr_host q = close_handle dbPath (pr_host p)).
  { intros l msg attrs q. destruct (close_encrypted_run min dbPath enc (log min l msg attrs p3))
      as (Hh & Hli & Hb & Hsv & Hk & (n4 & Hn)). destruct (log_stderr min l msg attrs p3) as [n3 H3'].
    unfold q. rewrite Hh, Hli, Hb, Hsv, Hk. split_and!; [|done..]. rewrite Hn, H3', H3.
    exists (n2 ++ n3 ++ n4). by rewrite <- !app_assoc. }
  destruct r as [[]|]; intros [= <- <-]; (match goal with |- context [log min ?l ?msg ?attrs p3] =>
    destruct (Hend l msg attrs) as (? & ? & ? & ? & ? & ?) end); by split_and!.
Qed.

(** ** Properties *)


(** C12: What serve starts is the verified server: a server is started only
    after the configuration, the database, the users file and the key have
    been loaded, with a key of 32 bytes of which the local copy has been
    wiped, and each request to it is handled by the handler of
    [server_isolation], over the SQLite store under that key (not under the
    bytes that the wipe left, since New made its own copy) and the users of
    that file. *)
Theorem serve_starts_verified_server getenv (p : Proc) e p' srv :
  pr_server p = None → runServe getenv p = (e, p') → pr_server p' = Some srv →
  ∃ cfg snap key p1 bound, ready getenv p cfg snap key p1 ∧ length key = KeySize
    ∧ pr_masterKey p' = Some (replicate KeySize Byte.x00) ∧ pr_bound p' = pr_bound p ++ [bound]
    ∧ ∀ a r s, ∃ hs, srv a = Some hs ∧ srv_Addr hs = config.Addr cfg
        ∧ srv_Handler hs r s = server redirect_url redirect_page others key a snap rounds r s.
Proof using.
  intros Hnone [[(_ & _ & Hs & _) _]|(cfg & snap & key & enc & p1 & Hready & Hq & _ & Hrun)]%runServe_effect Hsrv;
    [congruence|].
  destruct (listen_run _ _ _ _ _ _ _ _ Hrun) as (_ & Hk & Hend). destruct Hq as (_ & Hb & Hs & _).
  destruct (net_Listen (config.Addr cfg)) as [bound|err]; [|destruct Hend as (_ & _ & Hs' & _); congruence].
  destruct Hend as (Hs' & Hb' & _). exists cfg, snap, key, p1, bound.
  pose proof Hready as (_ & _ & Hlen & Hkey). split_and!; [done|done| |congruence|].
  - replace (replicate KeySize Byte.x00) with (zero key).
    2: { rewrite <- Hlen. unfold zero. clear. induction key as [|x key IH]; [done|]. simpl. by rewrite <- IH. }
    unfold pr_masterKey in *. rewrite Hk. destruct e; [|done..]. cbn [k_local k_buffers].
    destruct (k_local (pr_keys p1)) as [k|]; [|done]. simpl in *. by apply wiped_stays.
  - intros a r s. rewrite Hsrv in Hs'. injection Hs' as ->. unfold the_server, NewServer, server, serve_http.
    rewrite ServerLaws.buildHandler_chain. eexists. split; [reflexivity|]. done.
Qed.

(** C21: Startup does not print the configured paths: every line that serve
    writes before all of configuration, database, users and key are loaded (so,
    every line of a startup that fails in one of them), other than in its fixed
    message texts, contains neither the string that is configured as the data
    directory nor the path of the key file joined from it, whatever the failing
    calls report; each of the two under the condition that it has a slash and no
    angle bracket.  This is about these two strings: an error that spells the
    directory in another way, as mkdir does for one that is configured with a
    trailing slash, is logged with it ([data_dir_leaked]). *)
Theorem startup_hides_paths getenv (p : Proc) e p' :
  runServe getenv p = (e, p') →
  ∃ early late, pr_stderr p' = pr_stderr p ++ early ++ late ∧ Forall (discreet getenv) early
    ∧ (late = [] ∨ ∃ cfg snap key p1, ready getenv p cfg snap key p1 ∧ pr_stderr p1 = pr_stderr p ++ early).
Proof using.
  intros [[(_ & _ & _ & (early & He & Hd)) _]
    |(cfg & snap & key & enc & p1 & Hready & (_ & _ & _ & (early & He & Hd)) & _ & Hrun)]
    %runServe_effect.
  - exists early, []. rewrite app_nil_r. by auto.
  - destruct (listen_run _ _ _ _ _ _ _ _ Hrun) as ([late Hl] & _). exists early, late.
    rewrite Hl, He, <- app_assoc. split_and!; [done|done|]. right. by exists cfg, snap, key, p1.
Qed.
End serve.

(** ** Runs *)

Module Boot.
Import CliProps.

Definition env (dataDir : string) (k : string) : string :=
  if decide (k = config.EnvDataDir) then dataDir
  else if decide (k = config.EnvUsersFile) then "/etc/users.yml"
  else if decide (k = config.EnvMasterKeyProvider) then "file" else "".

(** A machine with a users file, on which the calls in [bad] fail. *)
Definition machine (bad : nat → bool) : Host (schema := list string) :=
  mk_Host (mk_FS {[ mk_path "/etc" "users.yml" := Codec.users_file [Codec.alice; Codec.bob] ]} {[ "/" := 493; "/etc" := 493 ]} 0
             (λ n, if bad n then Some "permission denied" else None) (λ _, 0%nat) pretty (λ _, Some (λ i, Byte.x0c)))
    (Migrations.Demo.fresh (λ _, None)) [].

Definition proc (bad : nat → bool) : Proc (DB := Table.db) (schema := list string) :=
  mk_Proc (machine bad) false [] [] no_keys None.

Definition listen (addr : string) : result string := Ok ("[::]" +:+ addr).

Definition serve (dataDir : string) (bad : nat → bool) (life : run_state)
    : serve_end * Proc (DB := Table.db) (schema := list string) :=
  runServe (HK := Stack.Demo.hkdf) (D := Wal.driver) Migrations.Demo.log_sql Codec.unmarshal alone
    Live.url Live.page 1 "1.0" "abc" (λ _, "") listen (Ok tt) life (env dataDir) (proc bad).

Definition never (n : nat) : bool := false.
(** The first call, the creation of the data directory, fails. *)
Definition first (n : nat) : bool := bool_decide (n = 0%nat).
End Boot.


Lemma serve_starts_verified_server_witness :
  ∃ srv, pr_server (Boot.serve "/data" Boot.never Graceful.busy).2 = Some srv
    ∧ (Boot.serve "/data" Boot.never Graceful.busy).1 = Serving_
    ∧ ∃ snap key, ∀ a r s, ∃ hs, srv a = Some hs
        ∧ srv_Handler hs r s = server (HK := Stack.Demo.hkdf) Live.url Live.page alone key a snap 1 r s.
Proof.
  assert (Hsome : match pr_server (Boot.serve "/data" Boot.never Graceful.busy).2 with Some _ => true | None => false end = true)
    by (vm_compute; reflexivity).
  destruct (pr_server (Boot.serve "/data" Boot.never Graceful.busy).2) as [srv|] eqn:Hs; [|discriminate Hsome].
  exists srv. split; [reflexivity|]. split; [vm_compute; reflexivity|].
  destruct (serve_starts_verified_server (HK := Stack.Demo.hkdf) (D := Wal.driver) Migrations.Demo.log_sql Codec.unmarshal alone
    Live.url Live.page 1 "1.0" "abc" (λ _, "") Boot.listen (Ok tt) Graceful.busy (Boot.env "/data")
    (Boot.proc Boot.never) Serving_ (Boot.serve "/data" Boot.never Graceful.busy).2 srv)
    as (cfg & snap & key & p1 & bound & _ & _ & _ & _ & Hall).
  - reflexivity.
  - apply run_fst. vm_compute. reflexivity.
  - exact Hs.
  - exists snap, key. intros a r s. destruct (Hall a r s) as (hs & Ha & _ & Hh). exists hs. split; [exact Ha|exact Hh].
Defined.

Lemma startup_hides_paths_witness :
  pr_stderr (Boot.serve "/data" Boot.first Graceful.busy).2
    = [Record LevelError "failed to open sqlite store"
         [("data_dir", "<set>");
          ("err", "sqlite.Open: ensure data dir: mkdir <redacted>: permission denied")]]
  ∧ ∃ early late, pr_stderr (Boot.serve "/data" Boot.first Graceful.busy).2 = early ++ late
      ∧ Forall (discreet (Boot.env "/data")) early.
Proof.
  split; [vm_compute; reflexivity|].
  destruct (startup_hides_paths (HK := Stack.Demo.hkdf) (D := Wal.driver) Migrations.Demo.log_sql Codec.unmarshal alone
    Live.url Live.page 1 "1.0" "abc" (λ _, "") Boot.listen (Ok tt) Graceful.busy (Boot.env "/data")
    (Boot.proc Boot.first) (Boot.serve "/data" Boot.first Graceful.busy).1 (Boot.serve "/data" Boot.first Graceful.busy).2)
    as (early & late & He & Hd & _).
  - apply surjective_pairing.
  - exists early, late. split; [exact He|exact Hd].
Defined.

(** A data directory written with a trailing slash is logged in the clear:
    when the directory cannot be created, the error names the clean path, which
    is not one of the strings that runServe scrubs, so the log shows it. *)
Theorem data_dir_leaked :
  pr_stderr (Boot.serve "/data/" Boot.first Graceful.busy).2
    = [Record LevelError "failed to open sqlite store"
         [("data_dir", "<set>");
          ("err", "sqlite.Open: ensure data dir: mkdir /data: permission denied")]]
  ∧ pr_stderr (Boot.serve "/data" Boot.first Graceful.busy).2
    = [Record LevelError "failed to open sqlite store"
         [("data_dir", "<set>");
          ("err", "sqlite.Open: ensure data dir: mkdir <redacted>: permission denied")]].
Proof. split; vm_compute; reflexivity. Qed.
