(* ===== verification/Admin.v ===== *)
(** `tabby-sync init`, `tabby-sync doctor` (src/internal/cli/usercmd.go), the
    dispatch of cli.Run (cli.go), version.Info and main. *)

From S2P Require Import Prelude GoTime Env Store Sql Sqlite AesGcm Crypto Encrypted Stack.
From S2P Require Import GoLib Net Filepath FS Auth Config Keys Migrations Open.
From S2P Require Import RateLimit Http Server ServerProps Lifecycle Cli CliProps Startup.

(** ** version *)

(** The package variables, set by the linker, and package runtime's. *)
Record build := mk_build {
  bd_Version : string; bd_Commit : string; bd_Date : string;
  bd_GoVersion : string; bd_GOOS : string; bd_GOARCH : string;
}.

Definition Info (b : build) : string :=
  "tabby-sync " +:+ bd_Version b +:+ " (commit " +:+ bd_Commit b +:+ ", built " +:+ bd_Date b
  +:+ ", go " +:+ bd_GoVersion b +:+ ", " +:+ bd_GOOS b +:+ "/" +:+ bd_GOARCH b +:+ ")".

Section admin.
Context {schema : Type} {D : SqlDriver}.
Variable run_sql : string → schema → option schema.
Variable yaml_Marshal : list usersFileEntry → result bytes.
Variable yaml_decode : bytes → result (list userEntry).

Abbreviation Host := (Host (schema := schema)).

Definition with_fs (h : Host) (s : FS) : Host := mk_Host s (ho_db h) (ho_open h).

(** ** init *)

(** The master key of the file provider: what to print, or the error. *)
Definition init_key (p : path) (s : FS) : (string + string) * FS :=
  match Stat p s with
  | (inl e, s1) =>
      if errors_is (os_err e) ErrNotExist then
        match fs_read_rand MasterKeySize s1 with
        | (Err err, s2) => (inl ("error: failed to generate master key: " +:+ error_text err), s2)
        | (Ok key, s2) =>
            match WriteFile p key 384 s2 with
            | (inl e, s3) => (inl ("error: failed to write master key: " +:+ error_text (os_err e)), s3)
            | (inr _, s3) => (inr "master key: generated (BACK THIS UP IMMEDIATELY)", s3)
            end
        end
      else (inr "master key: already exists", s1)
  | (inr _, s1) => (inr "master key: already exists", s1)
  end.

(** The skeleton users file. *)
Definition init_users (usersFile : string) (s : FS) : (string + string) * FS :=
  let p := path_of usersFile in
  let exists_ := inr ("users file: already exists at " +:+ usersFile) in
  match Stat p s with
  | (inl e, s1) =>
      if errors_is (os_err e) ErrNotExist then
        let data := match yaml_Marshal [] with Ok data => data | Err _ => [] end in
        match WriteFile p data 384 s1 with
        | (inl e, s2) => (inl ("error: failed to write users file: " +:+ error_text (os_err e)), s2)
        | (inr _, s2) => (inr ("users file: created at " +:+ usersFile), s2)
        end
      else (exists_, s1)
  | (inr _, s1) => (exists_, s1)
  end.

Definition users_file_of (getenv : string → string) (dataDir : string) : string :=
  if decide (getenv "TABBY_SYNC_USERS_FILE" = "") then Join dataDir "users.yml"
  else getenv "TABBY_SYNC_USERS_FILE".

Definition init_provider (getenv : string → string) : string :=
  if decide (getenv "TABBY_SYNC_MASTER_KEY_PROVIDER" = "") then "file"
  else getenv "TABBY_SYNC_MASTER_KEY_PROVIDER".

Definition runInit (getenv : string → string) (h : Host) : ended * Host :=
  let dataDir := getenv "TABBY_SYNC_DATA_DIR" in
  if decide (dataDir = "") then (usage "error: TABBY_SYNC_DATA_DIR is required", h)
  else
    let usersFile := users_file_of getenv dataDir in
    match MkdirAll dataDir 488 (ho_fs h) with
    | (inl e, s1) => (failure ("failed to create data directory: " +:+ error_text (os_err e)), with_fs h s1)
    | (inr _, s1) =>
        let out1 := ln ("data directory: " +:+ dataDir) in
        let provider := init_provider getenv in
        let '(keyed, s2) :=
          if decide (provider = "file") then init_key (join_path dataDir MasterKeyFilename) s1
          else (inr ("master key: using " +:+ provider +:+ " provider"), s1) in
        match keyed with
        | inl err => (Exit (mk_exit 1 out1 (ln err)), with_fs h s2)
        | inr msg =>
            let out2 := out1 +:+ ln msg in
            let '(users, s3) := init_users usersFile s2 in
            match users with
            | inl err => (Exit (mk_exit 1 out2 (ln err)), with_fs h s3)
            | inr msg =>
                let out3 := out2 +:+ ln msg in
                let dbPath := Join dataDir "tabby-sync.db" in
                match Open run_sql dbPath (with_fs h s3) with
                | (Err err, h4) =>
                    (Exit (mk_exit 1 out3 (ln ("error: failed to initialize database: " +:+ error_text err))), h4)
                | (Ok _, h4) =>
                    (Exit (mk_exit 0 (out3 +:+ ln "database: initialized"
                       +:+ ln (nl +:+ "init complete. You can now add users with: tabby-sync user add <name>")) ""),
                     close_handle dbPath h4)
                end
            end
        end
    end.

(** ** doctor *)

(** A line of the report, and whether it is an issue. *)
Record finding := mk_finding { fd_issue : bool; fd_line : string }.
Definition bad (msg : string) : finding := mk_finding true (ln ("  [FAIL] " +:+ msg)).
Definition good (msg : string) : finding := mk_finding false (ln ("  [OK]   " +:+ msg)).

Definition probe_path (dataDir : string) : path := join_path dataDir ".doctor-probe".

Definition check_data_dir (dataDir : string) (s : FS) : finding * FS :=
  if decide (dataDir = "") then (bad "TABBY_SYNC_DATA_DIR is not set", s)
  else
    match StatDir dataDir s with
    | (inl _, s1) => (bad ("data directory does not exist: " +:+ dataDir), s1)
    | (inr (RegularFile _ _), s1) => (bad ("data directory is not a directory: " +:+ dataDir), s1)
    | (inr Directory, s1) =>
        match WriteFile (probe_path dataDir) (bytes_of_string "ok") 384 s1 with
        | (inl _, s2) => (bad ("data directory is not writable: " +:+ dataDir), s2)
        | (inr _, s2) => (good "data directory exists and is writable", (Remove (probe_path dataDir) s2).2)
        end
    end.

(** [None] is the panic of auth.LoadUsersFile. *)
Definition check_users (usersFile : string) (s : FS) : option finding * FS :=
  if decide (usersFile = "")
  then (Some (bad "TABBY_SYNC_USERS_FILE is not set and TABBY_SYNC_DATA_DIR is empty"), s)
  else
    let '(file, s1) := ReadFile (path_of usersFile) s in
    (match LoadUsersFile yaml_decode file with
     | Panicked _ => None
     | Returned (Err err) => Some (bad ("users file: " +:+ error_text err))
     | Returned (Ok snap) => Some (good ("users file loaded (" +:+ pretty (UserCount snap) +:+ " users)"))
     end, s1).

Definition check_key (getenv : string → string) (provider dataDir : string) (s : FS) : finding * FS :=
  if decide (provider = "") then (bad "TABBY_SYNC_MASTER_KEY_PROVIDER is not set", s)
  else if decide (provider = "file") then
    if decide (dataDir = "") then (bad "cannot check master key file without TABBY_SYNC_DATA_DIR", s)
    else
      match Stat (join_path dataDir MasterKeyFilename) s with
      | (inl _, s1) => (bad "master key file does not exist", s1)
      | (inr (RegularFile size _), s1) =>
          (if negb (size =? Z.of_nat MasterKeySize)
           then bad ("master key file has wrong size (want " +:+ pretty (Z.of_nat MasterKeySize) +:+ " bytes)")
           else good "master key file exists and has correct size", s1)
      | (inr Directory, s1) =>
          (* the size of a directory is a multiple of a block *)
          (bad ("master key file has wrong size (want " +:+ pretty (Z.of_nat MasterKeySize) +:+ " bytes)"), s1)
      end
  else if decide (provider = "env") then
    let envKey := getenv EnvMasterKey in
    (if decide (envKey = "") then bad "TABBY_SYNC_MASTER_KEY is not set (provider=env)"
     else if negb (slen envKey =? Z.of_nat MasterKeySize * 2)
     then bad ("TABBY_SYNC_MASTER_KEY has wrong length (want " +:+ pretty (Z.of_nat MasterKeySize * 2) +:+ " hex chars)")
     else good "master key env var is set with correct length", s)
  else (bad ("unknown TABBY_SYNC_MASTER_KEY_PROVIDER: " +:+ provider +:+ " (want file|env)"), s).

Definition check_db (dataDir : string) (h : Host) : list finding * Host :=
  if decide (dataDir = "") then ([], h)
  else
    let dbPath := Join dataDir "tabby-sync.db" in
    match Open run_sql dbPath h with
    | (Err err, h1) => ([bad ("database cannot be opened: " +:+ scrubPaths (error_text err) [dataDir; dbPath])], h1)
    | (Ok _, h1) => ([good "database opened successfully (schema up to date)"], close_handle dbPath h1)
    end.

Definition issues (fs : list finding) : Z := Z.of_nat (length (filter (λ f, fd_issue f = true) fs)).

Definition report (fs : list finding) : exit :=
  let body := ln "Checking environment..." +:+ foldr (λ f r, fd_line f +:+ r) "" fs +:+ ln "" in
  if issues fs =? 0 then mk_exit 0 (body +:+ ln "All checks passed.") ""
  else mk_exit 1 (body +:+ ln (pretty (issues fs) +:+ " issue(s) found.")) "".

Definition runDoctor (getenv : string → string) (h : Host) : ended * Host :=
  let dataDir := getenv "TABBY_SYNC_DATA_DIR" in
  let usersFile := getenv "TABBY_SYNC_USERS_FILE" in
  let provider := getenv "TABBY_SYNC_MASTER_KEY_PROVIDER" in
  let '(f1, s1) := check_data_dir dataDir (ho_fs h) in
  let usersFile := if bool_decide (usersFile = "") && bool_decide (dataDir ≠ "")
                   then Join dataDir "users.yml" else usersFile in
  match check_users usersFile s1 with
  | (None, s2) => (Crashed "auth: duplicate token_hash in users snapshot", with_fs h s2)
  | (Some f2, s2) =>
      let '(f3, s3) := check_key getenv provider dataDir s2 in
      let '(f4, h4) := check_db dataDir (with_fs h s3) in
      (Exit (report (f1 :: f2 :: f3 :: f4)), h4)
  end.
End admin.

(** ** cli.Run and main *)

Definition usage_text : string :=
"Usage: tabby-sync <command>

Commands:
  serve     Start the tabby-sync HTTP server
  bootstrap Create the first Docker user without printing its token
  init      Initialize data directory, master key, and users file
  user      Manage users (add, rm, rotate)
  doctor    Check environment for common configuration problems
  version   Print version information and exit
  help      Show this message

Environment variables (see docs/):
  TABBY_SYNC_ADDR                 Listen address (default :8080)
  TABBY_SYNC_DATA_DIR             Required: data directory
  TABBY_SYNC_USERS_FILE           Required: users credentials file
  TABBY_SYNC_MASTER_KEY_PROVIDER  Required: one of env|file
  APP_LOG_LEVEL                   error|warn|info|debug (default info)
".

Section run.
Context {DB : Type} {E : SqlEngine DB} {HK : HKDF} {schema : Type} {D : SqlDriver}.
Variable run_sql : string → schema → option schema.
Variable yaml_Unmarshal : bytes → result (list usersFileEntry).
Variable yaml_Marshal : list usersFileEntry → result bytes.
Variable yaml_decode : bytes → result (list userEntry).
Variable EqualFold : string → string → bool.
Variable others : nat → DB → DB.
Variable redirect_url : Req → string.
Variable redirect_page : Req → bytes.
Variable rounds : nat.
Variable bld : build.
Variable os_Getenv : string → string.
Variable net_Listen : string → result string.
Variable close_result : result unit.
Variable life : run_state.
(** What the confirmation of `user rm` reads. *)
Variable answer : option string.

Abbreviation Proc := (Proc (DB := DB) (schema := schema)).

(** How the process ends: a command's exit, or serve's. *)
Inductive run_outcome := Command (c : ended) | Serve (e : serve_end).

(** A command on the file system. *)
Definition on_files (cmd : FS → ended * FS) (p : Proc) : run_outcome * Proc :=
  let '(c, s) := cmd (ho_fs (pr_host p)) in (Command c, set_host p (with_fs (pr_host p) s)).
Definition on_host (cmd : Host → ended * Host) (p : Proc) : run_outcome * Proc :=
  let '(c, h) := cmd (pr_host p) in (Command c, set_host p h).

Definition Run (args : list string) (getenv : option (string → string)) (p : Proc) : run_outcome * Proc :=
  let getenv := default os_Getenv getenv in
  let cmd := default "" (args !! 1%nat) in
  if decide (cmd ∈ [""; "help"; "-h"; "--help"]) then (Command (Exit (mk_exit 0 usage_text "")), p)
  else if decide (cmd = "version") then (Command (Exit (mk_exit 0 (ln (Info bld)) "")), p)
  else if decide (cmd = "serve") then
    let '(e, p') := runServe run_sql yaml_decode others redirect_url redirect_page rounds (bd_Version bld)
                      (bd_Commit bld) os_Getenv net_Listen close_result life getenv p in
    (Serve e, p')
  else if decide (cmd = "bootstrap") then on_files (runBootstrap yaml_Marshal args getenv) p
  else if decide (cmd = "init") then on_host (runInit run_sql yaml_Marshal getenv) p
  else if decide (cmd = "user")
  then on_files (runUser yaml_Unmarshal yaml_Marshal EqualFold args getenv answer) p
  else if decide (cmd = "doctor") then on_host (runDoctor run_sql yaml_decode getenv) p
  else (Command (Exit (mk_exit 2 "" (ln ("unknown command: " +:+ cmd) +:+ usage_text))), p).

(** main: the status the process ends with; an unrecovered panic is status 2,
    and a server that still runs has none. *)
Definition main_status (args : list string) (p : Proc) : option Z * Proc :=
  let '(o, p') := Run args (Some os_Getenv) p in
  (match o with
   | Command (Exit x) => Some (x_code x)
   | Command (Crashed _) | Serve (Panicked_ _) => Some 2
   | Serve (Exited code) => Some code
   | Serve Serving_ => None
   end, p').
End run.
