(* ===== verification/AdminProps.v ===== *)
(** Properties of init, doctor and the dispatch. *)

From S2P Require Import Prelude GoTime Env Store Sql Sqlite AesGcm Crypto Encrypted Stack.
From S2P Require Import GoLib Net Filepath FS Auth AuthProps Config Keys Migrations Open.
From S2P Require Import RateLimit Http Server ServerProps Lifecycle Cli CliProps Startup StartupProps Admin.

(** ** Files that exist are kept *)

(** Every file that exists in [s] is the same in [s']. *)
Definition kept (s s' : FS) : Prop := ∀ q, is_Some (fs_files s !! q) → fs_files s' !! q = fs_files s !! q.

#[global] Instance kept_preorder : PreOrder kept.
Proof.
  split; [by intros s q|]. intros s1 s2 s3 H1 H2 q Hq. rewrite H2, H1; [done..|]. by rewrite H1.
Qed.

Lemma same_kept s s' : same_files s s' → kept s s'.
Proof. intros H q _. by rewrite H. Qed.

(** A write to a path where nothing was keeps what was. *)
Lemma WriteFile_kept p data mode s r s' :
  fs_files s !! p = None → WriteFile p data mode s = (r, s') → kept s s'.
Proof.
  intros Hp [Ho _]%WriteFile_run q Hq. apply Ho. intros ->. rewrite Hp in Hq. by destruct Hq.
Qed.

Section init.
Context {schema : Type} {D : SqlDriver}.
Variable run_sql : string → schema → option schema.
Variable yaml_Marshal : list usersFileEntry → result bytes.

(** A file is there, or the call that looks for it was made to fail, or a
    directory is in its place. *)
Definition present (p : path) (s : FS) : Prop :=
  is_Some (fs_files s !! p) ∨ (∃ n, is_Some (fs_fault s n)) ∨ is_dir (path_string p) s = true.

Lemma Stat_present p s r s' :
  Stat p s = (r, s') → match r with inl e => errors_is (os_err e) ErrNotExist = false | inr _ => True end →
  fs_files s !! p = None → is_Some (fs_fault s (fs_calls s)) ∨ is_dir (path_string p) s = true.
Proof using.
  unfold Stat, syscall. destruct (fs_fault s _) as [msg|]; [by left; eauto|]. simpl. intros H He Hp. right.
  rewrite Hp in H. change (is_dir (path_string p) (next_call s)) with (is_dir (path_string p) s) in H.
  destruct (is_dir _ _); [done|]. by injection H as <- <-.
Qed.

Lemma init_key_run p s r s' :
  init_key p s = (r, s') →
  kept s s' ∧ steady s s'
  ∧ match r with
    | inr _ => fs_files s !! p = None →
        (∃ f, fs_files s' !! p = Some f ∧ length (f_data f) = MasterKeySize ∧ f_mode f = 384)
        ∨ is_Some (fs_fault s (fs_calls s)) ∨ is_dir (path_string p) s = true
    | inl _ => True
    end.
Proof using.
  unfold init_key. destruct (Stat p s) as [x s1] eqn:Hst. pose proof (Stat_present _ _ _ _ Hst) as Hpres.
  pose proof (Stat_steady p s) as Hst1. rewrite Hst in Hst1. cbn [snd] in Hst1.
  apply Stat_run in Hst as [Hs Hst]. destruct x as [e|i].
  2: { intros [= <- <-]. split_and!; [by apply same_kept|done|]. intros Hp. right. by apply Hpres. }
  destruct (errors_is (os_err e) ErrNotExist) eqn:He.
  2: { intros [= <- <-]. split_and!; [by apply same_kept|done|]. intros Hp. right. by apply Hpres. }
  specialize (Hst eq_refl). unfold fs_read_rand. destruct (fs_rand s1 _) as [g|].
  2: { intros [= <- <-]. split_and!; [by apply same_kept|done|done]. }
  set (key := g <$> seq 0 MasterKeySize). set (s2 := next_call s1).
  assert (Hs2 : same_files s s2) by done. assert (Hst2 : steady s s2) by done. clearbody s2.
  pose proof (WriteFile_steady p key 384 s2) as Hst3.
  destruct (WriteFile p key 384 s2) as [rw s3] eqn:Hw. pose proof Hw as Hw'. apply WriteFile_run in Hw as [_ Hw].
  assert (kept s s3).
  { etrans; [by apply same_kept|]. eapply WriteFile_kept; [|exact Hw']. by rewrite Hs2. }
  destruct rw as [e'|[]]; intros [= <- <-]; (split_and!; [done|by etrans|]); [done|].
  intros _. left. rewrite Hw, Hs2, Hst. eexists. split; [done|]. split; [|done].
  change (length key = MasterKeySize). unfold key. by rewrite length_fmap, length_seq.
Qed.

Lemma init_users_run usersFile s r s' :
  init_users yaml_Marshal usersFile s = (r, s') →
  kept s s' ∧ only (path_of usersFile) s s' ∧ steady s s'
  ∧ match r with inr _ => present (path_of usersFile) s' | inl _ => True end.
Proof using.
  unfold init_users. destruct (Stat _ s) as [x s1] eqn:Hst. pose proof (Stat_present _ _ _ _ Hst) as Hpres.
  pose proof (Stat_steady (path_of usersFile) s) as Hst1. rewrite Hst in Hst1. cbn [snd] in Hst1.
  apply Stat_run in Hst as [Hs Hst].
  assert (H : kept s s1 ∧ only (path_of usersFile) s s1) by (split; [by apply same_kept|by apply same_files_only]).
  assert (Hthere : match x with inl e => errors_is (os_err e) ErrNotExist = false | inr _ => True end →
    present (path_of usersFile) s1).
  { intros He. unfold present. rewrite Hs. destruct (fs_files s !! path_of usersFile) eqn:Hp; [by left|]. right.
    destruct Hst1 as [Hd Hf]. rewrite Hf. unfold is_dir. rewrite Hd. destruct (Hpres He eq_refl); eauto. }
  destruct x as [e|i]; [|intros [= <- <-]; destruct H; by split_and!; auto].
  destruct (errors_is (os_err e) ErrNotExist) eqn:He; [|intros [= <- <-]; destruct H; by split_and!; auto].
  specialize (Hst eq_refl). pose proof (WriteFile_steady (path_of usersFile)
    (match yaml_Marshal [] with Ok data => data | Err _ => [] end) 384 s1) as Hst2.
  destruct (WriteFile _ _ 384 s1) as [rw s2] eqn:Hw.
  pose proof (WriteFile_run _ _ _ _ _ _ Hw) as [Ho Hf]. apply WriteFile_kept in Hw; [|by rewrite Hs].
  destruct H as [Hk Hon].
  destruct rw; intros [= <- <-]; (split_and!; [by etrans|by etrans|by etrans|]); [done|].
  left. rewrite Hf. eauto.
Qed.

(** What a run of init does to files and handles. *)
Definition init_effect (getenv : string → string) (h : Host (schema := schema)) (e : ended)
    (h' : Host (schema := schema)) : Prop :=
  let dataDir := getenv "TABBY_SYNC_DATA_DIR" in
  let dbPath := Join dataDir "tabby-sync.db" in
  let keyPath := join_path dataDir MasterKeyFilename in
  let usersPath := path_of (users_file_of getenv dataDir) in
  (∀ q, q ∉ db_files dbPath → is_Some (fs_files (ho_fs h) !! q) → fs_files (ho_fs h') !! q = fs_files (ho_fs h) !! q)
  ∧ ho_open h' = ho_open h
  ∧ match e with
    | Crashed _ => False
    | Exit x =>
        x_code x = 0 →
          is_Some (fs_dirs (ho_fs h') !! Clean dataDir)
          ∧ schema_current (ho_db h')
          ∧ (usersPath ∉ db_files dbPath → present usersPath (ho_fs h'))
          ∧ (init_provider getenv = "file" → keyPath ≠ usersPath → keyPath ∉ db_files dbPath →
             fs_files (ho_fs h) !! keyPath = None →
             (∃ f, fs_files (ho_fs h') !! keyPath = Some f ∧ length (f_data f) = MasterKeySize ∧ f_mode f = 384)
             ∨ is_Some (fs_fault (ho_fs h) (S (fs_calls (ho_fs h))))
             ∨ is_dir (path_string keyPath) (ho_fs h') = true)
    end.

Lemma kept_effect getenv (h : Host (schema := schema)) s code out err :
  code ≠ 0 → kept (ho_fs h) s → init_effect getenv h (Exit (mk_exit code out err)) (with_fs h s).
Proof using. intros Hc Hk. split; [by intros q _ Hq; apply Hk|]. done. Qed.

(** Directories that exist are there after Open and the close. *)
Lemma dirs_stay dbPath (h h1 : Host (schema := schema)) r d :
  Open run_sql dbPath h = (r, h1) → is_Some (fs_dirs (ho_fs h) !! d) →
  is_Some (fs_dirs (ho_fs (close_handle dbPath h1)) !! d).
Proof using.
  intros Ho Hd. pose proof (Open_dirs run_sql dbPath h) as [_ H]. rewrite Ho in H. cbn [snd] in H.
  destruct (closed_dirs dbPath (ho_fs h1)) as [Hc _]. cbn [close_handle ho_fs]. rewrite Hc.
  destruct (H d) as [->|(Hn & _)]; [done|]. rewrite Hn in Hd. by destruct Hd.
Qed.

Lemma faults_stay dbPath (h h1 : Host (schema := schema)) r :
  Open run_sql dbPath h = (r, h1) → fs_fault (ho_fs (close_handle dbPath h1)) = fs_fault (ho_fs h).
Proof using.
  intros Ho. pose proof (Open_dirs run_sql dbPath h) as [H _]. rewrite Ho in H.
  destruct (closed_dirs dbPath (ho_fs h1)) as [_ Hc]. cbn [close_handle ho_fs]. by rewrite Hc.
Qed.

(** The end of a run in which everything before the database succeeded. *)
Lemma opened_effect getenv (h : Host (schema := schema)) s s3 h4 out :
  let dataDir := getenv "TABBY_SYNC_DATA_DIR" in
  let dbPath := Join dataDir "tabby-sync.db" in
  let keyPath := join_path dataDir MasterKeyFilename in
  let usersPath := path_of (users_file_of getenv dataDir) in
  kept (ho_fs h) s3 → is_Some (fs_dirs s3 !! Clean dataDir) → present usersPath s3 →
  same_files (ho_fs h) s → fs_fault s = fs_fault (ho_fs h) → fs_calls s = S (fs_calls (ho_fs h)) →
  (init_provider getenv = "file" → keyPath ≠ usersPath → fs_files s !! keyPath = None →
     (∃ f, fs_files s3 !! keyPath = Some f ∧ length (f_data f) = MasterKeySize ∧ f_mode f = 384)
     ∨ is_Some (fs_fault s (fs_calls s)) ∨ is_dir (path_string keyPath) s3 = true) →
  Open run_sql dbPath (with_fs h s3) = (Ok tt, h4) →
  init_effect getenv h (Exit (mk_exit 0 out "")) (close_handle dbPath h4).
Proof using.
  intros dataDir dbPath keyPath usersPath Hk Hdir Hus Hsame Hff Hfc Hkey Hopen.
  pose proof (dirs_stay _ _ _ _ (Clean dataDir) Hopen Hdir) as Hdir'.
  pose proof (faults_stay _ _ _ _ Hopen) as Hfault.
  assert (His : ∀ d, is_dir d s3 = true → is_dir d (ho_fs (close_handle dbPath h4)) = true).
  { intros d Hd. unfold is_dir in *. apply bool_decide_eq_true in Hd. apply bool_decide_eq_true.
    by eapply dirs_stay. }
  pose proof Hopen as [Hd (Ho & _ & _ & _ & Hcur)]%Open_run.
  assert (Hfiles : ∀ q, q ∉ db_files dbPath → fs_files (ho_fs (close_handle dbPath h4)) !! q = fs_files s3 !! q).
  { intros q Hq. simpl. by rewrite closed_files, Hd. }
  split_and!.
  - intros q Hn Hq. rewrite Hfiles by done. by apply Hk.
  - simpl. by rewrite Ho.
  - intros _. split_and!; [done|done| |].
    + intros Hn. unfold present. rewrite Hfiles, Hfault by done. cbn [with_fs ho_fs].
      destruct Hus as [Hu|[Hu|Hu]]; eauto.
    + intros Hprov Hne Hndb Hnone. rewrite Hfiles by done. rewrite <- Hff, <- Hfc.
      destruct (Hkey Hprov Hne) as [Hf|[Hf|Hf]]; [by rewrite Hsame|..]; eauto.
Qed.

End init.

(** ** doctor *)

Section doctor.
Context {schema : Type} {D : SqlDriver}.
Variable run_sql : string → schema → option schema.
Variable yaml_decode : bytes → result (list userEntry).
Implicit Types h : Host (schema := schema).

Lemma check_data_dir_run dataDir s fd s' :
  check_data_dir dataDir s = (fd, s') →
  only (probe_path dataDir) s s' ∧ (fd_issue fd = false → dataDir ≠ "" ∧ is_Some (fs_dirs s !! Clean dataDir)).
Proof using.
  unfold check_data_dir. case_decide as He; [by intros [= <- <-]|].
  destruct (StatDir dataDir s) as [r s1] eqn:Hst. pose proof Hst as Hst'. apply StatDir_pure in Hst.
  assert (Ho1 : only (probe_path dataDir) s s1) by by apply same_files_only.
  destruct r as [e|[size mode|]]; [by intros [= <- <-]..|].
  assert (Hd : is_Some (fs_dirs s !! Clean dataDir)).
  { revert Hst'. unfold StatDir, syscall. destruct (fs_fault s _); [done|]. simpl. unfold is_dir. case_bool_decide; [done|].
    by destruct (fs_files s !! _). }
  destruct (WriteFile _ _ 384 s1) as [rw s2] eqn:Hw. apply WriteFile_run in Hw as [Ho2 _].
  destruct rw as [e|[]]; [intros [= <- <-]; split; [by etrans|done]|].
  destruct (Remove _ s2) as [rr s3] eqn:Hr. apply Remove_run in Hr as [Ho3 _].
  intros [= <- <-]. split; [|done]. simpl. etrans; [exact Ho1|]. by etrans.
Qed.

Lemma check_users_run usersFile s fd s' :
  check_users yaml_decode usersFile s = (fd, s') →
  same_files s s'
  ∧ (∀ x, fd = Some x → fd_issue x = false →
     ∃ f snap, fs_files s !! path_of usersFile = Some f
       ∧ LoadUsersFile yaml_decode (inr (f_data f)) = Returned (Ok snap)).
Proof using.
  unfold check_users. case_decide; [intros [= <- <-]; split; [done|by intros x [= <-]]|].
  destruct (ReadFile _ s) as [file s1] eqn:Hr. apply ReadFile_run in Hr as [Hs Hr]. intros [= <- <-].
  split; [done|]. intros x. destruct (LoadUsersFile yaml_decode file) as [[snap|err]|msg] eqn:Hu;
    [|by intros [= <-]|done]. intros _ _. destruct file as [e|raw]; [by destruct e|].
  destruct Hr as (f & Hf & <-). eauto.
Qed.

(** What doctor accepts as a key. *)
Definition key_checked (getenv : string → string) (s : FS) : Prop :=
  let dataDir := getenv "TABBY_SYNC_DATA_DIR" in
  let provider := getenv "TABBY_SYNC_MASTER_KEY_PROVIDER" in
  (provider = "file" ∧ ∃ f, fs_files s !! join_path dataDir MasterKeyFilename = Some f
                            ∧ length (f_data f) = MasterKeySize)
  ∨ (provider = "env" ∧ slen (getenv EnvMasterKey) = 2 * Z.of_nat MasterKeySize).

Lemma check_key_run getenv s fd s' :
  check_key getenv (getenv "TABBY_SYNC_MASTER_KEY_PROVIDER") (getenv "TABBY_SYNC_DATA_DIR") s = (fd, s') →
  same_files s s' ∧ (fd_issue fd = false → key_checked getenv s).
Proof using.
  unfold check_key, key_checked. case_decide; [by intros [= <- <-]|]. case_decide as Hf.
  - case_decide; [by intros [= <- <-]|].
    destruct (Stat _ s) as [r s1] eqn:Hst. apply Stat_run in Hst as [Hs Hst].
    destruct r as [e|[size mode|]]; [by intros [= <- <-]| |by intros [= <- <-]].
    destruct (Z.eqb_spec size (Z.of_nat MasterKeySize)) as [->|]; intros [= <- <-]; (split; [done|]); [|done].
    intros _. left. split; [done|]. destruct Hst as (f & Hf' & Hl). exists f. split; [done|]. lia.
  - case_decide as He; [|by intros [= <- <-]]. intros H'. split; [by injection H' as _ <-|].
    injection H' as <- _. case_decide; [done|].
    destruct (Z.eqb_spec (slen (getenv EnvMasterKey)) (Z.of_nat MasterKeySize * 2)); [|done].
    intros _. right. split; [done|]. lia.
Qed.

Lemma check_db_run dataDir h fs h' :
  check_db run_sql dataDir h = (fs, h') →
  db_only (Join dataDir "tabby-sync.db") (ho_fs h) (ho_fs h') ∧ ho_open h' = ho_open h
  ∧ (dataDir ≠ "" → issues fs = 0 → schema_current (ho_db h')).
Proof using.
  unfold check_db. case_decide; [by intros [= <- <-]|].
  destruct (Open run_sql _ h) as [[[]|err] h1] eqn:Ho; apply Open_run in Ho as [Hd Ho]; intros [= <- <-].
  - destruct Ho as (Ho & _ & _ & _ & Hc). split_and!; [|simpl; by rewrite Ho|done].
    etrans; [exact Hd|]. apply closed_files.
  - split_and!; [done|done|]. by intros _ [=].
Qed.

Lemma issues_cons f fs : issues (f :: fs) = (if fd_issue f then 1 else 0) + issues fs.
Proof using.
  unfold issues. rewrite filter_cons. destruct (fd_issue f); [rewrite decide_True by done|rewrite decide_False by done].
  - cbn [length]. lia.
  - done.
Qed.

Lemma issues_nonneg fs : 0 ≤ issues fs.
Proof using. unfold issues. lia. Qed.

(** The users file that doctor reads. *)
Definition doctor_users (getenv : string → string) : string :=
  if bool_decide (getenv "TABBY_SYNC_USERS_FILE" = "") && bool_decide (getenv "TABBY_SYNC_DATA_DIR" ≠ "")
  then Join (getenv "TABBY_SYNC_DATA_DIR") "users.yml" else getenv "TABBY_SYNC_USERS_FILE".

Lemma check_data_dir_steady dataDir s : steady s (check_data_dir dataDir s).2.
Proof using.
  unfold check_data_dir. case_decide; [done|]. pose proof (StatDir_steady dataDir s) as H1.
  destruct (StatDir dataDir s) as [[e|[size mode|]] s1]; [done..|].
  pose proof (WriteFile_steady (probe_path dataDir) (bytes_of_string "ok") 384 s1) as H2.
  destruct (WriteFile _ _ _ s1) as [[e|[]] s2]; simpl in *; [by etrans|].
  etrans; [exact H1|]. etrans; [exact H2|apply Remove_steady].
Qed.

Lemma check_users_steady usersFile s : steady s (check_users yaml_decode usersFile s).2.
Proof using.
  unfold check_users. case_decide; [done|]. pose proof (ReadFile_steady (path_of usersFile) s) as Hst.
  by destruct (ReadFile _ s).
Qed.

Lemma check_key_steady getenv provider dataDir s : steady s (check_key getenv provider dataDir s).2.
Proof using.
  unfold check_key. case_decide; [done|]. case_decide; [case_decide; [done|]|by case_decide].
  pose proof (Stat_steady (join_path dataDir MasterKeyFilename) s) as Hst. by destruct (Stat _ s) as [[|[]] ?].
Qed.

Lemma check_db_dirs dataDir h :
  dataDir ≠ "" →
  made_dirs (ancestors (Dir (Join dataDir "tabby-sync.db"))) 488 (ho_fs h) (ho_fs (check_db run_sql dataDir h).2).
Proof using.
  intros He. unfold check_db. rewrite decide_False by done.
  pose proof (Open_dirs run_sql (Join dataDir "tabby-sync.db") h) as H.
  destruct (Open run_sql _ h) as [[[]|err] h1]; [|done]. eapply made_steady; [exact H|apply closed_dirs].
Qed.

(** C17: When doctor reports no issue, what it reports on is in order: the data
    directory existed when it started, the users file (its probe file aside)
    loads as the server loads it, the key file has the size of a key or the key
    variable the length of one, and the database has the current schema.
    Whatever it reports, doctor changes no file but its probe and the database's
    own, leaves no handle open, and, since opening the database makes the
    directory it is in, creates at most the data directory and parents of it
    that were missing, with mode 0750; without a data directory it creates
    none. *)
Theorem doctor_sound getenv h x h' :
  runDoctor run_sql yaml_decode getenv h = (Exit x, h') →
  let dataDir := getenv "TABBY_SYNC_DATA_DIR" in
  let dbPath := Join dataDir "tabby-sync.db" in
  (∀ q, q ≠ probe_path dataDir → q ∉ db_files dbPath →
        fs_files (ho_fs h') !! q = fs_files (ho_fs h) !! q)
  ∧ (∀ d, fs_dirs (ho_fs h') !! d ≠ fs_dirs (ho_fs h) !! d →
        dataDir ≠ "" ∧ d ∈ ancestors (Dir dbPath)
        ∧ fs_dirs (ho_fs h) !! d = None ∧ fs_dirs (ho_fs h') !! d = Some 488)
  ∧ ho_open h' = ho_open h
  ∧ (x_code x = 0 →
     is_Some (fs_dirs (ho_fs h) !! Clean dataDir) ∧ schema_current (ho_db h')
     ∧ ∃ s1, only (probe_path dataDir) (ho_fs h) s1 ∧ key_checked getenv s1
         ∧ ∃ f snap, fs_files s1 !! path_of (doctor_users getenv) = Some f
             ∧ LoadUsersFile yaml_decode (inr (f_data f)) = Returned (Ok snap)).
Proof using.
  unfold runDoctor. pose proof (check_data_dir_steady (getenv "TABBY_SYNC_DATA_DIR") (ho_fs h)) as K1.
  destruct (check_data_dir _ (ho_fs h)) as [f1 s1] eqn:H1.
  apply check_data_dir_run in H1 as [Ho1 H1]. fold (doctor_users getenv).
  pose proof (check_users_steady (doctor_users getenv) s1) as K2.
  destruct (check_users yaml_decode _ s1) as [[f2|] s2] eqn:H2; [|done].
  apply check_users_run in H2 as [Hs2 H2].
  pose proof (check_key_steady getenv (getenv "TABBY_SYNC_MASTER_KEY_PROVIDER") (getenv "TABBY_SYNC_DATA_DIR") s2) as K3.
  destruct (check_key getenv _ _ s2) as [f3 s3] eqn:H3. apply check_key_run in H3 as [Hs3 H3].
  pose proof (check_db_dirs (getenv "TABBY_SYNC_DATA_DIR") (with_fs h s3)) as K4.
  destruct (check_db run_sql _ (with_fs h s3)) as [f4 h4] eqn:H4.
  assert (Hdirs : ∀ d, fs_dirs s3 !! d = fs_dirs (ho_fs h) !! d).
  { intros d. destruct K1 as [K1 _], K2 as [K2 _], K3 as [K3 _]. simpl in *. by rewrite K3, K2, K1. }
  pose proof H4 as (Hd4 & Hopen & Hcur)%check_db_run.
  intros [= <- <-]. split_and!; [| |done|].
  - intros q Hp Hn. rewrite Hd4 by done. simpl. by rewrite Hs3, Hs2, Ho1.
  - intros d. rewrite <- Hdirs. destruct (decide (getenv "TABBY_SYNC_DATA_DIR" = "")) as [He|He].
    { unfold check_db in H4. rewrite decide_True in H4 by done. by injection H4 as _ <-. }
    destruct (K4 He) as [_ K]. intros Hne. by destruct (K d) as [Hk|(? & ? & ?)].
  - unfold report. destruct (Z.eqb_spec (issues (f1 :: f2 :: f3 :: f4)) 0) as [Hi|]; [|done]. intros _.
    rewrite !issues_cons in Hi. pose proof (issues_nonneg f4).
    destruct (fd_issue f1), (fd_issue f2) eqn:E2, (fd_issue f3); try lia.
    destruct (H1 eq_refl) as [Hne Hdir]. split_and!; [done|apply Hcur; [done|lia]|].
    exists s1. split_and!; [done| |by eapply H2].
    specialize (H3 eq_refl). unfold key_checked in *. by rewrite Hs2 in H3.
Qed.
End doctor.

(** ** Runs *)

Module Ops.
(** The environment of one installation; [users] is TABBY_SYNC_USERS_FILE. *)
Definition env (users provider key : string) (k : string) : string :=
  if decide (k = config.EnvDataDir) then "/data"
  else if decide (k = config.EnvUsersFile) then users
  else if decide (k = config.EnvMasterKeyProvider) then provider
  else if decide (k = EnvMasterKey) then key else "".

(** The call in [bad] fails, after 5 bytes if it is a write. *)
Definition machine (bad : nat → bool) : Host (schema := list string) :=
  mk_Host (mk_FS ∅ {[ "/" := 493 ]} 0 (λ n, if bad n then Some "no space left on device" else None) (λ _, 5%nat) pretty
             (λ _, Some (λ i, Byte.x0c)))
    (Migrations.Demo.fresh (λ _, None)) [].

Definition init (e : string → string) (h : Host (schema := list string)) : ended * Host :=
  runInit (D := Wal.driver) Migrations.Demo.log_sql Codec.marshal e h.
Definition doctor (e : string → string) (h : Host (schema := list string)) : ended * Host :=
  runDoctor (D := Wal.driver) Migrations.Demo.log_sql Codec.unmarshal e h.
Definition serve (e : string → string) (h : Host (schema := list string))
    : serve_end * Proc (DB := Table.db) (schema := list string) :=
  runServe (HK := Stack.Demo.hkdf) (D := Wal.driver) Migrations.Demo.log_sql Codec.unmarshal alone
    Live.url Live.page 1 "1.0" "abc" e Boot.listen (Ok tt) Graceful.returned e
    (mk_Proc h false [] [] no_keys None).

Definition code (e : ended) : option Z := match e with Exit x => Some (x_code x) | Crashed _ => None end.

(** A machine on which everything is set up with the file provider. *)
Definition file_env : string → string := env "/data/users.yml" "file" "".
Definition ready : Host := (init file_env (machine (λ _, false))).2.

(** The same with a key variable of 64 letters that are not digits. *)
Definition zs : string := string_of_bytes (replicate 64 (chr "z")).

(** The write of the key, the fifth call of init, fails. *)
Definition torn : Host := (init file_env (machine (λ n, bool_decide (n = 4%nat)))).2.
Definition key_path : path := mk_path "/data" "master.key".
End Ops.

(** init, then doctor, then serve: what init sets up, doctor accepts and serve
    runs with. *)
Example init_doctor_serve :
  Ops.code (Ops.init Ops.file_env (Ops.machine (λ _, false))).1 = Some 0
  ∧ Ops.code (Ops.doctor Ops.file_env Ops.ready).1 = Some 0
  ∧ (Ops.serve Ops.file_env Ops.ready).1 = Exited 0.
Proof. split_and!; vm_compute; reflexivity. Qed.

(** doctor passes installations that serve refuses: with the environment
    provider it checks the length of the key variable only, and a users file
    that is not configured is looked up in the data directory; serve decodes
    the variable and requires the setting. *)
Theorem doctor_blind_spots :
  Ops.code (Ops.doctor (Ops.env "/data/users.yml" "env" Ops.zs) Ops.ready).1 = Some 0
  ∧ (Ops.serve (Ops.env "/data/users.yml" "env" Ops.zs) Ops.ready).1 = Exited 1
  ∧ Ops.code (Ops.doctor (Ops.env "" "file" "") Ops.ready).1 = Some 0
  ∧ (Ops.serve (Ops.env "" "file" "") Ops.ready).1 = Exited 2.
Proof. split_and!; vm_compute; reflexivity. Qed.

(** init does not write the key atomically: when the write fails half way it
    leaves a short key file behind, the next init takes that for a key and
    reports success, and serve refuses it. *)
Theorem torn_key_accepted :
  Ops.code (Ops.init Ops.file_env (Ops.machine (λ n, bool_decide (n = 4%nat)))).1 = Some 1
  ∧ fs_files (ho_fs Ops.torn) !! Ops.key_path = Some (mk_file (replicate 5 Byte.x0c) 384)
  ∧ Ops.code (Ops.init Ops.file_env Ops.torn).1 = Some 0
  ∧ fs_files (ho_fs (Ops.init Ops.file_env Ops.torn).2) !! Ops.key_path
    = Some (mk_file (replicate 5 Byte.x0c) 384)
  ∧ (Ops.serve Ops.file_env (Ops.init Ops.file_env Ops.torn).2).1 = Exited 1.
Proof. split_and!; vm_compute; reflexivity. Qed.

Definition init_exit : exit :=
  match (Ops.init Ops.file_env (Ops.machine (λ _, false))).1 with Exit x => x | Crashed _ => mk_exit 1 "" "" end.


Definition doctor_exit : exit :=
  match (Ops.doctor Ops.file_env Ops.ready).1 with Exit x => x | Crashed _ => mk_exit 1 "" "" end.

Lemma doctor_sound_witness :
  x_code doctor_exit = 0 ∧ schema_current (ho_db (Ops.doctor Ops.file_env Ops.ready).2)
  ∧ ∃ s1, key_checked Ops.file_env s1.
Proof.
  assert (Hc : x_code doctor_exit = 0) by (vm_compute; reflexivity). split; [exact Hc|].
  destruct (doctor_sound (D := Wal.driver) Migrations.Demo.log_sql Codec.unmarshal Ops.file_env Ops.ready
    doctor_exit (Ops.doctor Ops.file_env Ops.ready).2) as (_ & _ & _ & H).
  - apply run_fst. vm_compute. reflexivity.
  - destruct (H Hc) as (_ & Hs & s1 & _ & Hk & _). split; [exact Hs|]. exists s1. exact Hk.
Defined.

(** ** Dispatch *)

Section run.
Context {DB : Type} {E : SqlEngine DB} {HK : HKDF} {schema : Type} {D : SqlDriver}.

(** Help, version and unknown commands only print: they leave the machine
    alone and end with 0, 0 and 2. *)
Theorem printing_commands run_sql yU yM yd EqualFold others url page rounds bld os_Getenv net close life answer
    args getenv (p : Proc (DB := DB) (schema := schema)) :
  default "" (args !! 1%nat) ∉ ["serve"; "bootstrap"; "init"; "user"; "doctor"] →
  ∃ x, Run run_sql yU yM yd EqualFold others url page rounds bld os_Getenv net close life answer args getenv p
       = (Command (Exit x), p)
    ∧ x_code x = (if decide (default "" (args !! 1%nat) ∈ [""; "help"; "-h"; "--help"; "version"]) then 0 else 2).
Proof.
  intros Hcmd. unfold Run. set (cmd := default "" (args !! 1%nat)) in *. clearbody cmd.
  destruct (decide (cmd ∈ [""; "help"; "-h"; "--help"])) as [Hh|Hh].
  { eexists. split; [done|]. rewrite decide_True; [done|]. set_solver. }
  destruct (decide (cmd = "version")) as [->|Hv]; [eexists; split; [done|]; done|].
  repeat (rewrite decide_False by set_solver).
  by eexists.
Qed.
End run.
